(** * kivi: invalidation graph and component lifecycle

    A shallow embedding of [src/invalidator.js]: the
    [kivi.InvalidatorSubscription], [kivi.Invalidator], [kivi.CDescriptor]
    and [kivi.Component] objects, with the JavaScript heap made explicit.

    Objects are heap cells addressed by references; the two-shape
    subscription fields ([null], one subscription, or an array that is
    mutated in place) keep their shape, and arrays live in the heap so that
    a local variable holding an array keeps observing the writes made
    through the field that also holds it. *)

From Stdlib Require Import ZArith String List Lia Bool.
From stdpp Require Import base option list gmap strings.

Local Open Scope Z_scope.

(** ** JavaScript 32-bit bitwise operators

    [&], [|] and [~] convert their operands with ToInt32 and produce an
    int32. *)

Definition to_int32 (z : Z) : Z :=
  let u := z mod 2 ^ 32 in
  if u <? 2 ^ 31 then u else u - 2 ^ 32.

Definition js_and (a b : Z) : Z := to_int32 (Z.land (to_int32 a) (to_int32 b)).
Definition js_or (a b : Z) : Z := to_int32 (Z.lor (to_int32 a) (to_int32 b)).
Definition js_not (a : Z) : Z := to_int32 (Z.lnot (to_int32 a)).

(** ** Flag enumerations *)

Module InvalidatorSubscriptionFlags.
Definition COMPONENT : Z := 0x0001.
Definition TRANSIENT : Z := 0x0002.
End InvalidatorSubscriptionFlags.

Module CDescriptorFlags.
Definition SVG : Z := 0x0001.
End CDescriptorFlags.

(** [kivi.ComponentFlags] is required by the file but declared in a sibling
    module, so its numeric values are a parameter of the development. *)
Class ComponentFlags := {
  DISPOSED : Z;
  ATTACHED : Z;
  MOUNTING : Z;
  DIRTY : Z;
  UPDATE_EACH_FRAME : Z;
  IN_UPDATE_QUEUE : Z;
  SHOULD_UPDATE_FLAGS : Z
}.

(** A flag is one bit of a non-negative int32. *)
Definition single_bit (m : Z) : Prop :=
  0 <= Z.log2 m < 31 /\ m = 2 ^ Z.log2 m.

(** What the proofs need of the enumeration: the lifecycle flags are single,
    pairwise distinct bits.  [SHOULD_UPDATE_FLAGS] stays an arbitrary mask. *)
Class ComponentFlagsOk (CF : ComponentFlags) : Prop := {
  DISPOSED_bit : single_bit DISPOSED;
  ATTACHED_bit : single_bit ATTACHED;
  MOUNTING_bit : single_bit MOUNTING;
  DIRTY_bit : single_bit DIRTY;
  UPDATE_EACH_FRAME_bit : single_bit UPDATE_EACH_FRAME;
  IN_UPDATE_QUEUE_bit : single_bit IN_UPDATE_QUEUE;
  flags_distinct :
    NoDup [DISPOSED; ATTACHED; MOUNTING; DIRTY;
           UPDATE_EACH_FRAME; IN_UPDATE_QUEUE]
}.

(** ** Heap objects *)

Definition sub_id := nat.   (* reference to an InvalidatorSubscription *)
Definition inv_id := nat.   (* reference to an Invalidator *)
Definition comp_id := nat.  (* reference to a Component *)
Definition arr_id := nat.   (* reference to an Array of subscriptions *)
Definition vnode_id := nat. (* reference to a node of the renderer *)
Definition fn_id := nat.    (* name of a function supplied by the application *)

(** A subscription field: [null], a single subscription
    ([x.constructor === kivi.InvalidatorSubscription]) or an array. *)
Inductive slot :=
| SNull
| SOne (s : sub_id)
| SArr (a : arr_id).

#[export] Instance slot_eq_dec : EqDecision slot.
Proof. solve_decision. Defined.

(** What a plain [function()] subscriber does with the kernel when it is
    called: a sequence of [cancel()] calls on subscriptions.  A function
    that subscribes again, or calls another operation of the kernel, has
    no counterpart here; what is proved of a wave takes what it needs of
    its handlers as a hypothesis on their runs. *)
Inductive action :=
| ActCancel (s : sub_id).   (* s.cancel() *)

Inductive subscriber :=
| Comp (c : comp_id)
| Fn (f : fn_id) (body : list action).

Record InvalidatorSubscription := mkSub {
  s_flags : Z;
  s_invalidator : inv_id;
  s_subscriber : subscriber;
  s_isCanceled : bool   (* [_isCanceled]; only read and written under kivi.DEBUG *)
}.

Record Invalidator := mkInv {
  i_mtime : Z;
  i_subscriptions : slot;
  i_transientSubscriptions : slot
}.

(** The descriptor's hooks are [null] or a function of the application. *)
Record CDescriptor := mkDesc {
  d_flags : Z;
  d_init : option fn_id;
  d_setData : option fn_id;
  d_setChildren : option fn_id;
  d_update : option fn_id;
  d_invalidated : option fn_id;
  d_disposed : option fn_id
}.

(** [data], [state], [children] and [element] are payloads that the
    operations below never read; they are left out of the cell. *)
Record Component := mkComp {
  c_flags : Z;
  c_mtime : Z;
  c_descriptor : CDescriptor;
  c_parent : option comp_id;
  c_depth : Z;
  c_root : option vnode_id;
  c_subscriptions : slot;
  c_transientSubscriptions : slot
}.

(** Calls that leave the kernel, in program order.  The hooks of a
    descriptor and the renderer are code of the application: a call to one
    is recorded and leaves the heap of the kernel as it is. *)
Inductive event :=
| EvNotify (s : sub_id)              (* s.invalidate() of a subscription *)
| EvCall (f : fn_id)                 (* a plain subscriber is called *)
| EvHook (f : fn_id) (c : comp_id)   (* a descriptor hook is called on c *)
| EvRootDispose (r : vnode_id).      (* root.dispose() of the renderer *)

(** Modelled from the spec: [kivi.scheduler.instance] is not part of the
    file.  The spec gives it a logical [clock] that the kernel only reads,
    a [nextFrame()] queue on which [updateComponent(c)] registers [c], and
    [startUpdateComponentEachFrame(c)], which registers [c] in the
    recurring set.  Both registrations are recorded in call order. *)
Record State := mkState {
  clock : Z;
  nextFrameQueue : list comp_id;
  eachFrameSet : list comp_id;
  subs : gmap sub_id InvalidatorSubscription;
  invalidators : gmap inv_id Invalidator;
  components : gmap comp_id Component;
  arrays : gmap arr_id (list sub_id);
  trace : list event
}.

(** ** Outcomes: a call returns, or throws with the heap as it is then *)

Inductive exn :=
| ThrowStr (msg : string)  (* [throw '...'] of the source *)
| TypeError                (* property access on [null], call of [null] *)
| Dangling                 (* a reference without a cell: no JavaScript heap has one *)
| OutOfFuel.               (* a loop outran its bound: shown impossible below *)

Inductive outcome (A : Type) :=
| Done (a : A) (st : State)
| Thrown (e : exn) (st : State).
Arguments Done {A} a st.
Arguments Thrown {A} e st.

Definition M (A : Type) : Type := State -> outcome A.

Definition ret {A} (a : A) : M A := fun st => Done a st.
Definition throw {A} (e : exn) : M A := fun st => Thrown e st.
Definition bind {A B} (m : M A) (k : A -> M B) : M B :=
  fun st => match m st with
            | Done a st' => k a st'
            | Thrown e st' => Thrown e st'
            end.

Declare Scope kernel_scope.
Notation "x ← y ; z" := (bind y (fun x => z))
  (at level 20, y at level 100, z at level 200, only parsing) : kernel_scope.
Notation "y ;; z" := (bind y (fun _ => z))
  (at level 100, z at level 200, only parsing, right associativity)
  : kernel_scope.
Local Open Scope kernel_scope.

Definition get : M State := fun st => Done st st.
Definition modify (f : State -> State) : M unit := fun st => Done tt (f st).
Definition when (b : bool) (m : M unit) : M unit := if b then m else ret tt.

(** The final heap of a call, whether it returned or threw. *)
Definition final {A} (o : outcome A) : State :=
  match o with Done _ st => st | Thrown _ st => st end.

(** *** Heap access *)

Definition set_subs f st :=
  mkState (clock st) (nextFrameQueue st) (eachFrameSet st) (f (subs st))
          (invalidators st) (components st) (arrays st) (trace st).
Definition set_invalidators f st :=
  mkState (clock st) (nextFrameQueue st) (eachFrameSet st) (subs st)
          (f (invalidators st)) (components st) (arrays st) (trace st).
Definition set_components f st :=
  mkState (clock st) (nextFrameQueue st) (eachFrameSet st) (subs st)
          (invalidators st) (f (components st)) (arrays st) (trace st).
Definition set_arrays f st :=
  mkState (clock st) (nextFrameQueue st) (eachFrameSet st) (subs st)
          (invalidators st) (components st) (f (arrays st)) (trace st).
Definition set_trace f st :=
  mkState (clock st) (nextFrameQueue st) (eachFrameSet st) (subs st)
          (invalidators st) (components st) (arrays st) (f (trace st)).
Definition set_nextFrameQueue f st :=
  mkState (clock st) (f (nextFrameQueue st)) (eachFrameSet st) (subs st)
          (invalidators st) (components st) (arrays st) (trace st).
Definition set_eachFrameSet f st :=
  mkState (clock st) (nextFrameQueue st) (f (eachFrameSet st)) (subs st)
          (invalidators st) (components st) (arrays st) (trace st).

Definition deref {A} (o : option A) : M A :=
  match o with Some a => ret a | None => throw Dangling end.

Definition readSub (s : sub_id) : M InvalidatorSubscription :=
  st ← get; deref (subs st !! s).
Definition readInv (i : inv_id) : M Invalidator :=
  st ← get; deref (invalidators st !! i).
Definition readComp (c : comp_id) : M Component :=
  st ← get; deref (components st !! c).
Definition readArr (a : arr_id) : M (list sub_id) :=
  st ← get; deref (arrays st !! a).

Definition writeSub (s : sub_id) (x : InvalidatorSubscription) : M unit :=
  modify (set_subs <[s := x]>).
Definition writeInv (i : inv_id) (x : Invalidator) : M unit :=
  modify (set_invalidators <[i := x]>).
Definition writeComp (c : comp_id) (x : Component) : M unit :=
  modify (set_components <[c := x]>).
Definition writeArr (a : arr_id) (l : list sub_id) : M unit :=
  modify (set_arrays <[a := l]>).

Definition emit (e : event) : M unit := modify (set_trace (fun t => t ++ [e])).

(** [[x, y]]: a new array. *)
Definition newArr (l : list sub_id) : M arr_id :=
  st ← get;
  let a := fresh (dom (arrays st)) in
  writeArr a l;; ret a.

(** ** The thrown strings of the source *)

Definition E_CANCEL_TWICE : string :=
  "Failed to cancel InvalidatorSubscription: subscription cannot be canceled twice".
Definition E_INVALIDATOR_REMOVE : string :=
  "Failed to remove subscription from Invalidator: cannot find appropriate subscription".
Definition E_COMPONENT_REMOVE : string :=
  "Failed to remove subscription from Component: cannot find appropriate subscription".
Definition E_DISPOSE_TWICE : string :=
  "Failed to dispose Component: component is already disposed".

(** ** Arrays of subscriptions *)

(** [l.indexOf(s)]: the first position holding the reference [s];
    [None] stands for [-1]. *)
Fixpoint indexOf (s : sub_id) (l : list sub_id) : option nat :=
  match l with
  | [] => None
  | x :: l' => if decide (x = s) then Some 0%nat else S <$> indexOf s l'
  end.

(** [l[i] = l.pop()].  The target [l[i]] is fixed first, then [pop()]
    shortens the array, then the popped value is stored: at position [i]
    when that position survived the pop, and otherwise one past the new end,
    which lengthens the array again.  With [i = -1] the store goes to the
    property ["-1"], which is no element of the array. *)
Definition swap_pop (l : list sub_id) (i : option nat) : list sub_id :=
  let l' := removelast l in
  match i, last l with
  | Some i, Some x =>
      if decide (i < length l')%nat then <[i := x]> l' else l' ++ [x]
  | _, _ => l'
  end.

(** Field updates of the cells. *)
Definition inv_with_mtime (v : Z) (x : Invalidator) :=
  mkInv v (i_subscriptions x) (i_transientSubscriptions x).
Definition inv_with_subscriptions (v : slot) (x : Invalidator) :=
  mkInv (i_mtime x) v (i_transientSubscriptions x).
Definition inv_with_transientSubscriptions (v : slot) (x : Invalidator) :=
  mkInv (i_mtime x) (i_subscriptions x) v.

Definition comp_with_flags (v : Z) (x : Component) :=
  mkComp v (c_mtime x) (c_descriptor x) (c_parent x) (c_depth x) (c_root x)
         (c_subscriptions x) (c_transientSubscriptions x).
Definition comp_with_mtime (v : Z) (x : Component) :=
  mkComp (c_flags x) v (c_descriptor x) (c_parent x) (c_depth x) (c_root x)
         (c_subscriptions x) (c_transientSubscriptions x).
Definition comp_with_subscriptions (v : slot) (x : Component) :=
  mkComp (c_flags x) (c_mtime x) (c_descriptor x) (c_parent x) (c_depth x)
         (c_root x) v (c_transientSubscriptions x).
Definition comp_with_transientSubscriptions (v : slot) (x : Component) :=
  mkComp (c_flags x) (c_mtime x) (c_descriptor x) (c_parent x) (c_depth x)
         (c_root x) (c_subscriptions x) v.
Definition sub_with_isCanceled (v : bool) (x : InvalidatorSubscription) :=
  mkSub (s_flags x) (s_invalidator x) (s_subscriber x) v.

Definition updInv (i : inv_id) (f : Invalidator -> Invalidator) : M unit :=
  x ← readInv i; writeInv i (f x).
Definition updComp (c : comp_id) (f : Component -> Component) : M unit :=
  x ← readComp c; writeComp c (f x).
Definition updSub (s : sub_id)
    (f : InvalidatorSubscription -> InvalidatorSubscription) : M unit :=
  x ← readSub s; writeSub s (f x).

(** Which of the two fields a subscription belongs to. *)
Definition isTransient (sub : InvalidatorSubscription) : bool :=
  negb (js_and (s_flags sub) InvalidatorSubscriptionFlags.TRANSIENT =? 0).
Definition isComponent (sub : InvalidatorSubscription) : bool :=
  negb (js_and (s_flags sub) InvalidatorSubscriptionFlags.COMPONENT =? 0).

(** [for (i = 0; i < subscriptions.length; i++) { body(subscriptions[i]) }]
    on the array itself: the length and the element are read from the heap
    at every turn, so the loop sees what [body] did to the array.  [fuel]
    bounds the number of turns; the callers pass the length at entry, which
    the loop cannot outrun because nothing that runs inside it lengthens an
    array. *)
Fixpoint forEachLive (body : sub_id -> M unit) (fuel : nat) (a : arr_id)
    (i : nat) : M unit :=
  l ← readArr a;
  if (i <? length l)%nat then
    match fuel with
    | O => throw OutOfFuel
    | S fuel' =>
        s ← deref (l !! i);
        body s;;
        forEachLive body fuel' a (S i)
    end
  else ret tt.

Section Kernel.

(** [kivi.DEBUG], a constant of the build. *)
Variable DEBUG : bool.
Context {CF : ComponentFlags}.

(** *** Insertion and removal in a two-shape field

    The source repeats the same code for each field; [addTo] and
    [removeFrom] are that code, given the field's value.  They return the
    value assigned to the field, if the code assigns one. *)

Definition addTo (subscriptions : slot) (subscription : sub_id)
  : M (option slot) :=
  match subscriptions with
  | SNull => ret (Some (SOne subscription))
  | SOne x => a ← newArr [x; subscription]; ret (Some (SArr a))
  | SArr a =>
      l ← readArr a;
      writeArr a (l ++ [subscription]);;   (* push *)
      ret None
  end.

Definition removeFrom (msg : string) (subscriptions : slot)
    (subscription : sub_id) : M (option slot) :=
  match subscriptions with
  | SNull => throw TypeError   (* [subscriptions.constructor] of [null] *)
  | SOne x =>
      when (DEBUG && negb (bool_decide (x = subscription)))
           (throw (ThrowStr msg));;
      ret (Some SNull)
  | SArr a =>
      l ← readArr a;
      if bool_decide (length l = 1%nat) then
        when (DEBUG && negb (bool_decide (head l = Some subscription)))
             (throw (ThrowStr msg));;
        ret (Some SNull)
      else
        let i := indexOf subscription l in
        when (DEBUG && bool_decide (i = None)) (throw (ThrowStr msg));;
        writeArr a (swap_pop l i);;
        ret None
  end.

(** *** kivi.Invalidator *)

(** [new kivi.Invalidator()] *)
Definition Invalidator_new : M inv_id :=
  st ← get;
  let i := fresh (dom (invalidators st)) in
  writeInv i (mkInv (clock st) SNull SNull);;
  ret i.

Definition slot_nonempty (sl : slot) : M bool :=
  match sl with
  | SNull => ret false
  | SOne _ => ret true
  | SArr a => l ← readArr a; ret (0 <? length l)%nat
  end.

Definition Invalidator_hasSubscriptions (this : inv_id) : M bool :=
  inv ← readInv this;
  d ← slot_nonempty (i_subscriptions inv);
  if d then ret true else slot_nonempty (i_transientSubscriptions inv).

Definition Invalidator_addSubscription (this : inv_id)
    (subscription : sub_id) : M unit :=
  sub ← readSub subscription;
  inv ← readInv this;
  if negb (isTransient sub) then
    r ← addTo (i_subscriptions inv) subscription;
    match r with
    | Some v => updInv this (inv_with_subscriptions v)
    | None => ret tt
    end
  else
    r ← addTo (i_transientSubscriptions inv) subscription;
    match r with
    | Some v => updInv this (inv_with_transientSubscriptions v)
    | None => ret tt
    end.

Definition Invalidator_removeSubscription (this : inv_id)
    (subscription : sub_id) : M unit :=
  sub ← readSub subscription;
  inv ← readInv this;
  if negb (isTransient sub) then
    r ← removeFrom E_INVALIDATOR_REMOVE (i_subscriptions inv) subscription;
    match r with
    | Some v => updInv this (inv_with_subscriptions v)
    | None => ret tt
    end
  else
    r ← removeFrom E_INVALIDATOR_REMOVE (i_transientSubscriptions inv)
                   subscription;
    match r with
    | Some v => updInv this (inv_with_transientSubscriptions v)
    | None => ret tt
    end.

(** *** kivi.Component: subscription bookkeeping *)

Definition Component_removeSubscription (this : comp_id)
    (subscription : sub_id) : M unit :=
  sub ← readSub subscription;
  comp ← readComp this;
  if negb (isTransient sub) then
    r ← removeFrom E_COMPONENT_REMOVE (c_subscriptions comp) subscription;
    match r with
    | Some v => updComp this (comp_with_subscriptions v)
    | None => ret tt
    end
  else
    r ← removeFrom E_COMPONENT_REMOVE (c_transientSubscriptions comp)
                   subscription;
    match r with
    | Some v => updComp this (comp_with_transientSubscriptions v)
    | None => ret tt
    end.

Definition cancelOne (s : sub_id) : M unit :=
  sub ← readSub s;
  Invalidator_removeSubscription (s_invalidator sub) s.

Definition cancelAll (subscriptions : slot) : M unit :=
  match subscriptions with
  | SNull => ret tt
  | SOne s => cancelOne s
  | SArr a => l ← readArr a; forEachLive cancelOne (length l) a 0
  end.

Definition Component_cancelSubscriptions (this : comp_id) : M unit :=
  comp ← readComp this;
  cancelAll (c_subscriptions comp);;
  updComp this (comp_with_subscriptions SNull).

Definition Component_cancelTransientSubscriptions (this : comp_id)
  : M unit :=
  comp ← readComp this;
  cancelAll (c_transientSubscriptions comp);;
  updComp this (comp_with_transientSubscriptions SNull).

(** *** kivi.InvalidatorSubscription *)

(** [new kivi.InvalidatorSubscription(flags, invalidator, subscriber)] *)
Definition InvalidatorSubscription_new (flags : Z) (invalidator : inv_id)
    (subscriber : subscriber) : M sub_id :=
  st ← get;
  let s := fresh (dom (subs st)) in
  writeSub s (mkSub flags invalidator subscriber false);;
  ret s.

Definition InvalidatorSubscription_cancel (this : sub_id) : M unit :=
  sub ← readSub this;
  when DEBUG
    (if s_isCanceled sub then throw (ThrowStr E_CANCEL_TWICE)
     else updSub this (sub_with_isCanceled true));;
  Invalidator_removeSubscription (s_invalidator sub) this;;
  if isComponent sub then
    match s_subscriber sub with
    | Comp c => Component_removeSubscription c this
    | Fn _ _ => throw TypeError   (* a function has no removeSubscription *)
    end
  else ret tt.

(** *** kivi.Component: lifecycle *)

Definition Component_invalidate (this : comp_id) : M unit :=
  comp ← readComp this;
  if js_and (c_flags comp) (js_or DIRTY DISPOSED) =? 0 then
    updComp this (fun x => comp_with_flags (js_or (c_flags x) DIRTY) x);;
    Component_cancelTransientSubscriptions this;;
    modify (set_nextFrameQueue (fun q => q ++ [this]))
  else ret tt.

Definition Component_update (this : comp_id) : M unit :=
  comp ← readComp this;
  if js_and (c_flags comp) SHOULD_UPDATE_FLAGS =? SHOULD_UPDATE_FLAGS then
    match d_update (c_descriptor comp) with
    | Some f => emit (EvHook f this)
    | None => throw TypeError   (* [null] is not a function *)
    end;;
    st ← get;
    updComp this (comp_with_mtime (clock st));;
    updComp this (fun x => comp_with_flags (js_and (c_flags x) (js_not DIRTY)) x)
  else ret tt.

Definition Component_startUpdateEachFrame (this : comp_id) : M unit :=
  updComp this
    (fun x => comp_with_flags (js_or (c_flags x) UPDATE_EACH_FRAME) x);;
  comp ← readComp this;
  if js_and (c_flags comp) IN_UPDATE_QUEUE =? 0 then
    updComp this
      (fun x => comp_with_flags (js_or (c_flags x) IN_UPDATE_QUEUE) x);;
    modify (set_eachFrameSet (fun q => q ++ [this]))
  else ret tt.

Definition Component_stopUpdateEachFrame (this : comp_id) : M unit :=
  updComp this
    (fun x => comp_with_flags
                (js_and (c_flags x) (js_not UPDATE_EACH_FRAME)) x).

Definition Component_dispose (this : comp_id) : M unit :=
  comp ← readComp this;
  when (DEBUG && negb (js_and (c_flags comp) DISPOSED =? 0))
       (throw (ThrowStr E_DISPOSE_TWICE));;
  updComp this (fun x => comp_with_flags (js_or (c_flags x) DISPOSED) x);;
  updComp this
    (fun x => comp_with_flags
                (js_and (c_flags x)
                        (js_not (js_or ATTACHED UPDATE_EACH_FRAME))) x);;
  Component_cancelSubscriptions this;;
  Component_cancelTransientSubscriptions this;;
  comp' ← readComp this;
  match c_root comp' with
  | Some r => emit (EvRootDispose r)
  | None => ret tt
  end;;
  match d_disposed (c_descriptor comp') with
  | Some f => emit (EvHook f this)
  | None => ret tt
  end.

Definition Component_subscribe (this : comp_id) (invalidator : inv_id)
  : M unit :=
  s ← InvalidatorSubscription_new InvalidatorSubscriptionFlags.COMPONENT
        invalidator (Comp this);
  Invalidator_addSubscription invalidator s;;
  comp ← readComp this;
  r ← addTo (c_subscriptions comp) s;
  match r with
  | Some v => updComp this (comp_with_subscriptions v)
  | None => ret tt
  end.

Definition Component_transientSubscribe (this : comp_id)
    (invalidator : inv_id) : M unit :=
  s ← InvalidatorSubscription_new
        (js_or InvalidatorSubscriptionFlags.COMPONENT
               InvalidatorSubscriptionFlags.TRANSIENT)
        invalidator (Comp this);
  Invalidator_addSubscription invalidator s;;
  comp ← readComp this;
  r ← addTo (c_transientSubscriptions comp) s;
  match r with
  | Some v => updComp this (comp_with_transientSubscriptions v)
  | None => ret tt
  end.

(** [new kivi.Component(flags, descriptor, parent, ...)] *)
Definition Component_new (flags : Z) (descriptor : CDescriptor)
    (parent : option comp_id) : M comp_id :=
  depth ← match parent with
          | None => ret 0
          | Some p => x ← readComp p; ret (c_depth x + 1)
          end;
  st ← get;
  let c := fresh (dom (components st)) in
  writeComp c (mkComp flags 0 descriptor parent depth None SNull SNull);;
  ret c.

Definition runInit (descriptor : CDescriptor) (c : comp_id) : M unit :=
  match d_init descriptor with
  | Some f => emit (EvHook f c)
  | None => ret tt
  end.

Definition Component_create (descriptor : CDescriptor)
    (context : option comp_id) : M comp_id :=
  c ← Component_new SHOULD_UPDATE_FLAGS descriptor context;
  runInit descriptor c;;
  ret c.

Definition Component_mount (descriptor : CDescriptor)
    (context : option comp_id) : M comp_id :=
  c ← Component_new (js_or SHOULD_UPDATE_FLAGS MOUNTING) descriptor context;
  runInit descriptor c;;
  ret c.

(** *** Notification *)

Fixpoint runActions (body : list action) : M unit :=
  match body with
  | [] => ret tt
  | ActCancel s :: rest => InvalidatorSubscription_cancel s;; runActions rest
  end.

Definition InvalidatorSubscription_invalidate (this : sub_id) : M unit :=
  emit (EvNotify this);;
  sub ← readSub this;
  if isComponent sub then
    match s_subscriber sub with
    | Comp c => Component_invalidate c
    | Fn _ _ => throw TypeError   (* a function has no invalidate *)
    end
  else
    match s_subscriber sub with
    | Fn f body => emit (EvCall f);; runActions body
    | Comp _ => throw TypeError   (* a Component has no call *)
    end.

Definition notifyAll (subscriptions : slot) : M unit :=
  match subscriptions with
  | SNull => ret tt
  | SOne s => InvalidatorSubscription_invalidate s
  | SArr a =>
      l ← readArr a;
      forEachLive InvalidatorSubscription_invalidate (length l) a 0
  end.

Definition Invalidator_invalidate (this : inv_id) : M unit :=
  st ← get;
  let now := clock st in
  inv ← readInv this;
  if i_mtime inv <? now then
    updInv this (inv_with_mtime now);;
    notifyAll (i_subscriptions inv);;
    inv' ← readInv this;
    match i_transientSubscriptions inv' with
    | SNull => ret tt
    | subscriptions =>
        updInv this (inv_with_transientSubscriptions SNull);;
        notifyAll subscriptions
    end
  else ret tt.

End Kernel.

(** ** A sample build

    A sample enumeration for concrete runs: one bit per lifecycle flag, and
    "attached and dirty" as the readiness mask. *)

Definition sampleFlags : ComponentFlags := {|
  DISPOSED := 0x0001;
  ATTACHED := 0x0002;
  MOUNTING := 0x0004;
  DIRTY := 0x0008;
  UPDATE_EACH_FRAME := 0x0010;
  IN_UPDATE_QUEUE := 0x0020;
  SHOULD_UPDATE_FLAGS := 0x000A
|}.

Definition emptyState (now : Z) : State :=
  mkState now [] [] ∅ ∅ ∅ ∅ [].

(** ** Reading flags *)

(** [(flags & m) !== 0] *)
Definition has_flag (flags m : Z) : bool := negb (js_and flags m =? 0).

Definition isDirty `{ComponentFlags} (x : Component) : bool :=
  has_flag (c_flags x) DIRTY.
Definition isDisposed `{ComponentFlags} (x : Component) : bool :=
  has_flag (c_flags x) DISPOSED.

(** [(flags & SHOULD_UPDATE_FLAGS) === SHOULD_UPDATE_FLAGS] *)
Definition ready `{ComponentFlags} (x : Component) : bool :=
  js_and (c_flags x) SHOULD_UPDATE_FLAGS =? SHOULD_UPDATE_FLAGS.

(** [new kivi.CDescriptor(name, opt_flags)]: every hook starts [null]. *)
Definition CDescriptor_new (opt_flags : option Z) : CDescriptor :=
  mkDesc (match opt_flags with None => 0 | Some f => f end)
         None None None None None None.

(** ** Runs of calls

    The calls of the interface.  A call that throws leaves the heap as it
    is at the throw, and later calls go on from there. *)
Inductive call :=
| CInvalidatorNew
| CHasSubscriptions (i : inv_id)
| CAddSubscription (i : inv_id) (s : sub_id)
| CRemoveSubscription (i : inv_id) (s : sub_id)
| CInvalidate (i : inv_id)
| CSubscriptionNew (flags : Z) (i : inv_id) (x : subscriber)
| CCancel (s : sub_id)
| CNotify (s : sub_id)
| CCreate (d : CDescriptor) (parent : option comp_id)
| CMount (d : CDescriptor) (parent : option comp_id)
| CUpdate (c : comp_id)
| CComponentInvalidate (c : comp_id)
| CStartUpdateEachFrame (c : comp_id)
| CStopUpdateEachFrame (c : comp_id)
| CDispose (c : comp_id)
| CSubscribe (c : comp_id) (i : inv_id)
| CTransientSubscribe (c : comp_id) (i : inv_id)
| CComponentRemoveSubscription (c : comp_id) (s : sub_id)
| CCancelSubscriptions (c : comp_id)
| CCancelTransientSubscriptions (c : comp_id).

Definition void {A} (m : M A) : M unit := m;; ret tt.

Definition call_body (DEBUG : bool) `{ComponentFlags} (k : call) : M unit :=
  match k with
  | CInvalidatorNew => void Invalidator_new
  | CHasSubscriptions i => void (Invalidator_hasSubscriptions i)
  | CAddSubscription i s => Invalidator_addSubscription i s
  | CRemoveSubscription i s => Invalidator_removeSubscription DEBUG i s
  | CInvalidate i => Invalidator_invalidate DEBUG i
  | CSubscriptionNew f i x => void (InvalidatorSubscription_new f i x)
  | CCancel s => InvalidatorSubscription_cancel DEBUG s
  | CNotify s => InvalidatorSubscription_invalidate DEBUG s
  | CCreate d p => void (Component_create d p)
  | CMount d p => void (Component_mount d p)
  | CUpdate c => Component_update c
  | CComponentInvalidate c => Component_invalidate DEBUG c
  | CStartUpdateEachFrame c => Component_startUpdateEachFrame c
  | CStopUpdateEachFrame c => Component_stopUpdateEachFrame c
  | CDispose c => Component_dispose DEBUG c
  | CSubscribe c i => Component_subscribe c i
  | CTransientSubscribe c i => Component_transientSubscribe c i
  | CComponentRemoveSubscription c s => Component_removeSubscription DEBUG c s
  | CCancelSubscriptions c => Component_cancelSubscriptions DEBUG c
  | CCancelTransientSubscriptions c =>
      Component_cancelTransientSubscriptions DEBUG c
  end.

Definition run_call (DEBUG : bool) `{ComponentFlags} (k : call) (st : State)
  : State :=
  final (call_body DEBUG k st).

(** The scheduler moves its clock between calls. *)
Definition set_clock (now : Z) (st : State) : State :=
  mkState now (nextFrameQueue st) (eachFrameSet st) (subs st)
          (invalidators st) (components st) (arrays st) (trace st).

Inductive step :=
| Call (k : call)
| Tick (now : Z).

Definition run_step (DEBUG : bool) `{ComponentFlags} (st : State) (x : step)
  : State :=
  match x with
  | Call k => run_call DEBUG k st
  | Tick now => set_clock now st
  end.

Definition run (DEBUG : bool) `{ComponentFlags} (steps : list step)
    (st : State) : State :=
  foldl (run_step DEBUG) st steps.

(** [n] calls in a row. *)
Fixpoint times (n : nat) (m : M unit) : M unit :=
  match n with
  | O => ret tt
  | S n' => m;; times n' m
  end.

(** ** Subscription sets *)

(** The subscriptions a field holds, in storage order. *)
Definition contents (st : State) (sl : slot) : option (list sub_id) :=
  match sl with
  | SNull => Some []
  | SOne s => Some [s]
  | SArr a => arrays st !! a
  end.

(** The subscriptions whose [invalidate()] was called, in call order. *)
Definition notified (tr : list event) : list sub_id :=
  omap (fun e => match e with EvNotify s => Some s | _ => None end) tr.

Definition is_null (sl : slot) : bool :=
  match sl with SNull => true | _ => false end.

(** A subscription whose notification changes no subscription set: a plain
    function that calls nothing of the kernel, or a component that is
    already Dirty or Disposed or holds no transient subscription. *)
Definition quiet `{ComponentFlags} (st : State) (s : sub_id) : bool :=
  match subs st !! s with
  | None => false
  | Some sub =>
      match isComponent sub, s_subscriber sub with
      | true, Comp c =>
          match components st !! c with
          | Some x =>
              isDirty x || isDisposed x
              || is_null (c_transientSubscriptions x)
          | None => false
          end
      | false, Fn _ [] => true
      | _, _ => false
      end
  end.

(** The field of an invalidator that a subscription belongs to. *)
Definition slot_of (sub : InvalidatorSubscription) (x : Invalidator) : slot :=
  if isTransient sub then i_transientSubscriptions x else i_subscriptions x.
Definition with_slot (sub : InvalidatorSubscription) (v : slot)
    (x : Invalidator) : Invalidator :=
  if isTransient sub then inv_with_transientSubscriptions v x
  else inv_with_subscriptions v x.

(** [s] is held by the set of its invalidator that its flags name. *)
Definition registered (st : State) (s : sub_id) : Prop :=
  exists sub x l,
    subs st !! s = Some sub /\
    invalidators st !! s_invalidator sub = Some x /\
    contents st (slot_of sub x) = Some l /\
    s ∈ l.

(** No invalidator holds the array of the field [sl]. *)
Definition unshared (st : State) (sl : slot) : Prop :=
  match sl with
  | SArr a =>
      forall i x, invalidators st !! i = Some x ->
        i_subscriptions x <> SArr a /\ i_transientSubscriptions x <> SArr a
  | _ => True
  end.

(** The component's two sets mirror registrations at the invalidators:
    every subscription they hold is registered, none is held twice, and the
    component's arrays are its own. *)
Definition mirrored (st : State) (x : Component) : Prop :=
  exists ld lt,
    contents st (c_subscriptions x) = Some ld /\
    contents st (c_transientSubscriptions x) = Some lt /\
    NoDup (ld ++ lt) /\
    (forall s, s ∈ ld ++ lt -> registered st s) /\
    unshared st (c_subscriptions x) /\
    unshared st (c_transientSubscriptions x).

(** What [dispose()] calls outside the kernel. *)
Definition dispose_events (c : comp_id) (x : Component) : list event :=
  match c_root x with Some r => [EvRootDispose r] | None => [] end ++
  match d_disposed (c_descriptor x) with
  | Some f => [EvHook f c]
  | None => []
  end.

(** ** Sequences of insertions and removals on a durable set *)

Inductive set_op :=
| SAdd (s : sub_id)
| SRemove (s : sub_id).

Definition op_sub (o : set_op) : sub_id :=
  match o with SAdd s => s | SRemove s => s end.

Definition run_set_op (DEBUG : bool) (i : inv_id) (o : set_op) : M unit :=
  match o with
  | SAdd s => Invalidator_addSubscription i s
  | SRemove s => Invalidator_removeSubscription DEBUG i s
  end.

Fixpoint run_set_ops (DEBUG : bool) (i : inv_id) (ops : list set_op)
  : M unit :=
  match ops with
  | [] => ret tt
  | o :: rest => run_set_op DEBUG i o;; run_set_ops DEBUG i rest
  end.

(** What the code does to the stored sequence. *)
Definition list_step (l : list sub_id) (o : set_op) : list sub_id :=
  match o with
  | SAdd s => l ++ [s]
  | SRemove s =>
      if bool_decide (length l = 1%nat) then [] else swap_pop l (indexOf s l)
  end.

(** The set of the spec: insertion and removal by identity. *)
Definition set_step (X : gset sub_id) (o : set_op) : gset sub_id :=
  match o with
  | SAdd s => X ∪ {[s]}
  | SRemove s => X ∖ {[s]}
  end.

(** An operation the set handles as the spec says: the insertion of a
    subscription it does not hold, or the removal of one it holds alone or
    at a position that is not the last. *)
Definition clean_op (l : list sub_id) (o : set_op) : bool :=
  match o with
  | SAdd s => bool_decide (s ∉ l)
  | SRemove s =>
      match indexOf s l with
      | Some k => bool_decide (length l = 1%nat)
                  || bool_decide (S k < length l)%nat
      | None => false
      end
  end.

Fixpoint clean_ops (l : list sub_id) (ops : list set_op) : bool :=
  match ops with
  | [] => true
  | o :: rest => clean_op l o && clean_ops (list_step l o) rest
  end.

(** ** The contracts of the spec *)

(** What the spec asks of [invalidate()] on the invalidator [i], whose cell
    is [x] and whose durable and transient sets hold [ld] and [lt]. *)
Definition wave_contract (DEBUG : bool) `{ComponentFlags} (st : State)
    (i : inv_id) (x : Invalidator) (ld lt : list sub_id) : Prop :=
  if i_mtime x <? clock st then
    exists st' x',
      Invalidator_invalidate DEBUG i st = Done tt st' /\
      invalidators st' !! i = Some x' /\
      i_mtime x' = clock st /\
      i_transientSubscriptions x' = SNull /\
      notified (trace st') = notified (trace st) ++ ld ++ lt /\
      (forall n, times (S n) (Invalidator_invalidate DEBUG i) st = Done tt st')
  else
    Invalidator_invalidate DEBUG i st = Done tt st.

(** What the spec asks of a wave: every durable subscription that is held
    at the start and not canceled during the wave is notified. *)
Definition wave_delivers (DEBUG : bool) `{ComponentFlags} (st : State)
    (i : inv_id) : Prop :=
  forall x ld st' s sub,
    invalidators st !! i = Some x ->
    i_mtime x < clock st ->
    contents st (i_subscriptions x) = Some ld ->
    Invalidator_invalidate DEBUG i st = Done tt st' ->
    s ∈ ld ->
    subs st' !! s = Some sub -> s_isCanceled sub = false ->
    s ∈ drop (length (notified (trace st))) (notified (trace st')).

(** What the spec asks of [update()] on a component [c]. *)
Definition update_contract `{ComponentFlags} (st : State) (c : comp_id)
  : Prop :=
  forall x, components st !! c = Some x ->
    if ready x then
      exists st',
        Component_update c st = Done tt st' /\
        trace st' =
          trace st ++
          match d_update (c_descriptor x) with
          | Some f => [EvHook f c]
          | None => []
          end /\
        components st' =
          <[c := comp_with_flags (js_and (c_flags x) (js_not DIRTY))
                   (comp_with_mtime (clock st) x)]> (components st) /\
        (forall x', components st' !! c = Some x' ->
           c_mtime x' = clock st /\ isDirty x' = false) /\
        clock st' = clock st /\ subs st' = subs st /\
        invalidators st' = invalidators st /\ arrays st' = arrays st /\
        nextFrameQueue st' = nextFrameQueue st /\
        eachFrameSet st' = eachFrameSet st
    else Component_update c st = Done tt st.

(** ** Relations between the heap before and after a call *)

(** [m] keeps [R] between the heap it starts in and the heap it ends in,
    returning or throwing. *)
Definition preserves (R : State -> State -> Prop) {A} (m : M A) : Prop :=
  forall st, R st (final (m st)).

(** Invalidators stay, and their [mtime] never goes back. *)
Definition mtime_grows (st st' : State) : Prop :=
  forall i x, invalidators st !! i = Some x ->
    exists x', invalidators st' !! i = Some x' /\ i_mtime x <= i_mtime x'.

(** The clock is only read, and [mtime_grows]. *)
Definition evolves (st st' : State) : Prop :=
  clock st' = clock st /\ mtime_grows st st'.

(** Only invalidators and arrays change. *)
Definition inv_only (st st' : State) : Prop :=
  clock st' = clock st /\
  nextFrameQueue st' = nextFrameQueue st /\
  eachFrameSet st' = eachFrameSet st /\
  subs st' = subs st /\
  components st' = components st /\
  trace st' = trace st.

(** No array grows. *)
Definition arrays_shrink (st st' : State) : Prop :=
  forall a l, arrays st !! a = Some l ->
    exists l', arrays st' !! a = Some l' /\ (length l' <= length l)%nat.

(** [m] never throws [OutOfFuel]. *)
Definition fuelled {A} (m : M A) : Prop :=
  forall st st', m st <> Thrown OutOfFuel st'.

(** Between two heaps: the subscription graph is the same, and what was
    quiet stays quiet. *)
Definition calm `{ComponentFlags} (st st' : State) : Prop :=
  clock st' = clock st /\ subs st' = subs st /\
  invalidators st' = invalidators st /\ arrays st' = arrays st /\
  (forall t, quiet st t = true -> quiet st' t = true).

(** Invalidators stay and keep their [mtime]. *)
Definition mtime_kept (st st' : State) : Prop :=
  forall i x, invalidators st !! i = Some x ->
    exists x', invalidators st' !! i = Some x' /\ i_mtime x' = i_mtime x.

(** No [invalidate()] of a subscription is called. *)
Definition notified_kept (st st' : State) : Prop :=
  notified (trace st') = notified (trace st).

(** The notifications made so far stay, in their order. *)
Definition notified_grows (st st' : State) : Prop :=
  exists more, notified (trace st') = notified (trace st) ++ more.

(** ** Waves whose handlers leave the iterated set alone *)

(** The heap in which [invalidate()] on [i], whose cell is [x], starts its
    durable loop: [mtime] is stamped. *)
Definition stamped (i : inv_id) (x : Invalidator) (st : State) : State :=
  set_invalidators <[i := inv_with_mtime (clock st) x]> st.

(** The heap in which it starts its transient loop: the field is [null]
    and the loop holds the value the field had. *)
Definition emptied (i : inv_id) (x : Invalidator) (st : State) : State :=
  set_invalidators <[i := inv_with_transientSubscriptions SNull x]> st.

(** The notifications of [l], one after the other.  The heap they end in,
    when each of them returns and leaves [watch] as it found it; [None]
    when one of them throws or changes [watch]. *)
Fixpoint notifyKeeping {O} `{EqDecision O} (DEBUG : bool) `{ComponentFlags}
    (watch : State -> O) (l : list sub_id) (st : State) : option State :=
  match l with
  | [] => Some st
  | s :: rest =>
      match InvalidatorSubscription_invalidate DEBUG s st with
      | Done _ st' =>
          if decide (watch st' = watch st)
          then notifyKeeping DEBUG watch rest st'
          else None
      | Thrown _ _ => None
      end
  end.

(** What the durable loop iterates: the entries of the value [sl] that the
    field had when the loop began. *)
Definition iterated (sl : slot) (st : State) : option (list sub_id) :=
  contents st sl.

(** What the transient loop iterates, with the transient field of the
    invalidator, which the wave has set to [null]. *)
Definition taken (i : inv_id) (sl : slot) (st : State)
  : option (list sub_id) * option slot :=
  (contents st sl, i_transientSubscriptions <$> invalidators st !! i).

(** ** Sample heaps, built by running the interface from the empty heap *)

(** A run of a debug build with the sample flags, from the empty heap at
    clock 0. *)
Definition sampleRun (steps : list step) : State :=
  @run true sampleFlags steps (emptyState 0).

(** A descriptor with an [update] hook, and one with [init], [update] and
    [disposed] hooks. *)
Definition withUpdate : CDescriptor :=
  mkDesc 0 None None None (Some 1%nat) None None.
Definition withHooks : CDescriptor :=
  mkDesc 0 (Some 0%nat) None None (Some 1%nat) None (Some 2%nat).

(** Component 0 was rendered once and then subscribed transiently to
    invalidator 0; the clock has advanced since. *)
Definition transientScenario : State :=
  sampleRun [Call CInvalidatorNew; Call (CCreate withUpdate None);
             Call (CUpdate 0%nat); Call (CTransientSubscribe 0%nat 0%nat);
             Tick 1].

(** Invalidator 0 holds two durable plain subscriptions; the function of
    the first cancels its own subscription. *)
Definition selfCancelScenario : State :=
  sampleRun [Call CInvalidatorNew;
             Call (CSubscriptionNew 0 0%nat (Fn 1%nat [ActCancel 0%nat]));
             Call (CAddSubscription 0%nat 0%nat);
             Call (CSubscriptionNew 0 0%nat (Fn 2%nat []));
             Call (CAddSubscription 0%nat 1%nat);
             Tick 1].

(** Invalidator 0 holds three durable plain subscriptions; the function of
    the second cancels the first. *)
Definition crossCancelScenario : State :=
  sampleRun [Call CInvalidatorNew;
             Call (CSubscriptionNew 0 0%nat (Fn 1%nat []));
             Call (CAddSubscription 0%nat 0%nat);
             Call (CSubscriptionNew 0 0%nat (Fn 2%nat [ActCancel 0%nat]));
             Call (CAddSubscription 0%nat 1%nat);
             Call (CSubscriptionNew 0 0%nat (Fn 3%nat []));
             Call (CAddSubscription 0%nat 2%nat);
             Tick 1].

(** Invalidator 0 holds two durable plain subscriptions that call nothing. *)
Definition pairScenario : State :=
  sampleRun [Call CInvalidatorNew;
             Call (CSubscriptionNew 0 0%nat (Fn 1%nat []));
             Call (CAddSubscription 0%nat 0%nat);
             Call (CSubscriptionNew 0 0%nat (Fn 2%nat []));
             Call (CAddSubscription 0%nat 1%nat);
             Tick 1].

(** Invalidator 0 holds a durable component subscription (component 0,
    rendered once), a durable plain one and a transient plain one. *)
Definition quietScenario : State :=
  sampleRun [Call CInvalidatorNew; Call (CCreate withUpdate None);
             Call (CUpdate 0%nat); Call (CSubscribe 0%nat 0%nat);
             Call (CSubscriptionNew 0 0%nat (Fn 1%nat []));
             Call (CAddSubscription 0%nat 1%nat);
             Call (CSubscriptionNew InvalidatorSubscriptionFlags.TRANSIENT
                     0%nat (Fn 2%nat []));
             Call (CAddSubscription 0%nat 2%nat);
             Tick 1].

(** Component 0, rendered once, holds a durable subscription on
    invalidator 0 and a transient one on invalidator 1.  Invalidator 1
    holds two durable plain subscriptions.  Invalidator 0 also holds a
    durable plain subscription, whose function cancels the first durable
    subscription of invalidator 1, and two transient plain ones. *)
Definition mixedScenario : State :=
  sampleRun [Call CInvalidatorNew; Call CInvalidatorNew;
             Call (CCreate withUpdate None); Call (CUpdate 0%nat);
             Call (CSubscribe 0%nat 0%nat);
             Call (CTransientSubscribe 0%nat 1%nat);
             Call (CSubscriptionNew 0 1%nat (Fn 5%nat []));
             Call (CAddSubscription 1%nat 2%nat);
             Call (CSubscriptionNew 0 1%nat (Fn 6%nat []));
             Call (CAddSubscription 1%nat 3%nat);
             Call (CSubscriptionNew 0 0%nat (Fn 7%nat [ActCancel 2%nat]));
             Call (CAddSubscription 0%nat 4%nat);
             Call (CSubscriptionNew InvalidatorSubscriptionFlags.TRANSIENT
                     0%nat (Fn 8%nat []));
             Call (CAddSubscription 0%nat 5%nat);
             Call (CSubscriptionNew InvalidatorSubscriptionFlags.TRANSIENT
                     0%nat (Fn 9%nat []));
             Call (CAddSubscription 0%nat 6%nat);
             Tick 1].

(** Invalidator 0 holds two durable plain subscriptions, the function of
    the first of which cancels a transient subscription of the same
    invalidator, and two transient plain ones; two more durable plain
    subscriptions exist and are not added yet. *)
Definition transientCancelScenario : State :=
  sampleRun [Call CInvalidatorNew;
             Call (CSubscriptionNew 0 0%nat (Fn 1%nat [ActCancel 2%nat]));
             Call (CAddSubscription 0%nat 0%nat);
             Call (CSubscriptionNew 0 0%nat (Fn 2%nat []));
             Call (CAddSubscription 0%nat 1%nat);
             Call (CSubscriptionNew InvalidatorSubscriptionFlags.TRANSIENT
                     0%nat (Fn 3%nat []));
             Call (CAddSubscription 0%nat 2%nat);
             Call (CSubscriptionNew InvalidatorSubscriptionFlags.TRANSIENT
                     0%nat (Fn 4%nat []));
             Call (CAddSubscription 0%nat 3%nat);
             Call (CSubscriptionNew 0 0%nat (Fn 5%nat []));
             Call (CSubscriptionNew 0 0%nat (Fn 6%nat []));
             Tick 1].

(** Four plain durable subscriptions exist; invalidator 0 holds none yet. *)
Definition freshSetScenario : State :=
  sampleRun [Call CInvalidatorNew;
             Call (CSubscriptionNew 0 0%nat (Fn 1%nat []));
             Call (CSubscriptionNew 0 0%nat (Fn 2%nat []));
             Call (CSubscriptionNew 0 0%nat (Fn 3%nat []));
             Call (CSubscriptionNew 0 0%nat (Fn 4%nat []));
             Tick 1].

(** Component 0 was created from a descriptor without hooks. *)
Definition nullHookScenario : State :=
  sampleRun [Call (CCreate (CDescriptor_new None) None)].

(** Component 0 was created with an [update] hook; the clock has advanced. *)
Definition createdScenario : State :=
  sampleRun [Call (CCreate withUpdate None); Tick 3].

(** The renderer gives a component its root. *)
Definition with_root (r : vnode_id) (x : Component) : Component :=
  mkComp (c_flags x) (c_mtime x) (c_descriptor x) (c_parent x) (c_depth x)
         (Some r) (c_subscriptions x) (c_transientSubscriptions x).

(** Component 0 holds two durable subscriptions and a transient one, all
    on invalidator 0, and has the root 5. *)
Definition subscribedScenario : State :=
  set_components (fmap (with_root 5%nat))
    (sampleRun [Call CInvalidatorNew; Call (CCreate withHooks None);
                Call (CSubscribe 0%nat 0%nat); Call (CSubscribe 0%nat 0%nat);
                Call (CTransientSubscribe 0%nat 0%nat)]).

(** Component 0 asked for an update on each frame. *)
Definition eachFrameScenario : State :=
  sampleRun [Call (CCreate withUpdate None);
             Call (CStartUpdateEachFrame 0%nat)].

(** Components 0 and 1 subscribed to invalidator 0, in that order. *)
Definition sharedScenario : State :=
  sampleRun [Call CInvalidatorNew; Call (CCreate withHooks None);
             Call (CCreate withHooks None);
             Call (CSubscribe 0%nat 0%nat); Call (CSubscribe 1%nat 0%nat)].

(** Component 0, created and not rendered yet, so still Dirty, subscribed
    transiently to invalidator 0; the clock has advanced since. *)
Definition heldScenario : State :=
  sampleRun [Call CInvalidatorNew; Call (CCreate withHooks None);
             Call (CTransientSubscribe 0%nat 0%nat); Tick 1].

(** ** The root of a component: [syncVRoot]

    The nodes of the renderer are objects of the application.  The calls
    and field writes [syncVRoot] makes on them are returned in program
    order; like the hooks, they leave the heap of the kernel as it is.  In
    the source the Mounting bit is cleared after the call of [mount]; the
    call is recorded and not run, so the order of the two does not show. *)
Inductive vnode_call :=
| VSetCref (r : vnode_id) (c : comp_id)      (* r.cref = c *)
| VMount (r : vnode_id) (c : comp_id)        (* r.mount(c.element, c) *)
| VSetRef (r : vnode_id) (c : comp_id)       (* r.ref = c.element *)
| VRender (r : vnode_id) (c : comp_id)       (* r.render(c) *)
| VSync (old new : vnode_id) (c : comp_id).  (* old.sync(new, c) *)

Definition comp_with_root (v : option vnode_id) (x : Component) :=
  mkComp (c_flags x) (c_mtime x) (c_descriptor x) (c_parent x) (c_depth x)
         v (c_subscriptions x) (c_transientSubscriptions x).

Definition Component_syncVRoot `{ComponentFlags} (this : comp_id)
    (newRoot : vnode_id) : M (list vnode_call) :=
  comp ← readComp this;
  calls ← match c_root comp with
          | None =>
              if negb (js_and (c_flags comp) MOUNTING =? 0) then
                updComp this
                  (fun x => comp_with_flags
                              (js_and (c_flags x) (js_not MOUNTING)) x);;
                ret [VSetCref newRoot this; VMount newRoot this]
              else
                ret [VSetCref newRoot this; VSetRef newRoot this;
                     VRender newRoot this]
          | Some root => ret [VSync root newRoot this]
          end;
  updComp this (comp_with_root (Some newRoot));;
  ret calls.

(** ** Runs over the whole interface: the calls, [syncVRoot], and the moves
    of the clock *)
Inductive op :=
| OCall (k : call)
| OSyncVRoot (c : comp_id) (newRoot : vnode_id)
| OTick (now : Z).

Definition run_op (DEBUG : bool) `{ComponentFlags} (st : State) (o : op)
  : State :=
  match o with
  | OCall k => run_call DEBUG k st
  | OSyncVRoot c r => final (Component_syncVRoot c r st)
  | OTick now => set_clock now st
  end.

Definition run_ops (DEBUG : bool) `{ComponentFlags} (ops : list op)
    (st : State) : State :=
  foldl (run_op DEBUG) st ops.

(** The field of a component that a subscription belongs to. *)
Definition cslot_of (sub : InvalidatorSubscription) (x : Component) : slot :=
  if isTransient sub then c_transientSubscriptions x else c_subscriptions x.

(** The field of an invalidator that a subscription does not belong to. *)
Definition other_slot_of (sub : InvalidatorSubscription) (x : Invalidator)
  : slot :=
  if isTransient sub then i_subscriptions x else i_transientSubscriptions x.

(** A removal the set handles: of a subscription it holds alone or at a
    position that is not the last. *)
Definition removable (s : sub_id) (l : list sub_id) : bool :=
  clean_op l (SRemove s).

(** ** The writes every operation is made of

    A relation between heaps that each of these keeps is kept by every
    operation of the interface. *)
Class Atoms (DEBUG : bool) `{ComponentFlags}
    (R : State -> State -> Prop) : Prop := {
  atom_emit e : preserves R (emit e);
  atom_nextFrame c :
    preserves R (modify (set_nextFrameQueue (fun q => q ++ [c])));
  atom_start c : preserves R (Component_startUpdateEachFrame c);
  atom_stop c : preserves R (Component_stopUpdateEachFrame c);
  atom_addTo sl s : preserves R (addTo sl s);
  atom_removeFrom msg sl s : preserves R (removeFrom DEBUG msg sl s);
  atom_inv_subscriptions i v :
    preserves R (updInv i (inv_with_subscriptions v));
  atom_inv_transientSubscriptions i v :
    preserves R (updInv i (inv_with_transientSubscriptions v));
  atom_inv_mtime i now : preserves R (updInv i (inv_with_mtime now));
  atom_Invalidator_new : preserves R Invalidator_new;
  atom_Subscription_new f i x :
    preserves R (InvalidatorSubscription_new f i x);
  atom_Component_new f d p : preserves R (Component_new f d p);
  atom_isCanceled s : preserves R (updSub s (sub_with_isCanceled true));
  atom_comp_subscriptions c v :
    preserves R (updComp c (comp_with_subscriptions v));
  atom_comp_transientSubscriptions c v :
    preserves R (updComp c (comp_with_transientSubscriptions v));
  atom_comp_mtime c now : preserves R (updComp c (comp_with_mtime now));
  atom_comp_root c v : preserves R (updComp c (comp_with_root v));
  atom_set_DIRTY c :
    preserves R
      (updComp c (fun x => comp_with_flags (js_or (c_flags x) DIRTY) x));
  atom_clear_DIRTY c :
    preserves R
      (updComp c
         (fun x => comp_with_flags (js_and (c_flags x) (js_not DIRTY)) x));
  atom_set_DISPOSED c :
    preserves R
      (updComp c (fun x => comp_with_flags (js_or (c_flags x) DISPOSED) x));
  atom_clear_ATTACHED c :
    preserves R
      (updComp c
         (fun x => comp_with_flags
                     (js_and (c_flags x)
                             (js_not (js_or ATTACHED UPDATE_EACH_FRAME))) x));
  atom_clear_MOUNTING c :
    preserves R
      (updComp c
         (fun x => comp_with_flags (js_and (c_flags x) (js_not MOUNTING)) x));
  atom_tick now st : R st (set_clock now st)
}.

(** ** What stays along a run *)

(** Subscriptions stay; their flags, invalidator and subscriber never
    change, and a canceled one stays canceled. *)
Definition sub_sticks (st st' : State) : Prop :=
  forall s x, subs st !! s = Some x ->
    exists x', subs st' !! s = Some x' /\
      s_flags x' = s_flags x /\
      s_invalidator x' = s_invalidator x /\
      s_subscriber x' = s_subscriber x /\
      (s_isCanceled x = true -> s_isCanceled x' = true).

(** Components stay; their descriptor, parent and depth never change, the
    Disposed and InUpdateQueue bits are never cleared, and the Attached bit
    is never set. *)
Definition comp_sticks `{ComponentFlags} (st st' : State) : Prop :=
  forall c x, components st !! c = Some x ->
    exists x', components st' !! c = Some x' /\
      c_descriptor x' = c_descriptor x /\
      c_parent x' = c_parent x /\
      c_depth x' = c_depth x /\
      (isDisposed x = true -> isDisposed x' = true) /\
      (has_flag (c_flags x) IN_UPDATE_QUEUE = true ->
       has_flag (c_flags x') IN_UPDATE_QUEUE = true) /\
      (has_flag (c_flags x) ATTACHED = false ->
       has_flag (c_flags x') ATTACHED = false).

(** A field update that keeps what [comp_sticks] watches. *)
Definition sticky `{ComponentFlags} (f : Component -> Component) : Prop :=
  forall x,
    c_descriptor (f x) = c_descriptor x /\
    c_parent (f x) = c_parent x /\
    c_depth (f x) = c_depth x /\
    (isDisposed x = true -> isDisposed (f x) = true) /\
    (has_flag (c_flags x) IN_UPDATE_QUEUE = true ->
     has_flag (c_flags (f x)) IN_UPDATE_QUEUE = true) /\
    (has_flag (c_flags x) ATTACHED = false ->
     has_flag (c_flags (f x)) ATTACHED = false).

(** The recurring set holds no component twice, and only components whose
    InUpdateQueue bit is set. *)
Definition each_frame_ok `{ComponentFlags} (st : State) : Prop :=
  NoDup (eachFrameSet st) /\
  forall c, c ∈ eachFrameSet st ->
    exists x, components st !! c = Some x /\
      has_flag (c_flags x) IN_UPDATE_QUEUE = true.

(** No array of the heap is empty. *)
Definition no_empty_array (st : State) : Prop :=
  forall a l, arrays st !! a = Some l -> l <> [].

(** An invariant of the heap, as a relation between two heaps. *)
Definition keeps (I : State -> Prop) (st st' : State) : Prop := I st -> I st'.

(** The field of a component that a subscription does not belong to, and
    the write of the one it belongs to. *)
Definition other_cslot_of (sub : InvalidatorSubscription) (x : Component)
  : slot :=
  if isTransient sub then c_subscriptions x else c_transientSubscriptions x.
Definition with_cslot (sub : InvalidatorSubscription) (v : slot)
    (x : Component) : Component :=
  if isTransient sub then comp_with_transientSubscriptions v x
  else comp_with_subscriptions v x.

(** The subscription [subscribe] and [transientSubscribe] make. *)
Definition subscription_of (transient : bool) (i : inv_id) (c : comp_id)
  : InvalidatorSubscription :=
  mkSub (if transient
         then js_or InvalidatorSubscriptionFlags.COMPONENT
                    InvalidatorSubscriptionFlags.TRANSIENT
         else InvalidatorSubscriptionFlags.COMPONENT)
        i (Comp c) false.

(** [subscribe] or [transientSubscribe], by kind. *)
Definition subscribe_by `{ComponentFlags} (transient : bool) (c : comp_id)
    (i : inv_id) : M unit :=
  if transient then Component_transientSubscribe c i
  else Component_subscribe c i.

(** The component's half of [subscribe] and [transientSubscribe]. *)
Definition link_component (c : comp_id) (sub : InvalidatorSubscription)
    (s : sub_id) : M unit :=
  comp ← readComp c;
  r ← addTo (cslot_of sub comp) s;
  match r with
  | Some v => updComp c (with_cslot sub v)
  | None => ret tt
  end.

(** [Component.create] or [Component.mount], by kind, and the flags each
    gives the new component. *)
Definition Component_make `{ComponentFlags} (mount : bool)
    (d : CDescriptor) (context : option comp_id) : M comp_id :=
  if mount then Component_mount d context else Component_create d context.
Definition initial_flags `{ComponentFlags} (mount : bool) : Z :=
  if mount then js_or SHOULD_UPDATE_FLAGS MOUNTING else SHOULD_UPDATE_FLAGS.

(** The renderer calls of [syncVRoot] on a component whose cell is [x]. *)
Definition sync_calls `{ComponentFlags} (c : comp_id) (x : Component)
    (newRoot : vnode_id) : list vnode_call :=
  match c_root x with
  | Some root => [VSync root newRoot c]
  | None =>
      if has_flag (c_flags x) MOUNTING
      then [VSetCref newRoot c; VMount newRoot c]
      else [VSetCref newRoot c; VSetRef newRoot c; VRender newRoot c]
  end.

(** What a hook of the descriptor adds to the trace. *)
Definition hook_events (h : option fn_id) (c : comp_id) : list event :=
  match h with Some f => [EvHook f c] | None => [] end.

(** ** What a wave does to the components *)

(** The component a subscription notifies, if it is a component's. *)
Definition target (st : State) (s : sub_id) : option comp_id :=
  match subs st !! s with
  | Some sub =>
      if isComponent sub then
        match s_subscriber sub with
        | Comp c => Some c
        | Fn _ _ => None
        end
      else None
  | None => None
  end.

Definition targets (st : State) (l : list sub_id) : list comp_id :=
  omap (target st) l.

(** A component that is neither Dirty nor Disposed. *)
Definition clean `{ComponentFlags} (st : State) (c : comp_id) : bool :=
  match components st !! c with
  | Some x => negb (isDirty x || isDisposed x)
  | None => false
  end.

(** Between the heap before and the heap after the notification of the
    subscriptions [l]: the next-frame queue has grown by the clean
    components among their targets, each once, and these are Dirty now. *)
Definition batched `{ComponentFlags} (l : list sub_id) (st st' : State)
  : Prop :=
  exists news,
    nextFrameQueue st' = nextFrameQueue st ++ news /\
    NoDup news /\
    (forall c, c ∈ news <-> c ∈ targets st l /\ clean st c = true) /\
    (forall c, clean st' c = clean st c && negb (bool_decide (c ∈ news))) /\
    (forall c x, components st !! c = Some x -> isDirty x = true ->
       exists x', components st' !! c = Some x' /\ isDirty x' = true) /\
    (forall c, c ∈ news ->
       exists x', components st' !! c = Some x' /\ isDirty x' = true) /\
    eachFrameSet st' = eachFrameSet st.

(** [cancelSubscriptions] or [cancelTransientSubscriptions], by kind, and
    the field each empties. *)
Definition cancel_set_by (DEBUG : bool) (transient : bool) (c : comp_id)
  : M unit :=
  if transient then Component_cancelTransientSubscriptions DEBUG c
  else Component_cancelSubscriptions DEBUG c.
Definition set_by (transient : bool) (x : Component) : slot :=
  if transient then c_transientSubscriptions x else c_subscriptions x.
Definition without_set (transient : bool) (x : Component) : Component :=
  if transient then comp_with_transientSubscriptions SNull x
  else comp_with_subscriptions SNull x.

(** * Proofs

    ** Flags as bits of an int32 *)

Section Int32.

Lemma to_int32_range z : - 2 ^ 31 <= to_int32 z < 2 ^ 31.
Proof.
  unfold to_int32.
  pose proof (Z.mod_pos_bound z (2 ^ 32) ltac:(lia)) as Hm.
  destruct (Z.ltb_spec (z mod 2 ^ 32) (2 ^ 31)); lia.
Qed.

Lemma to_int32_id z : - 2 ^ 31 <= z < 2 ^ 31 -> to_int32 z = z.
Proof.
  intros Hz. unfold to_int32.
  destruct (Z.neg_nonneg_cases z) as [Hn | Hp].
  - replace (z mod 2 ^ 32) with (z + 2 ^ 32).
    + destruct (Z.ltb_spec (z + 2 ^ 32) (2 ^ 31)); lia.
    + apply Z.mod_unique with (-1); lia.
  - rewrite Z.mod_small by lia.
    destruct (Z.ltb_spec z (2 ^ 31)); lia.
Qed.

Lemma to_int32_testbit z k :
  0 <= k < 32 -> Z.testbit (to_int32 z) k = Z.testbit z k.
Proof.
  intros Hk. unfold to_int32.
  destruct (Z.ltb_spec (z mod 2 ^ 32) (2 ^ 31)) as [_ | _].
  - apply Z.mod_pow2_bits_low; lia.
  - rewrite <- (Z.mod_pow2_bits_low (z mod 2 ^ 32 - 2 ^ 32) 32 k) by lia.
    replace (z mod 2 ^ 32 - 2 ^ 32) with (z mod 2 ^ 32 + (-1) * 2 ^ 32) by lia.
    rewrite Z.mod_add by lia. rewrite Z.mod_mod by lia.
    apply Z.mod_pow2_bits_low; lia.
Qed.

Lemma to_int32_zero z :
  (forall k, 0 <= k < 32 -> Z.testbit z k = false) -> to_int32 z = 0.
Proof.
  intros Hb. unfold to_int32.
  assert (z mod 2 ^ 32 = 0) as ->; [| reflexivity].
  apply Z.bits_inj'. intros k Hk. rewrite Z.bits_0.
  destruct (Z.lt_ge_cases k 32).
  - rewrite Z.mod_pow2_bits_low by lia. apply Hb; lia.
  - apply Z.mod_pow2_bits_high; lia.
Qed.

Lemma js_and_testbit a b k :
  0 <= k < 32 ->
  Z.testbit (js_and a b) k = Z.testbit a k && Z.testbit b k.
Proof.
  intros Hk. unfold js_and.
  rewrite to_int32_testbit, Z.land_spec, !to_int32_testbit by lia.
  reflexivity.
Qed.

Lemma js_or_testbit a b k :
  0 <= k < 32 ->
  Z.testbit (js_or a b) k = Z.testbit a k || Z.testbit b k.
Proof.
  intros Hk. unfold js_or.
  rewrite to_int32_testbit, Z.lor_spec, !to_int32_testbit by lia.
  reflexivity.
Qed.

Lemma js_not_testbit a k :
  0 <= k < 32 -> Z.testbit (js_not a) k = negb (Z.testbit a k).
Proof.
  intros Hk. unfold js_not.
  rewrite to_int32_testbit, Z.lnot_spec, to_int32_testbit by lia.
  reflexivity.
Qed.

Lemma single_bit_testbit m k :
  single_bit m -> 0 <= k -> Z.testbit m k = (Z.log2 m =? k).
Proof.
  intros [Hr Hm] Hk. rewrite Hm at 1.
  rewrite Z.pow2_bits_eqb by lia. reflexivity.
Qed.

Lemma single_bit_int32 m : single_bit m -> to_int32 m = m.
Proof.
  intros [Hr Hm]. apply to_int32_id. rewrite Hm.
  pose proof (Z.pow_pos_nonneg 2 (Z.log2 m) ltac:(lia) ltac:(lia)).
  pose proof (Z.pow_lt_mono_r 2 (Z.log2 m) 31 ltac:(lia) ltac:(lia) ltac:(lia)).
  lia.
Qed.

Lemma single_bit_inj m n :
  single_bit m -> single_bit n -> Z.log2 m = Z.log2 n -> m = n.
Proof. intros [_ Hm] [_ Hn] E. rewrite Hm, Hn, E. reflexivity. Qed.

(** Testing one flag reads one bit. *)
Lemma js_and_single f m :
  single_bit m ->
  js_and f m = if Z.testbit f (Z.log2 m) then m else 0.
Proof.
  intros Hm. pose proof Hm as [Hr Hpow]. unfold js_and.
  rewrite (single_bit_int32 m Hm).
  assert (Z.land (to_int32 f) m = if Z.testbit f (Z.log2 m) then m else 0)
    as ->.
  { apply Z.bits_inj'. intros k Hk.
    rewrite Z.land_spec, (single_bit_testbit m k Hm Hk).
    destruct (Z.eqb_spec (Z.log2 m) k) as [<- | Hne].
    - rewrite to_int32_testbit by lia.
      destruct (Z.testbit f (Z.log2 m)).
      + rewrite (single_bit_testbit m _ Hm) by lia.
        rewrite Z.eqb_refl. reflexivity.
      + rewrite Z.bits_0. reflexivity.
    - rewrite andb_false_r.
      destruct (Z.testbit f (Z.log2 m)).
      + rewrite (single_bit_testbit m k Hm Hk).
        symmetry. apply Z.eqb_neq. exact Hne.
      + rewrite Z.bits_0. reflexivity. }
  destruct (Z.testbit f (Z.log2 m)).
  - apply single_bit_int32. exact Hm.
  - reflexivity.
Qed.

Lemma single_bit_nonzero m : single_bit m -> m <> 0.
Proof.
  intros [Hr Hm].
  pose proof (Z.pow_pos_nonneg 2 (Z.log2 m) ltac:(lia) ltac:(lia)). lia.
Qed.

Lemma has_flag_testbit f m :
  single_bit m -> has_flag f m = Z.testbit f (Z.log2 m).
Proof.
  intros Hm. unfold has_flag. rewrite (js_and_single f m Hm).
  destruct (Z.testbit f (Z.log2 m)).
  - apply negb_true_iff, Z.eqb_neq, single_bit_nonzero, Hm.
  - reflexivity.
Qed.

(** An int32 is zero exactly when its 32 low bits are. *)
Lemma int32_eqb_zero z :
  (to_int32 z =? 0) = true <->
  (forall k, 0 <= k < 32 -> Z.testbit z k = false).
Proof.
  split.
  - intros E k Hk. apply Z.eqb_eq in E.
    rewrite <- (to_int32_testbit z k Hk), E. apply Z.bits_0.
  - intros Hb. apply Z.eqb_eq, to_int32_zero, Hb.
Qed.

(** Setting, clearing and testing flags. *)
Lemma has_flag_set f m n :
  single_bit m -> single_bit n ->
  has_flag (js_or f m) n = has_flag f n || bool_decide (m = n).
Proof.
  intros Hm Hn. rewrite !(has_flag_testbit _ n Hn).
  pose proof Hn as [Hr _].
  rewrite js_or_testbit by lia.
  rewrite (single_bit_testbit m _ Hm) by lia.
  f_equal. destruct (Z.eqb_spec (Z.log2 m) (Z.log2 n)) as [E | E].
  - rewrite bool_decide_eq_true_2; [reflexivity |].
    apply single_bit_inj; assumption.
  - rewrite bool_decide_eq_false_2; [reflexivity |]. congruence.
Qed.

Lemma has_flag_clear f m n :
  single_bit m -> single_bit n ->
  has_flag (js_and f (js_not m)) n = has_flag f n && negb (bool_decide (m = n)).
Proof.
  intros Hm Hn. rewrite !(has_flag_testbit _ n Hn).
  pose proof Hn as [Hr _].
  rewrite js_and_testbit, js_not_testbit by lia.
  rewrite (single_bit_testbit m _ Hm) by lia.
  f_equal. f_equal. destruct (Z.eqb_spec (Z.log2 m) (Z.log2 n)) as [E | E].
  - rewrite bool_decide_eq_true_2; [reflexivity |].
    apply single_bit_inj; assumption.
  - rewrite bool_decide_eq_false_2; [reflexivity |]. congruence.
Qed.

Lemma has_flag_clear2 f m1 m2 n :
  single_bit m1 -> single_bit m2 -> single_bit n ->
  has_flag (js_and f (js_not (js_or m1 m2))) n =
  has_flag f n && negb (bool_decide (m1 = n)) && negb (bool_decide (m2 = n)).
Proof.
  intros Hm1 Hm2 Hn. rewrite !(has_flag_testbit _ n Hn).
  pose proof Hn as [Hr _].
  rewrite js_and_testbit, js_not_testbit, js_or_testbit by lia.
  rewrite (single_bit_testbit m1 _ Hm1), (single_bit_testbit m2 _ Hm2) by lia.
  rewrite negb_orb, andb_assoc. f_equal; [f_equal |].
  - destruct (Z.eqb_spec (Z.log2 m1) (Z.log2 n)) as [E | E].
    + rewrite bool_decide_eq_true_2; [reflexivity |].
      apply single_bit_inj; assumption.
    + rewrite bool_decide_eq_false_2; [reflexivity |]. congruence.
  - destruct (Z.eqb_spec (Z.log2 m2) (Z.log2 n)) as [E | E].
    + rewrite bool_decide_eq_true_2; [reflexivity |].
      apply single_bit_inj; assumption.
    + rewrite bool_decide_eq_false_2; [reflexivity |]. congruence.
Qed.

(** Testing against the union of two flags. *)
Lemma js_and_or_zero f m n :
  single_bit m -> single_bit n ->
  (js_and f (js_or m n) =? 0) = negb (has_flag f m) && negb (has_flag f n).
Proof.
  intros Hm Hn.
  rewrite (has_flag_testbit f m Hm), (has_flag_testbit f n Hn).
  pose proof Hm as [Hrm _]. pose proof Hn as [Hrn _].
  apply eq_true_iff_eq. unfold js_and at 1. rewrite int32_eqb_zero.
  rewrite andb_true_iff, !negb_true_iff. split.
  - intros Hb. split.
    + specialize (Hb (Z.log2 m) ltac:(lia)).
      rewrite Z.land_spec, !to_int32_testbit, js_or_testbit in Hb by lia.
      rewrite (single_bit_testbit m _ Hm), Z.eqb_refl in Hb by lia.
      simpl in Hb. rewrite andb_true_r in Hb. exact Hb.
    + specialize (Hb (Z.log2 n) ltac:(lia)).
      rewrite Z.land_spec, !to_int32_testbit, js_or_testbit in Hb by lia.
      rewrite (single_bit_testbit n _ Hn), Z.eqb_refl in Hb by lia.
      rewrite orb_true_r, andb_true_r in Hb. exact Hb.
  - intros [H1 H2] k Hk.
    rewrite Z.land_spec, !to_int32_testbit, js_or_testbit by lia.
    rewrite (single_bit_testbit m _ Hm), (single_bit_testbit n _ Hn) by lia.
    destruct (Z.eqb_spec (Z.log2 m) k) as [E1 | _];
      destruct (Z.eqb_spec (Z.log2 n) k) as [E2 | _];
      rewrite <- ?E1, <- ?E2, ?H1, ?H2; simpl; try reflexivity;
      try (rewrite E1, <- E2, H2; reflexivity); apply andb_false_r.
Qed.

End Int32.

(** ** Reasoning about sequenced calls *)

Lemma bind_Done {A B} (m : M A) (k : A -> M B) st b st2 :
  bind m k st = Done b st2 ->
  exists a st1, m st = Done a st1 /\ k a st1 = Done b st2.
Proof.
  unfold bind. destruct (m st) as [a st1 | e st1]; [eauto | discriminate].
Qed.

Lemma bind_Thrown {A B} (m : M A) (k : A -> M B) st e st2 :
  bind m k st = Thrown e st2 ->
  m st = Thrown e st2 \/
  exists a st1, m st = Done a st1 /\ k a st1 = Thrown e st2.
Proof.
  unfold bind. destruct (m st) as [a st1 | e1 st1]; [eauto |].
  intros [= -> ->]. left. reflexivity.
Qed.

Lemma bind_eq_Done {A B} (m : M A) (k : A -> M B) st a st1 :
  m st = Done a st1 -> bind m k st = k a st1.
Proof. unfold bind. intros ->. reflexivity. Qed.

Lemma bind_eq_Thrown {A B} (m : M A) (k : A -> M B) st e st1 :
  m st = Thrown e st1 -> bind m k st = Thrown e st1.
Proof. unfold bind. intros ->. reflexivity. Qed.

Lemma readSub_eq s st x : subs st !! s = Some x -> readSub s st = Done x st.
Proof. unfold readSub, bind, get, deref. intros ->. reflexivity. Qed.
Lemma readInv_eq i st x :
  invalidators st !! i = Some x -> readInv i st = Done x st.
Proof. unfold readInv, bind, get, deref. intros ->. reflexivity. Qed.
Lemma readComp_eq c st x :
  components st !! c = Some x -> readComp c st = Done x st.
Proof. unfold readComp, bind, get, deref. intros ->. reflexivity. Qed.
Lemma readArr_eq a st l : arrays st !! a = Some l -> readArr a st = Done l st.
Proof. unfold readArr, bind, get, deref. intros ->. reflexivity. Qed.

Lemma readSub_inv s st x st' :
  readSub s st = Done x st' -> st' = st /\ subs st !! s = Some x.
Proof.
  unfold readSub, bind, get, deref. destruct (subs st !! s); [| discriminate].
  intros [= -> ->]. auto.
Qed.
Lemma readInv_inv i st x st' :
  readInv i st = Done x st' -> st' = st /\ invalidators st !! i = Some x.
Proof.
  unfold readInv, bind, get, deref.
  destruct (invalidators st !! i); [| discriminate]. intros [= -> ->]. auto.
Qed.
Lemma readComp_inv c st x st' :
  readComp c st = Done x st' -> st' = st /\ components st !! c = Some x.
Proof.
  unfold readComp, bind, get, deref.
  destruct (components st !! c); [| discriminate]. intros [= -> ->]. auto.
Qed.
Lemma readArr_inv a st l st' :
  readArr a st = Done l st' -> st' = st /\ arrays st !! a = Some l.
Proof.
  unfold readArr, bind, get, deref.
  destruct (arrays st !! a); [| discriminate]. intros [= -> ->]. auto.
Qed.

Lemma readSub_final s st : final (readSub s st) = st.
Proof. unfold readSub, bind, get, deref. destruct (subs st !! s); reflexivity. Qed.
Lemma readInv_final i st : final (readInv i st) = st.
Proof.
  unfold readInv, bind, get, deref. destruct (invalidators st !! i); reflexivity.
Qed.
Lemma readComp_final c st : final (readComp c st) = st.
Proof.
  unfold readComp, bind, get, deref. destruct (components st !! c); reflexivity.
Qed.
Lemma readArr_final a st : final (readArr a st) = st.
Proof.
  unfold readArr, bind, get, deref. destruct (arrays st !! a); reflexivity.
Qed.
Lemma deref_final {A} (o : option A) st : final (deref o st) = st.
Proof. destruct o; reflexivity. Qed.
Lemma deref_inv {A} (o : option A) st a st' :
  deref o st = Done a st' -> st' = st /\ o = Some a.
Proof. destruct o; [intros [= -> ->]; auto | discriminate]. Qed.

Lemma updInv_eq i f st x :
  invalidators st !! i = Some x ->
  updInv i f st = Done tt (set_invalidators <[i := f x]> st).
Proof.
  intros Hx. unfold updInv. rewrite (bind_eq_Done _ _ _ _ _ (readInv_eq _ _ _ Hx)).
  reflexivity.
Qed.
Lemma updComp_eq c f st x :
  components st !! c = Some x ->
  updComp c f st = Done tt (set_components <[c := f x]> st).
Proof.
  intros Hx. unfold updComp.
  rewrite (bind_eq_Done _ _ _ _ _ (readComp_eq _ _ _ Hx)). reflexivity.
Qed.
Lemma updSub_eq s f st x :
  subs st !! s = Some x ->
  updSub s f st = Done tt (set_subs <[s := f x]> st).
Proof.
  intros Hx. unfold updSub. rewrite (bind_eq_Done _ _ _ _ _ (readSub_eq _ _ _ Hx)).
  reflexivity.
Qed.

(** ** Relations kept by every step of a call *)

Section Preserve.
Variable R : State -> State -> Prop.
Context `{!PreOrder R}.

Lemma preserves_ret {A} (a : A) : preserves R (ret a).
Proof. intros st. reflexivity. Qed.

Lemma preserves_throw {A} e : preserves R (@throw A e).
Proof. intros st. reflexivity. Qed.

Lemma preserves_get : preserves R get.
Proof. intros st. reflexivity. Qed.

Lemma preserves_deref {A} (o : option A) : preserves R (deref o).
Proof. intros st. rewrite deref_final. reflexivity. Qed.

Lemma R_bind {A B} (m : M A) (k : A -> M B) st :
  R st (final (m st)) ->
  (forall a st1, m st = Done a st1 -> R st1 (final (k a st1))) ->
  R st (final (bind m k st)).
Proof.
  intros Hm Hk. unfold bind. destruct (m st) as [a st1 | e st1] eqn:E.
  - etransitivity; [exact Hm | apply Hk; reflexivity].
  - exact Hm.
Qed.

Lemma preserves_bind {A B} (m : M A) (k : A -> M B) :
  preserves R m -> (forall a, preserves R (k a)) -> preserves R (bind m k).
Proof. intros Hm Hk st. apply R_bind; [apply Hm | intros; apply Hk]. Qed.

Lemma preserves_when b m : preserves R m -> preserves R (when b m).
Proof. intros Hm. destruct b; [exact Hm | apply preserves_ret]. Qed.

Lemma preserves_readSub s : preserves R (readSub s).
Proof. intros st. rewrite readSub_final. reflexivity. Qed.
Lemma preserves_readInv i : preserves R (readInv i).
Proof. intros st. rewrite readInv_final. reflexivity. Qed.
Lemma preserves_readComp c : preserves R (readComp c).
Proof. intros st. rewrite readComp_final. reflexivity. Qed.
Lemma preserves_readArr a : preserves R (readArr a).
Proof. intros st. rewrite readArr_final. reflexivity. Qed.

Lemma preserves_forEachLive body fuel a i :
  (forall s, preserves R (body s)) ->
  preserves R (forEachLive body fuel a i).
Proof.
  intros Hb. revert i. induction fuel as [| fuel IH]; intros i; simpl.
  - apply preserves_bind; [apply preserves_readArr |].
    intros l. destruct (i <? length l)%nat;
      [apply preserves_throw | apply preserves_ret].
  - apply preserves_bind; [apply preserves_readArr |].
    intros l. destruct (i <? length l)%nat; [| apply preserves_ret].
    apply preserves_bind; [apply preserves_deref |]. intros s.
    apply preserves_bind; [apply Hb |]. intros _. apply IH.
Qed.
End Preserve.

Tactic Notation "rapply" uconstr(H) :=
  apply H; [typeclasses eauto | ..].


Create HintDb pres.

Ltac pres_step :=
  match goal with
  | |- preserves _ (bind _ _) => rapply preserves_bind; [| intros ?]
  | |- preserves _ (ret _) => rapply preserves_ret
  | |- preserves _ (throw _) => rapply preserves_throw
  | |- preserves _ get => rapply preserves_get
  | |- preserves _ (deref _) => rapply preserves_deref
  | |- preserves _ (when _ _) => rapply preserves_when
  | |- preserves _ (readSub _) => rapply preserves_readSub
  | |- preserves _ (readInv _) => rapply preserves_readInv
  | |- preserves _ (readComp _) => rapply preserves_readComp
  | |- preserves _ (readArr _) => rapply preserves_readArr
  | |- preserves _ (forEachLive _ _ _ _) =>
      rapply preserves_forEachLive; intros ?
  | |- preserves _ (match ?x with _ => _ end) => destruct x
  | |- preserves _ _ => solve [eauto with pres]
  end.
Ltac pres := repeat pres_step.
Ltac to_pres :=
  match goal with
  | |- ?R ?s (final (?m ?s)) => revert s; change (preserves R m)
  end.
Ltac by_pres :=
  match goal with
  | |- ?R ?s (final (?m ?s)) =>
      let H := fresh in assert (preserves R m) as H by pres; apply H
  end.

(** *** The clock is only read; invalidators stay, and their [mtime] never
    goes back *)

#[export] Instance mtime_grows_preorder : PreOrder mtime_grows.
Proof.
  split.
  - intros st i x Hx. exists x. split; [exact Hx | lia].
  - intros st1 st2 st3 H12 H23 i x Hx.
    destruct (H12 i x Hx) as (x2 & Hx2 & Hle2).
    destruct (H23 i x2 Hx2) as (x3 & Hx3 & Hle3).
    exists x3. split; [exact Hx3 | lia].
Qed.

#[export] Instance evolves_preorder : PreOrder evolves.
Proof.
  split.
  - intros st. split; reflexivity.
  - intros st1 st2 st3 [Hc12 H12] [Hc23 H23]. split.
    + congruence.
    + etransitivity; eassumption.
Qed.

Lemma evolves_same st st' :
  clock st' = clock st -> invalidators st' = invalidators st -> evolves st st'.
Proof.
  intros Hc E. split; [exact Hc |].
  intros i x Hx. exists x. rewrite E. split; [exact Hx | lia].
Qed.

Lemma evolves_insert st i y :
  (forall x, invalidators st !! i = Some x -> i_mtime x <= i_mtime y) ->
  evolves st (set_invalidators <[i := y]> st).
Proof.
  intros Hy. split; [reflexivity |]. intros j x Hx. simpl.
  destruct (decide (i = j)) as [-> | Hne].
  - exists y. rewrite lookup_insert_eq. split; [reflexivity | apply Hy, Hx].
  - exists x. rewrite lookup_insert_ne by exact Hne. split; [exact Hx | lia].
Qed.

Lemma evolves_writeSub s x : preserves evolves (writeSub s x).
Proof. intros st. apply evolves_same; reflexivity. Qed.
Lemma evolves_writeComp c x : preserves evolves (writeComp c x).
Proof. intros st. apply evolves_same; reflexivity. Qed.
Lemma evolves_writeArr a l : preserves evolves (writeArr a l).
Proof. intros st. apply evolves_same; reflexivity. Qed.
Lemma evolves_emit e : preserves evolves (emit e).
Proof. intros st. apply evolves_same; reflexivity. Qed.
Lemma evolves_updComp c f : preserves evolves (updComp c f).
Proof.
  unfold updComp. pres. apply evolves_writeComp.
Qed.
Lemma evolves_updSub s f : preserves evolves (updSub s f).
Proof. unfold updSub. pres. apply evolves_writeSub. Qed.
Lemma evolves_nextFrame f : preserves evolves (modify (set_nextFrameQueue f)).
Proof. intros st. apply evolves_same; reflexivity. Qed.
Lemma evolves_eachFrame f : preserves evolves (modify (set_eachFrameSet f)).
Proof. intros st. apply evolves_same; reflexivity. Qed.
Lemma evolves_newArr l : preserves evolves (newArr l).
Proof.
  unfold newArr. pres; apply evolves_writeArr.
Qed.

Lemma evolves_updInv i f :
  (forall x, i_mtime x <= i_mtime (f x)) -> preserves evolves (updInv i f).
Proof.
  intros Hf st. unfold updInv. rapply R_bind; [rapply preserves_readInv |].
  intros x st1 [-> Hx]%readInv_inv. apply evolves_insert.
  intros x0 Hx0. rewrite Hx in Hx0. injection Hx0 as <-. apply Hf.
Qed.

Lemma evolves_updInv_subscriptions i v :
  preserves evolves (updInv i (inv_with_subscriptions v)).
Proof. apply evolves_updInv. intros x. simpl. lia. Qed.
Lemma evolves_updInv_transient i v :
  preserves evolves (updInv i (inv_with_transientSubscriptions v)).
Proof. apply evolves_updInv. intros x. simpl. lia. Qed.

#[export] Hint Resolve evolves_writeSub evolves_writeComp
  evolves_writeArr evolves_emit evolves_updComp evolves_updSub
  evolves_nextFrame evolves_eachFrame evolves_newArr
  evolves_updInv_subscriptions evolves_updInv_transient : pres.

Section MtimeOps.
Variable DEBUG : bool.
Context {CF : ComponentFlags}.

Lemma evolves_addTo sl s : preserves evolves (addTo sl s).
Proof. unfold addTo. pres. Qed.
Lemma evolves_removeFrom msg sl s :
  preserves evolves (removeFrom DEBUG msg sl s).
Proof. unfold removeFrom. pres. Qed.
Hint Resolve evolves_addTo evolves_removeFrom : pres.

Lemma evolves_Invalidator_new : preserves evolves Invalidator_new.
Proof.
  intros st. unfold Invalidator_new.
  rapply R_bind; [rapply preserves_get |]. intros st0 st1 [= <- <-].
  rapply R_bind; [| intros; reflexivity].
  apply evolves_insert. intros x Hx.
  pose proof (is_fresh (dom (invalidators st))) as Hf.
  exfalso. apply Hf. apply elem_of_dom. eauto.
Qed.

Lemma evolves_hasSubscriptions i :
  preserves evolves (Invalidator_hasSubscriptions i).
Proof. unfold Invalidator_hasSubscriptions, slot_nonempty. pres. Qed.

Lemma evolves_addSubscription i s :
  preserves evolves (Invalidator_addSubscription i s).
Proof. unfold Invalidator_addSubscription. pres. Qed.

Lemma evolves_removeSubscription i s :
  preserves evolves (Invalidator_removeSubscription DEBUG i s).
Proof. unfold Invalidator_removeSubscription. pres. Qed.
Hint Resolve evolves_addSubscription evolves_removeSubscription : pres.

Lemma evolves_Component_removeSubscription c s :
  preserves evolves (Component_removeSubscription DEBUG c s).
Proof. unfold Component_removeSubscription. pres. Qed.
Hint Resolve evolves_Component_removeSubscription : pres.

Lemma evolves_cancelOne s : preserves evolves (cancelOne DEBUG s).
Proof. unfold cancelOne. pres. Qed.
Hint Resolve evolves_cancelOne : pres.

Lemma evolves_cancelAll sl : preserves evolves (cancelAll DEBUG sl).
Proof. unfold cancelAll. pres. Qed.
Hint Resolve evolves_cancelAll : pres.

Lemma evolves_cancelSubscriptions c :
  preserves evolves (Component_cancelSubscriptions DEBUG c).
Proof. unfold Component_cancelSubscriptions. pres. Qed.
Lemma evolves_cancelTransientSubscriptions c :
  preserves evolves (Component_cancelTransientSubscriptions DEBUG c).
Proof. unfold Component_cancelTransientSubscriptions. pres. Qed.
Hint Resolve evolves_cancelSubscriptions
  evolves_cancelTransientSubscriptions : pres.

Lemma evolves_Subscription_new f i x :
  preserves evolves (InvalidatorSubscription_new f i x).
Proof. unfold InvalidatorSubscription_new. pres. Qed.
Lemma evolves_cancel s :
  preserves evolves (InvalidatorSubscription_cancel DEBUG s).
Proof. unfold InvalidatorSubscription_cancel. pres. Qed.
Hint Resolve evolves_Subscription_new evolves_cancel : pres.

Lemma evolves_Component_invalidate c :
  preserves evolves (Component_invalidate DEBUG c).
Proof. unfold Component_invalidate. pres. Qed.
Lemma evolves_update c : preserves evolves (Component_update c).
Proof. unfold Component_update. pres. Qed.
Lemma evolves_start c :
  preserves evolves (Component_startUpdateEachFrame c).
Proof. unfold Component_startUpdateEachFrame. pres. Qed.
Lemma evolves_stop c :
  preserves evolves (Component_stopUpdateEachFrame c).
Proof. unfold Component_stopUpdateEachFrame. pres. Qed.
Lemma evolves_dispose c :
  preserves evolves (Component_dispose DEBUG c).
Proof. unfold Component_dispose. pres. Qed.
Lemma evolves_subscribe c i :
  preserves evolves (Component_subscribe c i).
Proof. unfold Component_subscribe. pres. Qed.
Lemma evolves_transientSubscribe c i :
  preserves evolves (Component_transientSubscribe c i).
Proof. unfold Component_transientSubscribe. pres. Qed.
Lemma evolves_Component_new f d p :
  preserves evolves (Component_new f d p).
Proof. unfold Component_new. pres. Qed.
Hint Resolve evolves_Component_invalidate evolves_Component_new : pres.
Lemma evolves_create d p : preserves evolves (Component_create d p).
Proof. unfold Component_create, runInit. pres. Qed.
Lemma evolves_mount d p : preserves evolves (Component_mount d p).
Proof. unfold Component_mount, runInit. pres. Qed.

Lemma evolves_runActions body :
  preserves evolves (runActions DEBUG body).
Proof.
  induction body as [| [s] body IH]; simpl; pres.
Qed.
Hint Resolve evolves_runActions : pres.

Lemma evolves_Subscription_invalidate s :
  preserves evolves (InvalidatorSubscription_invalidate DEBUG s).
Proof. unfold InvalidatorSubscription_invalidate. pres. Qed.
Hint Resolve evolves_Subscription_invalidate : pres.

Lemma evolves_notifyAll sl : preserves evolves (notifyAll DEBUG sl).
Proof. unfold notifyAll. pres. Qed.
Hint Resolve evolves_notifyAll : pres.

Lemma evolves_Invalidator_invalidate i :
  preserves evolves (Invalidator_invalidate DEBUG i).
Proof.
  intros st. unfold Invalidator_invalidate.
  rapply R_bind; [rapply preserves_get |]. intros st0 st1 [= <- <-].
  rapply R_bind; [rapply preserves_readInv |].
  intros x st1 [-> Hx]%readInv_inv.
  destruct (Z.ltb_spec (i_mtime x) (clock st)) as [Hlt | _];
    [| reflexivity].
  rapply R_bind.
  { rewrite (updInv_eq _ _ _ _ Hx). apply evolves_insert. intros x0 Hx0. rewrite Hx in Hx0.
    injection Hx0 as <-. simpl. lia. }
  intros _ st1 _. to_pres. pres.
Qed.
End MtimeOps.

(** *** Removal at an invalidator touches invalidators and arrays only *)

#[export] Instance inv_only_preorder : PreOrder inv_only.
Proof.
  split.
  - intros st. repeat split.
  - intros st1 st2 st3 (?&?&?&?&?&?) (?&?&?&?&?&?).
    repeat split; congruence.
Qed.

Lemma inv_only_writeArr a l : preserves inv_only (writeArr a l).
Proof. intros st. repeat split. Qed.
Lemma inv_only_updInv i f : preserves inv_only (updInv i f).
Proof.
  unfold updInv. pres. intros st. repeat split.
Qed.
#[export] Hint Resolve inv_only_writeArr inv_only_updInv : pres.

Section FrameOps.
Variable DEBUG : bool.
Context {CF : ComponentFlags}.

Lemma inv_only_removeFrom msg sl s :
  preserves inv_only (removeFrom DEBUG msg sl s).
Proof. unfold removeFrom. pres. Qed.
Hint Resolve inv_only_removeFrom : pres.
Lemma inv_only_removeSubscription i s :
  preserves inv_only (Invalidator_removeSubscription DEBUG i s).
Proof. unfold Invalidator_removeSubscription. pres. Qed.
Hint Resolve inv_only_removeSubscription : pres.
Lemma inv_only_cancelOne s : preserves inv_only (cancelOne DEBUG s).
Proof. unfold cancelOne. pres. Qed.
Hint Resolve inv_only_cancelOne : pres.
Lemma inv_only_cancelAll sl : preserves inv_only (cancelAll DEBUG sl).
Proof. unfold cancelAll. pres. Qed.

(** What a returning [cancelTransientSubscriptions] leaves of the
    component and of the scheduler. *)
Lemma cancelTransientSubscriptions_Done c st st' x :
  components st !! c = Some x ->
  Component_cancelTransientSubscriptions DEBUG c st = Done tt st' ->
  components st' =
    <[c := comp_with_transientSubscriptions SNull x]> (components st) /\
  nextFrameQueue st' = nextFrameQueue st /\
  eachFrameSet st' = eachFrameSet st /\
  trace st' = trace st /\
  clock st' = clock st /\
  subs st' = subs st.
Proof.
  intros Hx. unfold Component_cancelTransientSubscriptions.
  rewrite (bind_eq_Done _ _ _ _ _ (readComp_eq _ _ _ Hx)).
  intros ([] & st1 & H1 & H2)%bind_Done.
  pose proof (inv_only_cancelAll (c_transientSubscriptions x) st) as Hf.
  rewrite H1 in Hf. simpl in Hf. destruct Hf as (Hc & Hq & He & Hs & Hcs & Ht).
  rewrite (updComp_eq _ _ _ x) in H2 by (rewrite Hcs; exact Hx).
  injection H2 as <-. simpl. rewrite Hcs. repeat split; assumption.
Qed.

Lemma cancelSubscriptions_Done c st st' x :
  components st !! c = Some x ->
  Component_cancelSubscriptions DEBUG c st = Done tt st' ->
  components st' =
    <[c := comp_with_subscriptions SNull x]> (components st) /\
  nextFrameQueue st' = nextFrameQueue st /\
  eachFrameSet st' = eachFrameSet st /\
  trace st' = trace st /\
  clock st' = clock st /\
  subs st' = subs st.
Proof.
  intros Hx. unfold Component_cancelSubscriptions.
  rewrite (bind_eq_Done _ _ _ _ _ (readComp_eq _ _ _ Hx)).
  intros ([] & st1 & H1 & H2)%bind_Done.
  pose proof (inv_only_cancelAll (c_subscriptions x) st) as Hf.
  rewrite H1 in Hf. simpl in Hf. destruct Hf as (Hc & Hq & He & Hs & Hcs & Ht).
  rewrite (updComp_eq _ _ _ x) in H2 by (rewrite Hcs; exact Hx).
  injection H2 as <-. simpl. rewrite Hcs. repeat split; assumption.
Qed.

End FrameOps.

Section C4.
Variable DEBUG : bool.
Context {CF : ComponentFlags} {CFok : ComponentFlagsOk CF}.

Lemma invalidate_guard f :
  (js_and f (js_or DIRTY DISPOSED) =? 0) =
  negb (has_flag f DIRTY) && negb (has_flag f DISPOSED).
Proof. apply js_and_or_zero; [apply DIRTY_bit | apply DISPOSED_bit]. Qed.

Lemma Component_invalidate_noop st c x :
  components st !! c = Some x ->
  isDirty x || isDisposed x = true ->
  Component_invalidate DEBUG c st = Done tt st.
Proof.
  intros Hx Hd. unfold Component_invalidate.
  rewrite (bind_eq_Done _ _ _ _ _ (readComp_eq _ _ _ Hx)).
  rewrite invalidate_guard. unfold isDirty, isDisposed in Hd.
  destruct (has_flag (c_flags x) DIRTY), (has_flag (c_flags x) DISPOSED);
    simpl in *; try reflexivity; discriminate.
Qed.

Lemma Component_invalidate_Done st c x st1 :
  components st !! c = Some x ->
  isDirty x = false -> isDisposed x = false ->
  Component_invalidate DEBUG c st = Done tt st1 ->
  components st1 !! c =
    Some (comp_with_transientSubscriptions SNull
            (comp_with_flags (js_or (c_flags x) DIRTY) x)) /\
  nextFrameQueue st1 = nextFrameQueue st ++ [c] /\
  eachFrameSet st1 = eachFrameSet st /\
  trace st1 = trace st.
Proof.
  intros Hx Hd Hp. unfold Component_invalidate.
  rewrite (bind_eq_Done _ _ _ _ _ (readComp_eq _ _ _ Hx)).
  rewrite invalidate_guard. unfold isDirty, isDisposed in *.
  rewrite Hd, Hp. simpl.
  rewrite (bind_eq_Done _ _ _ _ _ (updComp_eq _ _ _ _ Hx)).
  intros ([] & st2 & H2 & H3)%bind_Done.
  eapply cancelTransientSubscriptions_Done in H2 as (Hcs & Hq & He & Ht & _);
    [| simpl; apply lookup_insert_eq].
  injection H3 as <-. simpl in *. rewrite Hcs, Hq, He, Ht.
  rewrite lookup_insert_eq. auto.
Qed.

End C4.

(** ** The lifecycle flags of a component *)

Section Flags.
Variable DEBUG : bool.
Context {CF : ComponentFlags} {CFok : ComponentFlagsOk CF}.

(** C4: [Component.invalidate()] on a component that is Dirty or Disposed
    returns with the heap unchanged; two calls in a row equal one; and on a
    component that is neither, a returning call registers the component once
    in the next-frame queue and a second call changes nothing. *)
Theorem Component_invalidate_collapses st c x :
  components st !! c = Some x ->
  (isDirty x || isDisposed x = true ->
     Component_invalidate DEBUG c st = Done tt st) /\
  (Component_invalidate DEBUG c;; Component_invalidate DEBUG c) st =
    Component_invalidate DEBUG c st /\
  (forall st1,
     isDirty x = false -> isDisposed x = false ->
     Component_invalidate DEBUG c st = Done tt st1 ->
     nextFrameQueue st1 = nextFrameQueue st ++ [c] /\
     Component_invalidate DEBUG c st1 = Done tt st1).
Proof.
  intros Hx.
  assert (forall st1, isDirty x = false -> isDisposed x = false ->
            Component_invalidate DEBUG c st = Done tt st1 ->
            nextFrameQueue st1 = nextFrameQueue st ++ [c] /\
            Component_invalidate DEBUG c st1 = Done tt st1) as Hclean.
  { intros st1 Hd Hp H1.
    destruct (Component_invalidate_Done DEBUG st c x st1 Hx Hd Hp H1)
      as (Hc1 & Hq & _).
    split; [exact Hq |].
    apply (Component_invalidate_noop DEBUG st1 c _ Hc1).
    unfold isDirty. simpl.
    rewrite has_flag_set by apply DIRTY_bit.
    rewrite bool_decide_eq_true_2 by reflexivity.
    rewrite orb_true_r. reflexivity. }
  split; [apply (Component_invalidate_noop DEBUG st c x Hx) |].
  split; [| exact Hclean].
  destruct (isDirty x || isDisposed x) eqn:Hd.
  - rewrite (bind_eq_Done _ _ _ tt st);
      [reflexivity | apply (Component_invalidate_noop DEBUG _ _ _ Hx Hd)].
  - apply orb_false_elim in Hd as [Hd Hp].
    destruct (Component_invalidate DEBUG c st) as [[] st1 | e st1] eqn:H1.
    + rewrite (bind_eq_Done _ _ _ tt st1 H1).
      apply (Hclean st1 Hd Hp eq_refl).
    + apply bind_eq_Thrown. exact H1.
Qed.

(** C5 (corrected): for a component whose descriptor has an [update]
    hook, [update()] calls the hook exactly when the flags contain the
    readiness mask; it then stamps [mtime] with the clock and clears Dirty;
    when the mask is not contained it returns with the heap unchanged. *)
Theorem Component_update_gated st c :
  (forall x, components st !! c = Some x ->
             d_update (c_descriptor x) <> None) ->
  update_contract st c.
Proof.
  intros Hhook x Hx. specialize (Hhook x Hx).
  unfold Component_update.
  rewrite (bind_eq_Done _ _ _ _ _ (readComp_eq _ _ _ Hx)).
  unfold ready. destruct (_ =? _); [| reflexivity].
  destruct (d_update (c_descriptor x)) as [f |]; [| congruence].
  set (x1 := comp_with_mtime (clock st) x).
  set (x2 := comp_with_flags (js_and (c_flags x1) (js_not DIRTY)) x1).
  set (st0 := set_trace (fun t => t ++ [EvHook f c]) st).
  exists (set_components <[c := x2]> st0).
  split.
  { unfold emit, modify. unfold bind at 1. unfold bind at 1, get.
    fold st0.
    rewrite (bind_eq_Done _ _ _ _ _ (updComp_eq _ _ st0 x Hx)).
    erewrite updComp_eq by (simpl; apply lookup_insert_eq).
    unfold set_components. simpl. rewrite insert_insert_eq. reflexivity. }
  simpl. split; [reflexivity |]. split; [reflexivity |].
  split; [| repeat split].
  intros x'. rewrite lookup_insert_eq. intros [= <-].
  split; [reflexivity |].
  unfold isDirty. simpl. rewrite has_flag_clear by apply DIRTY_bit.
  rewrite bool_decide_eq_true_2 by reflexivity. apply andb_false_r.
Qed.

(** C9: [update()] on a component whose flags contain the readiness mask
    and whose descriptor has no [update] hook throws at the call of the
    hook, before any write. *)
Theorem Component_update_null_hook st c x :
  components st !! c = Some x ->
  ready x = true ->
  d_update (c_descriptor x) = None ->
  Component_update c st = Thrown TypeError st.
Proof.
  intros Hx Hr Hn. unfold Component_update.
  rewrite (bind_eq_Done _ _ _ _ _ (readComp_eq _ _ _ Hx)).
  unfold ready in Hr. rewrite Hr, Hn. reflexivity.
Qed.

(** C10: [stopUpdateEachFrame()] clears the UpdateEachFrame bit and leaves
    every other flag and every other field of the component as it was, so
    InUpdateQueue stays set; a following [startUpdateEachFrame()] sets
    UpdateEachFrame again and registers nothing with the scheduler. *)
Theorem stopUpdateEachFrame_keeps_queue_flag st c x :
  components st !! c = Some x ->
  let x1 :=
    comp_with_flags (js_and (c_flags x) (js_not UPDATE_EACH_FRAME)) x in
  let st1 := set_components <[c := x1]> st in
  Component_stopUpdateEachFrame c st = Done tt st1 /\
  has_flag (c_flags x1) UPDATE_EACH_FRAME = false /\
  (forall m, single_bit m -> m <> UPDATE_EACH_FRAME ->
     has_flag (c_flags x1) m = has_flag (c_flags x) m) /\
  has_flag (c_flags x1) IN_UPDATE_QUEUE =
    has_flag (c_flags x) IN_UPDATE_QUEUE /\
  (has_flag (c_flags x) IN_UPDATE_QUEUE = true ->
   exists x2,
     Component_startUpdateEachFrame c st1 =
       Done tt (set_components <[c := x2]> st1) /\
     x2 = comp_with_flags (js_or (c_flags x1) UPDATE_EACH_FRAME) x1 /\
     has_flag (c_flags x2) UPDATE_EACH_FRAME = true /\
     has_flag (c_flags x2) IN_UPDATE_QUEUE = true /\
     eachFrameSet (set_components <[c := x2]> st1) = eachFrameSet st).
Proof.
  intros Hx x1 st1.
  assert (forall m, single_bit m -> m <> UPDATE_EACH_FRAME ->
            has_flag (c_flags x1) m = has_flag (c_flags x) m) as Hother.
  { intros m Hm Hne. subst x1. simpl.
    rewrite has_flag_clear by (apply UPDATE_EACH_FRAME_bit || exact Hm).
    rewrite bool_decide_eq_false_2 by congruence. apply andb_true_r. }
  assert (IN_UPDATE_QUEUE <> UPDATE_EACH_FRAME) as Hne.
  { intros E.
    pose proof (NoDup_lookup _ 4%nat 5%nat UPDATE_EACH_FRAME flags_distinct
                  eq_refl (f_equal Some E)).
    discriminate. }
  split.
  { unfold Component_stopUpdateEachFrame.
    rewrite (updComp_eq _ _ _ _ Hx). reflexivity. }
  split.
  { subst x1. simpl. rewrite has_flag_clear by apply UPDATE_EACH_FRAME_bit.
    rewrite bool_decide_eq_true_2 by reflexivity. apply andb_false_r. }
  split; [exact Hother |].
  split; [apply Hother; [apply IN_UPDATE_QUEUE_bit | exact Hne] |].
  intros Hq.
  set (x2 := comp_with_flags (js_or (c_flags x1) UPDATE_EACH_FRAME) x1).
  assert (has_flag (c_flags x2) IN_UPDATE_QUEUE = true) as Hq2.
  { subst x2. simpl.
    rewrite has_flag_set
      by (apply UPDATE_EACH_FRAME_bit || apply IN_UPDATE_QUEUE_bit).
    rewrite Hother, Hq by (apply IN_UPDATE_QUEUE_bit || exact Hne).
    reflexivity. }
  exists x2. split; [| split; [reflexivity | split; [| split]]].
  - unfold Component_startUpdateEachFrame.
    assert (components st1 !! c = Some x1) as Hx1
      by (subst st1; simpl; apply lookup_insert_eq).
    rewrite (bind_eq_Done _ _ _ _ _ (updComp_eq _ _ st1 x1 Hx1)).
    fold x2.
    rewrite (bind_eq_Done _ _ _ x2 (set_components <[c := x2]> st1))
      by (apply readComp_eq; simpl; apply lookup_insert_eq).
    unfold has_flag in Hq2. apply negb_true_iff in Hq2. rewrite Hq2.
    reflexivity.
  - subst x2. simpl.
    rewrite has_flag_set by apply UPDATE_EACH_FRAME_bit.
    rewrite bool_decide_eq_true_2 by reflexivity. apply orb_true_r.
  - exact Hq2.
  - reflexivity.
Qed.

End Flags.

(** ** Waves over quiet subscriptions *)

Lemma notified_app tr1 tr2 :
  notified (tr1 ++ tr2) = notified tr1 ++ notified tr2.
Proof. apply omap_app. Qed.

Section Wave.
Variable DEBUG : bool.
Context {CF : ComponentFlags} {CFok : ComponentFlagsOk CF}.

#[local] Instance calm_preorder : PreOrder calm.
Proof.
  split.
  - intros st. repeat split; auto.
  - intros st1 st2 st3 (?&?&?&?&H12) (?&?&?&?&H23).
    repeat split; try congruence. auto.
Qed.

Lemma quiet_ext st st' s :
  subs st' = subs st -> components st' = components st ->
  quiet st' s = quiet st s.
Proof. intros Hs Hc. unfold quiet. rewrite Hs, Hc. reflexivity. Qed.

Lemma quiet_notify st s :
  quiet st s = true ->
  exists st',
    InvalidatorSubscription_invalidate DEBUG s st = Done tt st' /\
    calm st st' /\
    notified (trace st') = notified (trace st) ++ [s].
Proof.
  unfold quiet. destruct (subs st !! s) as [sub |] eqn:Hs; [| discriminate].
  intros Hq. unfold InvalidatorSubscription_invalidate.
  unfold emit, modify. unfold bind at 1.
  set (st0 := set_trace (fun t => t ++ [EvNotify s]) st).
  rewrite (bind_eq_Done _ _ _ sub st0) by (apply readSub_eq; exact Hs).
  destruct (isComponent sub), (s_subscriber sub) as [c | f body];
    try discriminate.
  - (* a component *)
    destruct (components st !! c) as [x |] eqn:Hx; [| discriminate].
    destruct (isDirty x || isDisposed x) eqn:Hd.
    + exists st0. split; [| split].
      * apply (Component_invalidate_noop DEBUG st0 c x Hx Hd).
      * repeat split. intros t Ht. rewrite <- Ht. apply quiet_ext; reflexivity.
      * subst st0. simpl. rewrite notified_app. reflexivity.
    + simpl in Hq. destruct (c_transientSubscriptions x) eqn:Htr;
        try discriminate.
      apply orb_false_elim in Hd as [Hd Hp].
      set (x1 := comp_with_flags (js_or (c_flags x) DIRTY) x).
      set (x2 := comp_with_transientSubscriptions SNull x1).
      exists (set_nextFrameQueue (fun q => q ++ [c])
                (set_components <[c := x2]>
                   (set_components <[c := x1]> st0))).
      split; [| split].
      * unfold Component_invalidate.
        rewrite (bind_eq_Done _ _ _ x st0) by (apply readComp_eq; exact Hx).
        rewrite invalidate_guard. unfold isDirty, isDisposed in Hd, Hp.
        rewrite Hd, Hp. simpl.
        rewrite (bind_eq_Done _ _ _ _ _ (updComp_eq _ _ st0 x Hx)).
        fold x1. unfold Component_cancelTransientSubscriptions.
        set (st1 := set_components <[c := x1]> st0).
        assert (components st1 !! c = Some x1) as Hx1
          by apply lookup_insert_eq.
        rewrite (bind_eq_Done _ _ _ tt
                   (set_components <[c := x2]> st1)); [reflexivity |].
        rewrite (bind_eq_Done _ _ _ x1 st1)
          by (apply readComp_eq; exact Hx1).
        replace (c_transientSubscriptions x1) with SNull
          by (subst x1; simpl; congruence).
        simpl. unfold bind, ret.
        rewrite (updComp_eq _ _ st1 x1 Hx1). reflexivity.
      * repeat split. intros t. unfold quiet. simpl.
        destruct (subs st !! t) as [subt |]; [| discriminate].
        destruct (isComponent subt), (s_subscriber subt) as [c' | f' body'];
          try discriminate; [| auto].
        rewrite insert_insert_eq.
        destruct (decide (c = c')) as [<- | Hne].
        -- rewrite lookup_insert_eq. intros _. subst x2. simpl.
           apply orb_true_r.
        -- rewrite lookup_insert_ne by exact Hne. auto.
      * simpl. rewrite notified_app. reflexivity.
  - (* a plain function that calls nothing *)
    destruct body as [| ? ?]; [| discriminate].
    exists (set_trace (fun t => t ++ [EvCall f]) st0).
    split; [reflexivity |]. split.
    + repeat split. intros t Ht. rewrite <- Ht. apply quiet_ext; reflexivity.
    + simpl. rewrite !notified_app. simpl. rewrite app_nil_r. reflexivity.
Qed.

Lemma quiet_loop a l fuel i st :
  arrays st !! a = Some l ->
  (forall s, s ∈ l -> quiet st s = true) ->
  (length l <= i + fuel)%nat ->
  exists st',
    forEachLive (InvalidatorSubscription_invalidate DEBUG) fuel a i st
      = Done tt st' /\
    calm st st' /\
    notified (trace st') = notified (trace st) ++ drop i l.
Proof.
  revert i st. induction fuel as [| fuel IH]; intros i st Ha Hq Hlen.
  - exists st. simpl.
    rewrite (bind_eq_Done _ _ _ _ _ (readArr_eq _ _ _ Ha)).
    destruct (Nat.ltb_spec i (length l)); [lia |].
    split; [reflexivity |]. split; [reflexivity |].
    rewrite drop_ge by lia. rewrite app_nil_r. reflexivity.
  - simpl. rewrite (bind_eq_Done _ _ _ _ _ (readArr_eq _ _ _ Ha)).
    destruct (Nat.ltb_spec i (length l)) as [Hi | Hi].
    + destruct (lookup_lt_is_Some_2 l i Hi) as [s Hs].
      rewrite Hs. simpl.
      unfold bind at 1. unfold ret at 1.
      destruct (quiet_notify st s) as (st1 & H1 & Hcalm & Hn1).
      { apply Hq. eapply list_elem_of_lookup_2. exact Hs. }
      rewrite (bind_eq_Done _ _ _ tt st1 H1).
      destruct Hcalm as (Hc & Hsu & Hin & Har & Hqq).
      destruct (IH (S i) st1) as (st2 & H2 & Hcalm2 & Hn2).
      { rewrite Har. exact Ha. }
      { intros t Ht. apply Hqq, Hq, Ht. }
      { lia. }
      exists st2. split; [exact H2 |]. split.
      * etransitivity; [| exact Hcalm2]. repeat split; auto.
      * rewrite Hn2, Hn1, <- app_assoc. simpl.
        rewrite (drop_S l s i Hs). reflexivity.
    + exists st. split; [reflexivity |]. split; [reflexivity |].
      rewrite drop_ge by lia. rewrite app_nil_r. reflexivity.
Qed.

Lemma quiet_notifyAll sl l st :
  contents st sl = Some l ->
  (forall s, s ∈ l -> quiet st s = true) ->
  exists st',
    notifyAll DEBUG sl st = Done tt st' /\
    calm st st' /\
    notified (trace st') = notified (trace st) ++ l.
Proof.
  intros Hc Hq. destruct sl as [| s | a]; simpl in Hc.
  - injection Hc as <-. exists st. rewrite app_nil_r.
    split; [reflexivity |]. split; reflexivity.
  - injection Hc as <-. apply quiet_notify. apply Hq. left.
  - simpl. rewrite (bind_eq_Done _ _ _ _ _ (readArr_eq _ _ _ Hc)).
    destruct (quiet_loop a l (length l) 0 st Hc Hq ltac:(lia))
      as (st' & H1 & Hcalm & Hn).
    exists st'. rewrite drop_0 in Hn. auto.
Qed.

(** A wave over quiet subscriptions. *)
Lemma quiet_wave st i x ld lt :
  invalidators st !! i = Some x ->
  i_mtime x < clock st ->
  contents st (i_subscriptions x) = Some ld ->
  contents st (i_transientSubscriptions x) = Some lt ->
  (forall s, s ∈ ld ++ lt -> quiet st s = true) ->
  exists st',
    Invalidator_invalidate DEBUG i st = Done tt st' /\
    invalidators st' =
      <[i := mkInv (clock st) (i_subscriptions x) SNull]> (invalidators st) /\
    notified (trace st') = notified (trace st) ++ ld ++ lt /\
    clock st' = clock st /\ subs st' = subs st /\ arrays st' = arrays st.
Proof.
  intros Hx Hlt Hd Ht Hq. unfold Invalidator_invalidate.
  unfold bind at 1. unfold get.
  rewrite (bind_eq_Done _ _ _ _ _ (readInv_eq _ _ _ Hx)).
  apply Z.ltb_lt in Hlt. rewrite Hlt.
  rewrite (bind_eq_Done _ _ _ _ _ (updInv_eq _ _ _ _ Hx)).
  set (x1 := inv_with_mtime (clock st) x).
  set (st1 := set_invalidators <[i := x1]> st).
  destruct (quiet_notifyAll (i_subscriptions x) ld st1)
    as (st2 & H2 & (Hc2 & Hs2 & Hi2 & Ha2 & Hq2) & Hn2).
  { destruct (i_subscriptions x); exact Hd. }
  { intros s Hs. rewrite (quiet_ext st st1) by reflexivity.
    apply Hq. apply elem_of_app. left. exact Hs. }
  rewrite (bind_eq_Done _ _ _ tt st2 H2).
  assert (invalidators st2 !! i = Some x1) as Hx2
    by (rewrite Hi2; apply lookup_insert_eq).
  rewrite (bind_eq_Done _ _ _ _ _ (readInv_eq _ _ _ Hx2)).
  change (i_transientSubscriptions x1) with (i_transientSubscriptions x).
  assert (forall s, s ∈ lt -> quiet st2 s = true) as Hqt.
  { intros s Hs. apply Hq2. rewrite (quiet_ext st st1) by reflexivity.
    apply Hq. apply elem_of_app. right. exact Hs. }
  set (x3 := inv_with_transientSubscriptions SNull x1).
  set (st3 := set_invalidators <[i := x3]> st2).
  assert (exists st',
            (updInv i (inv_with_transientSubscriptions SNull);;
             notifyAll DEBUG (i_transientSubscriptions x)) st2 = Done tt st' /\
            invalidators st' = <[i := x3]> (invalidators st2) /\
            notified (trace st') = notified (trace st2) ++ lt /\
            clock st' = clock st2 /\ subs st' = subs st2 /\
            arrays st' = arrays st2) as (st4 & H4 & Hi4 & Hn4 & Hc4 & Hs4 & Ha4).
  { rewrite (bind_eq_Done _ _ _ _ _ (updInv_eq _ _ _ _ Hx2)).
    fold x3. fold st3.
    destruct (quiet_notifyAll (i_transientSubscriptions x) lt st3)
      as (st4 & H4 & (Hc4 & Hs4 & Hi4 & Ha4 & _) & Hn4).
    { destruct (i_transientSubscriptions x) eqn:E; simpl in *;
        try exact Ht. rewrite Ha2. exact Ht. }
    { intros s Hs. rewrite (quiet_ext st2 st3) by reflexivity.
      apply Hqt, Hs. }
    exists st4. repeat split; assumption. }
  assert (<[i := x3]> (invalidators st2) =
          <[i := mkInv (clock st) (i_subscriptions x) SNull]>
            (invalidators st)) as Hfin.
  { rewrite Hi2. subst st1. simpl. rewrite insert_insert_eq. reflexivity. }
  destruct (i_transientSubscriptions x) eqn:Etr.
  - (* no transient subscription *)
    simpl in Ht. injection Ht as <-.
    exists st2. split; [reflexivity |].
    rewrite Hi2, Hn2, Hc2, Hs2, Ha2, app_nil_r.
    repeat split. subst st1 x1. simpl. unfold inv_with_mtime.
    rewrite Etr. reflexivity.
  - exists st4. split; [exact H4 |].
    rewrite Hi4, Hfin, Hn4, Hn2, Hc4, Hc2, Hs4, Hs2, Ha4, Ha2, app_assoc.
    repeat split.
  - exists st4. split; [exact H4 |].
    rewrite Hi4, Hfin, Hn4, Hn2, Hc4, Hc2, Hs4, Hs2, Ha4, Ha2, app_assoc.
    repeat split.
Qed.

End Wave.

(** ** Arrays: [indexOf] and the swap with the popped element *)

Lemma indexOf_lookup s l k : indexOf s l = Some k -> l !! k = Some s.
Proof.
  revert k. induction l as [| y l IH]; intros k; simpl; [discriminate |].
  destruct (decide (y = s)) as [-> | Hne].
  - intros [= <-]. reflexivity.
  - destruct (indexOf s l) as [j |]; simpl; [| discriminate].
    intros [= <-]. simpl. apply IH. reflexivity.
Qed.

Lemma indexOf_lt s l k : indexOf s l = Some k -> (k < length l)%nat.
Proof. intros H. eapply lookup_lt_Some, indexOf_lookup, H. Qed.

Lemma indexOf_None s l : indexOf s l = None <-> s ∉ l.
Proof.
  induction l as [| y l IH]; simpl.
  - split; [intros _; apply not_elem_of_nil | reflexivity].
  - destruct (decide (y = s)) as [-> | Hne].
    + split; [discriminate |]. intros H. exfalso. apply H. left.
    + rewrite not_elem_of_cons. destruct (indexOf s l); simpl.
      * split; [discriminate |]. intros [_ H]. apply IH in H. discriminate.
      * split; [| reflexivity]. intros _. split; [congruence |].
        apply IH. reflexivity.
Qed.

Lemma indexOf_elem s l : s ∈ l -> exists k, indexOf s l = Some k.
Proof.
  intros Hin. destruct (indexOf s l) as [k |] eqn:E; [eauto |].
  apply indexOf_None in E. contradiction.
Qed.

Lemma indexOf_is_elem s l k : indexOf s l = Some k -> s ∈ l.
Proof. intros H. eapply list_elem_of_lookup_2, indexOf_lookup, H. Qed.

Lemma last_snoc_inv (l : list sub_id) :
  l = [] \/ exists l0 z, l = l0 ++ [z].
Proof.
  destruct (last l) as [z |] eqn:E.
  - right. apply last_Some in E as [l0 ->]. eauto.
  - left. apply last_None in E. exact E.
Qed.

Lemma swap_pop_snoc (l0 : list sub_id) z k :
  swap_pop (l0 ++ [z]) (Some k) =
  if decide (k < length l0)%nat then <[k := z]> l0 else l0 ++ [z].
Proof.
  unfold swap_pop. rewrite last_snoc, removelast_last. reflexivity.
Qed.

Lemma length_swap_pop l i : (length (swap_pop l i) <= length l)%nat.
Proof.
  destruct (last_snoc_inv l) as [-> | (l0 & z & ->)].
  - destruct i; simpl; lia.
  - destruct i as [k |].
    + rewrite swap_pop_snoc. destruct (decide _).
      * rewrite length_insert, length_app. simpl. lia.
      * lia.
    + unfold swap_pop. rewrite removelast_last, length_app. simpl. lia.
Qed.

(** The other subscriptions stay in the array. *)
Lemma swap_pop_elem_other l s k t :
  indexOf s l = Some k -> t ∈ l -> t <> s -> t ∈ swap_pop l (Some k).
Proof.
  intros Hk Ht Hne.
  destruct (last_snoc_inv l) as [-> | (l0 & z & ->)]; [discriminate |].
  rewrite swap_pop_snoc. destruct (decide (k < length l0)%nat) as [Hlt | _];
    [| exact Ht].
  apply indexOf_lookup in Hk. rewrite lookup_app_l in Hk by exact Hlt.
  apply elem_of_app in Ht as [Ht | Ht].
  - apply list_elem_of_lookup in Ht as [j Hj].
    apply list_elem_of_lookup. exists j.
    rewrite list_lookup_insert_ne; [exact Hj |].
    intros ->. rewrite Hk in Hj. congruence.
  - apply list_elem_of_singleton in Ht as ->.
    apply list_elem_of_lookup. exists k.
    apply list_lookup_insert_eq. exact Hlt.
Qed.

(** The swap removes the subscription when it is not the last element. *)
Lemma swap_pop_removes l s k :
  NoDup l -> indexOf s l = Some k -> (S k < length l)%nat ->
  NoDup (swap_pop l (Some k)) /\
  (forall t, t ∈ swap_pop l (Some k) <-> t ∈ l /\ t <> s).
Proof.
  intros Hnd Hk Hlt.
  destruct (last_snoc_inv l) as [-> | (l0 & z & ->)]; [discriminate |].
  rewrite length_app in Hlt. simpl in Hlt.
  rewrite swap_pop_snoc. rewrite decide_True by lia.
  apply indexOf_lookup in Hk. rewrite lookup_app_l in Hk by lia.
  rewrite insert_take_drop by lia.
  pose proof (take_drop_middle l0 k s Hk) as E. clear Hk Hlt.
  revert E Hnd. generalize (take k l0) (drop (S k) l0). intros l1 l2 <- Hnd.
  rewrite <- app_assoc in Hnd. simpl in Hnd.
  apply NoDup_app in Hnd as (Hnd1 & Hd1 & Hnd2).
  apply NoDup_cons in Hnd2 as (Hs2 & Hnd2).
  apply NoDup_app in Hnd2 as (Hnd2 & Hd2 & _).
  assert (forall t, t ∈ l1 -> t <> s /\ (t ∉ l2) /\ t <> z) as Hd1'.
  { intros t Ht. specialize (Hd1 t Ht).
    rewrite elem_of_cons, elem_of_app, list_elem_of_singleton in Hd1.
    tauto. }
  assert ((s ∉ l2) /\ s <> z) as [Hs2l Hsz].
  { rewrite elem_of_app, list_elem_of_singleton in Hs2. tauto. }
  assert (z ∉ l2) as Hz2.
  { intros Hz. apply (Hd2 z Hz). apply list_elem_of_singleton. reflexivity. }
  split.
  - apply NoDup_app. split; [exact Hnd1 |]. split.
    + intros t Ht1 Ht2. destruct (Hd1' t Ht1) as (_ & Hn2 & Hnz).
      apply elem_of_cons in Ht2 as [-> | Ht2]; contradiction.
    + apply NoDup_cons. split; assumption.
  - intros t.
    rewrite !elem_of_app, !elem_of_cons, elem_of_nil.
    split.
    + intros [Ht | [-> | Ht]].
      * destruct (Hd1' t Ht) as (Hns & _). tauto.
      * split; [tauto | congruence].
      * split; [tauto |]. intros ->. contradiction.
    + intros [[[Ht | [-> | Ht]] | [-> | []]] Hne]; tauto.
Qed.

(** The slip: when the subscription is the last of several, the popped
    value is stored back one past the new end, and the array is as before. *)
Lemma swap_pop_last l s k :
  indexOf s l = Some k -> S k = length l -> swap_pop l (Some k) = l.
Proof.
  intros Hk Hlen.
  destruct (last_snoc_inv l) as [-> | (l0 & z & ->)]; [discriminate |].
  rewrite length_app in Hlen. simpl in Hlen.
  rewrite swap_pop_snoc. rewrite decide_False by lia. reflexivity.
Qed.

(** ** Handlers never write [mtime] *)

#[export] Instance mtime_kept_preorder : PreOrder mtime_kept.
Proof.
  split.
  - intros st i x Hx. exists x. auto.
  - intros st1 st2 st3 H12 H23 i x Hx.
    destruct (H12 i x Hx) as (x2 & Hx2 & Hm2).
    destruct (H23 i x2 Hx2) as (x3 & Hx3 & Hm3).
    exists x3. split; [exact Hx3 | congruence].
Qed.

Lemma mtime_kept_same st st' :
  invalidators st' = invalidators st -> mtime_kept st st'.
Proof. intros E i x Hx. exists x. rewrite E. auto. Qed.

Lemma mtime_kept_writeSub s x : preserves mtime_kept (writeSub s x).
Proof. intros st. apply mtime_kept_same. reflexivity. Qed.
Lemma mtime_kept_writeComp c x : preserves mtime_kept (writeComp c x).
Proof. intros st. apply mtime_kept_same. reflexivity. Qed.
Lemma mtime_kept_writeArr a l : preserves mtime_kept (writeArr a l).
Proof. intros st. apply mtime_kept_same. reflexivity. Qed.
Lemma mtime_kept_emit e : preserves mtime_kept (emit e).
Proof. intros st. apply mtime_kept_same. reflexivity. Qed.
Lemma mtime_kept_nextFrame f :
  preserves mtime_kept (modify (set_nextFrameQueue f)).
Proof. intros st. apply mtime_kept_same. reflexivity. Qed.
#[export] Hint Resolve mtime_kept_writeSub mtime_kept_writeComp
  mtime_kept_writeArr mtime_kept_emit mtime_kept_nextFrame : pres.
Lemma mtime_kept_updSub s f : preserves mtime_kept (updSub s f).
Proof. unfold updSub. pres. Qed.
Lemma mtime_kept_updComp c f : preserves mtime_kept (updComp c f).
Proof. unfold updComp. pres. Qed.
#[export] Hint Resolve mtime_kept_updSub mtime_kept_updComp : pres.

(** A write to a field of an invalidator other than [mtime]. *)
Lemma mtime_kept_updInv i f :
  (forall x, i_mtime (f x) = i_mtime x) ->
  preserves mtime_kept (updInv i f).
Proof.
  intros Hf st. unfold updInv. rapply R_bind; [rapply preserves_readInv |].
  intros x st1 [-> Hx]%readInv_inv j y Hy. simpl.
  destruct (decide (i = j)) as [<- | Hne].
  - rewrite lookup_insert_eq. rewrite Hx in Hy. injection Hy as <-.
    eexists. split; [reflexivity | apply Hf].
  - rewrite lookup_insert_ne by exact Hne. exists y. auto.
Qed.

Lemma mtime_kept_updInv_subscriptions i v :
  preserves mtime_kept (updInv i (inv_with_subscriptions v)).
Proof. apply mtime_kept_updInv. reflexivity. Qed.
Lemma mtime_kept_updInv_transientSubscriptions i v :
  preserves mtime_kept (updInv i (inv_with_transientSubscriptions v)).
Proof. apply mtime_kept_updInv. reflexivity. Qed.
#[export] Hint Resolve mtime_kept_updInv_subscriptions
  mtime_kept_updInv_transientSubscriptions : pres.

Section Fade.
Variable DEBUG : bool.
Context {CF : ComponentFlags}.

Lemma mtime_kept_removeFrom msg sl s :
  preserves mtime_kept (removeFrom DEBUG msg sl s).
Proof. unfold removeFrom. pres. Qed.
Hint Resolve mtime_kept_removeFrom : pres.
Lemma mtime_kept_removeSubscription i s :
  preserves mtime_kept (Invalidator_removeSubscription DEBUG i s).
Proof. unfold Invalidator_removeSubscription. pres. Qed.
Hint Resolve mtime_kept_removeSubscription : pres.
Lemma mtime_kept_Component_removeSubscription c s :
  preserves mtime_kept (Component_removeSubscription DEBUG c s).
Proof. unfold Component_removeSubscription. pres. Qed.
Hint Resolve mtime_kept_Component_removeSubscription : pres.
Lemma mtime_kept_cancelOne s : preserves mtime_kept (cancelOne DEBUG s).
Proof. unfold cancelOne. pres. Qed.
Hint Resolve mtime_kept_cancelOne : pres.
Lemma mtime_kept_cancelAll sl : preserves mtime_kept (cancelAll DEBUG sl).
Proof. unfold cancelAll. pres. Qed.
Hint Resolve mtime_kept_cancelAll : pres.
Lemma mtime_kept_cancelTransientSubscriptions c :
  preserves mtime_kept (Component_cancelTransientSubscriptions DEBUG c).
Proof. unfold Component_cancelTransientSubscriptions. pres. Qed.
Lemma mtime_kept_cancel s :
  preserves mtime_kept (InvalidatorSubscription_cancel DEBUG s).
Proof. unfold InvalidatorSubscription_cancel. pres. Qed.
Hint Resolve mtime_kept_cancelTransientSubscriptions mtime_kept_cancel
  : pres.
Lemma mtime_kept_Component_invalidate c :
  preserves mtime_kept (Component_invalidate DEBUG c).
Proof. unfold Component_invalidate. pres. Qed.
Lemma mtime_kept_runActions body :
  preserves mtime_kept (runActions DEBUG body).
Proof. induction body as [| [s] body IH]; simpl; pres. Qed.
Hint Resolve mtime_kept_Component_invalidate mtime_kept_runActions : pres.
Lemma mtime_kept_Subscription_invalidate s :
  preserves mtime_kept (InvalidatorSubscription_invalidate DEBUG s).
Proof. unfold InvalidatorSubscription_invalidate. pres. Qed.
Hint Resolve mtime_kept_Subscription_invalidate : pres.
Lemma mtime_kept_notifyAll sl : preserves mtime_kept (notifyAll DEBUG sl).
Proof. unfold notifyAll. pres. Qed.

(** A call with [mtime < now] leaves the invalidator stamped with the
    clock, whether it returns or throws. *)
Lemma Invalidator_invalidate_stamped st i x :
  invalidators st !! i = Some x ->
  i_mtime x < clock st ->
  exists x',
    invalidators (final (Invalidator_invalidate DEBUG i st)) !! i
      = Some x' /\
    i_mtime x' = clock st.
Proof.
  intros Hx Hlt.
  assert (exists m, preserves mtime_kept m /\
            Invalidator_invalidate DEBUG i st = m (stamped i x st))
    as (m & Hm & ->).
  { eexists. split; [| unfold Invalidator_invalidate].
    2: { unfold bind at 1. unfold get.
         rewrite (bind_eq_Done _ _ _ _ _ (readInv_eq _ _ _ Hx)).
         apply Z.ltb_lt in Hlt. rewrite Hlt.
         rewrite (bind_eq_Done _ _ _ _ _ (updInv_eq _ _ _ _ Hx)).
         reflexivity. }
    pres; auto using mtime_kept_notifyAll with pres. }
  destruct (Hm (stamped i x st) i (inv_with_mtime (clock st) x))
    as (x' & Hx' & Hm').
  { apply lookup_insert_eq. }
  exists x'. split; [exact Hx' | exact Hm'].
Qed.

End Fade.

(** ** Waves whose handlers leave the iterated set alone *)

(** *** Only the loops of a wave notify *)

#[export] Instance notified_kept_preorder : PreOrder notified_kept.
Proof.
  split.
  - intros st. reflexivity.
  - intros st1 st2 st3 H12 H23. unfold notified_kept in *. congruence.
Qed.

Lemma notified_kept_same st st' : trace st' = trace st -> notified_kept st st'.
Proof. intros E. unfold notified_kept. rewrite E. reflexivity. Qed.

Lemma notified_kept_writeSub s x : preserves notified_kept (writeSub s x).
Proof. intros st. apply notified_kept_same. reflexivity. Qed.
Lemma notified_kept_writeInv i x : preserves notified_kept (writeInv i x).
Proof. intros st. apply notified_kept_same. reflexivity. Qed.
Lemma notified_kept_writeComp c x : preserves notified_kept (writeComp c x).
Proof. intros st. apply notified_kept_same. reflexivity. Qed.
Lemma notified_kept_writeArr a l : preserves notified_kept (writeArr a l).
Proof. intros st. apply notified_kept_same. reflexivity. Qed.
Lemma notified_kept_nextFrame f :
  preserves notified_kept (modify (set_nextFrameQueue f)).
Proof. intros st. apply notified_kept_same. reflexivity. Qed.
Lemma notified_kept_EvCall f : preserves notified_kept (emit (EvCall f)).
Proof.
  intros st. unfold notified_kept. simpl. rewrite notified_app. simpl.
  apply app_nil_r.
Qed.
#[export] Hint Resolve notified_kept_writeSub notified_kept_writeInv
  notified_kept_writeComp notified_kept_writeArr notified_kept_nextFrame
  notified_kept_EvCall : pres.
Lemma notified_kept_updSub s f : preserves notified_kept (updSub s f).
Proof. unfold updSub. pres. Qed.
Lemma notified_kept_updInv i f : preserves notified_kept (updInv i f).
Proof. unfold updInv. pres. Qed.
Lemma notified_kept_updComp c f : preserves notified_kept (updComp c f).
Proof. unfold updComp. pres. Qed.
#[export] Hint Resolve notified_kept_updSub notified_kept_updInv
  notified_kept_updComp : pres.

#[export] Instance notified_grows_preorder : PreOrder notified_grows.
Proof.
  split.
  - intros st. exists []. rewrite app_nil_r. reflexivity.
  - intros st1 st2 st3 [m2 H2] [m3 H3]. exists (m2 ++ m3).
    rewrite H3, H2, app_assoc. reflexivity.
Qed.

Lemma notified_grows_same st st' :
  trace st' = trace st -> notified_grows st st'.
Proof. intros E. exists []. rewrite E, app_nil_r. reflexivity. Qed.

Lemma notified_grows_updInv i f : preserves notified_grows (updInv i f).
Proof.
  intros st. exists []. rewrite app_nil_r. apply notified_kept_updInv.
Qed.
#[export] Hint Resolve notified_grows_updInv : pres.

Section Keep.
Variable DEBUG : bool.
Context {CF : ComponentFlags}.

Lemma notified_kept_removeFrom msg sl s :
  preserves notified_kept (removeFrom DEBUG msg sl s).
Proof. unfold removeFrom. pres. Qed.
Hint Resolve notified_kept_removeFrom : pres.
Lemma notified_kept_removeSubscription i s :
  preserves notified_kept (Invalidator_removeSubscription DEBUG i s).
Proof. unfold Invalidator_removeSubscription. pres. Qed.
Hint Resolve notified_kept_removeSubscription : pres.
Lemma notified_kept_Component_removeSubscription c s :
  preserves notified_kept (Component_removeSubscription DEBUG c s).
Proof. unfold Component_removeSubscription. pres. Qed.
Hint Resolve notified_kept_Component_removeSubscription : pres.
Lemma notified_kept_cancelOne s : preserves notified_kept (cancelOne DEBUG s).
Proof. unfold cancelOne. pres. Qed.
Hint Resolve notified_kept_cancelOne : pres.
Lemma notified_kept_cancelAll sl :
  preserves notified_kept (cancelAll DEBUG sl).
Proof. unfold cancelAll. pres. Qed.
Hint Resolve notified_kept_cancelAll : pres.
Lemma notified_kept_cancelTransientSubscriptions c :
  preserves notified_kept (Component_cancelTransientSubscriptions DEBUG c).
Proof. unfold Component_cancelTransientSubscriptions. pres. Qed.
Lemma notified_kept_cancel s :
  preserves notified_kept (InvalidatorSubscription_cancel DEBUG s).
Proof. unfold InvalidatorSubscription_cancel. pres. Qed.
Hint Resolve notified_kept_cancelTransientSubscriptions notified_kept_cancel
  : pres.
Lemma notified_kept_Component_invalidate c :
  preserves notified_kept (Component_invalidate DEBUG c).
Proof. unfold Component_invalidate. pres. Qed.
Lemma notified_kept_runActions body :
  preserves notified_kept (runActions DEBUG body).
Proof. induction body as [| [s] body IH]; simpl; pres. Qed.
Hint Resolve notified_kept_Component_invalidate notified_kept_runActions
  : pres.

(** A notification, returning or throwing, is the one call of
    [invalidate()] on a subscription that it makes. *)
Lemma notified_Subscription_invalidate s st :
  notified (trace (final (InvalidatorSubscription_invalidate DEBUG s st)))
  = notified (trace st) ++ [s].
Proof.
  unfold InvalidatorSubscription_invalidate.
  unfold bind at 1. unfold emit, modify.
  set (st0 := set_trace (fun t => t ++ [EvNotify s]) st).
  match goal with
  | |- notified (trace (final (?m st0))) = _ =>
      assert (preserves notified_kept m) as Hm by pres;
      rewrite (Hm st0)
  end.
  subst st0. simpl. apply notified_app.
Qed.

Lemma notified_grows_Subscription_invalidate s :
  preserves notified_grows (InvalidatorSubscription_invalidate DEBUG s).
Proof.
  intros st. exists [s]. apply notified_Subscription_invalidate.
Qed.
Hint Resolve notified_grows_Subscription_invalidate : pres.
Lemma notified_grows_notifyAll sl :
  preserves notified_grows (notifyAll DEBUG sl).
Proof. unfold notifyAll. pres. Qed.

(** *** The loop over the live array, when the array is left alone *)

Section Watch.
Context {O : Type} `{EqDecision O}.
Variable watch : State -> O.

Lemma notifyKeeping_cons s rest st st' :
  notifyKeeping DEBUG watch (s :: rest) st = Some st' ->
  exists st1,
    InvalidatorSubscription_invalidate DEBUG s st = Done tt st1 /\
    watch st1 = watch st /\
    notifyKeeping DEBUG watch rest st1 = Some st'.
Proof.
  simpl.
  destruct (InvalidatorSubscription_invalidate DEBUG s st)
    as [[] st1 | e st1]; [| discriminate].
  destruct (decide (watch st1 = watch st)) as [E |]; [| discriminate].
  intros H. exists st1. auto.
Qed.

Lemma notifyKeeping_loop a l fuel i st st' :
  (forall h h', watch h' = watch h -> arrays h' !! a = arrays h !! a) ->
  arrays st !! a = Some l ->
  (length l <= i + fuel)%nat ->
  notifyKeeping DEBUG watch (drop i l) st = Some st' ->
  forEachLive (InvalidatorSubscription_invalidate DEBUG) fuel a i st
    = Done tt st' /\
  watch st' = watch st /\
  notified (trace st') = notified (trace st) ++ drop i l.
Proof.
  intros Hw. revert i st.
  induction fuel as [| fuel IH]; intros i st Ha Hlen Hk.
  - simpl. rewrite (bind_eq_Done _ _ _ _ _ (readArr_eq _ _ _ Ha)).
    destruct (Nat.ltb_spec i (length l)); [lia |].
    rewrite drop_ge in Hk |- * by lia. injection Hk as <-.
    rewrite app_nil_r. auto.
  - simpl. rewrite (bind_eq_Done _ _ _ _ _ (readArr_eq _ _ _ Ha)).
    destruct (Nat.ltb_spec i (length l)) as [Hi | Hi].
    + destruct (lookup_lt_is_Some_2 l i Hi) as [s Hs].
      rewrite Hs. simpl. unfold bind at 1. unfold ret at 1.
      rewrite (drop_S l s i Hs) in Hk |- *.
      apply notifyKeeping_cons in Hk as (st1 & H1 & Hw1 & Hk).
      rewrite (bind_eq_Done _ _ _ tt st1 H1).
      destruct (IH (S i) st1) as (H2 & Hw2 & Hn2).
      { rewrite (Hw _ _ Hw1). exact Ha. }
      { lia. }
      { exact Hk. }
      split; [exact H2 |]. split; [congruence |].
      rewrite Hn2.
      pose proof (notified_Subscription_invalidate s st) as Hn1.
      rewrite H1 in Hn1. simpl in Hn1. rewrite Hn1, <- app_assoc.
      reflexivity.
    + rewrite drop_ge in Hk |- * by lia. injection Hk as <-.
      rewrite app_nil_r. auto.
Qed.

Lemma notifyKeeping_notifyAll sl l st st' :
  (forall h h', watch h' = watch h -> contents h' sl = contents h sl) ->
  contents st sl = Some l ->
  notifyKeeping DEBUG watch l st = Some st' ->
  notifyAll DEBUG sl st = Done tt st' /\
  watch st' = watch st /\
  notified (trace st') = notified (trace st) ++ l.
Proof.
  intros Hw Hc Hk. destruct sl as [| s | a]; simpl in Hc.
  - injection Hc as <-. injection Hk as <-. rewrite app_nil_r. auto.
  - injection Hc as <-.
    apply notifyKeeping_cons in Hk as (st1 & H1 & Hw1 & [= <-]).
    split; [exact H1 |]. split; [exact Hw1 |].
    pose proof (notified_Subscription_invalidate s st) as Hn1.
    rewrite H1 in Hn1. exact Hn1.
  - simpl. rewrite (bind_eq_Done _ _ _ _ _ (readArr_eq _ _ _ Hc)).
    rewrite <- (drop_0 l) in Hk.
    destruct (notifyKeeping_loop a l (length l) 0 st st' Hw Hc
                ltac:(lia) Hk) as (H1 & Hw1 & Hn1).
    rewrite drop_0 in Hn1. auto.
Qed.
End Watch.

Lemma emptied_id i x st :
  invalidators st !! i = Some x ->
  i_transientSubscriptions x = SNull ->
  emptied i x st = st.
Proof.
  intros Hx Hn. unfold emptied.
  replace (inv_with_transientSubscriptions SNull x) with x
    by (destruct x; simpl in *; subst; reflexivity).
  destruct st. unfold set_invalidators. simpl in *.
  rewrite insert_id by exact Hx. reflexivity.
Qed.

(** The durable loop of a wave whose handlers leave its array alone. *)
Lemma undisturbed_durable st i x ld st2 :
  invalidators st !! i = Some x ->
  i_mtime x < clock st ->
  contents st (i_subscriptions x) = Some ld ->
  notifyKeeping DEBUG (iterated (i_subscriptions x)) ld (stamped i x st)
    = Some st2 ->
  notified (trace st2) = notified (trace st) ++ ld /\
  (exists x2, invalidators st2 !! i = Some x2 /\ i_mtime x2 = clock st) /\
  Invalidator_invalidate DEBUG i st =
    (inv' ← readInv i;
     match i_transientSubscriptions inv' with
     | SNull => ret tt
     | subscriptions =>
         updInv i (inv_with_transientSubscriptions SNull);;
         notifyAll DEBUG subscriptions
     end) st2.
Proof.
  intros Hx Hlt Hd Hk.
  destruct (notifyKeeping_notifyAll (iterated (i_subscriptions x))
              (i_subscriptions x) ld (stamped i x st) st2)
    as (H2 & _ & Hn2).
  { intros h h' E. exact E. }
  { destruct (i_subscriptions x); exact Hd. }
  { exact Hk. }
  split; [exact Hn2 |]. split.
  - pose proof (mtime_kept_notifyAll DEBUG (i_subscriptions x)
                  (stamped i x st)) as Hm.
    rewrite H2 in Hm. simpl in Hm.
    destruct (Hm i (inv_with_mtime (clock st) x)) as (x2 & Hx2 & Hm2).
    { apply lookup_insert_eq. }
    exists x2. split; [exact Hx2 | exact Hm2].
  - unfold Invalidator_invalidate.
    unfold bind at 1. unfold get.
    rewrite (bind_eq_Done _ _ _ _ _ (readInv_eq _ _ _ Hx)).
    apply Z.ltb_lt in Hlt. rewrite Hlt.
    rewrite (bind_eq_Done _ _ _ _ _ (updInv_eq _ _ _ _ Hx)).
    fold (stamped i x st).
    rewrite (bind_eq_Done _ _ _ tt st2 H2). reflexivity.
Qed.

(** The wave, when the handlers leave alone what the loops iterate. *)
Lemma undisturbed_wave st i x ld st2 x2 lt st3 :
  invalidators st !! i = Some x ->
  i_mtime x < clock st ->
  contents st (i_subscriptions x) = Some ld ->
  notifyKeeping DEBUG (iterated (i_subscriptions x)) ld (stamped i x st)
    = Some st2 ->
  invalidators st2 !! i = Some x2 ->
  contents st2 (i_transientSubscriptions x2) = Some lt ->
  notifyKeeping DEBUG (taken i (i_transientSubscriptions x2)) lt
    (emptied i x2 st2) = Some st3 ->
  Invalidator_invalidate DEBUG i st = Done tt st3 /\
  notified (trace st3) = notified (trace st) ++ ld ++ lt /\
  exists x3,
    invalidators st3 !! i = Some x3 /\
    i_mtime x3 = clock st /\
    i_transientSubscriptions x3 = SNull.
Proof.
  intros Hx Hlt Hd Hk2 Hx2 Ht Hk3.
  destruct (undisturbed_durable st i x ld st2 Hx Hlt Hd Hk2)
    as (Hn2 & (x2' & Hx2' & Hm2) & ->).
  rewrite Hx2 in Hx2'. injection Hx2' as <-.
  rewrite (bind_eq_Done _ _ _ _ _ (readInv_eq _ _ _ Hx2)).
  destruct (notifyKeeping_notifyAll (taken i (i_transientSubscriptions x2))
              (i_transientSubscriptions x2) lt (emptied i x2 st2) st3)
    as (H3 & Hw3 & Hn3).
  { intros h h' [= E _]. exact E. }
  { destruct (i_transientSubscriptions x2); exact Ht. }
  { exact Hk3. }
  assert (exists x3, invalidators st3 !! i = Some x3 /\
            i_mtime x3 = clock st /\ i_transientSubscriptions x3 = SNull)
    as Hx3.
  { injection Hw3 as _ Hf. unfold emptied in Hf. simpl in Hf.
    rewrite lookup_insert_eq in Hf. simpl in Hf.
    pose proof (mtime_kept_notifyAll DEBUG (i_transientSubscriptions x2)
                  (emptied i x2 st2)) as Hm.
    rewrite H3 in Hm. simpl in Hm.
    destruct (Hm i (inv_with_transientSubscriptions SNull x2))
      as (x3 & Hx3 & Hm3).
    { apply lookup_insert_eq. }
    exists x3. split; [exact Hx3 |]. split; [simpl in Hm3; congruence |].
    rewrite Hx3 in Hf. simpl in Hf. congruence. }
  assert (notified (trace st3) = notified (trace st) ++ ld ++ lt) as Hn.
  { rewrite Hn3. unfold emptied. simpl. rewrite Hn2, app_assoc.
    reflexivity. }
  split; [| split; [exact Hn | exact Hx3]].
  destruct (i_transientSubscriptions x2) as [| s | a] eqn:Etr.
  - simpl in Ht. injection Ht as <-. simpl in Hk3. injection Hk3 as <-.
    rewrite (emptied_id i x2 st2 Hx2 Etr). reflexivity.
  - rewrite (bind_eq_Done _ _ _ _ _ (updInv_eq _ _ _ _ Hx2)). exact H3.
  - rewrite (bind_eq_Done _ _ _ _ _ (updInv_eq _ _ _ _ Hx2)). exact H3.
Qed.

(** After an undisturbed durable loop, whatever follows only adds
    notifications. *)
Lemma undisturbed_durable_delivers st i x ld st2 :
  invalidators st !! i = Some x ->
  i_mtime x < clock st ->
  contents st (i_subscriptions x) = Some ld ->
  notifyKeeping DEBUG (iterated (i_subscriptions x)) ld (stamped i x st)
    = Some st2 ->
  exists more,
    notified (trace (final (Invalidator_invalidate DEBUG i st)))
    = notified (trace st) ++ ld ++ more.
Proof.
  intros Hx Hlt Hd Hk2.
  destruct (undisturbed_durable st i x ld st2 Hx Hlt Hd Hk2)
    as (Hn2 & _ & ->).
  match goal with
  | |- exists _, notified (trace (final (?m st2))) = _ =>
      assert (preserves notified_grows m) as Hm
        by (pres; auto using notified_grows_notifyAll with pres);
      destruct (Hm st2) as [more Hmore]
  end.
  exists more. rewrite Hmore, Hn2, app_assoc. reflexivity.
Qed.

End Keep.

(** Quiet subscriptions are among those that leave the loops alone. *)
Section QuietKeeps.
Variable DEBUG : bool.
Context {CF : ComponentFlags} {CFok : ComponentFlagsOk CF}.
Context {O : Type} `{EqDecision O}.
Variable watch : State -> O.
Hypothesis watch_heap :
  forall h h',
    invalidators h' = invalidators h -> arrays h' = arrays h ->
    watch h' = watch h.

Lemma quiet_notifyKeeping l st :
  (forall s, s ∈ l -> quiet st s = true) ->
  exists st', notifyKeeping DEBUG watch l st = Some st' /\ calm st st'.
Proof.
  revert st. induction l as [| s l IH]; intros st Hq.
  - exists st. split; [reflexivity |]. repeat split; auto.
  - destruct (quiet_notify DEBUG st s) as (st1 & H1 & Hcalm & _).
    { apply Hq. left. }
    destruct Hcalm as (Hc & Hs & Hi & Ha & Hqq).
    destruct (IH st1) as (st' & Hk & (Hc' & Hs' & Hi' & Ha' & Hqq')).
    { intros t Ht. apply Hqq, Hq. right. exact Ht. }
    exists st'. split.
    + simpl. rewrite H1.
      rewrite decide_True by (apply watch_heap; assumption).
      exact Hk.
    + repeat split; try congruence. auto.
Qed.
End QuietKeeps.

(** ** One wave per clock value *)

Lemma final_bind_Done {A B} (m : M A) (k : A -> M B) st a st1 :
  m st = Done a st1 -> final (bind m k st) = final (k a st1).
Proof. intros H. rewrite (bind_eq_Done _ _ _ _ _ H). reflexivity. Qed.

Section Once.
Variable DEBUG : bool.
Context {CF : ComponentFlags}.

Lemma Invalidator_invalidate_noop st i x :
  invalidators st !! i = Some x ->
  clock st <= i_mtime x ->
  Invalidator_invalidate DEBUG i st = Done tt st.
Proof.
  intros Hx Hle. unfold Invalidator_invalidate.
  unfold bind at 1. unfold get.
  rewrite (bind_eq_Done _ _ _ _ _ (readInv_eq _ _ _ Hx)).
  destruct (Z.ltb_spec (i_mtime x) (clock st)); [lia | reflexivity].
Qed.

(** Whatever the handlers do, a call leaves the invalidator stamped with
    the clock. *)
Lemma Invalidator_invalidate_stamps st i x :
  invalidators st !! i = Some x ->
  clock (final (Invalidator_invalidate DEBUG i st)) = clock st /\
  exists x1,
    invalidators (final (Invalidator_invalidate DEBUG i st)) !! i = Some x1 /\
    clock st <= i_mtime x1.
Proof.
  intros Hx.
  destruct (Z.ltb_spec (i_mtime x) (clock st)) as [Hlt | Hge].
  - set (st1 := set_invalidators <[i := inv_with_mtime (clock st) x]> st).
    assert (exists m, preserves evolves m /\
              Invalidator_invalidate DEBUG i st = m st1) as (m & Hev & ->).
    { eexists. split; [| unfold Invalidator_invalidate].
      2: { unfold bind at 1. unfold get.
           rewrite (bind_eq_Done _ _ _ _ _ (readInv_eq _ _ _ Hx)).
           apply Z.ltb_lt in Hlt. rewrite Hlt.
           rewrite (bind_eq_Done _ _ _ _ _ (updInv_eq _ _ _ _ Hx)).
           fold st1. reflexivity. }
      pres; auto using evolves_notifyAll with pres. }
    destruct (Hev st1) as [Hc Hm]. split; [exact Hc |].
    destruct (Hm i (inv_with_mtime (clock st) x)) as (x1 & Hx1 & Hle).
    { apply lookup_insert_eq. }
    exists x1. split; [exact Hx1 | exact Hle].
  - rewrite (Invalidator_invalidate_noop st i x Hx Hge). simpl.
    split; [reflexivity |]. exists x. split; [exact Hx | exact Hge].
Qed.

Lemma times_noop n st i x :
  invalidators st !! i = Some x ->
  clock st <= i_mtime x ->
  times n (Invalidator_invalidate DEBUG i) st = Done tt st.
Proof.
  intros Hx Hle. induction n as [| n IH]; simpl; [reflexivity |].
  rewrite (bind_eq_Done _ _ _ tt st); [exact IH |].
  apply (Invalidator_invalidate_noop st i x Hx Hle).
Qed.

(** Calls after the first, within one clock value, change nothing. *)
Lemma Invalidator_invalidate_dedup n st i x :
  invalidators st !! i = Some x ->
  times (S n) (Invalidator_invalidate DEBUG i) st =
  Invalidator_invalidate DEBUG i st.
Proof.
  intros Hx. simpl.
  destruct (Invalidator_invalidate_stamps st i x Hx) as (Hc & x1 & Hx1 & Hle).
  destruct (Invalidator_invalidate DEBUG i st) as [[] st1 | e st1] eqn:E.
  - rewrite (bind_eq_Done _ _ _ tt st1 E). simpl in *.
    apply (times_noop n st1 i x1 Hx1). lia.
  - apply bind_eq_Thrown. exact E.
Qed.

End Once.

Section C1.
Variable DEBUG : bool.
Context {CF : ComponentFlags}.

Lemma once_in (l : list sub_id) s :
  NoDup l -> s ∈ l ->
  exists pre post, l = pre ++ s :: post /\ (s ∉ pre) /\ (s ∉ post).
Proof.
  intros Hnd Hin.
  apply list_elem_of_split in Hin as (pre & post & ->).
  exists pre, post. split; [reflexivity |].
  apply NoDup_app in Hnd as (_ & Hdis & Hpost).
  apply NoDup_cons in Hpost as [Hpost _].
  split; [| exact Hpost].
  intros Hpre. apply (Hdis s Hpre). left.
Qed.

(** C1 (corrected): for every invalidator, a call of [invalidate()] with
    [mtime >= now] changes nothing, and any number of calls within one
    clock value equals one call, whatever the handlers do.  A call with
    [mtime < now] leaves [mtime] at the clock, whether it returns or
    throws.  When each notification of the durable loop returns and leaves
    the entries the loop iterates as they are, and each notification of
    the transient loop returns and leaves the entries taken and the
    emptied field as they are, the call returns; the subscriptions it
    notified are the entries of the durable set followed by the entries
    of the transient set as it was when taken, each entry once and in
    storage order; the transient field of the invalidator is [null]
    afterwards; and a subscription of these sets is notified exactly once
    when none is held twice. *)
Theorem Invalidator_invalidate_once st i x :
  invalidators st !! i = Some x ->
  (clock st <= i_mtime x ->
   Invalidator_invalidate DEBUG i st = Done tt st) /\
  (forall n, times (S n) (Invalidator_invalidate DEBUG i) st =
             Invalidator_invalidate DEBUG i st) /\
  (i_mtime x < clock st ->
   (exists x',
      invalidators (final (Invalidator_invalidate DEBUG i st)) !! i
        = Some x' /\
      i_mtime x' = clock st) /\
   forall ld st2 x2 lt st3,
     contents st (i_subscriptions x) = Some ld ->
     notifyKeeping DEBUG (iterated (i_subscriptions x)) ld (stamped i x st)
       = Some st2 ->
     invalidators st2 !! i = Some x2 ->
     contents st2 (i_transientSubscriptions x2) = Some lt ->
     notifyKeeping DEBUG (taken i (i_transientSubscriptions x2)) lt
       (emptied i x2 st2) = Some st3 ->
     Invalidator_invalidate DEBUG i st = Done tt st3 /\
     notified (trace st3) = notified (trace st) ++ ld ++ lt /\
     (exists x3,
        invalidators st3 !! i = Some x3 /\
        i_mtime x3 = clock st /\
        i_transientSubscriptions x3 = SNull) /\
     (NoDup (ld ++ lt) ->
      forall s, s ∈ ld ++ lt ->
        exists pre post,
          notified (trace st3) = notified (trace st) ++ pre ++ s :: post /\
          (s ∉ pre) /\ (s ∉ post))).
Proof.
  intros Hx. split.
  { apply (Invalidator_invalidate_noop DEBUG st i x Hx). }
  split.
  { intros n. apply (Invalidator_invalidate_dedup DEBUG n st i x Hx). }
  intros Hlt. split.
  { apply (Invalidator_invalidate_stamped DEBUG st i x Hx Hlt). }
  intros ld st2 x2 lt st3 Hd Hk2 Hx2 Ht Hk3.
  destruct (undisturbed_wave DEBUG st i x ld st2 x2 lt st3
              Hx Hlt Hd Hk2 Hx2 Ht Hk3) as (Hrun & Hn & Hx3).
  split; [exact Hrun |]. split; [exact Hn |]. split; [exact Hx3 |].
  intros Hnd s Hs.
  destruct (once_in (ld ++ lt) s Hnd Hs) as (pre & post & E & Hpre & Hpost).
  exists pre, post. rewrite Hn, E. auto.
Qed.

End C1.

(** ** Runs of calls: [mtime] is monotone *)

Section C7.
Variable DEBUG : bool.
Context {CF : ComponentFlags}.

Lemma run_call_evolves k st : evolves st (run_call DEBUG k st).
Proof.
  assert (forall A (m : M A), preserves evolves m ->
            preserves evolves (void m)) as Hvoid.
  { intros A m Hm. unfold void. pres. }
  unfold run_call. destruct k; cbn [call_body].
  - apply (Hvoid _ _ (evolves_Invalidator_new)).
  - apply (Hvoid _ _ (evolves_hasSubscriptions _)).
  - apply evolves_addSubscription.
  - apply evolves_removeSubscription.
  - apply evolves_Invalidator_invalidate.
  - apply (Hvoid _ _ (evolves_Subscription_new _ _ _)).
  - apply evolves_cancel.
  - apply evolves_Subscription_invalidate.
  - apply (Hvoid _ _ (evolves_create _ _)).
  - apply (Hvoid _ _ (evolves_mount _ _)).
  - apply evolves_update.
  - apply evolves_Component_invalidate.
  - apply evolves_start.
  - apply evolves_stop.
  - apply evolves_dispose.
  - apply evolves_subscribe.
  - apply evolves_transientSubscribe.
  - apply evolves_Component_removeSubscription.
  - apply evolves_cancelSubscriptions.
  - apply evolves_cancelTransientSubscriptions.
Qed.

Lemma run_step_mtime_grows x st : mtime_grows st (run_step DEBUG st x).
Proof.
  destruct x as [k | now]; simpl.
  - apply run_call_evolves.
  - intros i y Hy. exists y. split; [exact Hy | lia].
Qed.

Lemma run_mtime_grows steps st : mtime_grows st (run DEBUG steps st).
Proof.
  revert st. induction steps as [| x steps IH]; intros st; simpl.
  - reflexivity.
  - etransitivity; [apply run_step_mtime_grows | apply IH].
Qed.

(** C7: a new invalidator takes the clock as its [mtime], and along any
    run of calls and clock moves an invalidator stays in the heap with an
    [mtime] that never decreases. *)
Theorem Invalidator_mtime_monotone st :
  (exists i st',
     Invalidator_new st = Done i st' /\
     invalidators st !! i = None /\
     invalidators st' !! i = Some (mkInv (clock st) SNull SNull)) /\
  (forall steps i x,
     invalidators st !! i = Some x ->
     exists x',
       invalidators (run DEBUG steps st) !! i = Some x' /\
       i_mtime x <= i_mtime x').
Proof.
  split.
  - exists (fresh (dom (invalidators st))).
    exists (set_invalidators
              <[fresh (dom (invalidators st)) :=
                  mkInv (clock st) SNull SNull]> st).
    split; [reflexivity |]. split.
    + apply not_elem_of_dom. apply is_fresh.
    + simpl. apply lookup_insert_eq.
  - intros steps i x Hx. apply (run_mtime_grows steps st i x Hx).
Qed.

End C7.

(** ** Removal of registered subscriptions, and [dispose()] *)

Section Removal.
Variable DEBUG : bool.
Context {CF : ComponentFlags}.

Lemma removeSubscription_unfold st i s sub x :
  subs st !! s = Some sub ->
  invalidators st !! i = Some x ->
  Invalidator_removeSubscription DEBUG i s st =
  (r ← removeFrom DEBUG E_INVALIDATOR_REMOVE (slot_of sub x) s;
   match r with
   | Some v => updInv i (with_slot sub v)
   | None => ret tt
   end) st.
Proof.
  intros Hs Hx. unfold Invalidator_removeSubscription.
  rewrite (bind_eq_Done _ _ _ _ _ (readSub_eq _ _ _ Hs)).
  rewrite (bind_eq_Done _ _ _ _ _ (readInv_eq _ _ _ Hx)).
  unfold slot_of, with_slot. destruct (isTransient sub); reflexivity.
Qed.

(** Removal of a subscription that the field holds. *)
Lemma removeFrom_held msg st sl l s :
  contents st sl = Some l -> s ∈ l ->
  (length l = 1%nat /\
   removeFrom DEBUG msg sl s st = Done (Some SNull) st) \/
  (length l <> 1%nat /\
   exists a k, sl = SArr a /\ indexOf s l = Some k /\
     removeFrom DEBUG msg sl s st =
       Done None (set_arrays <[a := swap_pop l (Some k)]> st)).
Proof.
  intros Hc Hin. destruct sl as [| y | a]; simpl in Hc.
  - injection Hc as <-. apply elem_of_nil in Hin. contradiction.
  - injection Hc as <-. apply list_elem_of_singleton in Hin as ->.
    left. split; [reflexivity |]. simpl.
    rewrite bool_decide_eq_true_2 by reflexivity.
    rewrite andb_false_r. reflexivity.
  - simpl. rewrite (bind_eq_Done _ _ _ _ _ (readArr_eq _ _ _ Hc)).
    destruct (decide (length l = 1%nat)) as [E | E].
    + left. split; [exact E |].
      rewrite bool_decide_eq_true_2 by exact E.
      destruct l as [| y [| ? ?]]; try discriminate.
      apply list_elem_of_singleton in Hin as ->. simpl.
      rewrite bool_decide_eq_true_2 by reflexivity.
      rewrite andb_false_r. reflexivity.
    + right. split; [exact E |].
      rewrite bool_decide_eq_false_2 by exact E.
      destruct (indexOf_elem s l Hin) as [k Hk].
      exists a, k. split; [reflexivity |]. split; [exact Hk |].
      rewrite Hk. rewrite bool_decide_eq_false_2 by discriminate.
      rewrite andb_false_r. reflexivity.
Qed.

Lemma removeSubscription_held st i s sub x l :
  subs st !! s = Some sub ->
  invalidators st !! i = Some x ->
  contents st (slot_of sub x) = Some l -> s ∈ l ->
  (length l = 1%nat /\
   Invalidator_removeSubscription DEBUG i s st =
     Done tt (set_invalidators <[i := with_slot sub SNull x]> st)) \/
  (length l <> 1%nat /\
   exists a k, slot_of sub x = SArr a /\ indexOf s l = Some k /\
     Invalidator_removeSubscription DEBUG i s st =
       Done tt (set_arrays <[a := swap_pop l (Some k)]> st)).
Proof.
  intros Hs Hx Hc Hin.
  rewrite (removeSubscription_unfold st i s sub x Hs Hx).
  destruct (removeFrom_held E_INVALIDATOR_REMOVE st _ l s Hc Hin)
    as [[E H] | (E & a & k & Hsl & Hk & H)].
  - left. split; [exact E |].
    rewrite (bind_eq_Done _ _ _ _ _ H).
    apply updInv_eq. exact Hx.
  - right. split; [exact E |]. exists a, k.
    split; [exact Hsl |]. split; [exact Hk |].
    rewrite (bind_eq_Done _ _ _ _ _ H). reflexivity.
Qed.

Lemma slot_of_with_slot_same sub sub' v x :
  isTransient sub' = isTransient sub ->
  slot_of sub' (with_slot sub v x) = v.
Proof.
  unfold slot_of, with_slot. intros ->. destruct (isTransient sub); reflexivity.
Qed.

Lemma slot_of_with_slot_other sub sub' v x :
  isTransient sub' <> isTransient sub ->
  slot_of sub' (with_slot sub v x) = slot_of sub' x.
Proof.
  unfold slot_of, with_slot.
  destruct (isTransient sub), (isTransient sub'); congruence || reflexivity.
Qed.

Lemma slot_of_same sub sub' x :
  isTransient sub' = isTransient sub -> slot_of sub' x = slot_of sub x.
Proof. unfold slot_of. intros ->. reflexivity. Qed.

Lemma slot_of_cases sub x :
  slot_of sub x = i_subscriptions x \/
  slot_of sub x = i_transientSubscriptions x.
Proof. unfold slot_of. destruct (isTransient sub); auto. Qed.

Lemma with_slot_cases sub x sl :
  sl = i_subscriptions (with_slot sub SNull x) \/
  sl = i_transientSubscriptions (with_slot sub SNull x) ->
  sl = SNull \/ sl = i_subscriptions x \/ sl = i_transientSubscriptions x.
Proof.
  unfold with_slot. destruct (isTransient sub); simpl; intuition.
Qed.

(** Cancelling one registered subscription at its invalidator returns,
    and leaves every other registration in place. *)
Lemma cancelOne_registered st s :
  registered st s ->
  exists st',
    cancelOne DEBUG s st = Done tt st' /\
    inv_only st st' /\
    (forall t, t <> s -> registered st t -> registered st' t) /\
    (forall sl, unshared st sl ->
       unshared st' sl /\ contents st' sl = contents st sl).
Proof.
  intros (sub & x & l & Hs & Hx & Hc & Hin). unfold cancelOne.
  rewrite (bind_eq_Done _ _ _ _ _ (readSub_eq _ _ _ Hs)).
  destruct (removeSubscription_held st _ s sub x l Hs Hx Hc Hin)
    as [[E H] | (E & a & k & Hsl & Hk & H)]; rewrite H; clear H.
  - (* the field becomes null *)
    eexists. split; [reflexivity |]. split; [repeat split |]. split.
    + intros t Hne (subt & xt & lt & Hst & Hxt & Hct & Hint).
      destruct (decide (s_invalidator subt = s_invalidator sub)) as [Ei | Ei].
      * rewrite Ei, Hx in Hxt. injection Hxt as <-.
        destruct (decide (isTransient subt = isTransient sub)) as [Et | Et].
        -- exfalso. rewrite (slot_of_same sub subt x Et), Hc in Hct.
           injection Hct as <-.
           destruct l as [| y [| ? ?]]; try discriminate.
           apply list_elem_of_singleton in Hin, Hint. congruence.
        -- exists subt, (with_slot sub SNull x), lt.
           split; [exact Hst |]. split.
           { simpl. rewrite Ei. apply lookup_insert_eq. }
           split; [| exact Hint].
           rewrite slot_of_with_slot_other by exact Et.
           destruct (slot_of subt x); exact Hct.
      * exists subt, xt, lt. split; [exact Hst |]. split.
        { simpl. rewrite lookup_insert_ne by congruence. exact Hxt. }
        split; [| exact Hint]. destruct (slot_of subt xt); exact Hct.
    + intros sl Hu. split; [| destruct sl; reflexivity].
      destruct sl as [| y | b]; simpl; auto.
      intros j xj. simpl.
      destruct (decide (s_invalidator sub = j)) as [<- | Hnj].
      * rewrite lookup_insert_eq. intros [= <-].
        destruct (Hu _ _ Hx) as [Hu1 Hu2].
        unfold with_slot. destruct (isTransient sub); simpl;
          split; congruence.
      * rewrite lookup_insert_ne by exact Hnj. apply Hu.
  - (* the array is rewritten *)
    eexists. split; [reflexivity |]. split; [repeat split |]. split.
    + intros t Hne (subt & xt & lt & Hst & Hxt & Hct & Hint).
      rewrite Hsl in Hc. simpl in Hc.
      destruct (decide (slot_of subt xt = SArr a)) as [Ea | Ea].
      * rewrite Ea in Hct. simpl in Hct. rewrite Hc in Hct.
        injection Hct as <-.
        exists subt, xt, (swap_pop l (Some k)).
        split; [exact Hst |]. split; [exact Hxt |]. split.
        -- rewrite Ea. simpl. apply lookup_insert_eq.
        -- apply (swap_pop_elem_other l s k t Hk Hint Hne).
      * exists subt, xt, lt. split; [exact Hst |]. split; [exact Hxt |].
        split; [| exact Hint].
        destruct (slot_of subt xt) as [| y | b]; try exact Hct.
        simpl. rewrite lookup_insert_ne by congruence. exact Hct.
    + intros sl Hu. split.
      * destruct sl; exact Hu.
      * destruct sl as [| y | b]; try reflexivity. simpl.
        rewrite lookup_insert_ne; [reflexivity |].
        intros ->. destruct (Hu _ _ Hx) as [Hu1 Hu2].
        destruct (slot_of_cases sub x) as [E1 | E1]; congruence.
Qed.

Lemma NoDup_drop_S (l : list sub_id) i s :
  NoDup l -> l !! i = Some s -> s ∉ drop (S i) l.
Proof.
  intros Hnd Hs. rewrite <- (take_drop_middle l i s Hs) in Hnd.
  apply NoDup_app in Hnd as (_ & _ & Hnd).
  apply NoDup_cons in Hnd as [Hn _]. exact Hn.
Qed.

Lemma cancel_loop a l fuel i st :
  arrays st !! a = Some l ->
  unshared st (SArr a) ->
  NoDup l ->
  (forall s, s ∈ drop i l -> registered st s) ->
  (length l <= i + fuel)%nat ->
  exists st',
    forEachLive (cancelOne DEBUG) fuel a i st = Done tt st' /\
    inv_only st st' /\
    (forall t, t ∉ drop i l -> registered st t -> registered st' t) /\
    (forall sl, unshared st sl ->
       unshared st' sl /\ contents st' sl = contents st sl).
Proof.
  intros Ha Hu Hnd. revert i st Ha Hu.
  induction fuel as [| fuel IH]; intros i st Ha Hu Hreg Hlen.
  - exists st. simpl.
    rewrite (bind_eq_Done _ _ _ _ _ (readArr_eq _ _ _ Ha)).
    destruct (Nat.ltb_spec i (length l)); [lia |].
    split; [reflexivity |]. split; [reflexivity |]. auto.
  - simpl. rewrite (bind_eq_Done _ _ _ _ _ (readArr_eq _ _ _ Ha)).
    destruct (Nat.ltb_spec i (length l)) as [Hi | Hi].
    + destruct (lookup_lt_is_Some_2 l i Hi) as [s Hs].
      rewrite Hs. simpl. unfold bind at 1. unfold ret at 1.
      pose proof (drop_S l s i Hs) as Hdrop.
      destruct (cancelOne_registered st s) as (st1 & H1 & Hf1 & Hr1 & Hu1).
      { apply Hreg. rewrite Hdrop. left. }
      rewrite (bind_eq_Done _ _ _ tt st1 H1).
      destruct (Hu1 (SArr a) Hu) as [Hua Hca]. simpl in Hca.
      destruct (IH (S i) st1) as (st2 & H2 & Hf2 & Hr2 & Hu2).
      { rewrite Hca. exact Ha. }
      { exact Hua. }
      { intros t Ht. apply Hr1.
        - intros ->. apply (NoDup_drop_S l i s Hnd Hs Ht).
        - apply Hreg. rewrite Hdrop. right. exact Ht. }
      { lia. }
      exists st2. split; [exact H2 |].
      split; [etransitivity; eassumption |]. split.
      * intros t Ht Hrt. rewrite Hdrop in Ht.
        apply not_elem_of_cons in Ht as [Hne Ht].
        apply Hr2; [exact Ht |]. apply Hr1; assumption.
      * intros sl Hsl. destruct (Hu1 sl Hsl) as [Hsl1 Hc1].
        destruct (Hu2 sl Hsl1) as [Hsl2 Hc2].
        split; [exact Hsl2 | congruence].
    + exists st. split; [reflexivity |]. split; [reflexivity |]. auto.
Qed.

Lemma cancelAll_registered st sl l :
  contents st sl = Some l ->
  unshared st sl ->
  NoDup l ->
  (forall s, s ∈ l -> registered st s) ->
  exists st',
    cancelAll DEBUG sl st = Done tt st' /\
    inv_only st st' /\
    (forall t, t ∉ l -> registered st t -> registered st' t) /\
    (forall sl', unshared st sl' ->
       unshared st' sl' /\ contents st' sl' = contents st sl').
Proof.
  intros Hc Hu Hnd Hreg. destruct sl as [| s | a]; simpl in Hc.
  - injection Hc as <-. exists st.
    split; [reflexivity |]. split; [reflexivity |]. auto.
  - injection Hc as <-.
    destruct (cancelOne_registered st s) as (st1 & H1 & Hf1 & Hr1 & Hu1).
    { apply Hreg. left. }
    exists st1. split; [exact H1 |]. split; [exact Hf1 |].
    split; [| exact Hu1].
    intros t Ht. apply Hr1. intros ->. apply Ht. left.
  - simpl. rewrite (bind_eq_Done _ _ _ _ _ (readArr_eq _ _ _ Hc)).
    destruct (cancel_loop a l (length l) 0 st Hc Hu Hnd)
      as (st1 & H1 & Hf1 & Hr1 & Hu1).
    { rewrite drop_0. exact Hreg. }
    { lia. }
    exists st1. rewrite drop_0 in Hr1. auto.
Qed.

End Removal.

Lemma contents_ext st st' sl :
  arrays st' = arrays st -> contents st' sl = contents st sl.
Proof. intros E. destruct sl; simpl; rewrite ?E; reflexivity. Qed.

Lemma unshared_ext st st' sl :
  invalidators st' = invalidators st -> unshared st sl -> unshared st' sl.
Proof. intros E. destruct sl; simpl; rewrite ?E; auto. Qed.

Lemma registered_ext st st' s :
  subs st' = subs st -> invalidators st' = invalidators st ->
  arrays st' = arrays st -> registered st s -> registered st' s.
Proof.
  intros Es Ei Ea (sub & x & l & Hs & Hx & Hc & Hin).
  exists sub, x, l. rewrite Es, Ei, (contents_ext st st' _ Ea). auto.
Qed.

Section Dispose.
Variable DEBUG : bool.
Context {CF : ComponentFlags} {CFok : ComponentFlagsOk CF}.

Lemma cancelSubscriptions_mirrored st c x ld :
  components st !! c = Some x ->
  contents st (c_subscriptions x) = Some ld ->
  unshared st (c_subscriptions x) ->
  NoDup ld ->
  (forall s, s ∈ ld -> registered st s) ->
  exists st',
    Component_cancelSubscriptions DEBUG c st = Done tt st' /\
    components st' =
      <[c := comp_with_subscriptions SNull x]> (components st) /\
    trace st' = trace st /\
    (forall t, t ∉ ld -> registered st t -> registered st' t) /\
    (forall sl, unshared st sl ->
       unshared st' sl /\ contents st' sl = contents st sl).
Proof.
  intros Hx Hc Hu Hnd Hreg.
  destruct (cancelAll_registered DEBUG st _ ld Hc Hu Hnd Hreg)
    as (st1 & H1 & Hf1 & Hr1 & Hu1).
  destruct Hf1 as (_ & _ & _ & _ & Hcs & Htr).
  exists (set_components <[c := comp_with_subscriptions SNull x]> st1).
  split.
  { unfold Component_cancelSubscriptions.
    rewrite (bind_eq_Done _ _ _ _ _ (readComp_eq _ _ _ Hx)).
    rewrite (bind_eq_Done _ _ _ tt st1 H1).
    apply updComp_eq. rewrite Hcs. exact Hx. }
  simpl. rewrite Hcs. split; [reflexivity |]. split; [exact Htr |].
  split.
  - intros t Ht Hrt. apply (registered_ext st1); try reflexivity.
    apply (Hr1 t Ht Hrt).
  - intros sl Hsl. destruct (Hu1 sl Hsl) as [H2 H3]. split.
    + apply (unshared_ext st1); [reflexivity | exact H2].
    + rewrite <- H3. apply contents_ext. reflexivity.
Qed.

Lemma cancelTransientSubscriptions_mirrored st c x lt :
  components st !! c = Some x ->
  contents st (c_transientSubscriptions x) = Some lt ->
  unshared st (c_transientSubscriptions x) ->
  NoDup lt ->
  (forall s, s ∈ lt -> registered st s) ->
  exists st',
    Component_cancelTransientSubscriptions DEBUG c st = Done tt st' /\
    components st' =
      <[c := comp_with_transientSubscriptions SNull x]> (components st) /\
    trace st' = trace st /\
    (forall t, t ∉ lt -> registered st t -> registered st' t) /\
    (forall sl, unshared st sl ->
       unshared st' sl /\ contents st' sl = contents st sl).
Proof.
  intros Hx Hc Hu Hnd Hreg.
  destruct (cancelAll_registered DEBUG st _ lt Hc Hu Hnd Hreg)
    as (st1 & H1 & Hf1 & Hr1 & Hu1).
  destruct Hf1 as (_ & _ & _ & _ & Hcs & Htr).
  exists (set_components
            <[c := comp_with_transientSubscriptions SNull x]> st1).
  split.
  { unfold Component_cancelTransientSubscriptions.
    rewrite (bind_eq_Done _ _ _ _ _ (readComp_eq _ _ _ Hx)).
    rewrite (bind_eq_Done _ _ _ tt st1 H1).
    apply updComp_eq. rewrite Hcs. exact Hx. }
  simpl. rewrite Hcs. split; [reflexivity |]. split; [exact Htr |].
  split.
  - intros t Ht Hrt. apply (registered_ext st1); try reflexivity.
    apply (Hr1 t Ht Hrt).
  - intros sl Hsl. destruct (Hu1 sl Hsl) as [H2 H3]. split.
    + apply (unshared_ext st1); [reflexivity | exact H2].
    + rewrite <- H3. apply contents_ext. reflexivity.
Qed.

Lemma Component_dispose_twice st c x :
  components st !! c = Some x ->
  isDisposed x = true ->
  Component_dispose true c st = Thrown (ThrowStr E_DISPOSE_TWICE) st.
Proof.
  intros Hx Hd. unfold Component_dispose.
  rewrite (bind_eq_Done _ _ _ _ _ (readComp_eq _ _ _ Hx)).
  unfold isDisposed, has_flag in Hd. rewrite Hd. reflexivity.
Qed.

(** [dispose()] on a component whose sets mirror registrations at the
    invalidators, as far as the component goes: the debug guard, the
    flags, the two fields and the calls outside the kernel. *)
Lemma Component_dispose_mirrored st c x :
  components st !! c = Some x ->
  (isDisposed x = true ->
   Component_dispose true c st = Thrown (ThrowStr E_DISPOSE_TWICE) st) /\
  (isDisposed x = false -> mirrored st x ->
   exists st' x',
     Component_dispose DEBUG c st = Done tt st' /\
     components st' !! c = Some x' /\
     isDisposed x' = true /\
     has_flag (c_flags x') ATTACHED = false /\
     has_flag (c_flags x') UPDATE_EACH_FRAME = false /\
     c_subscriptions x' = SNull /\
     c_transientSubscriptions x' = SNull /\
     trace st' = trace st ++ dispose_events c x /\
     Component_dispose true c st' =
       Thrown (ThrowStr E_DISPOSE_TWICE) st').
Proof.
  intros Hx. split; [apply (Component_dispose_twice st c x Hx) |].
  intros Hd (ld & lt & Hcd & Hct & Hnd & Hreg & Hud & Hut).
  set (x1 := comp_with_flags (js_or (c_flags x) DISPOSED) x).
  set (x2 := comp_with_flags
               (js_and (c_flags x1)
                       (js_not (js_or ATTACHED UPDATE_EACH_FRAME))) x1).
  set (st2 := set_components <[c := x2]> (set_components <[c := x1]> st)).
  assert (components st2 !! c = Some x2) as Hx2 by apply lookup_insert_eq.
  apply NoDup_app in Hnd as (Hndd & Hdis & Hndt).
  destruct (cancelSubscriptions_mirrored st2 c x2 ld Hx2)
    as (st3 & H3 & Hc3 & Ht3 & Hr3 & Hu3).
  { rewrite (contents_ext st st2) by reflexivity. exact Hcd. }
  { apply (unshared_ext st st2); [reflexivity | exact Hud]. }
  { exact Hndd. }
  { intros s Hs. apply (registered_ext st st2); try reflexivity.
    apply (Hreg s). apply elem_of_app. left. exact Hs. }
  set (x3 := comp_with_subscriptions SNull x2) in *.
  assert (components st3 !! c = Some x3) as Hx3
    by (rewrite Hc3; apply lookup_insert_eq).
  assert (unshared st2 (c_transientSubscriptions x)) as Hut2
    by (apply (unshared_ext st st2); [reflexivity | exact Hut]).
  destruct (Hu3 _ Hut2) as [Hut3 Hct3].
  destruct (cancelTransientSubscriptions_mirrored st3 c x3 lt Hx3)
    as (st4 & H4 & Hc4 & Ht4 & _ & _).
  { change (c_transientSubscriptions x3) with (c_transientSubscriptions x).
    rewrite Hct3. rewrite (contents_ext st st2) by reflexivity. exact Hct. }
  { exact Hut3. }
  { exact Hndt. }
  { intros s Hs. apply Hr3.
    - intros Hs'. apply (Hdis s Hs' Hs).
    - apply (registered_ext st st2); try reflexivity.
      apply (Hreg s). apply elem_of_app. right. exact Hs. }
  set (x4 := comp_with_transientSubscriptions SNull x3) in *.
  assert (components st4 !! c = Some x4) as Hx4
    by (rewrite Hc4; apply lookup_insert_eq).
  assert (exists st5,
            Component_dispose DEBUG c st = Done tt st5 /\
            components st5 = components st4 /\
            trace st5 = trace st4 ++ dispose_events c x)
    as (st5 & Hrun & Hc5 & Ht5).
  { unfold Component_dispose.
    rewrite (bind_eq_Done _ _ _ _ _ (readComp_eq _ _ _ Hx)).
    unfold isDisposed, has_flag in Hd. apply negb_false_iff in Hd.
    rewrite Hd. rewrite andb_false_r. simpl.
    unfold bind at 1. unfold ret at 1.
    rewrite (bind_eq_Done _ _ _ _ _ (updComp_eq _ _ st x Hx)). fold x1.
    rewrite (bind_eq_Done _ _ _ tt st2);
      [| rewrite (updComp_eq _ _ _ x1) by apply lookup_insert_eq;
         reflexivity].
    rewrite (bind_eq_Done _ _ _ tt st3 H3).
    rewrite (bind_eq_Done _ _ _ tt st4 H4).
    rewrite (bind_eq_Done _ _ _ _ _ (readComp_eq _ _ _ Hx4)).
    change (c_root x4) with (c_root x).
    change (c_descriptor x4) with (c_descriptor x).
    unfold dispose_events.
    destruct (c_root x) as [r |], (d_disposed (c_descriptor x)) as [f |];
      eexists; (split; [reflexivity |]); simpl;
      rewrite <- ?app_assoc, ?app_nil_r; split; reflexivity. }
  rewrite <- Hc5 in Hx4.
  assert (isDisposed x4 = true) as Hd4.
  { unfold isDisposed. simpl.
    rewrite has_flag_clear2
      by (apply ATTACHED_bit || apply UPDATE_EACH_FRAME_bit
          || apply DISPOSED_bit).
    rewrite has_flag_set by apply DISPOSED_bit.
    rewrite (bool_decide_eq_true_2 (DISPOSED = DISPOSED)) by reflexivity.
    rewrite orb_true_r. simpl.
    rewrite !bool_decide_eq_false_2; [reflexivity | |].
    - intros E.
      pose proof (NoDup_lookup _ 4%nat 0%nat _ flags_distinct eq_refl
                    (f_equal Some (eq_sym E))). discriminate.
    - intros E.
      pose proof (NoDup_lookup _ 1%nat 0%nat _ flags_distinct eq_refl
                    (f_equal Some (eq_sym E))). discriminate. }
  exists st5, x4. split; [exact Hrun |]. split; [exact Hx4 |].
  split; [exact Hd4 |]. split; [| split].
  - simpl. rewrite has_flag_clear2
      by (apply ATTACHED_bit || apply UPDATE_EACH_FRAME_bit).
    rewrite (bool_decide_eq_true_2 (ATTACHED = ATTACHED)) by reflexivity.
    rewrite andb_false_r. reflexivity.
  - simpl. rewrite has_flag_clear2
      by (apply ATTACHED_bit || apply UPDATE_EACH_FRAME_bit).
    rewrite (bool_decide_eq_true_2 (UPDATE_EACH_FRAME = UPDATE_EACH_FRAME))
      by reflexivity.
    apply andb_false_r.
  - split; [reflexivity |]. split; [reflexivity |]. split.
    + rewrite Ht5, Ht4, Ht3. reflexivity.
    + apply (Component_dispose_twice st5 c x4 Hx4 Hd4).
Qed.

End Dispose.

Section SetOps.
Variable DEBUG : bool.
Context {CF : ComponentFlags}.

Lemma addSubscription_durable st i s sub x l :
  subs st !! s = Some sub -> isTransient sub = false ->
  invalidators st !! i = Some x ->
  contents st (i_subscriptions x) = Some l ->
  exists st' x',
    Invalidator_addSubscription i s st = Done tt st' /\
    invalidators st' !! i = Some x' /\
    contents st' (i_subscriptions x') = Some (l ++ [s]) /\
    subs st' = subs st.
Proof.
  intros Hs Ht Hx Hc. unfold Invalidator_addSubscription.
  rewrite (bind_eq_Done _ _ _ _ _ (readSub_eq _ _ _ Hs)).
  rewrite (bind_eq_Done _ _ _ _ _ (readInv_eq _ _ _ Hx)).
  rewrite Ht. simpl.
  destruct (i_subscriptions x) as [| y | a] eqn:Esl; simpl in Hc.
  - injection Hc as <-. simpl.
    unfold bind at 1. unfold ret at 1.
    rewrite (updInv_eq _ _ _ _ Hx).
    eexists _, _. split; [reflexivity |]. simpl.
    rewrite lookup_insert_eq. split; [reflexivity |].
    split; reflexivity.
  - injection Hc as <-. simpl.
    unfold newArr, writeArr, modify, get, ret.
    unfold bind at 1. unfold bind at 1. unfold bind at 1. unfold bind at 1.
    erewrite updInv_eq by exact Hx.
    eexists _, _. split; [reflexivity |]. simpl.
    rewrite lookup_insert_eq. split; [reflexivity |]. simpl.
    rewrite lookup_insert_eq. split; reflexivity.
  - unfold addTo. unfold bind at 1.
    rewrite (bind_eq_Done _ _ _ _ _ (readArr_eq _ _ _ Hc)).
    unfold writeArr, modify, ret. unfold bind.
    eexists _, x. split; [reflexivity |]. simpl.
    split; [exact Hx |]. rewrite Esl. simpl.
    rewrite lookup_insert_eq. split; reflexivity.
Qed.

Lemma removeSubscription_durable st i s sub x l :
  subs st !! s = Some sub -> isTransient sub = false ->
  invalidators st !! i = Some x ->
  contents st (i_subscriptions x) = Some l ->
  s ∈ l ->
  exists st' x',
    Invalidator_removeSubscription DEBUG i s st = Done tt st' /\
    invalidators st' !! i = Some x' /\
    contents st' (i_subscriptions x') = Some (list_step l (SRemove s)) /\
    subs st' = subs st.
Proof.
  intros Hs Ht Hx Hc Hin.
  assert (slot_of sub x = i_subscriptions x) as Eslot
    by (unfold slot_of; rewrite Ht; reflexivity).
  rewrite <- Eslot in Hc.
  destruct (removeSubscription_held DEBUG st i s sub x l Hs Hx Hc Hin)
    as [[E H] | (E & a & k & Hsl & Hk & H)]; rewrite H; clear H.
  - eexists _, _. split; [reflexivity |]. simpl.
    rewrite lookup_insert_eq. split; [reflexivity |].
    unfold with_slot. rewrite Ht. simpl.
    rewrite bool_decide_eq_true_2 by exact E. split; reflexivity.
  - eexists _, x. split; [reflexivity |]. simpl.
    split; [exact Hx |]. rewrite <- Eslot, Hsl. simpl.
    rewrite lookup_insert_eq.
    rewrite bool_decide_eq_false_2 by exact E. rewrite Hk.
    split; reflexivity.
Qed.

(** Under [clean_op], the stored sequence follows the set of the spec. *)
Lemma list_step_set l o :
  NoDup l -> clean_op l o = true ->
  NoDup (list_step l o) /\
  (list_to_set (list_step l o) : gset sub_id) = set_step (list_to_set l) o.
Proof.
  intros Hnd Hclean. destruct o as [s | s]; simpl in *.
  - apply bool_decide_eq_true in Hclean. split.
    + apply NoDup_app. split; [exact Hnd |]. split.
      * intros t Ht ->%list_elem_of_singleton. contradiction.
      * apply NoDup_singleton.
    + rewrite list_to_set_app_L. simpl. rewrite union_empty_r_L.
      reflexivity.
  - destruct (indexOf s l) as [k |] eqn:Hk; [| discriminate].
    destruct (decide (length l = 1%nat)) as [E | E].
    + rewrite bool_decide_eq_true_2 by exact E.
      split; [apply NoDup_nil_2 |].
      destruct l as [| y [| ? ?]]; try discriminate.
      apply indexOf_is_elem, list_elem_of_singleton in Hk as ->.
      simpl. apply set_eq. intros t.
      rewrite elem_of_difference, elem_of_union, elem_of_singleton.
      split; [intros []%elem_of_empty | ].
      intros [[-> | []%elem_of_empty] Hn]. contradiction.
    + rewrite bool_decide_eq_false_2 in * by exact E. simpl in Hclean.
      apply bool_decide_eq_true in Hclean.
      destruct (swap_pop_removes l s k Hnd Hk Hclean) as [Hnd' Hel].
      split; [exact Hnd' |].
      apply set_eq. intros t.
      rewrite elem_of_list_to_set, Hel, elem_of_difference,
        elem_of_list_to_set, elem_of_singleton. reflexivity.
Qed.

Lemma clean_op_held l s : clean_op l (SRemove s) = true -> s ∈ l.
Proof.
  simpl. destruct (indexOf s l) as [k |] eqn:Hk; [| discriminate].
  intros _. apply (indexOf_is_elem s l k Hk).
Qed.

Lemma run_set_ops_refines ops st i x l :
  invalidators st !! i = Some x ->
  contents st (i_subscriptions x) = Some l ->
  NoDup l ->
  (forall o, o ∈ ops ->
     exists sub, subs st !! op_sub o = Some sub /\ isTransient sub = false) ->
  clean_ops l ops = true ->
  exists st' x',
    run_set_ops DEBUG i ops st = Done tt st' /\
    invalidators st' !! i = Some x' /\
    contents st' (i_subscriptions x') = Some (foldl list_step l ops) /\
    NoDup (foldl list_step l ops) /\
    (list_to_set (foldl list_step l ops) : gset sub_id) =
      foldl set_step (list_to_set l) ops.
Proof.
  revert st x l. induction ops as [| o ops IH]; intros st x l Hx Hc Hnd Hsub Hcl.
  - exists st, x. simpl. auto.
  - simpl in Hcl. apply andb_true_iff in Hcl as [Hcl1 Hcl2].
    destruct (list_step_set l o Hnd Hcl1) as [Hnd1 Hset1].
    destruct (Hsub o ltac:(left)) as (sub & Hs & Ht).
    assert (exists st1 x1,
              run_set_op DEBUG i o st = Done tt st1 /\
              invalidators st1 !! i = Some x1 /\
              contents st1 (i_subscriptions x1) = Some (list_step l o) /\
              subs st1 = subs st) as (st1 & x1 & H1 & Hx1 & Hc1 & Hs1).
    { destruct o as [s | s]; simpl in *.
      - apply (addSubscription_durable st i s sub x l Hs Ht Hx Hc).
      - apply (removeSubscription_durable st i s sub x l Hs Ht Hx Hc).
        apply clean_op_held. exact Hcl1. }
    destruct (IH st1 x1 (list_step l o) Hx1 Hc1 Hnd1)
      as (st' & x' & H' & Hx' & Hc' & Hnd' & Hset').
    { intros o' Ho'. rewrite Hs1. apply Hsub. right. exact Ho'. }
    { exact Hcl2. }
    exists st', x'. simpl. rewrite (bind_eq_Done _ _ _ tt st1 H1).
    rewrite Hset1 in Hset'. auto.
Qed.

End SetOps.

Section C3.
Variable DEBUG : bool.
Context {CF : ComponentFlags}.

(** C3 (corrected): in a wave whose durable loop is left alone by the
    handlers (each notification returns and leaves the entries the loop
    iterates as they are), every entry of the durable set held at the
    start is notified, in storage order and before any other
    subscription, whether the wave then returns or throws.  A sequence of
    insertions and removals on the durable set, each insertion of a
    subscription the set does not hold and each removal of one it holds
    alone or at a position that is not the last, returns and leaves the
    set holding exactly the subscriptions of the spec's set, each once; a
    wave over that set whose handlers leave alone what its loops iterate
    returns and notifies exactly these, then the transient ones. *)
Theorem subscription_set_refines st i x l :
  invalidators st !! i = Some x ->
  contents st (i_subscriptions x) = Some l ->
  (forall st2,
     i_mtime x < clock st ->
     notifyKeeping DEBUG (iterated (i_subscriptions x)) l (stamped i x st)
       = Some st2 ->
     exists more,
       notified (trace (final (Invalidator_invalidate DEBUG i st)))
       = notified (trace st) ++ l ++ more) /\
  (forall ops,
     NoDup l ->
     (forall o, o ∈ ops ->
        exists sub,
          subs st !! op_sub o = Some sub /\ isTransient sub = false) ->
     clean_ops l ops = true ->
     exists st' x',
       run_set_ops DEBUG i ops st = Done tt st' /\
       invalidators st' !! i = Some x' /\
       contents st' (i_subscriptions x') = Some (foldl list_step l ops) /\
       NoDup (foldl list_step l ops) /\
       (forall s, s ∈ foldl list_step l ops <->
                  s ∈ foldl set_step (list_to_set l) ops) /\
       (forall st2 x2 lt st3,
          i_mtime x' < clock st' ->
          notifyKeeping DEBUG (iterated (i_subscriptions x'))
            (foldl list_step l ops) (stamped i x' st') = Some st2 ->
          invalidators st2 !! i = Some x2 ->
          contents st2 (i_transientSubscriptions x2) = Some lt ->
          notifyKeeping DEBUG (taken i (i_transientSubscriptions x2)) lt
            (emptied i x2 st2) = Some st3 ->
          Invalidator_invalidate DEBUG i st' = Done tt st3 /\
          notified (trace st3) =
            notified (trace st') ++ foldl list_step l ops ++ lt)).
Proof.
  intros Hx Hc. split.
  { intros st2 Hlt Hk.
    apply (undisturbed_durable_delivers DEBUG st i x l st2 Hx Hlt Hc Hk). }
  intros ops Hnd Hsub Hcl.
  destruct (run_set_ops_refines DEBUG ops st i x l Hx Hc Hnd Hsub Hcl)
    as (st' & x' & H' & Hx' & Hc' & Hnd' & Hset').
  exists st', x'. split; [exact H' |]. split; [exact Hx' |].
  split; [exact Hc' |]. split; [exact Hnd' |]. split.
  - intros s. rewrite <- Hset'. rewrite elem_of_list_to_set. reflexivity.
  - intros st2 x2 lt st3 Hlt Hk2 Hx2 Ht Hk3.
    destruct (undisturbed_wave DEBUG st' i x' _ st2 x2 lt st3
                Hx' Hlt Hc' Hk2 Hx2 Ht Hk3) as (Hrun & Hn & _).
    split; [exact Hrun | exact Hn].
Qed.

End C3.

(** ** The loops never outrun their bound *)

#[export] Instance arrays_shrink_preorder : PreOrder arrays_shrink.
Proof.
  split.
  - intros st a l Hl. exists l. split; [exact Hl | lia].
  - intros st1 st2 st3 H12 H23 a l Hl.
    destruct (H12 a l Hl) as (l2 & Hl2 & Hle2).
    destruct (H23 a l2 Hl2) as (l3 & Hl3 & Hle3).
    exists l3. split; [exact Hl3 | lia].
Qed.

Lemma arrays_shrink_same st st' :
  arrays st' = arrays st -> arrays_shrink st st'.
Proof. intros E a l Hl. exists l. rewrite E. split; [exact Hl | lia]. Qed.

Lemma arrays_shrink_writeSub s x : preserves arrays_shrink (writeSub s x).
Proof. intros st. apply arrays_shrink_same. reflexivity. Qed.
Lemma arrays_shrink_writeInv i x : preserves arrays_shrink (writeInv i x).
Proof. intros st. apply arrays_shrink_same. reflexivity. Qed.
Lemma arrays_shrink_writeComp c x : preserves arrays_shrink (writeComp c x).
Proof. intros st. apply arrays_shrink_same. reflexivity. Qed.
Lemma arrays_shrink_emit e : preserves arrays_shrink (emit e).
Proof. intros st. apply arrays_shrink_same. reflexivity. Qed.
Lemma arrays_shrink_nextFrame f :
  preserves arrays_shrink (modify (set_nextFrameQueue f)).
Proof. intros st. apply arrays_shrink_same. reflexivity. Qed.
#[export] Hint Resolve arrays_shrink_writeSub arrays_shrink_writeInv
  arrays_shrink_writeComp arrays_shrink_emit arrays_shrink_nextFrame : pres.
Lemma arrays_shrink_updSub s f : preserves arrays_shrink (updSub s f).
Proof. unfold updSub. pres. Qed.
Lemma arrays_shrink_updInv i f : preserves arrays_shrink (updInv i f).
Proof. unfold updInv. pres. Qed.
Lemma arrays_shrink_updComp c f : preserves arrays_shrink (updComp c f).
Proof. unfold updComp. pres. Qed.
#[export] Hint Resolve arrays_shrink_updSub arrays_shrink_updInv
  arrays_shrink_updComp : pres.

Lemma fuelled_ret {A} (a : A) : fuelled (ret a).
Proof. intros st st'. discriminate. Qed.
Lemma fuelled_throw {A} e : e <> OutOfFuel -> fuelled (@throw A e).
Proof. intros He st st'. unfold throw. congruence. Qed.
Lemma fuelled_get : fuelled get.
Proof. intros st st'. discriminate. Qed.
Lemma fuelled_modify f : fuelled (modify f).
Proof. intros st st'. discriminate. Qed.
Lemma fuelled_deref {A} (o : option A) : fuelled (deref o).
Proof. intros st st'. destruct o; discriminate. Qed.
Lemma fuelled_bind {A B} (m : M A) (k : A -> M B) :
  fuelled m -> (forall a, fuelled (k a)) -> fuelled (bind m k).
Proof.
  intros Hm Hk st st' [H | (a & st1 & _ & H)]%bind_Thrown.
  - apply (Hm _ _ H).
  - apply (Hk _ _ _ H).
Qed.
Lemma fuelled_when b m : fuelled m -> fuelled (when b m).
Proof. intros Hm. destruct b; [exact Hm | apply fuelled_ret]. Qed.

Create HintDb fuel.

Ltac fuel_step :=
  match goal with
  | |- fuelled (bind _ _) => apply fuelled_bind; [| intros ?]
  | |- fuelled (ret _) => apply fuelled_ret
  | |- fuelled (throw _) => apply fuelled_throw; discriminate
  | |- fuelled get => apply fuelled_get
  | |- fuelled (modify _) => apply fuelled_modify
  | |- fuelled (deref _) => apply fuelled_deref
  | |- fuelled (when _ _) => apply fuelled_when
  | |- fuelled (match ?x with _ => _ end) => destruct x
  | |- fuelled _ => solve [eauto with fuel]
  end.
Ltac fuel := repeat fuel_step.

Lemma fuelled_readSub s : fuelled (readSub s).
Proof. unfold readSub. fuel. Qed.
Lemma fuelled_readInv i : fuelled (readInv i).
Proof. unfold readInv. fuel. Qed.
Lemma fuelled_readComp c : fuelled (readComp c).
Proof. unfold readComp. fuel. Qed.
Lemma fuelled_readArr a : fuelled (readArr a).
Proof. unfold readArr. fuel. Qed.
Lemma fuelled_writeSub s x : fuelled (writeSub s x).
Proof. apply fuelled_modify. Qed.
Lemma fuelled_writeInv i x : fuelled (writeInv i x).
Proof. apply fuelled_modify. Qed.
Lemma fuelled_writeComp c x : fuelled (writeComp c x).
Proof. apply fuelled_modify. Qed.
Lemma fuelled_writeArr a l : fuelled (writeArr a l).
Proof. apply fuelled_modify. Qed.
Lemma fuelled_emit e : fuelled (emit e).
Proof. apply fuelled_modify. Qed.
#[export] Hint Resolve fuelled_readSub fuelled_readInv fuelled_readComp
  fuelled_readArr fuelled_writeSub fuelled_writeInv fuelled_writeComp
  fuelled_writeArr fuelled_emit : fuel.
Lemma fuelled_updSub s f : fuelled (updSub s f).
Proof. unfold updSub. fuel. Qed.
Lemma fuelled_updInv i f : fuelled (updInv i f).
Proof. unfold updInv. fuel. Qed.
Lemma fuelled_updComp c f : fuelled (updComp c f).
Proof. unfold updComp. fuel. Qed.
Lemma fuelled_newArr l : fuelled (newArr l).
Proof. unfold newArr. fuel. Qed.
#[export] Hint Resolve fuelled_updSub fuelled_updInv fuelled_updComp
  fuelled_newArr : fuel.

(** A loop entered with the length of its array as bound, over a body that
    grows no array. *)
Lemma forEachLive_fuelled_from body a :
  (forall s, fuelled (body s)) ->
  (forall s, preserves arrays_shrink (body s)) ->
  forall fuel i st st',
    (forall l, arrays st !! a = Some l -> (length l <= i + fuel)%nat) ->
    forEachLive body fuel a i st <> Thrown OutOfFuel st'.
Proof.
  intros Hf Hs. induction fuel as [| fuel IH]; intros i st st' Hlen; simpl.
  - intros [H | (l & st1 & [-> Hl]%readArr_inv & H)]%bind_Thrown.
    + apply (fuelled_readArr _ _ _ H).
    + specialize (Hlen l Hl).
      destruct (Nat.ltb_spec i (length l)); [lia | discriminate].
  - intros [H | (l & st1 & [-> Hl]%readArr_inv & H)]%bind_Thrown.
    + apply (fuelled_readArr _ _ _ H).
    + specialize (Hlen l Hl).
      destruct (Nat.ltb_spec i (length l)); [| discriminate].
      apply bind_Thrown in H as [H | (s & st1 & [-> _]%deref_inv & H)].
      * apply (fuelled_deref _ _ _ H).
      * apply bind_Thrown in H as [H | ([] & st1 & H1 & H)].
        -- apply (Hf _ _ _ H).
        -- apply (IH (S i) st1 st'); [| exact H].
           intros l1 Hl1. pose proof (Hs s st) as Hsh. rewrite H1 in Hsh.
           destruct (Hsh a l Hl) as (l1' & Hl1' & Hle). simpl in Hl1'.
           rewrite Hl1 in Hl1'. injection Hl1' as <-. lia.
Qed.

Lemma forEachLive_fuelled body a :
  (forall s, fuelled (body s)) ->
  (forall s, preserves arrays_shrink (body s)) ->
  fuelled (l ← readArr a; forEachLive body (length l) a 0).
Proof.
  intros Hf Hs st st' [H | (l & st1 & [-> Hl]%readArr_inv & H)]%bind_Thrown.
  - apply (fuelled_readArr _ _ _ H).
  - revert H. apply forEachLive_fuelled_from; [exact Hf | exact Hs |].
    intros l' Hl'. rewrite Hl in Hl'. injection Hl' as <-. lia.
Qed.

Section Fuel.
Variable DEBUG : bool.
Context {CF : ComponentFlags}.

Lemma arrays_shrink_removeFrom msg sl s :
  preserves arrays_shrink (removeFrom DEBUG msg sl s).
Proof.
  destruct sl as [| y | a]; simpl; [pres .. |].
  intros st. rapply R_bind; [rapply preserves_readArr |].
  intros l st1 [-> Hl]%readArr_inv.
  destruct (bool_decide (length l = 1%nat)); [by_pres |].
  rapply R_bind; [by_pres |].
  intros [] st1 H1.
  assert (st1 = st) as ->.
  { destruct (DEBUG && bool_decide (indexOf s l = None));
      simpl in H1; [discriminate | injection H1 as <-; reflexivity]. }
  rapply R_bind; [| intros; reflexivity].
  intros b lb Hb. simpl. destruct (decide (a = b)) as [<- | Hne].
  - rewrite lookup_insert_eq. eexists. split; [reflexivity |].
    rewrite Hl in Hb. injection Hb as <-. apply length_swap_pop.
  - rewrite lookup_insert_ne by exact Hne. exists lb. split; [exact Hb | lia].
Qed.
Hint Resolve arrays_shrink_removeFrom : pres.

Lemma arrays_shrink_removeSubscription i s :
  preserves arrays_shrink (Invalidator_removeSubscription DEBUG i s).
Proof. unfold Invalidator_removeSubscription. pres. Qed.
Lemma arrays_shrink_Component_removeSubscription c s :
  preserves arrays_shrink (Component_removeSubscription DEBUG c s).
Proof. unfold Component_removeSubscription. pres. Qed.
Hint Resolve arrays_shrink_removeSubscription
  arrays_shrink_Component_removeSubscription : pres.
Lemma arrays_shrink_cancelOne s : preserves arrays_shrink (cancelOne DEBUG s).
Proof. unfold cancelOne. pres. Qed.
Hint Resolve arrays_shrink_cancelOne : pres.
Lemma arrays_shrink_cancelAll sl : preserves arrays_shrink (cancelAll DEBUG sl).
Proof. unfold cancelAll. pres. Qed.
Hint Resolve arrays_shrink_cancelAll : pres.
Lemma arrays_shrink_cancelTransientSubscriptions c :
  preserves arrays_shrink (Component_cancelTransientSubscriptions DEBUG c).
Proof. unfold Component_cancelTransientSubscriptions. pres. Qed.
Lemma arrays_shrink_cancel s :
  preserves arrays_shrink (InvalidatorSubscription_cancel DEBUG s).
Proof. unfold InvalidatorSubscription_cancel. pres. Qed.
Hint Resolve arrays_shrink_cancelTransientSubscriptions
  arrays_shrink_cancel : pres.
Lemma arrays_shrink_Component_invalidate c :
  preserves arrays_shrink (Component_invalidate DEBUG c).
Proof. unfold Component_invalidate. pres. Qed.
Lemma arrays_shrink_runActions body :
  preserves arrays_shrink (runActions DEBUG body).
Proof. induction body as [| [s] body IH]; simpl; pres. Qed.
Hint Resolve arrays_shrink_Component_invalidate arrays_shrink_runActions
  : pres.
Lemma arrays_shrink_Subscription_invalidate s :
  preserves arrays_shrink (InvalidatorSubscription_invalidate DEBUG s).
Proof. unfold InvalidatorSubscription_invalidate. pres. Qed.

Lemma fuelled_addTo sl s : fuelled (addTo sl s).
Proof. unfold addTo. fuel. Qed.
Lemma fuelled_removeFrom msg sl s : fuelled (removeFrom DEBUG msg sl s).
Proof. unfold removeFrom. fuel. Qed.
Hint Resolve fuelled_addTo fuelled_removeFrom : fuel.
Lemma fuelled_Invalidator_new : fuelled Invalidator_new.
Proof. unfold Invalidator_new. fuel. Qed.
Lemma fuelled_hasSubscriptions i : fuelled (Invalidator_hasSubscriptions i).
Proof. unfold Invalidator_hasSubscriptions, slot_nonempty. fuel. Qed.
Lemma fuelled_addSubscription i s : fuelled (Invalidator_addSubscription i s).
Proof. unfold Invalidator_addSubscription. fuel. Qed.
Lemma fuelled_removeSubscription i s :
  fuelled (Invalidator_removeSubscription DEBUG i s).
Proof. unfold Invalidator_removeSubscription. fuel. Qed.
Hint Resolve fuelled_addSubscription fuelled_removeSubscription : fuel.
Lemma fuelled_Component_removeSubscription c s :
  fuelled (Component_removeSubscription DEBUG c s).
Proof. unfold Component_removeSubscription. fuel. Qed.
Lemma fuelled_cancelOne s : fuelled (cancelOne DEBUG s).
Proof. unfold cancelOne. fuel. Qed.
Hint Resolve fuelled_Component_removeSubscription fuelled_cancelOne : fuel.
Lemma fuelled_cancelAll sl : fuelled (cancelAll DEBUG sl).
Proof.
  destruct sl; simpl; [fuel | fuel |].
  apply forEachLive_fuelled;
    [apply fuelled_cancelOne | apply arrays_shrink_cancelOne].
Qed.
Hint Resolve fuelled_cancelAll : fuel.
Lemma fuelled_cancelSubscriptions c :
  fuelled (Component_cancelSubscriptions DEBUG c).
Proof. unfold Component_cancelSubscriptions. fuel. Qed.
Lemma fuelled_cancelTransientSubscriptions c :
  fuelled (Component_cancelTransientSubscriptions DEBUG c).
Proof. unfold Component_cancelTransientSubscriptions. fuel. Qed.
Hint Resolve fuelled_cancelSubscriptions
  fuelled_cancelTransientSubscriptions : fuel.
Lemma fuelled_Subscription_new f i x :
  fuelled (InvalidatorSubscription_new f i x).
Proof. unfold InvalidatorSubscription_new. fuel. Qed.
Lemma fuelled_cancel s : fuelled (InvalidatorSubscription_cancel DEBUG s).
Proof. unfold InvalidatorSubscription_cancel. fuel. Qed.
Hint Resolve fuelled_Subscription_new fuelled_cancel : fuel.
Lemma fuelled_Component_invalidate c : fuelled (Component_invalidate DEBUG c).
Proof. unfold Component_invalidate. fuel. Qed.
Lemma fuelled_update c : fuelled (Component_update c).
Proof. unfold Component_update. fuel. Qed.
Lemma fuelled_start c : fuelled (Component_startUpdateEachFrame c).
Proof. unfold Component_startUpdateEachFrame. fuel. Qed.
Lemma fuelled_stop c : fuelled (Component_stopUpdateEachFrame c).
Proof. unfold Component_stopUpdateEachFrame. fuel. Qed.
Lemma fuelled_dispose c : fuelled (Component_dispose DEBUG c).
Proof. unfold Component_dispose. fuel. Qed.
Lemma fuelled_subscribe c i : fuelled (Component_subscribe c i).
Proof. unfold Component_subscribe. fuel. Qed.
Lemma fuelled_transientSubscribe c i :
  fuelled (Component_transientSubscribe c i).
Proof. unfold Component_transientSubscribe. fuel. Qed.
Lemma fuelled_Component_new f d p : fuelled (Component_new f d p).
Proof. unfold Component_new. fuel. Qed.
Hint Resolve fuelled_Component_invalidate fuelled_Component_new : fuel.
Lemma fuelled_create d p : fuelled (Component_create d p).
Proof. unfold Component_create, runInit. fuel. Qed.
Lemma fuelled_mount d p : fuelled (Component_mount d p).
Proof. unfold Component_mount, runInit. fuel. Qed.
Lemma fuelled_runActions body : fuelled (runActions DEBUG body).
Proof. induction body as [| [s] body IH]; simpl; fuel. Qed.
Hint Resolve fuelled_runActions : fuel.
Lemma fuelled_Subscription_invalidate s :
  fuelled (InvalidatorSubscription_invalidate DEBUG s).
Proof. unfold InvalidatorSubscription_invalidate. fuel. Qed.
Lemma fuelled_notifyAll sl : fuelled (notifyAll DEBUG sl).
Proof.
  destruct sl; simpl; [fuel | apply fuelled_Subscription_invalidate |].
  apply forEachLive_fuelled;
    [apply fuelled_Subscription_invalidate
    | apply arrays_shrink_Subscription_invalidate].
Qed.
Hint Resolve fuelled_notifyAll : fuel.
Lemma fuelled_Invalidator_invalidate i :
  fuelled (Invalidator_invalidate DEBUG i).
Proof. unfold Invalidator_invalidate. fuel. Qed.

End Fuel.

(** ** Every operation is made of the same writes *)

Section Everywhere.
Variable DEBUG : bool.
Context {CF : ComponentFlags}.
Variable R : State -> State -> Prop.
Context `{!PreOrder R} `{!Atoms DEBUG R}.

Hint Resolve atom_emit atom_nextFrame atom_start atom_stop atom_addTo
  atom_removeFrom atom_inv_subscriptions atom_inv_transientSubscriptions
  atom_inv_mtime atom_Invalidator_new atom_Subscription_new
  atom_Component_new atom_isCanceled atom_comp_subscriptions
  atom_comp_transientSubscriptions atom_comp_mtime atom_comp_root
  atom_set_DIRTY atom_clear_DIRTY atom_set_DISPOSED atom_clear_ATTACHED
  atom_clear_MOUNTING : pres.

Lemma kept_hasSubscriptions i :
  preserves R (Invalidator_hasSubscriptions i).
Proof. unfold Invalidator_hasSubscriptions, slot_nonempty. pres. Qed.
Lemma kept_addSubscription i s :
  preserves R (Invalidator_addSubscription i s).
Proof. unfold Invalidator_addSubscription. pres. Qed.
Lemma kept_removeSubscription i s :
  preserves R (Invalidator_removeSubscription DEBUG i s).
Proof. unfold Invalidator_removeSubscription. pres. Qed.
Hint Resolve kept_addSubscription kept_removeSubscription : pres.
Lemma kept_Component_removeSubscription c s :
  preserves R (Component_removeSubscription DEBUG c s).
Proof. unfold Component_removeSubscription. pres. Qed.
Hint Resolve kept_Component_removeSubscription : pres.
Lemma kept_cancelOne s : preserves R (cancelOne DEBUG s).
Proof. unfold cancelOne. pres. Qed.
Hint Resolve kept_cancelOne : pres.
Lemma kept_cancelAll sl : preserves R (cancelAll DEBUG sl).
Proof. unfold cancelAll. pres. Qed.
Hint Resolve kept_cancelAll : pres.
Lemma kept_cancelSubscriptions c :
  preserves R (Component_cancelSubscriptions DEBUG c).
Proof. unfold Component_cancelSubscriptions. pres. Qed.
Lemma kept_cancelTransientSubscriptions c :
  preserves R (Component_cancelTransientSubscriptions DEBUG c).
Proof. unfold Component_cancelTransientSubscriptions. pres. Qed.
Hint Resolve kept_cancelSubscriptions kept_cancelTransientSubscriptions
  : pres.
Lemma kept_cancel s : preserves R (InvalidatorSubscription_cancel DEBUG s).
Proof. unfold InvalidatorSubscription_cancel. pres. Qed.
Hint Resolve kept_cancel : pres.
Lemma kept_Component_invalidate c :
  preserves R (Component_invalidate DEBUG c).
Proof. unfold Component_invalidate. pres. Qed.
Hint Resolve kept_Component_invalidate : pres.
Lemma kept_update c : preserves R (Component_update c).
Proof.
  unfold Component_update.
  rapply preserves_bind; [rapply preserves_readComp |]. intros comp.
  destruct (_ =? _); [| rapply preserves_ret].
  rapply preserves_bind.
  { destruct (d_update _); [apply atom_emit | rapply preserves_throw]. }
  intros _. rapply preserves_bind; [rapply preserves_get |]. intros st.
  rapply preserves_bind; [apply atom_comp_mtime |]. intros _.
  apply atom_clear_DIRTY.
Qed.
Lemma kept_dispose c : preserves R (Component_dispose DEBUG c).
Proof.
  unfold Component_dispose.
  rapply preserves_bind; [rapply preserves_readComp |]. intros comp.
  rapply preserves_bind.
  { rapply preserves_when. rapply preserves_throw. }
  intros _. rapply preserves_bind; [apply atom_set_DISPOSED |]. intros _.
  rapply preserves_bind; [apply atom_clear_ATTACHED |]. intros _.
  rapply preserves_bind; [apply kept_cancelSubscriptions |]. intros _.
  rapply preserves_bind; [apply kept_cancelTransientSubscriptions |].
  intros _. rapply preserves_bind; [rapply preserves_readComp |].
  intros comp'. rapply preserves_bind.
  { destruct (c_root _); [apply atom_emit | rapply preserves_ret]. }
  intros _. destruct (d_disposed _); [apply atom_emit | rapply preserves_ret].
Qed.
Lemma kept_subscribe c i : preserves R (Component_subscribe c i).
Proof. unfold Component_subscribe. pres. Qed.
Lemma kept_transientSubscribe c i :
  preserves R (Component_transientSubscribe c i).
Proof. unfold Component_transientSubscribe. pres. Qed.
Lemma kept_create d p : preserves R (Component_create d p).
Proof. unfold Component_create, runInit. pres. Qed.
Lemma kept_mount d p : preserves R (Component_mount d p).
Proof. unfold Component_mount, runInit. pres. Qed.
Lemma kept_runActions body : preserves R (runActions DEBUG body).
Proof. induction body as [| [s] body IH]; simpl; pres. Qed.
Hint Resolve kept_runActions : pres.
Lemma kept_Subscription_invalidate s :
  preserves R (InvalidatorSubscription_invalidate DEBUG s).
Proof. unfold InvalidatorSubscription_invalidate. pres. Qed.
Hint Resolve kept_Subscription_invalidate : pres.
Lemma kept_notifyAll sl : preserves R (notifyAll DEBUG sl).
Proof. unfold notifyAll. pres. Qed.
Hint Resolve kept_notifyAll : pres.
Lemma kept_Invalidator_invalidate i :
  preserves R (Invalidator_invalidate DEBUG i).
Proof. unfold Invalidator_invalidate. pres. Qed.
Lemma kept_syncVRoot c r : preserves R (Component_syncVRoot c r).
Proof. unfold Component_syncVRoot. pres. Qed.

Lemma kept_call k : preserves R (call_body DEBUG k).
Proof.
  assert (forall A (m : M A), preserves R m -> preserves R (void m))
    as Hvoid.
  { intros A m Hm. unfold void. pres. }
  destruct k; cbn [call_body]; try apply Hvoid.
  - apply atom_Invalidator_new.
  - apply kept_hasSubscriptions.
  - apply kept_addSubscription.
  - apply kept_removeSubscription.
  - apply kept_Invalidator_invalidate.
  - apply atom_Subscription_new.
  - apply kept_cancel.
  - apply kept_Subscription_invalidate.
  - apply kept_create.
  - apply kept_mount.
  - apply kept_update.
  - apply kept_Component_invalidate.
  - apply atom_start.
  - apply atom_stop.
  - apply kept_dispose.
  - apply kept_subscribe.
  - apply kept_transientSubscribe.
  - apply kept_Component_removeSubscription.
  - apply kept_cancelSubscriptions.
  - apply kept_cancelTransientSubscriptions.
Qed.

Lemma kept_run_op o st : R st (run_op DEBUG st o).
Proof.
  destruct o as [k | c r | now]; simpl.
  - apply kept_call.
  - apply kept_syncVRoot.
  - apply atom_tick.
Qed.

Lemma kept_run_ops ops st : R st (run_ops DEBUG ops st).
Proof.
  unfold run_ops. revert st.
  induction ops as [| o ops IH]; intros st; simpl; [reflexivity |].
  etransitivity; [apply kept_run_op | apply IH].
Qed.
End Everywhere.

(** ** Subscriptions stay as they were made *)

#[export] Instance sub_sticks_preorder : PreOrder sub_sticks.
Proof.
  split.
  - intros st s x Hx. exists x. auto.
  - intros st1 st2 st3 H12 H23 s x Hx.
    destruct (H12 s x Hx) as (x2 & Hx2 & Hf2 & Hi2 & Hs2 & Hc2).
    destruct (H23 s x2 Hx2) as (x3 & Hx3 & Hf3 & Hi3 & Hs3 & Hc3).
    exists x3. repeat split; try congruence. auto.
Qed.

Lemma sub_sticks_same st st' : subs st' = subs st -> sub_sticks st st'.
Proof. intros E s x Hx. exists x. rewrite E. auto. Qed.

Lemma sub_sticks_writeInv i x : preserves sub_sticks (writeInv i x).
Proof. intros st. apply sub_sticks_same. reflexivity. Qed.
Lemma sub_sticks_writeComp c x : preserves sub_sticks (writeComp c x).
Proof. intros st. apply sub_sticks_same. reflexivity. Qed.
Lemma sub_sticks_writeArr a l : preserves sub_sticks (writeArr a l).
Proof. intros st. apply sub_sticks_same. reflexivity. Qed.
Lemma sub_sticks_emit e : preserves sub_sticks (emit e).
Proof. intros st. apply sub_sticks_same. reflexivity. Qed.
Lemma sub_sticks_nextFrame f :
  preserves sub_sticks (modify (set_nextFrameQueue f)).
Proof. intros st. apply sub_sticks_same. reflexivity. Qed.
Lemma sub_sticks_eachFrame f :
  preserves sub_sticks (modify (set_eachFrameSet f)).
Proof. intros st. apply sub_sticks_same. reflexivity. Qed.
#[export] Hint Resolve sub_sticks_writeInv sub_sticks_writeComp
  sub_sticks_writeArr sub_sticks_emit sub_sticks_nextFrame
  sub_sticks_eachFrame : pres.
Lemma sub_sticks_updInv i f : preserves sub_sticks (updInv i f).
Proof. unfold updInv. pres. Qed.
Lemma sub_sticks_updComp c f : preserves sub_sticks (updComp c f).
Proof. unfold updComp. pres. Qed.
Lemma sub_sticks_newArr l : preserves sub_sticks (newArr l).
Proof. unfold newArr. pres. Qed.
#[export] Hint Resolve sub_sticks_updInv sub_sticks_updComp
  sub_sticks_newArr : pres.

Lemma sub_sticks_insert st s y :
  (forall x, subs st !! s = Some x ->
     s_flags y = s_flags x /\ s_invalidator y = s_invalidator x /\
     s_subscriber y = s_subscriber x /\
     (s_isCanceled x = true -> s_isCanceled y = true)) ->
  sub_sticks st (set_subs <[s := y]> st).
Proof.
  intros Hy t x Hx. simpl. destruct (decide (s = t)) as [-> | Hne].
  - exists y. rewrite lookup_insert_eq. split; [reflexivity |].
    apply Hy, Hx.
  - exists x. rewrite lookup_insert_ne by exact Hne. auto.
Qed.

Lemma sub_sticks_isCanceled s :
  preserves sub_sticks (updSub s (sub_with_isCanceled true)).
Proof.
  intros st. unfold updSub. rapply R_bind; [rapply preserves_readSub |].
  intros x st1 [-> Hx]%readSub_inv. apply sub_sticks_insert.
  intros x0 Hx0. rewrite Hx in Hx0. injection Hx0 as <-. simpl. auto.
Qed.

#[export] Instance sub_sticks_atoms DEBUG `{ComponentFlags} :
  Atoms DEBUG sub_sticks.
Proof.
  split; intros.
  - apply sub_sticks_emit.
  - apply sub_sticks_nextFrame.
  - unfold Component_startUpdateEachFrame. pres.
  - unfold Component_stopUpdateEachFrame. pres.
  - unfold addTo. pres.
  - unfold removeFrom. pres.
  - apply sub_sticks_updInv.
  - apply sub_sticks_updInv.
  - apply sub_sticks_updInv.
  - unfold Invalidator_new. pres.
  - intros st. unfold InvalidatorSubscription_new.
    rapply R_bind; [rapply preserves_get |]. intros st0 st1 [= <- <-].
    rapply R_bind; [| intros; reflexivity].
    apply sub_sticks_insert. intros x0 Hx0. exfalso.
    apply (is_fresh (dom (subs st))). apply elem_of_dom. eauto.
  - unfold Component_new. pres.
  - apply sub_sticks_isCanceled.
  - apply sub_sticks_updComp.
  - apply sub_sticks_updComp.
  - apply sub_sticks_updComp.
  - apply sub_sticks_updComp.
  - apply sub_sticks_updComp.
  - apply sub_sticks_updComp.
  - apply sub_sticks_updComp.
  - apply sub_sticks_updComp.
  - apply sub_sticks_updComp.
  - apply sub_sticks_same. reflexivity.
Qed.

(** ** Components stay, and stay disposed *)

Section Sticks.
Context {CF : ComponentFlags} {CFok : ComponentFlagsOk CF}.

#[export] Instance comp_sticks_preorder : PreOrder comp_sticks.
Proof.
  split.
  - intros st c x Hx. exists x. auto 10.
  - intros st1 st2 st3 H12 H23 c x Hx.
    destruct (H12 c x Hx) as (x2 & Hx2 & Hd2 & Hp2 & Hh2 & Hs2 & Hq2 & Ha2).
    destruct (H23 c x2 Hx2) as (x3 & Hx3 & Hd3 & Hp3 & Hh3 & Hs3 & Hq3 & Ha3).
    exists x3. repeat split; try congruence; auto.
Qed.

Lemma comp_sticks_same st st' :
  components st' = components st -> comp_sticks st st'.
Proof. intros E c x Hx. exists x. rewrite E. auto 10. Qed.

Lemma comp_sticks_updComp c f :
  sticky f -> preserves comp_sticks (updComp c f).
Proof.
  intros Hf st. unfold updComp.
  rapply R_bind; [rapply preserves_readComp |].
  intros x st1 [-> Hx]%readComp_inv d y Hy. simpl.
  destruct (decide (c = d)) as [<- | Hne].
  - exists (f x). rewrite lookup_insert_eq. split; [reflexivity |].
    rewrite Hx in Hy. injection Hy as <-. apply Hf.
  - exists y. rewrite lookup_insert_ne by exact Hne. auto 10.
Qed.

Lemma sticky_fields f :
  (forall x, c_flags (f x) = c_flags x) ->
  (forall x, c_descriptor (f x) = c_descriptor x) ->
  (forall x, c_parent (f x) = c_parent x) ->
  (forall x, c_depth (f x) = c_depth x) ->
  sticky f.
Proof.
  intros Hf Hd Hp Hh x. unfold isDisposed. rewrite Hf. auto 10.
Qed.

Lemma sticky_set m :
  single_bit m -> m <> ATTACHED ->
  sticky (fun x => comp_with_flags (js_or (c_flags x) m) x).
Proof.
  intros Hm Ha x. simpl. unfold isDisposed. simpl.
  rewrite !(has_flag_set _ m) by
    (first [exact Hm | apply DISPOSED_bit | apply IN_UPDATE_QUEUE_bit
           | apply ATTACHED_bit]).
  rewrite (bool_decide_eq_false_2 (m = ATTACHED)) by assumption.
  repeat split; intros ->; reflexivity.
Qed.

Lemma sticky_clear m :
  single_bit m -> m <> DISPOSED -> m <> IN_UPDATE_QUEUE ->
  sticky (fun x => comp_with_flags (js_and (c_flags x) (js_not m)) x).
Proof.
  intros Hm H1 H2 x. simpl. unfold isDisposed. simpl.
  rewrite !(has_flag_clear _ m) by
    (first [exact Hm | apply DISPOSED_bit | apply IN_UPDATE_QUEUE_bit
           | apply ATTACHED_bit]).
  rewrite (bool_decide_eq_false_2 (m = DISPOSED)) by assumption.
  rewrite (bool_decide_eq_false_2 (m = IN_UPDATE_QUEUE)) by assumption.
  repeat split; intros ->; reflexivity.
Qed.

Lemma flags_ne_ATTACHED :
  DIRTY <> ATTACHED /\ DISPOSED <> ATTACHED /\
  UPDATE_EACH_FRAME <> ATTACHED /\ IN_UPDATE_QUEUE <> ATTACHED /\
  MOUNTING <> ATTACHED.
Proof.
  pose proof flags_distinct as Hnd.
  rewrite !NoDup_cons, !elem_of_cons, elem_of_nil in Hnd.
  repeat split; intros E; rewrite ?E in Hnd; tauto.
Qed.

Lemma flags_ne :
  DIRTY <> DISPOSED /\ DIRTY <> IN_UPDATE_QUEUE /\
  MOUNTING <> DISPOSED /\ MOUNTING <> IN_UPDATE_QUEUE /\
  ATTACHED <> DISPOSED /\ ATTACHED <> IN_UPDATE_QUEUE /\
  UPDATE_EACH_FRAME <> DISPOSED /\ UPDATE_EACH_FRAME <> IN_UPDATE_QUEUE /\
  DISPOSED <> IN_UPDATE_QUEUE.
Proof.
  pose proof flags_distinct as Hnd.
  rewrite !NoDup_cons, !elem_of_cons, elem_of_nil in Hnd.
  repeat split; intros E; rewrite ?E in Hnd; tauto.
Qed.

Lemma sticky_clear2 :
  sticky (fun x => comp_with_flags
                     (js_and (c_flags x)
                        (js_not (js_or ATTACHED UPDATE_EACH_FRAME))) x).
Proof.
  destruct flags_ne as (_ & _ & _ & _ & H1 & H2 & H3 & H4 & _).
  intros x. simpl. unfold isDisposed. simpl.
  rewrite !has_flag_clear2 by
    (first [apply ATTACHED_bit | apply UPDATE_EACH_FRAME_bit
           | apply DISPOSED_bit | apply IN_UPDATE_QUEUE_bit]).
  rewrite (bool_decide_eq_false_2 (ATTACHED = DISPOSED)) by assumption.
  rewrite (bool_decide_eq_false_2 (ATTACHED = IN_UPDATE_QUEUE))
    by assumption.
  rewrite (bool_decide_eq_false_2 (UPDATE_EACH_FRAME = DISPOSED))
    by assumption.
  rewrite (bool_decide_eq_false_2 (UPDATE_EACH_FRAME = IN_UPDATE_QUEUE))
    by assumption.
  repeat split; intros ->; reflexivity.
Qed.

Lemma comp_sticks_writeSub s x : preserves comp_sticks (writeSub s x).
Proof. intros st. apply comp_sticks_same. reflexivity. Qed.
Lemma comp_sticks_writeInv i x : preserves comp_sticks (writeInv i x).
Proof. intros st. apply comp_sticks_same. reflexivity. Qed.
Lemma comp_sticks_writeArr a l : preserves comp_sticks (writeArr a l).
Proof. intros st. apply comp_sticks_same. reflexivity. Qed.
Lemma comp_sticks_emit e : preserves comp_sticks (emit e).
Proof. intros st. apply comp_sticks_same. reflexivity. Qed.
Lemma comp_sticks_nextFrame f :
  preserves comp_sticks (modify (set_nextFrameQueue f)).
Proof. intros st. apply comp_sticks_same. reflexivity. Qed.
Lemma comp_sticks_eachFrame f :
  preserves comp_sticks (modify (set_eachFrameSet f)).
Proof. intros st. apply comp_sticks_same. reflexivity. Qed.
Hint Resolve comp_sticks_writeSub comp_sticks_writeInv
  comp_sticks_writeArr comp_sticks_emit comp_sticks_nextFrame
  comp_sticks_eachFrame : pres.
Lemma comp_sticks_updInv i f : preserves comp_sticks (updInv i f).
Proof. unfold updInv. pres. Qed.
Lemma comp_sticks_updSub s f : preserves comp_sticks (updSub s f).
Proof. unfold updSub. pres. Qed.
Lemma comp_sticks_newArr l : preserves comp_sticks (newArr l).
Proof. unfold newArr. pres. Qed.
Hint Resolve comp_sticks_updInv comp_sticks_updSub comp_sticks_newArr
  : pres.

Lemma comp_sticks_set c m :
  single_bit m -> m <> ATTACHED ->
  preserves comp_sticks
    (updComp c (fun x => comp_with_flags (js_or (c_flags x) m) x)).
Proof. intros Hm Ha. apply comp_sticks_updComp, sticky_set; assumption. Qed.

Lemma comp_sticks_clear c m :
  single_bit m -> m <> DISPOSED -> m <> IN_UPDATE_QUEUE ->
  preserves comp_sticks
    (updComp c (fun x => comp_with_flags (js_and (c_flags x) (js_not m)) x)).
Proof. intros. apply comp_sticks_updComp, sticky_clear; assumption. Qed.

Lemma comp_sticks_Component_new f d p :
  preserves comp_sticks (Component_new f d p).
Proof.
  unfold Component_new.
  rapply preserves_bind; [pres |]. intros depth st.
  rapply R_bind; [rapply preserves_get |]. intros st0 st1 [= <- <-].
  rapply R_bind; [| intros; reflexivity].
  intros c x Hx. simpl. exists x.
  rewrite lookup_insert_ne; [auto 10 |].
  intros <-. apply (is_fresh (dom (components st))).
  apply elem_of_dom. eauto.
Qed.

#[export] Instance comp_sticks_atoms DEBUG : Atoms DEBUG comp_sticks.
Proof.
  destruct flags_ne as (H1 & H2 & H3 & H4 & H5 & H6 & H7 & H8 & H9).
  destruct flags_ne_ATTACHED as (A1 & A2 & A3 & A4 & A5).
  split; intros.
  - apply comp_sticks_emit.
  - apply comp_sticks_nextFrame.
  - unfold Component_startUpdateEachFrame.
    rapply preserves_bind;
      [apply comp_sticks_set; [apply UPDATE_EACH_FRAME_bit | assumption] |]. intros _.
    rapply preserves_bind; [rapply preserves_readComp |]. intros x.
    destruct (_ =? 0); [| rapply preserves_ret].
    rapply preserves_bind;
      [apply comp_sticks_set; [apply IN_UPDATE_QUEUE_bit | assumption] |]. intros _.
    apply comp_sticks_eachFrame.
  - unfold Component_stopUpdateEachFrame.
    apply comp_sticks_clear; [apply UPDATE_EACH_FRAME_bit | |]; assumption.
  - unfold addTo. pres.
  - unfold removeFrom. pres.
  - apply comp_sticks_updInv.
  - apply comp_sticks_updInv.
  - apply comp_sticks_updInv.
  - unfold Invalidator_new. pres.
  - unfold InvalidatorSubscription_new. pres.
  - apply comp_sticks_Component_new.
  - apply comp_sticks_updSub.
  - apply comp_sticks_updComp, sticky_fields; reflexivity.
  - apply comp_sticks_updComp, sticky_fields; reflexivity.
  - apply comp_sticks_updComp, sticky_fields; reflexivity.
  - apply comp_sticks_updComp, sticky_fields; reflexivity.
  - apply comp_sticks_set; [apply DIRTY_bit | assumption].
  - apply comp_sticks_clear; [apply DIRTY_bit | |]; assumption.
  - apply comp_sticks_set; [apply DISPOSED_bit | assumption].
  - apply comp_sticks_updComp, sticky_clear2.
  - apply comp_sticks_clear; [apply MOUNTING_bit | |]; assumption.
  - apply comp_sticks_same. reflexivity.
Qed.
End Sticks.

(** ** Invariants of the heap *)

#[export] Instance keeps_preorder I : PreOrder (keeps I).
Proof. split; unfold keeps; [intros st; auto | intros st1 st2 st3; auto]. Qed.

(** *** No array is empty *)

Lemma no_empty_array_same st st' :
  arrays st' = arrays st -> keeps no_empty_array st st'.
Proof. intros E H a l. rewrite E. apply H. Qed.

Lemma no_empty_array_writeArr a l :
  l <> [] -> preserves (keeps no_empty_array) (writeArr a l).
Proof.
  intros Hl st H b l'. simpl. destruct (decide (a = b)) as [<- | Hne].
  - rewrite lookup_insert_eq. intros [= <-]. exact Hl.
  - rewrite lookup_insert_ne by exact Hne. apply H.
Qed.

Lemma no_empty_array_writeSub s x :
  preserves (keeps no_empty_array) (writeSub s x).
Proof. intros st. apply no_empty_array_same. reflexivity. Qed.
Lemma no_empty_array_writeInv i x :
  preserves (keeps no_empty_array) (writeInv i x).
Proof. intros st. apply no_empty_array_same. reflexivity. Qed.
Lemma no_empty_array_writeComp c x :
  preserves (keeps no_empty_array) (writeComp c x).
Proof. intros st. apply no_empty_array_same. reflexivity. Qed.
Lemma no_empty_array_emit e : preserves (keeps no_empty_array) (emit e).
Proof. intros st. apply no_empty_array_same. reflexivity. Qed.
Lemma no_empty_array_nextFrame f :
  preserves (keeps no_empty_array) (modify (set_nextFrameQueue f)).
Proof. intros st. apply no_empty_array_same. reflexivity. Qed.
Lemma no_empty_array_eachFrame f :
  preserves (keeps no_empty_array) (modify (set_eachFrameSet f)).
Proof. intros st. apply no_empty_array_same. reflexivity. Qed.
#[export] Hint Resolve no_empty_array_writeSub no_empty_array_writeInv
  no_empty_array_writeComp no_empty_array_emit no_empty_array_nextFrame
  no_empty_array_eachFrame : pres.
Lemma no_empty_array_updInv i f :
  preserves (keeps no_empty_array) (updInv i f).
Proof. unfold updInv. pres. Qed.
Lemma no_empty_array_updComp c f :
  preserves (keeps no_empty_array) (updComp c f).
Proof. unfold updComp. pres. Qed.
Lemma no_empty_array_updSub s f :
  preserves (keeps no_empty_array) (updSub s f).
Proof. unfold updSub. pres. Qed.
#[export] Hint Resolve no_empty_array_updInv no_empty_array_updComp
  no_empty_array_updSub : pres.

Lemma swap_pop_nonempty l i :
  (2 <= length l)%nat -> swap_pop l i <> [].
Proof.
  intros Hl E. apply (f_equal length) in E. simpl in E.
  destruct (last_snoc_inv l) as [-> | (l0 & z & ->)]; [simpl in Hl; lia |].
  rewrite length_app in Hl. simpl in Hl.
  unfold swap_pop in E. rewrite removelast_last, last_snoc in E.
  destruct i as [k |]; [destruct (decide (k < length l0)%nat) |].
  - rewrite length_insert in E. lia.
  - rewrite length_app in E. simpl in E. lia.
  - lia.
Qed.

Lemma no_empty_array_addTo sl s :
  preserves (keeps no_empty_array) (addTo sl s).
Proof.
  unfold addTo. destruct sl as [| x | a]; [pres | |].
  - unfold newArr. pres. apply no_empty_array_writeArr. discriminate.
  - pres. apply no_empty_array_writeArr.
    intros E. apply (f_equal length) in E. rewrite length_app in E.
    simpl in E. lia.
Qed.

#[export] Instance no_empty_array_atoms DEBUG `{ComponentFlags} :
  Atoms DEBUG (keeps no_empty_array).
Proof.
  split; intros.
  - apply no_empty_array_emit.
  - apply no_empty_array_nextFrame.
  - unfold Component_startUpdateEachFrame. pres.
  - unfold Component_stopUpdateEachFrame. pres.
  - apply no_empty_array_addTo.
  - unfold removeFrom. destruct sl as [| x | a]; [pres | pres |].
    intros st. rapply R_bind; [rapply preserves_readArr |].
    intros l st1 [-> Hl]%readArr_inv.
    destruct (bool_decide (length l = 1%nat)) eqn:E1; [by_pres |].
    apply bool_decide_eq_false in E1.
    rapply R_bind; [by_pres |]. intros u st1 Hw.
    assert (st1 = st) as ->.
    { destruct (DEBUG && bool_decide (indexOf s l = None)); simpl in Hw;
        [discriminate | injection Hw as _ <-; reflexivity]. }
    rapply R_bind; [| intros; reflexivity].
    intros Hok.
    assert (2 <= length l)%nat as H2.
    { destruct l as [| y [| z l]]; simpl in *;
        [exfalso; exact (Hok a [] Hl eq_refl) | lia | lia]. }
    revert Hok. apply no_empty_array_writeArr, swap_pop_nonempty, H2.
  - apply no_empty_array_updInv.
  - apply no_empty_array_updInv.
  - apply no_empty_array_updInv.
  - unfold Invalidator_new. pres.
  - unfold InvalidatorSubscription_new. pres.
  - unfold Component_new. pres.
  - apply no_empty_array_updSub.
  - apply no_empty_array_updComp.
  - apply no_empty_array_updComp.
  - apply no_empty_array_updComp.
  - apply no_empty_array_updComp.
  - apply no_empty_array_updComp.
  - apply no_empty_array_updComp.
  - apply no_empty_array_updComp.
  - apply no_empty_array_updComp.
  - apply no_empty_array_updComp.
  - apply no_empty_array_same. reflexivity.
Qed.

(** *** The recurring set holds no component twice *)

Section EachFrame.
Context {CF : ComponentFlags} {CFok : ComponentFlagsOk CF}.

Lemma each_frame_ok_sticks st st' :
  comp_sticks st st' -> eachFrameSet st' = eachFrameSet st ->
  keeps each_frame_ok st st'.
Proof.
  intros Hs E [Hnd Hin]. split; rewrite E; [exact Hnd |].
  intros c Hc. destruct (Hin c Hc) as (x & Hx & Hq).
  destruct (Hs c x Hx) as (x' & Hx' & _ & _ & _ & _ & Hq' & _).
  exists x'. auto.
Qed.

Lemma each_frame_ok_same st st' :
  components st' = components st -> eachFrameSet st' = eachFrameSet st ->
  keeps each_frame_ok st st'.
Proof.
  intros Ec E. apply each_frame_ok_sticks; [| exact E].
  apply comp_sticks_same, Ec.
Qed.

Lemma eachFrameSet_updComp c f st :
  eachFrameSet (final (updComp c f st)) = eachFrameSet st.
Proof.
  unfold updComp, bind, readComp, get, deref, bind.
  destruct (components st !! c); reflexivity.
Qed.

Lemma each_frame_ok_updComp c f :
  sticky f -> preserves (keeps each_frame_ok) (updComp c f).
Proof.
  intros Hf st. apply each_frame_ok_sticks.
  - apply comp_sticks_updComp, Hf.
  - apply eachFrameSet_updComp.
Qed.

Lemma each_frame_ok_writeSub s x :
  preserves (keeps each_frame_ok) (writeSub s x).
Proof. intros st. apply each_frame_ok_same; reflexivity. Qed.
Lemma each_frame_ok_writeInv i x :
  preserves (keeps each_frame_ok) (writeInv i x).
Proof. intros st. apply each_frame_ok_same; reflexivity. Qed.
Lemma each_frame_ok_writeArr a l :
  preserves (keeps each_frame_ok) (writeArr a l).
Proof. intros st. apply each_frame_ok_same; reflexivity. Qed.
Lemma each_frame_ok_emit e : preserves (keeps each_frame_ok) (emit e).
Proof. intros st. apply each_frame_ok_same; reflexivity. Qed.
Lemma each_frame_ok_nextFrame f :
  preserves (keeps each_frame_ok) (modify (set_nextFrameQueue f)).
Proof. intros st. apply each_frame_ok_same; reflexivity. Qed.
Hint Resolve each_frame_ok_writeSub each_frame_ok_writeInv
  each_frame_ok_writeArr each_frame_ok_emit each_frame_ok_nextFrame : pres.
Lemma each_frame_ok_updInv i f :
  preserves (keeps each_frame_ok) (updInv i f).
Proof. unfold updInv. pres. Qed.
Lemma each_frame_ok_updSub s f :
  preserves (keeps each_frame_ok) (updSub s f).
Proof. unfold updSub. pres. Qed.
Lemma each_frame_ok_newArr l : preserves (keeps each_frame_ok) (newArr l).
Proof. unfold newArr. pres. Qed.
Hint Resolve each_frame_ok_updInv each_frame_ok_updSub
  each_frame_ok_newArr : pres.

Lemma each_frame_ok_Component_new f d p :
  preserves (keeps each_frame_ok) (Component_new f d p).
Proof.
  intros st. apply each_frame_ok_sticks.
  - apply comp_sticks_Component_new.
  - unfold Component_new, bind, readComp, get, deref, bind, ret, writeComp,
      modify.
    destruct p as [p0 |]; [destruct (components st !! p0) |]; reflexivity.
Qed.

(** [startUpdateEachFrame] registers the component when its
    InUpdateQueue bit is clear, which no member of the set has. *)
Lemma each_frame_ok_start c :
  preserves (keeps each_frame_ok) (Component_startUpdateEachFrame c).
Proof.
  destruct flags_ne_ATTACHED as (A1 & A2 & A3 & A4 & A5).
  intros st. unfold Component_startUpdateEachFrame.
  destruct (components st !! c) as [x |] eqn:Hx.
  2:{ unfold updComp. rewrite (bind_eq_Thrown _ _ st Dangling st);
        [reflexivity |].
      unfold bind, readComp, get, deref, bind. rewrite Hx. reflexivity. }
  set (x1 := comp_with_flags (js_or (c_flags x) UPDATE_EACH_FRAME) x).
  rewrite (bind_eq_Done _ _ _ _ _ (updComp_eq _ _ st x Hx)). fold x1.
  set (st1 := set_components <[c := x1]> st).
  assert (components st1 !! c = Some x1) as Hx1
    by apply lookup_insert_eq.
  rewrite (bind_eq_Done _ _ _ _ _ (readComp_eq _ _ _ Hx1)).
  assert (keeps each_frame_ok st st1) as H01.
  { pose proof (each_frame_ok_updComp c
                  (fun x => comp_with_flags
                              (js_or (c_flags x) UPDATE_EACH_FRAME) x)
                  (sticky_set _ UPDATE_EACH_FRAME_bit A3) st) as H.
    rewrite (updComp_eq _ _ st x Hx) in H. exact H. }
  destruct (js_and (c_flags x1) IN_UPDATE_QUEUE =? 0) eqn:Eq;
    [| exact H01].
  set (x2 := comp_with_flags (js_or (c_flags x1) IN_UPDATE_QUEUE) x1).
  rewrite (bind_eq_Done _ _ _ _ _ (updComp_eq _ _ st1 x1 Hx1)). fold x2.
  set (st2 := set_components <[c := x2]> st1).
  assert (keeps each_frame_ok st1 st2) as H12.
  { pose proof (each_frame_ok_updComp c
                  (fun x => comp_with_flags
                              (js_or (c_flags x) IN_UPDATE_QUEUE) x)
                  (sticky_set _ IN_UPDATE_QUEUE_bit A4) st1) as H.
    rewrite (updComp_eq _ _ st1 x1 Hx1) in H. exact H. }
  intros Hok. pose proof (H01 Hok) as Hok1.
  destruct (H12 Hok1) as [Hnd2 Hin2]. simpl.
  assert (c ∉ eachFrameSet st) as Hnot.
  { intros Hc. destruct Hok1 as [_ Hin1].
    destruct (Hin1 c Hc) as (y & Hy & Hq). rewrite Hx1 in Hy.
    injection Hy as <-. unfold has_flag in Hq. rewrite Eq in Hq.
    discriminate. }
  split.
  - simpl. apply NoDup_app. split; [exact Hnd2 |]. split.
    + intros d Hd. rewrite list_elem_of_singleton. intros ->.
      apply Hnot, Hd.
    + apply NoDup_singleton.
  - intros d. simpl. rewrite elem_of_app, list_elem_of_singleton.
    intros [Hd | ->].
    + apply Hin2, Hd.
    + exists x2. split; [apply lookup_insert_eq |]. unfold x2. simpl.
      rewrite has_flag_set by apply IN_UPDATE_QUEUE_bit.
      rewrite bool_decide_eq_true_2 by reflexivity. apply orb_true_r.
Qed.

#[export] Instance each_frame_ok_atoms DEBUG :
  Atoms DEBUG (keeps each_frame_ok).
Proof.
  destruct flags_ne as (H1 & H2 & H3 & H4 & H5 & H6 & H7 & H8 & H9).
  destruct flags_ne_ATTACHED as (A1 & A2 & A3 & A4 & A5).
  split; intros.
  - apply each_frame_ok_emit.
  - apply each_frame_ok_nextFrame.
  - apply each_frame_ok_start.
  - unfold Component_stopUpdateEachFrame.
    apply each_frame_ok_updComp, sticky_clear;
      [apply UPDATE_EACH_FRAME_bit | |]; assumption.
  - unfold addTo. pres.
  - unfold removeFrom. pres.
  - apply each_frame_ok_updInv.
  - apply each_frame_ok_updInv.
  - apply each_frame_ok_updInv.
  - unfold Invalidator_new. pres.
  - unfold InvalidatorSubscription_new. pres.
  - apply each_frame_ok_Component_new.
  - apply each_frame_ok_updSub.
  - apply each_frame_ok_updComp, sticky_fields; reflexivity.
  - apply each_frame_ok_updComp, sticky_fields; reflexivity.
  - apply each_frame_ok_updComp, sticky_fields; reflexivity.
  - apply each_frame_ok_updComp, sticky_fields; reflexivity.
  - apply each_frame_ok_updComp, sticky_set; [apply DIRTY_bit | assumption].
  - apply each_frame_ok_updComp, sticky_clear;
      [apply DIRTY_bit | |]; assumption.
  - apply each_frame_ok_updComp, sticky_set;
      [apply DISPOSED_bit | assumption].
  - apply each_frame_ok_updComp, sticky_clear2.
  - apply each_frame_ok_updComp, sticky_clear;
      [apply MOUNTING_bit | |]; assumption.
  - apply each_frame_ok_same; reflexivity.
Qed.
End EachFrame.

(** ** Along any run of the interface *)

Section Runs.
Variable DEBUG : bool.
Context {CF : ComponentFlags}.

Lemma evolves_syncVRoot c r : preserves evolves (Component_syncVRoot c r).
Proof. unfold Component_syncVRoot. pres. Qed.

Lemma run_op_mtime_grows o st : mtime_grows st (run_op DEBUG st o).
Proof.
  destruct o as [k | c r | now]; simpl.
  - apply run_call_evolves.
  - apply evolves_syncVRoot.
  - intros i x Hx. exists x. split; [exact Hx | lia].
Qed.

Lemma run_ops_mtime_grows ops st : mtime_grows st (run_ops DEBUG ops st).
Proof.
  unfold run_ops. revert st.
  induction ops as [| o ops IH]; intros st; simpl; [reflexivity |].
  etransitivity; [apply run_op_mtime_grows | apply IH].
Qed.

(** X17: a wave already run, or cut short by a throwing handler, is not
    run again before the clock moves on. *)
Theorem invalidate_retry_is_noop st i x ops :
  invalidators st !! i = Some x ->
  let st1 := final (Invalidator_invalidate DEBUG i st) in
  let st2 := run_ops DEBUG ops st1 in
  clock st2 <= clock st ->
  Invalidator_invalidate DEBUG i st2 = Done tt st2.
Proof.
  intros Hx st1 st2 Hc.
  destruct (Invalidator_invalidate_stamps DEBUG st i x Hx)
    as (_ & x1 & Hx1 & Hle1).
  destruct (run_ops_mtime_grows ops st1 i x1 Hx1) as (x2 & Hx2 & Hle2).
  apply (Invalidator_invalidate_noop DEBUG st2 i x2 Hx2).
  unfold st2 in *. lia.
Qed.

(** X18: a new invalidator takes the clock as its [mtime], so it runs no
    wave before the clock has moved past its construction. *)
Theorem new_invalidator_waits_for_tick st i st1 ops :
  Invalidator_new st = Done i st1 ->
  let st2 := run_ops DEBUG ops st1 in
  clock st2 <= clock st ->
  invalidators st !! i = None /\
  invalidators st1 !! i = Some (mkInv (clock st) SNull SNull) /\
  Invalidator_invalidate DEBUG i st2 = Done tt st2.
Proof.
  intros Hnew st2 Hc.
  unfold Invalidator_new, bind, get, writeInv, modify, ret in Hnew.
  injection Hnew as <- <-.
  assert (invalidators st !! fresh (dom (invalidators st)) = None) as Hf.
  { apply not_elem_of_dom, is_fresh. }
  split; [exact Hf |].
  assert (invalidators
            (set_invalidators
               <[fresh (dom (invalidators st)) :=
                   mkInv (clock st) SNull SNull]> st)
            !! fresh (dom (invalidators st)) =
          Some (mkInv (clock st) SNull SNull)) as H1
    by apply lookup_insert_eq.
  split; [exact H1 |].
  destruct (run_ops_mtime_grows ops _ _ _ H1) as (x2 & Hx2 & Hle2).
  apply (Invalidator_invalidate_noop DEBUG st2 _ x2 Hx2).
  simpl in Hle2. lia.
Qed.

(** X23: no run leaves an empty array behind. *)
Theorem no_array_is_emptied ops st :
  no_empty_array st -> no_empty_array (run_ops DEBUG ops st).
Proof. apply (kept_run_ops DEBUG (keeps no_empty_array)). Qed.

End Runs.

Section Canceled.
Context {CF : ComponentFlags}.

Lemma cancel_Done_marks st s st1 :
  InvalidatorSubscription_cancel true s st = Done tt st1 ->
  exists sub1, subs st1 !! s = Some sub1 /\ s_isCanceled sub1 = true.
Proof.
  unfold InvalidatorSubscription_cancel.
  intros (sub & st0 & [-> Hs]%readSub_inv & H)%bind_Done.
  apply bind_Done in H as ([] & sta & Ha & H). simpl in Ha.
  destruct (s_isCanceled sub) eqn:Ec; [discriminate |].
  rewrite (updSub_eq _ _ _ _ Hs) in Ha. injection Ha as <-.
  set (sta := set_subs <[s := sub_with_isCanceled true sub]> st) in *.
  assert (sub_sticks sta st1) as Hst.
  { apply bind_Done in H as ([] & stb & Hb & H).
    pose proof (kept_removeSubscription true sub_sticks
                  (s_invalidator sub) s sta) as Kb.
    rewrite Hb in Kb. simpl in Kb.
    etransitivity; [exact Kb |].
    destruct (isComponent sub); [| injection H as <-; reflexivity].
    destruct (s_subscriber sub) as [c | f body]; [| discriminate].
    pose proof (kept_Component_removeSubscription true sub_sticks c s stb)
      as Kc.
    rewrite H in Kc. exact Kc. }
  destruct (Hst s (sub_with_isCanceled true sub))
    as (sub1 & Hs1 & _ & _ & _ & Hc1).
  { apply lookup_insert_eq. }
  exists sub1. split; [exact Hs1 | apply Hc1; reflexivity].
Qed.

Lemma cancel_canceled_throws st s sub :
  subs st !! s = Some sub -> s_isCanceled sub = true ->
  InvalidatorSubscription_cancel true s st =
    Thrown (ThrowStr E_CANCEL_TWICE) st.
Proof.
  intros Hs Hc. unfold InvalidatorSubscription_cancel.
  rewrite (bind_eq_Done _ _ _ _ _ (readSub_eq _ _ _ Hs)).
  simpl. rewrite Hc. reflexivity.
Qed.

(** X8: in a debug build a subscription is canceled once: after a
    [cancel()] that returned, every later [cancel()] throws, whatever ran
    in between. *)
Theorem cancel_twice_throws st s st1 ops :
  InvalidatorSubscription_cancel true s st = Done tt st1 ->
  let st2 := run_ops true ops st1 in
  InvalidatorSubscription_cancel true s st2 =
    Thrown (ThrowStr E_CANCEL_TWICE) st2.
Proof.
  intros H st2. destruct (cancel_Done_marks st s st1 H) as (sub1 & Hs1 & Hc1).
  destruct (kept_run_ops true sub_sticks ops st1 s sub1 Hs1)
    as (sub2 & Hs2 & _ & _ & _ & Hc2).
  apply (cancel_canceled_throws st2 s sub2 Hs2 (Hc2 Hc1)).
Qed.
End Canceled.

Section Final.
Variable DEBUG : bool.
Context {CF : ComponentFlags} {CFok : ComponentFlagsOk CF}.

(** X21: nothing revives a disposed component. *)
Theorem disposed_is_final ops st c x :
  components st !! c = Some x ->
  isDisposed x = true ->
  let st' := run_ops DEBUG ops st in
  exists x',
    components st' !! c = Some x' /\
    isDisposed x' = true /\
    c_descriptor x' = c_descriptor x /\
    Component_invalidate DEBUG c st' = Done tt st' /\
    Component_dispose true c st' = Thrown (ThrowStr E_DISPOSE_TWICE) st'.
Proof.
  intros Hx Hd st'.
  destruct (kept_run_ops DEBUG comp_sticks ops st c x Hx)
    as (x' & Hx' & Hdesc & _ & _ & Hd' & _).
  exists x'. split; [exact Hx' |]. split; [auto |].
  split; [exact Hdesc |]. split.
  - apply (Component_invalidate_noop DEBUG st' c x' Hx').
    rewrite (Hd' Hd). apply orb_true_r.
  - apply (Component_dispose_twice st' c x' Hx'). auto.
Qed.

(** X14: the recurring set never holds a component twice. *)
Theorem each_frame_set_has_no_duplicates ops st :
  each_frame_ok st ->
  NoDup (eachFrameSet (run_ops DEBUG ops st)) /\
  forall c, c ∈ eachFrameSet (run_ops DEBUG ops st) ->
    exists x, components (run_ops DEBUG ops st) !! c = Some x /\
      has_flag (c_flags x) IN_UPDATE_QUEUE = true.
Proof. apply (kept_run_ops DEBUG (keeps each_frame_ok)). Qed.
End Final.

(** ** The two-shape sets, one operation at a time *)

Lemma set_arrays_id st a l :
  arrays st !! a = Some l -> set_arrays <[a := l]> st = st.
Proof.
  intros H. destruct st as [? ? ? ? ? ? arr ?]. unfold set_arrays. simpl in *.
  f_equal. apply insert_id, H.
Qed.

Lemma inv_only_set_arrays st f : inv_only st (set_arrays f st).
Proof. repeat split. Qed.
Lemma inv_only_set_invalidators st f : inv_only st (set_invalidators f st).
Proof. repeat split. Qed.

(** What [addTo] does: the set grows by the subscription, at its end. *)
Lemma addTo_spec st sl l s :
  contents st sl = Some l ->
  exists r st',
    addTo sl s st = Done r st' /\
    contents st' (default sl r) = Some (l ++ [s]) /\
    invalidators st' = invalidators st /\
    inv_only st st' /\
    (forall b lb, arrays st !! b = Some lb -> sl <> SArr b ->
       arrays st' !! b = Some lb) /\
    (forall a, r = Some (SArr a) -> arrays st !! a = None).
Proof.
  intros Hc. destruct sl as [| y | a]; simpl in Hc.
  - injection Hc as <-. exists (Some (SOne s)), st.
    repeat split; try reflexivity; [auto | discriminate].
  - injection Hc as <-.
    exists (Some (SArr (fresh (dom (arrays st))))),
      (set_arrays <[fresh (dom (arrays st)) := [y; s]]> st).
    assert (arrays st !! fresh (dom (arrays st)) = None) as Hf
      by apply not_elem_of_dom, is_fresh.
    split; [reflexivity |]. split; [simpl; apply lookup_insert_eq |].
    split; [reflexivity |]. split; [apply inv_only_set_arrays |]. split.
    + intros b lb Hb _. simpl. rewrite lookup_insert_ne; [exact Hb |].
      intros E. rewrite <- E, Hf in Hb. discriminate.
    + intros a [= <-]. exact Hf.
  - exists None, (set_arrays <[a := l ++ [s]]> st). split.
    { simpl. rewrite (bind_eq_Done _ _ _ _ _ (readArr_eq _ _ _ Hc)).
      reflexivity. }
    split; [simpl; apply lookup_insert_eq |].
    split; [reflexivity |]. split; [apply inv_only_set_arrays |]. split.
    + intros b lb Hb Hne. simpl. rewrite lookup_insert_ne; [exact Hb |].
      intros ->. apply Hne. reflexivity.
    + discriminate.
Qed.

Section Sets.
Context {CF : ComponentFlags}.

(** X1: [hasSubscriptions()] reads the two sets and changes nothing. *)
Theorem Invalidator_hasSubscriptions_reads st i x ld lt :
  invalidators st !! i = Some x ->
  contents st (i_subscriptions x) = Some ld ->
  contents st (i_transientSubscriptions x) = Some lt ->
  Invalidator_hasSubscriptions i st =
    Done (negb (bool_decide (ld ++ lt = []))) st /\
  (no_empty_array st ->
   Invalidator_hasSubscriptions i st =
     Done (negb (is_null (i_subscriptions x) &&
                 is_null (i_transientSubscriptions x))) st).
Proof.
  intros Hx Hd Ht.
  assert (forall sl l, contents st sl = Some l ->
            slot_nonempty sl st = Done (negb (bool_decide (l = []))) st /\
            (no_empty_array st ->
             negb (bool_decide (l = [])) = negb (is_null sl))) as Hslot.
  { intros sl l Hc. destruct sl as [| y | a]; simpl in Hc.
    - injection Hc as <-. split; reflexivity.
    - injection Hc as <-. split; reflexivity.
    - split.
      + unfold slot_nonempty.
        rewrite (bind_eq_Done _ _ _ _ _ (readArr_eq _ _ _ Hc)).
        destruct l; reflexivity.
      + intros Hne. rewrite bool_decide_eq_false_2; [reflexivity |].
        apply (Hne a l Hc). }
  destruct (Hslot _ _ Hd) as [Hd1 Hd2].
  destruct (Hslot _ _ Ht) as [Ht1 Ht2].
  assert (Invalidator_hasSubscriptions i st =
          Done (negb (bool_decide (ld ++ lt = []))) st) as Hrun.
  { unfold Invalidator_hasSubscriptions.
    rewrite (bind_eq_Done _ _ _ _ _ (readInv_eq _ _ _ Hx)).
    rewrite (bind_eq_Done _ _ _ _ _ Hd1).
    destruct ld as [| s ld]; simpl; [| reflexivity].
    exact Ht1. }
  split; [exact Hrun |].
  intros Hne. rewrite Hrun. f_equal.
  specialize (Hd2 Hne). specialize (Ht2 Hne).
  rewrite negb_andb, <- Hd2, <- Ht2.
  destruct ld as [| s ld]; reflexivity.
Qed.

Lemma addSubscription_spec st i s sub x l :
  subs st !! s = Some sub ->
  invalidators st !! i = Some x ->
  contents st (slot_of sub x) = Some l ->
  exists st' x',
    Invalidator_addSubscription i s st = Done tt st' /\
    invalidators st' = <[i := x']> (invalidators st) /\
    contents st' (slot_of sub x') = Some (l ++ [s]) /\
    other_slot_of sub x' = other_slot_of sub x /\
    i_mtime x' = i_mtime x /\
    inv_only st st' /\
    (forall b lb, arrays st !! b = Some lb -> slot_of sub x <> SArr b ->
       arrays st' !! b = Some lb) /\
    (forall a, slot_of sub x' = SArr a ->
       slot_of sub x = SArr a \/ arrays st !! a = None).
Proof.
  intros Hs Hx Hc.
  destruct (addTo_spec st _ l s Hc)
    as (r & st1 & Hadd & Hc1 & Hi1 & Hf1 & Hoth & Hnew).
  assert (Invalidator_addSubscription i s st =
          (r ← addTo (slot_of sub x) s;
           match r with
           | Some v => updInv i (with_slot sub v)
           | None => ret tt
           end) st) as ->.
  { unfold Invalidator_addSubscription.
    rewrite (bind_eq_Done _ _ _ _ _ (readSub_eq _ _ _ Hs)).
    rewrite (bind_eq_Done _ _ _ _ _ (readInv_eq _ _ _ Hx)).
    unfold slot_of, with_slot. destruct (isTransient sub); reflexivity. }
  rewrite (bind_eq_Done _ _ _ _ _ Hadd).
  assert (invalidators st1 !! i = Some x) as Hx1 by (rewrite Hi1; exact Hx).
  destruct r as [v |]; simpl in Hc1.
  - rewrite (updInv_eq _ _ _ _ Hx1).
    exists (set_invalidators <[i := with_slot sub v x]> st1),
      (with_slot sub v x).
    split; [reflexivity |]. split; [simpl; rewrite Hi1; reflexivity |].
    split.
    { unfold contents in *. unfold slot_of, with_slot.
      destruct (isTransient sub); simpl; exact Hc1. }
    split; [unfold other_slot_of, with_slot;
            destruct (isTransient sub); reflexivity |].
    split; [unfold with_slot; destruct (isTransient sub); reflexivity |].
    split; [etransitivity; [exact Hf1 | apply inv_only_set_invalidators] |].
    split; [exact Hoth |].
    intros a Ea. assert (v = SArr a) as ->.
    { revert Ea. unfold slot_of, with_slot.
      destruct (isTransient sub); simpl; auto. }
    destruct (slot_of sub x) as [| y | a0] eqn:Esl; simpl in Hadd.
    + discriminate Hadd.
    + right. apply Hnew. reflexivity.
    + rewrite (bind_eq_Done _ _ _ _ _ (readArr_eq _ _ _ Hc)) in Hadd.
      discriminate.
  - exists st1, x. split; [reflexivity |].
    split; [rewrite Hi1; symmetry; apply insert_id, Hx |].
    split; [exact Hc1 |]. split; [reflexivity |]. split; [reflexivity |].
    split; [exact Hf1 |]. split; [exact Hoth |]. auto.
Qed.

(** X2: [addSubscription] puts the subscription at the end of the set its
    TRANSIENT flag names, whether or not the set holds it already. *)
Theorem Invalidator_addSubscription_appends st i s sub x l :
  subs st !! s = Some sub ->
  invalidators st !! i = Some x ->
  contents st (slot_of sub x) = Some l ->
  exists st' x',
    Invalidator_addSubscription i s st = Done tt st' /\
    invalidators st' = <[i := x']> (invalidators st) /\
    contents st' (slot_of sub x') = Some (l ++ [s]) /\
    other_slot_of sub x' = other_slot_of sub x /\
    i_mtime x' = i_mtime x /\
    inv_only st st'.
Proof.
  intros Hs Hx Hc.
  destruct (addSubscription_spec st i s sub x l Hs Hx Hc)
    as (st' & x' & H1 & H2 & H3 & H4 & H5 & H6 & _).
  exists st', x'. auto 10.
Qed.
End Sets.

Section Remove.
Context {CF : ComponentFlags}.

Lemma removeFrom_null DEBUG msg s st :
  removeFrom DEBUG msg SNull s st = Thrown TypeError st.
Proof. reflexivity. Qed.

Lemma removeFrom_absent_debug msg st sl l s :
  sl <> SNull -> contents st sl = Some l -> s ∉ l ->
  removeFrom true msg sl s st = Thrown (ThrowStr msg) st.
Proof.
  intros Hn Hc Hs. destruct sl as [| y | a]; [contradiction | |];
    simpl in Hc.
  - injection Hc as <-. simpl.
    rewrite bool_decide_eq_false_2; [reflexivity |].
    intros ->. apply Hs, list_elem_of_singleton. reflexivity.
  - simpl. rewrite (bind_eq_Done _ _ _ _ _ (readArr_eq _ _ _ Hc)).
    destruct (bool_decide (length l = 1%nat)) eqn:E.
    + apply bool_decide_eq_true in E.
      destruct l as [| y [| ? ?]]; try discriminate. simpl.
      rewrite bool_decide_eq_false_2; [reflexivity |].
      intros [= ->]. apply Hs, list_elem_of_singleton. reflexivity.
    + apply indexOf_None in Hs. rewrite Hs. reflexivity.
Qed.

Lemma removeFrom_absent_release msg st sl l s :
  sl <> SNull -> contents st sl = Some l -> s ∉ l ->
  exists r st',
    removeFrom false msg sl s st = Done r st' /\
    contents st' (default sl r) = Some (removelast l) /\
    invalidators st' = invalidators st /\
    inv_only st st'.
Proof.
  intros Hn Hc Hs. destruct sl as [| y | a]; [contradiction | |];
    simpl in Hc.
  - injection Hc as <-. exists (Some SNull), st.
    repeat split; reflexivity.
  - simpl. rewrite (bind_eq_Done _ _ _ _ _ (readArr_eq _ _ _ Hc)).
    destruct (bool_decide (length l = 1%nat)) eqn:E.
    + apply bool_decide_eq_true in E.
      destruct l as [| y [| ? ?]]; try discriminate.
      exists (Some SNull), st. repeat split; reflexivity.
    + apply indexOf_None in Hs. rewrite Hs. simpl.
      exists None, (set_arrays <[a := removelast l]> st).
      split; [unfold swap_pop; destruct (last l); reflexivity |].
      split; [simpl; apply lookup_insert_eq |].
      split; [reflexivity | apply inv_only_set_arrays].
Qed.

Lemma removeFrom_last DEBUG msg st a l s k :
  arrays st !! a = Some l ->
  indexOf s l = Some k -> S k = length l -> (2 <= length l)%nat ->
  removeFrom DEBUG msg (SArr a) s st = Done None st.
Proof.
  intros Ha Hk Hlast H2. simpl.
  rewrite (bind_eq_Done _ _ _ _ _ (readArr_eq _ _ _ Ha)).
  rewrite bool_decide_eq_false_2 by lia.
  rewrite Hk. rewrite bool_decide_eq_false_2 by discriminate.
  rewrite andb_false_r.
  rewrite (swap_pop_last l s k Hk Hlast).
  unfold when, bind, writeArr, modify, ret.
  rewrite (set_arrays_id _ _ _ Ha). reflexivity.
Qed.

Lemma Component_removeSubscription_unfold DEBUG st c s sub x :
  subs st !! s = Some sub ->
  components st !! c = Some x ->
  Component_removeSubscription DEBUG c s st =
  (r ← removeFrom DEBUG E_COMPONENT_REMOVE (cslot_of sub x) s;
   match r with
   | Some v =>
       updComp c (if isTransient sub
                  then comp_with_transientSubscriptions v
                  else comp_with_subscriptions v)
   | None => ret tt
   end) st.
Proof.
  intros Hs Hx. unfold Component_removeSubscription.
  rewrite (bind_eq_Done _ _ _ _ _ (readSub_eq _ _ _ Hs)).
  rewrite (bind_eq_Done _ _ _ _ _ (readComp_eq _ _ _ Hx)).
  unfold cslot_of. destruct (isTransient sub); reflexivity.
Qed.

(** X3: [Invalidator.removeSubscription] of a subscription the set does
    not hold.  On a [null] set it throws a TypeError; on any other set a
    debug build throws the string of the source and changes nothing, and
    a release build returns, having dropped the last subscription of the
    set instead. *)
Theorem Invalidator_removeSubscription_absent st i s sub x l :
  subs st !! s = Some sub ->
  invalidators st !! i = Some x ->
  contents st (slot_of sub x) = Some l ->
  s ∉ l ->
  (slot_of sub x = SNull ->
   forall DEBUG,
     Invalidator_removeSubscription DEBUG i s st = Thrown TypeError st) /\
  (slot_of sub x <> SNull ->
   Invalidator_removeSubscription true i s st =
     Thrown (ThrowStr E_INVALIDATOR_REMOVE) st /\
   exists st' x',
     Invalidator_removeSubscription false i s st = Done tt st' /\
     invalidators st' = <[i := x']> (invalidators st) /\
     contents st' (slot_of sub x') = Some (removelast l) /\
     other_slot_of sub x' = other_slot_of sub x /\
     inv_only st st').
Proof.
  intros Hs Hx Hc Hnot. split.
  - intros E DEBUG. rewrite (removeSubscription_unfold DEBUG st i s sub x Hs Hx).
    rewrite E. reflexivity.
  - intros Hn. split.
    + rewrite (removeSubscription_unfold true st i s sub x Hs Hx).
      rewrite (bind_eq_Thrown _ _ _ _ _
                 (removeFrom_absent_debug _ st _ l s Hn Hc Hnot)).
      reflexivity.
    + rewrite (removeSubscription_unfold false st i s sub x Hs Hx).
      destruct (removeFrom_absent_release E_INVALIDATOR_REMOVE st _ l s
                  Hn Hc Hnot) as (r & st1 & Hr & Hc1 & Hi1 & Hf1).
      rewrite (bind_eq_Done _ _ _ _ _ Hr).
      assert (invalidators st1 !! i = Some x) as Hx1
        by (rewrite Hi1; exact Hx).
      destruct r as [v |]; simpl in Hc1.
      * rewrite (updInv_eq _ _ _ _ Hx1).
        exists (set_invalidators <[i := with_slot sub v x]> st1),
          (with_slot sub v x).
        split; [reflexivity |].
        split; [simpl; rewrite Hi1; reflexivity |]. split.
        { unfold contents in *. unfold slot_of, with_slot.
          destruct (isTransient sub); simpl; exact Hc1. }
        split; [unfold other_slot_of, with_slot;
                destruct (isTransient sub); reflexivity |].
        etransitivity; [exact Hf1 | apply inv_only_set_invalidators].
      * exists st1, x. split; [reflexivity |].
        split; [rewrite Hi1; symmetry; apply insert_id, Hx |].
        split; [exact Hc1 |]. split; [reflexivity | exact Hf1].
Qed.

(** X4: the removal of the last element of an array of two or more
    subscriptions returns and leaves the heap as it was, in both sets of
    an invalidator and in both sets of a component. *)
Theorem removeSubscription_keeps_last DEBUG st s sub a l k :
  subs st !! s = Some sub ->
  arrays st !! a = Some l ->
  indexOf s l = Some k -> S k = length l -> (2 <= length l)%nat ->
  (forall i x, invalidators st !! i = Some x -> slot_of sub x = SArr a ->
     Invalidator_removeSubscription DEBUG i s st = Done tt st) /\
  (forall c x, components st !! c = Some x -> cslot_of sub x = SArr a ->
     Component_removeSubscription DEBUG c s st = Done tt st).
Proof.
  intros Hs Ha Hk Hlast H2. split.
  - intros i x Hx Hsl.
    rewrite (removeSubscription_unfold DEBUG st i s sub x Hs Hx), Hsl.
    rewrite (bind_eq_Done _ _ _ _ _
               (removeFrom_last DEBUG _ st a l s k Ha Hk Hlast H2)).
    reflexivity.
  - intros c x Hx Hsl.
    rewrite (Component_removeSubscription_unfold DEBUG st c s sub x Hs Hx),
      Hsl.
    rewrite (bind_eq_Done _ _ _ _ _
               (removeFrom_last DEBUG _ st a l s k Ha Hk Hlast H2)).
    reflexivity.
Qed.
Lemma comp_slot_update sub v x :
  cslot_of sub
    ((if isTransient sub then comp_with_transientSubscriptions v
      else comp_with_subscriptions v) x) = v /\
  c_flags ((if isTransient sub then comp_with_transientSubscriptions v
            else comp_with_subscriptions v) x) = c_flags x.
Proof. unfold cslot_of. destruct (isTransient sub); split; reflexivity. Qed.

(** X5: [Component.removeSubscription] of a subscription the set does not
    hold: a TypeError on a [null] set; on any other set the string of the
    source in a debug build, with the heap unchanged, and in a release
    build the loss of the last subscription of the set. *)
Theorem Component_removeSubscription_absent st c s sub x l :
  subs st !! s = Some sub ->
  components st !! c = Some x ->
  contents st (cslot_of sub x) = Some l ->
  s ∉ l ->
  (cslot_of sub x = SNull ->
   forall DEBUG,
     Component_removeSubscription DEBUG c s st = Thrown TypeError st) /\
  (cslot_of sub x <> SNull ->
   Component_removeSubscription true c s st =
     Thrown (ThrowStr E_COMPONENT_REMOVE) st /\
   exists st' x',
     Component_removeSubscription false c s st = Done tt st' /\
     components st' = <[c := x']> (components st) /\
     contents st' (cslot_of sub x') = Some (removelast l) /\
     c_flags x' = c_flags x /\
     subs st' = subs st /\ invalidators st' = invalidators st /\
     trace st' = trace st).
Proof.
  intros Hs Hx Hc Hnot. split.
  - intros E DEBUG.
    rewrite (Component_removeSubscription_unfold DEBUG st c s sub x Hs Hx).
    rewrite E. reflexivity.
  - intros Hn. split.
    + rewrite (Component_removeSubscription_unfold true st c s sub x Hs Hx).
      rewrite (bind_eq_Thrown _ _ _ _ _
                 (removeFrom_absent_debug _ st _ l s Hn Hc Hnot)).
      reflexivity.
    + rewrite (Component_removeSubscription_unfold false st c s sub x Hs Hx).
      destruct (removeFrom_absent_release E_COMPONENT_REMOVE st _ l s
                  Hn Hc Hnot)
        as (r & st1 & Hr & Hc1 & Hi1 & (_ & _ & _ & Hs1 & Hco1 & Ht1)).
      rewrite (bind_eq_Done _ _ _ _ _ Hr).
      assert (components st1 !! c = Some x) as Hx1
        by (rewrite Hco1; exact Hx).
      destruct r as [v |]; simpl in Hc1.
      * rewrite (updComp_eq _ _ _ _ Hx1).
        eexists _, _. split; [reflexivity |].
        split; [simpl; rewrite Hco1; reflexivity |].
        destruct (comp_slot_update sub v x) as [-> ->].
        split; [exact Hc1 |]. split; [reflexivity |].
        simpl. auto.
      * exists st1, x. split; [reflexivity |].
        split; [rewrite Hco1; symmetry; apply insert_id, Hx |].
        split; [exact Hc1 |]. auto.
Qed.
End Remove.

(** ** Subscriptions of components: both ends *)

Lemma contents_arrays st st' sl l :
  contents st sl = Some l ->
  (forall b lb, arrays st !! b = Some lb -> sl = SArr b ->
     arrays st' !! b = Some lb) ->
  contents st' sl = Some l.
Proof.
  intros Hc H. destruct sl as [| y | a]; simpl in *; [exact Hc | exact Hc |].
  apply (H a l Hc). reflexivity.
Qed.

Section Link.
Context {CF : ComponentFlags}.

Lemma with_cslot_facts sub v x :
  cslot_of sub (with_cslot sub v x) = v /\
  other_cslot_of sub (with_cslot sub v x) = other_cslot_of sub x /\
  c_flags (with_cslot sub v x) = c_flags x /\
  c_mtime (with_cslot sub v x) = c_mtime x /\
  c_root (with_cslot sub v x) = c_root x /\
  c_descriptor (with_cslot sub v x) = c_descriptor x.
Proof.
  unfold cslot_of, other_cslot_of, with_cslot.
  destruct (isTransient sub); repeat split.
Qed.

Lemma link_component_spec st c sub s x l :
  components st !! c = Some x ->
  contents st (cslot_of sub x) = Some l ->
  exists st' x',
    link_component c sub s st = Done tt st' /\
    components st' = <[c := x']> (components st) /\
    contents st' (cslot_of sub x') = Some (l ++ [s]) /\
    other_cslot_of sub x' = other_cslot_of sub x /\
    c_flags x' = c_flags x /\
    subs st' = subs st /\ invalidators st' = invalidators st /\
    trace st' = trace st /\ clock st' = clock st /\
    nextFrameQueue st' = nextFrameQueue st /\
    eachFrameSet st' = eachFrameSet st /\
    (forall b lb, arrays st !! b = Some lb -> cslot_of sub x <> SArr b ->
       arrays st' !! b = Some lb).
Proof.
  intros Hx Hc. unfold link_component.
  rewrite (bind_eq_Done _ _ _ _ _ (readComp_eq _ _ _ Hx)).
  destruct (addTo_spec st _ l s Hc)
    as (r & st1 & Hadd & Hc1 & Hi1 & (Hk & Hq & He & Hs & Hco & Ht) & Hoth
        & _).
  rewrite (bind_eq_Done _ _ _ _ _ Hadd).
  assert (components st1 !! c = Some x) as Hx1 by (rewrite Hco; exact Hx).
  destruct r as [v |]; simpl in Hc1.
  - rewrite (updComp_eq _ _ _ _ Hx1).
    exists (set_components <[c := with_cslot sub v x]> st1),
      (with_cslot sub v x).
    destruct (with_cslot_facts sub v x) as (E1 & E2 & E3 & _).
    split; [reflexivity |]. split; [simpl; rewrite Hco; reflexivity |].
    rewrite E1, E2, E3. split; [exact Hc1 |]. simpl. auto 12.
  - exists st1, x. split; [reflexivity |].
    split; [rewrite Hco; symmetry; apply insert_id, Hx |].
    split; [exact Hc1 |]. auto 12.
Qed.

Lemma subscribe_unfold transient c i st :
  subscribe_by transient c i st =
  (let s := fresh (dom (subs st)) in
   let sub := subscription_of transient i c in
   (Invalidator_addSubscription i s;; link_component c sub s)
     (set_subs <[s := sub]> st)).
Proof. destruct transient; reflexivity. Qed.

(** X6: [subscribe] and [transientSubscribe] make one new subscription
    and put it at the end of the set of its kind, at the invalidator and
    at the component. *)
Theorem Component_subscribe_registers (transient : bool) st c i xc xi
    li lc :
  let sub := subscription_of transient i c in
  components st !! c = Some xc ->
  invalidators st !! i = Some xi ->
  contents st (slot_of sub xi) = Some li ->
  contents st (cslot_of sub xc) = Some lc ->
  (forall a, slot_of sub xi = SArr a -> cslot_of sub xc <> SArr a) ->
  exists s st' xi' xc',
    subscribe_by transient c i st = Done tt st' /\
    subs st !! s = None /\
    subs st' = <[s := sub]> (subs st) /\
    isComponent sub = true /\ isTransient sub = transient /\
    invalidators st' = <[i := xi']> (invalidators st) /\
    components st' = <[c := xc']> (components st) /\
    contents st' (slot_of sub xi') = Some (li ++ [s]) /\
    contents st' (cslot_of sub xc') = Some (lc ++ [s]) /\
    other_slot_of sub xi' = other_slot_of sub xi /\
    other_cslot_of sub xc' = other_cslot_of sub xc /\
    i_mtime xi' = i_mtime xi /\ c_flags xc' = c_flags xc /\
    trace st' = trace st /\
    nextFrameQueue st' = nextFrameQueue st.
Proof.
  intros sub Hxc Hxi Hli Hlc Hsep.
  rewrite subscribe_unfold. cbv zeta. fold sub.
  set (s := fresh (dom (subs st))).
  set (st0 := set_subs <[s := sub]> st).
  assert (subs st !! s = None) as Hfresh
    by apply not_elem_of_dom, is_fresh.
  assert (subs st0 !! s = Some sub) as Hs0 by apply lookup_insert_eq.
  destruct (addSubscription_spec st0 i s sub xi li Hs0 Hxi Hli)
    as (st1 & xi' & Hadd & Hi1 & Hc1 & Ho1 & Hm1
        & (Hk1 & Hq1 & He1 & Hsub1 & Hco1 & Ht1) & Hoth1 & Hnew1).
  rewrite (bind_eq_Done _ _ _ _ _ Hadd).
  assert (components st1 !! c = Some xc) as Hxc1
    by (rewrite Hco1; exact Hxc).
  assert (contents st1 (cslot_of sub xc) = Some lc) as Hlc1.
  { apply (contents_arrays st0 st1 _ _ Hlc). intros b lb Hb Eb.
    apply (Hoth1 b lb Hb). intros Ea. apply (Hsep b Ea Eb). }
  destruct (link_component_spec st1 c sub s xc lc Hxc1 Hlc1)
    as (st2 & xc' & Hlink & Hco2 & Hc2 & Ho2 & Hf2 & Hsub2 & Hi2 & Ht2
        & Hk2 & Hq2 & He2 & Hoth2).
  exists s, st2, xi', xc'. split; [exact Hlink |].
  split; [exact Hfresh |].
  split; [rewrite Hsub2, Hsub1; reflexivity |].
  split; [destruct transient; reflexivity |].
  split; [destruct transient; reflexivity |].
  split; [rewrite Hi2, Hi1; reflexivity |].
  split; [rewrite Hco2, Hco1; reflexivity |].
  split.
  { apply (contents_arrays st1 st2 _ _ Hc1). intros b lb Hb Eb.
    apply (Hoth2 b lb Hb). intros Ec.
    destruct (Hnew1 b Eb) as [Eold | Hnone].
    - apply (Hsep b Eold Ec).
    - rewrite Ec in Hlc. simpl in Hlc. simpl in Hnone.
      rewrite Hnone in Hlc. discriminate. }
  split; [exact Hc2 |]. split; [exact Ho1 |]. split; [exact Ho2 |].
  split; [exact Hm1 |]. split; [exact Hf2 |].
  split; [rewrite Ht2, Ht1; reflexivity |].
  rewrite Hq2, Hq1. reflexivity.
Qed.
End Link.

(** ** [cancel()] where the removal works *)

Lemma list_step_remove l s :
  NoDup l -> removable s l = true ->
  s ∈ l /\
  NoDup (list_step l (SRemove s)) /\
  (forall t, t ∈ list_step l (SRemove s) <-> t ∈ l /\ t <> s).
Proof.
  intros Hnd Hr. split; [apply clean_op_held, Hr |].
  destruct (list_step_set l (SRemove s) Hnd Hr) as [Hnd' Hset].
  split; [exact Hnd' |]. intros t.
  rewrite <- (elem_of_list_to_set (C := gset sub_id)), Hset. simpl.
  rewrite elem_of_difference, elem_of_list_to_set, elem_of_singleton.
  reflexivity.
Qed.

Section Cancel.
Variable DEBUG : bool.
Context {CF : ComponentFlags}.

Lemma removeSubscription_held_step st i s sub x l :
  subs st !! s = Some sub ->
  invalidators st !! i = Some x ->
  contents st (slot_of sub x) = Some l -> s ∈ l ->
  exists st' x',
    Invalidator_removeSubscription DEBUG i s st = Done tt st' /\
    invalidators st' = <[i := x']> (invalidators st) /\
    contents st' (slot_of sub x') = Some (list_step l (SRemove s)) /\
    other_slot_of sub x' = other_slot_of sub x /\
    i_mtime x' = i_mtime x /\
    inv_only st st' /\
    (forall b lb, arrays st !! b = Some lb -> slot_of sub x <> SArr b ->
       arrays st' !! b = Some lb).
Proof.
  intros Hs Hx Hc Hin.
  destruct (removeSubscription_held DEBUG st i s sub x l Hs Hx Hc Hin)
    as [[E H] | (E & a & k & Hsl & Hk & H)]; rewrite H; clear H.
  - exists (set_invalidators <[i := with_slot sub SNull x]> st),
      (with_slot sub SNull x).
    split; [reflexivity |]. split; [reflexivity |]. split.
    { simpl. rewrite bool_decide_eq_true_2 by exact E.
      unfold slot_of, with_slot. destruct (isTransient sub); reflexivity. }
    split; [unfold other_slot_of, with_slot;
            destruct (isTransient sub); reflexivity |].
    split; [unfold with_slot; destruct (isTransient sub); reflexivity |].
    split; [apply inv_only_set_invalidators |]. auto.
  - exists (set_arrays <[a := swap_pop l (Some k)]> st), x.
    split; [reflexivity |].
    split; [simpl; symmetry; apply insert_id, Hx |]. split.
    { rewrite Hsl. simpl. rewrite lookup_insert_eq.
      rewrite bool_decide_eq_false_2 by exact E. rewrite Hk. reflexivity. }
    split; [reflexivity |]. split; [reflexivity |].
    split; [apply inv_only_set_arrays |].
    intros b lb Hb Hne. simpl. rewrite lookup_insert_ne; [exact Hb |].
    intros ->. apply Hne, Hsl.
Qed.

Lemma Component_removeSubscription_held_step st c s sub x l :
  subs st !! s = Some sub ->
  components st !! c = Some x ->
  contents st (cslot_of sub x) = Some l -> s ∈ l ->
  exists st' x',
    Component_removeSubscription DEBUG c s st = Done tt st' /\
    components st' = <[c := x']> (components st) /\
    contents st' (cslot_of sub x') = Some (list_step l (SRemove s)) /\
    other_cslot_of sub x' = other_cslot_of sub x /\
    c_flags x' = c_flags x /\
    subs st' = subs st /\ invalidators st' = invalidators st /\
    trace st' = trace st /\
    nextFrameQueue st' = nextFrameQueue st /\
    (forall b lb, arrays st !! b = Some lb -> cslot_of sub x <> SArr b ->
       arrays st' !! b = Some lb).
Proof.
  intros Hs Hx Hc Hin.
  rewrite (Component_removeSubscription_unfold DEBUG st c s sub x Hs Hx).
  destruct (removeFrom_held DEBUG E_COMPONENT_REMOVE st _ l s Hc Hin)
    as [[E H] | (E & a & k & Hsl & Hk & H)];
    rewrite (bind_eq_Done _ _ _ _ _ H); clear H.
  - rewrite (updComp_eq _ _ _ _ Hx).
    assert ((if isTransient sub
             then comp_with_transientSubscriptions SNull
             else comp_with_subscriptions SNull) x =
            with_cslot sub SNull x) as ->
      by (unfold with_cslot; destruct (isTransient sub); reflexivity).
    destruct (with_cslot_facts sub SNull x) as (E1 & E2 & E3 & _).
    exists (set_components <[c := with_cslot sub SNull x]> st),
      (with_cslot sub SNull x).
    split; [reflexivity |]. split; [reflexivity |].
    rewrite E1, E2, E3. split.
    { simpl. rewrite bool_decide_eq_true_2 by exact E. reflexivity. }
    simpl. auto 10.
  - exists (set_arrays <[a := swap_pop l (Some k)]> st), x.
    split; [reflexivity |].
    split; [simpl; symmetry; apply insert_id, Hx |]. split.
    { rewrite Hsl. simpl. rewrite lookup_insert_eq.
      rewrite bool_decide_eq_false_2 by exact E. rewrite Hk. reflexivity. }
    repeat (split; [reflexivity |]).
    intros b lb Hb Hne. simpl. rewrite lookup_insert_ne; [exact Hb |].
    intros ->. apply Hne, Hsl.
Qed.

(** X7: [cancel()] on a component's subscription that its two sets hold
    alone or at a position that is not the last takes it out of both and
    leaves every other subscription in them. *)
Theorem cancel_removes_both_ends st s sub c xi xc li lc :
  subs st !! s = Some sub ->
  s_isCanceled sub = false ->
  isComponent sub = true ->
  s_subscriber sub = Comp c ->
  invalidators st !! s_invalidator sub = Some xi ->
  components st !! c = Some xc ->
  contents st (slot_of sub xi) = Some li ->
  contents st (cslot_of sub xc) = Some lc ->
  NoDup li -> NoDup lc ->
  removable s li = true -> removable s lc = true ->
  (forall a, slot_of sub xi = SArr a -> cslot_of sub xc <> SArr a) ->
  exists st' sub' xi' xc' li' lc',
    InvalidatorSubscription_cancel DEBUG s st = Done tt st' /\
    subs st' !! s = Some sub' /\ s_isCanceled sub' = DEBUG /\
    invalidators st' !! s_invalidator sub = Some xi' /\
    components st' !! c = Some xc' /\
    contents st' (slot_of sub xi') = Some li' /\
    contents st' (cslot_of sub xc') = Some lc' /\
    NoDup li' /\ NoDup lc' /\
    (forall t, t ∈ li' <-> t ∈ li /\ t <> s) /\
    (forall t, t ∈ lc' <-> t ∈ lc /\ t <> s) /\
    other_slot_of sub xi' = other_slot_of sub xi /\
    other_cslot_of sub xc' = other_cslot_of sub xc /\
    c_flags xc' = c_flags xc /\ i_mtime xi' = i_mtime xi /\
    trace st' = trace st /\ nextFrameQueue st' = nextFrameQueue st.
Proof.
  intros Hs Hnc Hic Hsub Hxi Hxc Hli Hlc Hndi Hndc Hri Hrc Hsep.
  destruct (list_step_remove li s Hndi Hri) as (Hini & Hndi' & Heli).
  destruct (list_step_remove lc s Hndc Hrc) as (Hinc & Hndc' & Helc).
  set (sub' := if DEBUG then sub_with_isCanceled true sub else sub).
  set (sta := if DEBUG then set_subs <[s := sub']> st else st).
  assert (isTransient sub' = isTransient sub) as Ht'
    by (unfold sub'; destruct DEBUG; reflexivity).
  assert (slot_of sub' = slot_of sub) as Esl
    by (unfold slot_of; rewrite Ht'; reflexivity).
  assert (cslot_of sub' = cslot_of sub) as Ecsl
    by (unfold cslot_of; rewrite Ht'; reflexivity).
  assert (other_slot_of sub' = other_slot_of sub) as Eosl
    by (unfold other_slot_of; rewrite Ht'; reflexivity).
  assert (other_cslot_of sub' = other_cslot_of sub) as Eocsl
    by (unfold other_cslot_of; rewrite Ht'; reflexivity).
  assert (subs sta !! s = Some sub') as Hsa.
  { unfold sta, sub'. destruct DEBUG; [apply lookup_insert_eq | exact Hs]. }
  assert (invalidators sta = invalidators st /\
          components sta = components st /\ arrays sta = arrays st /\
          trace sta = trace st /\
          nextFrameQueue sta = nextFrameQueue st)
    as (Eia & Eca & Eaa & Eta & Eqa)
    by (unfold sta; destruct DEBUG; repeat split).
  assert (InvalidatorSubscription_cancel DEBUG s st =
          (Invalidator_removeSubscription DEBUG (s_invalidator sub) s;;
           Component_removeSubscription DEBUG c s) sta) as ->.
  { unfold InvalidatorSubscription_cancel.
    rewrite (bind_eq_Done _ _ _ _ _ (readSub_eq _ _ _ Hs)).
    rewrite Hic, Hsub. unfold sta, sub'. destruct DEBUG; simpl.
    - rewrite Hnc. rewrite (bind_eq_Done _ _ _ _ _ (updSub_eq _ _ _ _ Hs)).
      reflexivity.
    - reflexivity. }
  assert (contents sta (slot_of sub' xi) = Some li) as Hlia
    by (rewrite Esl, (contents_ext st sta _ Eaa); exact Hli).
  assert (invalidators sta !! s_invalidator sub = Some xi) as Hxia
    by (rewrite Eia; exact Hxi).
  destruct (removeSubscription_held_step sta _ s sub' xi li Hsa Hxia Hlia
              Hini)
    as (stb & xi' & Hrm & Eib & Hlib & Hob & Hmb
        & (Hkb & Hqb & Heb & Hsb & Hcb & Htb) & Hothb).
  rewrite (bind_eq_Done _ _ _ _ _ Hrm).
  assert (subs stb !! s = Some sub') as Hsb' by (rewrite Hsb; exact Hsa).
  assert (components stb !! c = Some xc) as Hxcb
    by (rewrite Hcb, Eca; exact Hxc).
  assert (contents stb (cslot_of sub' xc) = Some lc) as Hlcb.
  { rewrite Ecsl. apply (contents_arrays sta stb).
    - rewrite (contents_ext st sta _ Eaa). exact Hlc.
    - intros b lb Hb Eb. apply (Hothb b lb Hb). rewrite Esl.
      intros Ea. apply (Hsep b Ea Eb). }
  destruct (Component_removeSubscription_held_step stb c s sub' xc lc
              Hsb' Hxcb Hlcb Hinc)
    as (stc & xc' & Hrc' & Ecc & Hlcc & Hoc & Hfc & Hsc & Hic' & Htc & Hqc
        & Hothc).
  exists stc, sub', xi', xc', (list_step li (SRemove s)),
    (list_step lc (SRemove s)).
  split; [exact Hrc' |].
  split; [rewrite Hsc; exact Hsb' |].
  split; [unfold sub'; destruct DEBUG; [reflexivity | exact Hnc] |].
  split; [rewrite Hic', Eib; apply lookup_insert_eq |].
  split; [rewrite Ecc; apply lookup_insert_eq |].
  split.
  { rewrite <- Esl. apply (contents_arrays stb stc _ _ Hlib).
    intros b lb Hb Eb. apply (Hothc b lb Hb). rewrite Ecsl. intros Ec.
    (* the invalidator's array is its own *)
    destruct (slot_of sub xi) as [| y | a] eqn:Eold.
    - rewrite Esl in Hlia. rewrite Eold in Hlia. simpl in Hlia.
      injection Hlia as <-. apply elem_of_nil in Hini. contradiction.
    - rewrite Esl, Eold in Hlia. simpl in Hlia. injection Hlia as <-.
      (* a single subscription: the field became null *)
      rewrite Esl in Hlib.
      destruct (removeSubscription_held DEBUG sta (s_invalidator sub) s
                  sub' xi [y] Hsa Hxia)
        as [[_ H] | (E & _)];
        [rewrite Esl, Eold; reflexivity | exact Hini | | simpl in E; lia].
      rewrite H in Hrm. injection Hrm as <-.
      simpl in Eib. apply (f_equal (fun m => m !! s_invalidator sub)) in Eib.
      rewrite !lookup_insert_eq in Eib. injection Eib as <-.
      revert Eb. unfold slot_of, with_slot. rewrite Ht'.
      destruct (isTransient sub); discriminate.
    - assert (b = a) as ->.
      { destruct (removeSubscription_held DEBUG sta (s_invalidator sub) s
                    sub' xi li Hsa Hxia Hlia Hini)
          as [[_ H] | (_ & a' & k & Hsl' & _ & H)].
        - rewrite H in Hrm. injection Hrm as <-.
          simpl in Eib.
          apply (f_equal (fun m => m !! s_invalidator sub)) in Eib.
          rewrite !lookup_insert_eq in Eib. injection Eib as <-.
          revert Eb. unfold slot_of, with_slot. rewrite Ht'.
          destruct (isTransient sub); discriminate.
        - rewrite H in Hrm. injection Hrm as <-.
          simpl in Eib.
          apply (f_equal (fun m => m !! s_invalidator sub)) in Eib.
          rewrite Hxia, lookup_insert_eq in Eib. injection Eib as <-.
          rewrite Esl, Eold in Eb. injection Eb as <-. reflexivity. }
      apply (Hsep a eq_refl Ec). }
  split; [rewrite <- Ecsl; exact Hlcc |].
  split; [exact Hndi' |]. split; [exact Hndc' |].
  split; [exact Heli |]. split; [exact Helc |].
  split; [rewrite <- Eosl, Hob; reflexivity |].
  split; [rewrite <- Eocsl, Hoc; reflexivity |].
  split; [exact Hfc |]. split; [exact Hmb |].
  split; [rewrite Htc, Htb, Eta; reflexivity |].
  rewrite Hqc, Hqb, Eqa. reflexivity.
Qed.
End Cancel.

(** ** The life of a component *)

Lemma to_int32_ext a b :
  (forall k, 0 <= k < 32 -> Z.testbit a k = Z.testbit b k) ->
  to_int32 a = to_int32 b.
Proof.
  intros H. unfold to_int32.
  assert (a mod 2 ^ 32 = b mod 2 ^ 32) as ->; [| reflexivity].
  apply Z.bits_inj'. intros k Hk.
  destruct (Z.lt_ge_cases k 32) as [Hlt | Hge].
  - rewrite !Z.mod_pow2_bits_low by lia. apply H. lia.
  - rewrite !Z.mod_pow2_bits_high by lia. reflexivity.
Qed.

Lemma to_int32_idem z : to_int32 (to_int32 z) = to_int32 z.
Proof. apply to_int32_id, to_int32_range. Qed.

(** Two int32 values with the same 32 bits are equal. *)
Lemma int32_ext a b :
  to_int32 a = a -> to_int32 b = b ->
  (forall k, 0 <= k < 32 -> Z.testbit a k = Z.testbit b k) -> a = b.
Proof. intros Ha Hb H. rewrite <- Ha, <- Hb. apply to_int32_ext, H. Qed.

Lemma js_and_int32 a b : to_int32 (js_and a b) = js_and a b.
Proof. apply to_int32_idem. Qed.
Lemma js_or_int32 a b : to_int32 (js_or a b) = js_or a b.
Proof. apply to_int32_idem. Qed.

Lemma js_and_absorb m n :
  - 2 ^ 31 <= m < 2 ^ 31 -> js_and (js_or m n) m = m.
Proof.
  intros Hm. apply int32_ext;
    [apply js_and_int32 | apply to_int32_id, Hm |].
  intros k Hk. rewrite js_and_testbit, js_or_testbit by exact Hk.
  destruct (Z.testbit m k), (Z.testbit n k); reflexivity.
Qed.

Lemma js_and_self m : - 2 ^ 31 <= m < 2 ^ 31 -> js_and m m = m.
Proof.
  intros Hm. apply int32_ext;
    [apply js_and_int32 | apply to_int32_id, Hm |].
  intros k Hk. rewrite js_and_testbit by exact Hk.
  destruct (Z.testbit m k); reflexivity.
Qed.

Lemma js_or_again f m : js_or (js_or f m) m = js_or f m.
Proof.
  apply int32_ext; [apply js_or_int32 | apply js_or_int32 |].
  intros k Hk. rewrite !js_or_testbit by exact Hk.
  destruct (Z.testbit f k), (Z.testbit m k); reflexivity.
Qed.

Lemma js_or_again2 f m n : js_or (js_or (js_or f m) n) m = js_or (js_or f m) n.
Proof.
  apply int32_ext; [apply js_or_int32 | apply js_or_int32 |].
  intros k Hk. rewrite !js_or_testbit by exact Hk.
  destruct (Z.testbit f k), (Z.testbit m k), (Z.testbit n k); reflexivity.
Qed.

Lemma set_components_id st c x :
  components st !! c = Some x -> set_components <[c := x]> st = st.
Proof.
  intros H. destruct st as [? ? ? ? ? comps ? ?]. unfold set_components.
  simpl in *. f_equal. apply insert_id, H.
Qed.

Section Birth.
Context {CF : ComponentFlags}.

Lemma Component_new_spec st flags d p depth :
  match p with
  | None => depth = 0
  | Some q => exists y, components st !! q = Some y /\ depth = c_depth y + 1
  end ->
  let c := fresh (dom (components st)) in
  Component_new flags d p st =
    Done c (set_components
              <[c := mkComp flags 0 d p depth None SNull SNull]> st).
Proof.
  intros Hp c. unfold Component_new.
  destruct p as [q |].
  - destruct Hp as (y & Hy & ->).
    rewrite (bind_eq_Done _ _ _ (c_depth y + 1) st); [reflexivity |].
    rewrite (bind_eq_Done _ _ _ _ _ (readComp_eq _ _ _ Hy)). reflexivity.
  - subst depth. reflexivity.
Qed.

(** X10: [Component.create] and [Component.mount] make a component that
    is ready for its first [update()], one level below its context, with
    no root and no subscription, and call the [init] hook if there is
    one. *)
Theorem Component_make_is_ready (mount : bool) st d p depth :
  match p with
  | None => depth = 0
  | Some q => exists y, components st !! q = Some y /\ depth = c_depth y + 1
  end ->
  - 2 ^ 31 <= SHOULD_UPDATE_FLAGS < 2 ^ 31 ->
  exists c st',
    let x := mkComp (initial_flags mount) 0 d p depth None SNull SNull in
    Component_make mount d p st = Done c st' /\
    components st !! c = None /\
    components st' = <[c := x]> (components st) /\
    ready x = true /\
    trace st' = trace st ++ hook_events (d_init d) c /\
    subs st' = subs st /\ invalidators st' = invalidators st /\
    nextFrameQueue st' = nextFrameQueue st /\
    eachFrameSet st' = eachFrameSet st.
Proof.
  intros Hp Hm.
  set (c := fresh (dom (components st))).
  assert (components st !! c = None) as Hfresh
    by apply not_elem_of_dom, is_fresh.
  pose proof (Component_new_spec st (initial_flags mount) d p depth Hp)
    as Hnew. cbv zeta in Hnew. fold c in Hnew.
  exists c.
  exists (set_trace (fun t => t ++ hook_events (d_init d) c)
            (set_components
               <[c := mkComp (initial_flags mount) 0 d p depth None
                        SNull SNull]> st)).
  cbv zeta. split.
  { unfold Component_make, Component_mount, Component_create.
    unfold initial_flags in Hnew.
    destruct mount; rewrite (bind_eq_Done _ _ _ _ _ Hnew);
      unfold runInit, hook_events; destruct (d_init d); try reflexivity;
      unfold bind, emit, modify, ret, set_trace; simpl;
      rewrite ?app_nil_r; reflexivity. }
  split; [exact Hfresh |]. split; [reflexivity |]. split.
  { unfold ready, initial_flags. simpl. apply Z.eqb_eq.
    destruct mount; [apply js_and_absorb | apply js_and_self]; exact Hm. }
  repeat split.
Qed.

(** X11: a descriptor fresh from its constructor has no hook: the
    component made from it calls nothing on creation and throws at its
    first [update()]. *)
Theorem fresh_descriptor_has_no_hooks (mount : bool) st opt_flags p c st' :
  - 2 ^ 31 <= SHOULD_UPDATE_FLAGS < 2 ^ 31 ->
  Component_make mount (CDescriptor_new opt_flags) p st = Done c st' ->
  d_flags (CDescriptor_new opt_flags) = default 0 opt_flags /\
  trace st' = trace st /\
  Component_update c st' = Thrown TypeError st'.
Proof.
  intros Hm Hmake. split; [destruct opt_flags; reflexivity |].
  assert (Component_new (initial_flags mount) (CDescriptor_new opt_flags)
            p st = Done c st') as Hnew.
  { revert Hmake.
    unfold Component_make, Component_mount, Component_create, initial_flags.
    destruct mount; intros (c0 & st0 & H0 & H1)%bind_Done; simpl in H1;
      injection H1 as <- <-; exact H0. }
  unfold Component_new in Hnew.
  apply bind_Done in Hnew as (dp & st0 & Hd & Hnew).
  assert (st0 = st) as ->.
  { destruct p as [q |]; [| injection Hd as _ <-; reflexivity].
    apply bind_Done in Hd as (y & st1 & [-> _]%readComp_inv & Hd).
    injection Hd as _ <-. reflexivity. }
  injection Hnew as <- <-. split; [reflexivity |].
  unfold Component_update.
  rewrite (bind_eq_Done _ _ _ _ _
             (readComp_eq _ _ _ (lookup_insert_eq _ _ _))).
  simpl.
  assert ((js_and (initial_flags mount) SHOULD_UPDATE_FLAGS
           =? SHOULD_UPDATE_FLAGS) = true) as ->; [| reflexivity].
  apply Z.eqb_eq. unfold initial_flags.
  destruct mount; [apply js_and_absorb | apply js_and_self]; exact Hm.
Qed.
End Birth.

Section Root.
Context {CF : ComponentFlags} {CFok : ComponentFlagsOk CF}.

Lemma Component_syncVRoot_run st c x r :
  components st !! c = Some x ->
  let x' :=
    comp_with_root (Some r)
      (match c_root x with
       | None =>
           if has_flag (c_flags x) MOUNTING
           then comp_with_flags (js_and (c_flags x) (js_not MOUNTING)) x
           else x
       | Some _ => x
       end) in
  Component_syncVRoot c r st =
    Done (sync_calls c x r) (set_components <[c := x']> st).
Proof.
  intros Hx x'. unfold Component_syncVRoot, sync_calls.
  rewrite (bind_eq_Done _ _ _ _ _ (readComp_eq _ _ _ Hx)).
  subst x'. destruct (c_root x) as [old |] eqn:Er.
  - rewrite (bind_eq_Done _ _ _ [VSync old r c] st) by reflexivity.
    rewrite (bind_eq_Done _ _ _ _ _ (updComp_eq _ _ _ _ Hx)).
    reflexivity.
  - unfold has_flag.
    destruct (js_and (c_flags x) MOUNTING =? 0) eqn:Em; simpl.
    + rewrite (bind_eq_Done _ _ _
                 [VSetCref r c; VSetRef r c; VRender r c] st)
        by reflexivity.
      rewrite (bind_eq_Done _ _ _ _ _ (updComp_eq _ _ _ _ Hx)).
      reflexivity.
    + rewrite (bind_eq_Done _ _ _ [VSetCref r c; VMount r c]
                 (set_components
                    <[c := comp_with_flags
                             (js_and (c_flags x) (js_not MOUNTING)) x]> st)).
      2:{ rewrite (bind_eq_Done _ _ _ _ _ (updComp_eq _ _ _ _ Hx)).
          reflexivity. }
      rewrite (bind_eq_Done _ _ _ tt
                 (set_components
                    <[c := comp_with_root (Some r)
                             (comp_with_flags
                                (js_and (c_flags x) (js_not MOUNTING)) x)]>
                    (set_components
                       <[c := comp_with_flags
                                (js_and (c_flags x) (js_not MOUNTING)) x]>
                       st))).
      2:{ apply updComp_eq. simpl. apply lookup_insert_eq. }
      unfold ret, set_components. simpl. rewrite insert_insert_eq.
      reflexivity.
Qed.

(** X12: [syncVRoot] installs the new root.  A component without a root
    is mounted over its element when Mounting is set, which is then
    cleared, and rendered otherwise; a component with a root has the old
    root synchronised with the new one.  Nothing else of the component
    changes, and the next [syncVRoot] synchronises. *)
Theorem Component_syncVRoot_installs st c x r :
  components st !! c = Some x ->
  exists st' x',
    Component_syncVRoot c r st = Done (sync_calls c x r) st' /\
    st' = set_components <[c := x']> st /\
    c_root x' = Some r /\
    has_flag (c_flags x') MOUNTING =
      has_flag (c_flags x) MOUNTING && negb (bool_decide (c_root x = None)) /\
    (forall m, single_bit m -> m <> MOUNTING ->
       has_flag (c_flags x') m = has_flag (c_flags x) m) /\
    c_mtime x' = c_mtime x /\ c_descriptor x' = c_descriptor x /\
    c_parent x' = c_parent x /\ c_depth x' = c_depth x /\
    c_subscriptions x' = c_subscriptions x /\
    c_transientSubscriptions x' = c_transientSubscriptions x /\
    forall r2, exists st'',
      Component_syncVRoot c r2 st' = Done [VSync r r2 c] st'' /\
      components st'' = <[c := comp_with_root (Some r2) x']> (components st').
Proof.
  intros Hx. pose proof (Component_syncVRoot_run st c x r Hx) as Hrun.
  cbv zeta in Hrun. eexists _, _. split; [exact Hrun |].
  split; [reflexivity |]. split; [reflexivity |].
  assert (forall m, single_bit m ->
            has_flag
              (c_flags
                 (match c_root x with
                  | None =>
                      if has_flag (c_flags x) MOUNTING
                      then comp_with_flags
                             (js_and (c_flags x) (js_not MOUNTING)) x
                      else x
                  | Some _ => x
                  end)) m =
            has_flag (c_flags x) m &&
            negb (bool_decide (MOUNTING = m) &&
                  bool_decide (c_root x = None))) as Hflags.
  { intros m Hm. destruct (c_root x) as [old |].
    - rewrite (bool_decide_eq_false_2 (Some old = None)) by discriminate.
      rewrite andb_false_r, andb_true_r. reflexivity.
    - rewrite (bool_decide_eq_true_2 (None = None)) by reflexivity.
      rewrite andb_true_r.
      destruct (has_flag (c_flags x) MOUNTING) eqn:Emt.
      + simpl. apply has_flag_clear; [apply MOUNTING_bit | exact Hm].
      + destruct (bool_decide (MOUNTING = m)) eqn:Eb.
        * apply bool_decide_eq_true in Eb. subst m. rewrite Emt.
          reflexivity.
        * rewrite andb_true_r. reflexivity. }
  split.
  { simpl. rewrite (Hflags MOUNTING MOUNTING_bit).
    rewrite (bool_decide_eq_true_2 (MOUNTING = MOUNTING)) by reflexivity.
    reflexivity. }
  split.
  { intros m Hm Hne. simpl. rewrite (Hflags m Hm).
    rewrite (bool_decide_eq_false_2 (MOUNTING = m)) by congruence.
    simpl. apply andb_true_r. }
  assert (forall A (g : Component -> A),
            (forall f y, g (comp_with_flags f y) = g y) ->
            g (match c_root x with
               | None =>
                   if has_flag (c_flags x) MOUNTING
                   then comp_with_flags
                          (js_and (c_flags x) (js_not MOUNTING)) x
                   else x
               | Some _ => x
               end) = g x) as Hsame.
  { intros A g Hg. destruct (c_root x);
      [| destruct (has_flag (c_flags x) MOUNTING)]; auto. }
  split; [simpl; apply (Hsame _ c_mtime); reflexivity |].
  split; [simpl; apply (Hsame _ c_descriptor); reflexivity |].
  split; [simpl; apply (Hsame _ c_parent); reflexivity |].
  split; [simpl; apply (Hsame _ c_depth); reflexivity |].
  split; [simpl; apply (Hsame _ c_subscriptions); reflexivity |].
  split; [simpl; apply (Hsame _ c_transientSubscriptions); reflexivity |].
  intros r2. eexists. split.
  - match goal with
    | |- Component_syncVRoot c r2 (set_components <[c := ?y]> st) = _ =>
        pose proof (Component_syncVRoot_run
                      (set_components <[c := y]> st) c y r2
                      (lookup_insert_eq _ _ _)) as H2
    end.
    cbv zeta in H2. unfold sync_calls in H2. simpl in H2. exact H2.
  - reflexivity.
Qed.
End Root.

Section Teardown.
Variable DEBUG : bool.
Context {CF : ComponentFlags}.

(** What a returning [dispose()] has done. *)
Lemma Component_dispose_Done st c x st' :
  components st !! c = Some x ->
  Component_dispose DEBUG c st = Done tt st' ->
  let x' :=
    comp_with_transientSubscriptions SNull
      (comp_with_subscriptions SNull
         (comp_with_flags
            (js_and (js_or (c_flags x) DISPOSED)
                    (js_not (js_or ATTACHED UPDATE_EACH_FRAME))) x)) in
  components st' = <[c := x']> (components st) /\
  trace st' = trace st ++ dispose_events c x /\
  subs st' = subs st /\
  clock st' = clock st /\
  nextFrameQueue st' = nextFrameQueue st /\
  eachFrameSet st' = eachFrameSet st.
Proof.
  intros Hx. unfold Component_dispose.
  rewrite (bind_eq_Done _ _ _ _ _ (readComp_eq _ _ _ Hx)).
  intros ([] & st0 & H0 & H)%bind_Done.
  assert (st0 = st) as ->.
  { destruct (DEBUG && negb (js_and (c_flags x) DISPOSED =? 0));
      simpl in H0; [discriminate | injection H0 as <-; reflexivity]. }
  clear H0.
  rewrite (bind_eq_Done _ _ _ _ _ (updComp_eq _ _ _ _ Hx)) in H.
  rewrite (bind_eq_Done _ _ _ tt
             (set_components
                <[c := comp_with_flags
                         (js_and (js_or (c_flags x) DISPOSED)
                            (js_not (js_or ATTACHED UPDATE_EACH_FRAME))) x]>
                st)) in H.
  2:{ erewrite updComp_eq by (simpl; apply lookup_insert_eq).
      unfold set_components. simpl. rewrite insert_insert_eq. reflexivity. }
  apply bind_Done in H as ([] & st1 & H1 & H).
  eapply cancelSubscriptions_Done in H1
    as (Hc1 & Hq1 & He1 & Ht1 & Hk1 & Hs1);
    [| simpl; apply lookup_insert_eq].
  apply bind_Done in H as ([] & st2 & H2 & H).
  eapply cancelTransientSubscriptions_Done in H2
    as (Hc2 & Hq2 & He2 & Ht2 & Hk2 & Hs2);
    [| rewrite Hc1; apply lookup_insert_eq].
  simpl in Hc1. rewrite insert_insert_eq in Hc1.
  rewrite Hc1, insert_insert_eq in Hc2.
  rewrite (bind_eq_Done _ _ _ _ st2) in H
    by (apply readComp_eq; rewrite Hc2; apply lookup_insert_eq).
  simpl in H. cbv zeta.
  assert (forall (m1 m2 : M unit) sta e1 e2,
            (forall s, m1 s = Done tt (set_trace (fun t => t ++ e1) s)) ->
            (forall s, m2 s = Done tt (set_trace (fun t => t ++ e2) s)) ->
            bind m1 (fun _ => m2) sta =
            Done tt (set_trace (fun t => t ++ e1 ++ e2) sta)) as Hseq.
  { intros m1 m2 sta e1 e2 E1 E2. unfold bind. rewrite E1, E2.
    unfold set_trace. simpl. rewrite <- app_assoc. reflexivity. }
  rewrite (Hseq _ _ st2
             (match c_root x with Some r => [EvRootDispose r] | None => [] end)
             (match d_disposed (c_descriptor x) with
              | Some f => [EvHook f c]
              | None => []
              end)) in H.
  - injection H as <-. simpl.
    rewrite Hc2, Ht2, Ht1, Hs2, Hs1, Hk2, Hk1, Hq2, Hq1, He2, He1. simpl.
    repeat split; reflexivity.
  - intros s. destruct (c_root x); simpl;
      [reflexivity |].
    unfold ret, set_trace. destruct s. simpl. rewrite app_nil_r.
    reflexivity.
  - intros s. destruct (d_disposed (c_descriptor x)); simpl;
      [reflexivity |].
    unfold ret, set_trace. destruct s. simpl. rewrite app_nil_r.
    reflexivity.
Qed.

(** X19: a [dispose()] that returns has touched the component and the
    sets of invalidators, and nothing else: no subscription cell, no
    other component, neither queue of the scheduler.  It has called
    [root.dispose()] and then the [disposed] hook, where they exist. *)
Theorem Component_dispose_frame st c x st' :
  components st !! c = Some x ->
  Component_dispose DEBUG c st = Done tt st' ->
  exists x',
    components st' = <[c := x']> (components st) /\
    c_flags x' =
      js_and (js_or (c_flags x) DISPOSED)
             (js_not (js_or ATTACHED UPDATE_EACH_FRAME)) /\
    c_subscriptions x' = SNull /\ c_transientSubscriptions x' = SNull /\
    c_root x' = c_root x /\ c_descriptor x' = c_descriptor x /\
    c_mtime x' = c_mtime x /\
    trace st' = trace st ++ dispose_events c x /\
    subs st' = subs st /\
    clock st' = clock st /\
    nextFrameQueue st' = nextFrameQueue st /\
    eachFrameSet st' = eachFrameSet st.
Proof.
  intros Hx Hrun.
  destruct (Component_dispose_Done st c x st' Hx Hrun)
    as (Hc & Ht & Hs & Hk & Hq & He).
  eexists. split; [exact Hc |]. simpl. auto 12.
Qed.
End Teardown.

Section Again.
Context {CF : ComponentFlags}.

Lemma comp_with_subscriptions_id x :
  c_subscriptions x = SNull -> comp_with_subscriptions SNull x = x.
Proof. destruct x. simpl. intros ->. reflexivity. Qed.
Lemma comp_with_transientSubscriptions_id x :
  c_transientSubscriptions x = SNull ->
  comp_with_transientSubscriptions SNull x = x.
Proof. destruct x. simpl. intros ->. reflexivity. Qed.

Lemma cancelSubscriptions_null DEBUG st c x :
  components st !! c = Some x -> c_subscriptions x = SNull ->
  Component_cancelSubscriptions DEBUG c st = Done tt st.
Proof.
  intros Hx Hn. unfold Component_cancelSubscriptions, bind.
  rewrite (readComp_eq _ _ _ Hx), Hn. cbn [cancelAll ret].
  rewrite (updComp_eq _ _ _ _ Hx).
  rewrite (comp_with_subscriptions_id x Hn), (set_components_id _ _ _ Hx).
  reflexivity.
Qed.

Lemma cancelTransientSubscriptions_null DEBUG st c x :
  components st !! c = Some x -> c_transientSubscriptions x = SNull ->
  Component_cancelTransientSubscriptions DEBUG c st = Done tt st.
Proof.
  intros Hx Hn. unfold Component_cancelTransientSubscriptions, bind.
  rewrite (readComp_eq _ _ _ Hx), Hn. cbn [cancelAll ret].
  rewrite (updComp_eq _ _ _ _ Hx).
  rewrite (comp_with_transientSubscriptions_id x Hn),
    (set_components_id _ _ _ Hx).
  reflexivity.
Qed.

(** A release build runs [dispose()] to its end on a component without
    subscriptions, whatever its flags. *)
Lemma Component_dispose_release_runs st c x :
  components st !! c = Some x ->
  c_subscriptions x = SNull -> c_transientSubscriptions x = SNull ->
  exists st', Component_dispose false c st = Done tt st'.
Proof.
  intros Hx Hn Ht.
  set (f1 := fun y => comp_with_flags (js_or (c_flags y) DISPOSED) y).
  set (f2 := fun y => comp_with_flags
                        (js_and (c_flags y)
                           (js_not (js_or ATTACHED UPDATE_EACH_FRAME))) y).
  set (sta := set_components <[c := f1 x]> st).
  set (stb := set_components <[c := f2 (f1 x)]> sta).
  assert (updComp c f1 st = Done tt sta) as H1 by apply updComp_eq, Hx.
  assert (components sta !! c = Some (f1 x)) as Hxa
    by apply lookup_insert_eq.
  assert (updComp c f2 sta = Done tt stb) as H2 by apply updComp_eq, Hxa.
  assert (components stb !! c = Some (f2 (f1 x))) as Hxb
    by apply lookup_insert_eq.
  assert (Component_cancelSubscriptions false c stb = Done tt stb) as H3
    by (apply (cancelSubscriptions_null false stb c (f2 (f1 x)) Hxb);
        exact Hn).
  assert (Component_cancelTransientSubscriptions false c stb = Done tt stb)
    as H4
    by (apply (cancelTransientSubscriptions_null false stb c (f2 (f1 x))
                 Hxb); exact Ht).
  unfold Component_dispose, bind.
  rewrite (readComp_eq _ _ _ Hx). cbn [andb when ret].
  fold f1. rewrite H1. fold f2. rewrite H2, H3, H4.
  rewrite (readComp_eq _ _ _ Hxb).
  destruct (c_root (f2 (f1 x))), (d_disposed (c_descriptor (f2 (f1 x))));
    eexists; reflexivity.
Qed.

(** X20: a release build does not reject a second [dispose()]: it calls
    [root.dispose()] and the [disposed] hook again. *)
Theorem Component_dispose_release_repeats st c x st1 :
  components st !! c = Some x ->
  Component_dispose false c st = Done tt st1 ->
  exists st2,
    Component_dispose false c st1 = Done tt st2 /\
    trace st2 = trace st ++ dispose_events c x ++ dispose_events c x.
Proof.
  intros Hx Hrun.
  destruct (Component_dispose_Done false st c x st1 Hx Hrun)
    as (Hc & Ht & _).
  cbv zeta in Hc.
  set (x1 := comp_with_transientSubscriptions SNull
               (comp_with_subscriptions SNull
                  (comp_with_flags
                     (js_and (js_or (c_flags x) DISPOSED)
                        (js_not (js_or ATTACHED UPDATE_EACH_FRAME))) x)))
    in *.
  assert (components st1 !! c = Some x1) as Hx1
    by (rewrite Hc; apply lookup_insert_eq).
  destruct (Component_dispose_release_runs st1 c x1 Hx1 eq_refl eq_refl)
    as [st2 Hrun2].
  exists st2. split; [exact Hrun2 |].
  destruct (Component_dispose_Done false st1 c x1 st2 Hx1 Hrun2)
    as (_ & Ht2 & _).
  rewrite Ht2, Ht, <- app_assoc. reflexivity.
Qed.
End Again.

Section EachFrameOnce.
Context {CF : ComponentFlags} {CFok : ComponentFlagsOk CF}.

Lemma comp_with_flags_id x : comp_with_flags (c_flags x) x = x.
Proof. destruct x. reflexivity. Qed.

(** X13: [startUpdateEachFrame()] sets UpdateEachFrame and InUpdateQueue,
    registers the component with the scheduler exactly when
    InUpdateQueue was clear, and changes nothing when called again. *)
Theorem startUpdateEachFrame_registers_once st c x :
  components st !! c = Some x ->
  exists st1 x1,
    Component_startUpdateEachFrame c st = Done tt st1 /\
    components st1 = <[c := x1]> (components st) /\
    has_flag (c_flags x1) UPDATE_EACH_FRAME = true /\
    has_flag (c_flags x1) IN_UPDATE_QUEUE = true /\
    (forall m, single_bit m -> m <> UPDATE_EACH_FRAME ->
       m <> IN_UPDATE_QUEUE ->
       has_flag (c_flags x1) m = has_flag (c_flags x) m) /\
    eachFrameSet st1 =
      eachFrameSet st ++
      (if has_flag (c_flags x) IN_UPDATE_QUEUE then [] else [c]) /\
    nextFrameQueue st1 = nextFrameQueue st /\
    trace st1 = trace st /\
    Component_startUpdateEachFrame c st1 = Done tt st1.
Proof.
  intros Hx.
  destruct flags_ne as (_ & _ & _ & _ & _ & _ & _ & Hne & _).
  set (f1 := fun y => comp_with_flags (js_or (c_flags y) UPDATE_EACH_FRAME) y).
  set (f2 := fun y => comp_with_flags (js_or (c_flags y) IN_UPDATE_QUEUE) y).
  set (sta := set_components <[c := f1 x]> st).
  assert (updComp c f1 st = Done tt sta) as H1 by apply updComp_eq, Hx.
  assert (components sta !! c = Some (f1 x)) as Hxa
    by apply lookup_insert_eq.
  assert (has_flag (c_flags (f1 x)) IN_UPDATE_QUEUE =
          has_flag (c_flags x) IN_UPDATE_QUEUE) as Hq1.
  { unfold f1. cbn [c_flags comp_with_flags].
    rewrite has_flag_set
      by (first [apply UPDATE_EACH_FRAME_bit | apply IN_UPDATE_QUEUE_bit]).
    rewrite bool_decide_eq_false_2 by exact Hne. apply orb_false_r. }
  assert (forall st0 y,
            components st0 !! c = Some y ->
            has_flag (c_flags y) UPDATE_EACH_FRAME = true ->
            has_flag (c_flags y) IN_UPDATE_QUEUE = true ->
            to_int32 (c_flags y) = c_flags y ->
            Component_startUpdateEachFrame c st0 = Done tt st0) as Hagain.
  { intros st0 y Hy Hu Hq Hi. unfold Component_startUpdateEachFrame, bind.
    fold f1. rewrite (updComp_eq _ _ _ _ Hy).
    assert (f1 y = y) as Ey.
    { unfold f1.
      assert (js_or (c_flags y) UPDATE_EACH_FRAME = c_flags y) as ->;
        [| apply comp_with_flags_id].
      apply int32_ext; [apply js_or_int32 | exact Hi |].
      intros k Hk. rewrite js_or_testbit by exact Hk.
      rewrite has_flag_testbit in Hu by apply UPDATE_EACH_FRAME_bit.
      rewrite (single_bit_testbit _ k UPDATE_EACH_FRAME_bit) by lia.
      destruct (Z.eqb_spec (Z.log2 UPDATE_EACH_FRAME) k) as [<- | _].
      - rewrite Hu. reflexivity.
      - apply orb_false_r. }
    rewrite Ey, (set_components_id _ _ _ Hy), (readComp_eq _ _ _ Hy).
    unfold has_flag in Hq. apply negb_true_iff in Hq. rewrite Hq.
    reflexivity. }
  unfold Component_startUpdateEachFrame at 1. unfold bind at 1. fold f1.
  rewrite H1. unfold bind at 1. rewrite (readComp_eq _ _ _ Hxa).
  destruct (has_flag (c_flags x) IN_UPDATE_QUEUE) eqn:Eq.
  - assert ((js_and (c_flags (f1 x)) IN_UPDATE_QUEUE =? 0) = false) as ->.
    { unfold has_flag in Hq1. apply negb_true_iff in Hq1. exact Hq1. }
    exists sta, (f1 x). split; [reflexivity |]. split; [reflexivity |].
    assert (has_flag (c_flags (f1 x)) UPDATE_EACH_FRAME = true) as Hu1.
    { unfold f1. cbn [c_flags comp_with_flags].
      rewrite has_flag_set by apply UPDATE_EACH_FRAME_bit.
      rewrite bool_decide_eq_true_2 by reflexivity. apply orb_true_r. }
    split; [exact Hu1 |]. split; [exact Hq1 |]. split.
    { intros m Hm Hmu _. unfold f1. cbn [c_flags comp_with_flags].
      rewrite has_flag_set by (first [apply UPDATE_EACH_FRAME_bit | exact Hm]).
      rewrite bool_decide_eq_false_2 by congruence. apply orb_false_r. }
    split; [simpl; rewrite app_nil_r; reflexivity |].
    split; [reflexivity |]. split; [reflexivity |].
    apply (Hagain sta (f1 x) Hxa Hu1); [exact Hq1 |].
    apply js_or_int32.
  - assert ((js_and (c_flags (f1 x)) IN_UPDATE_QUEUE =? 0) = true) as ->.
    { unfold has_flag in Hq1. apply negb_false_iff in Hq1. exact Hq1. }
    fold f2. unfold bind at 1. rewrite (updComp_eq _ _ _ _ Hxa).
    set (stb := set_components <[c := f2 (f1 x)]> sta).
    set (stc := set_eachFrameSet (fun q => q ++ [c]) stb).
    exists stc, (f2 (f1 x)). split; [reflexivity |].
    split; [simpl; apply insert_insert_eq |].
    assert (has_flag (c_flags (f2 (f1 x))) UPDATE_EACH_FRAME = true) as Hu2.
    { unfold f2, f1. cbn [c_flags comp_with_flags].
      rewrite !has_flag_set
        by (first [apply UPDATE_EACH_FRAME_bit | apply IN_UPDATE_QUEUE_bit]).
      rewrite (bool_decide_eq_true_2 (UPDATE_EACH_FRAME = UPDATE_EACH_FRAME))
        by reflexivity.
      rewrite orb_true_r. reflexivity. }
    assert (has_flag (c_flags (f2 (f1 x))) IN_UPDATE_QUEUE = true) as Hq2.
    { unfold f2. cbn [c_flags comp_with_flags].
      rewrite has_flag_set by apply IN_UPDATE_QUEUE_bit.
      rewrite bool_decide_eq_true_2 by reflexivity. apply orb_true_r. }
    split; [exact Hu2 |]. split; [exact Hq2 |]. split.
    { intros m Hm Hmu Hmq. unfold f2, f1. cbn [c_flags comp_with_flags].
      rewrite !has_flag_set
        by (first [apply UPDATE_EACH_FRAME_bit | apply IN_UPDATE_QUEUE_bit
                  | exact Hm]).
      rewrite !bool_decide_eq_false_2 by congruence.
      rewrite !orb_false_r. reflexivity. }
    split; [reflexivity |]. split; [reflexivity |]. split; [reflexivity |].
    apply (Hagain stc (f2 (f1 x))); [| exact Hu2 | exact Hq2 |].
    + simpl. apply lookup_insert_eq.
    + apply js_or_int32.
Qed.
End EachFrameOnce.

Section Marks.
Variable DEBUG : bool.
Context {CF : ComponentFlags} {CFok : ComponentFlagsOk CF}.

(** X15: [Component.invalidate()] on a component that is neither Dirty
    nor Disposed and whose transient subscriptions are registered at
    their invalidators returns: the component is Dirty, it holds no
    transient subscription, and it is registered once for the next
    frame.  Its durable set and its other flags are as before. *)
Theorem Component_invalidate_marks st c x lt :
  components st !! c = Some x ->
  isDirty x = false -> isDisposed x = false ->
  contents st (c_transientSubscriptions x) = Some lt ->
  unshared st (c_transientSubscriptions x) ->
  NoDup lt ->
  (forall s, s ∈ lt -> registered st s) ->
  exists st' x',
    Component_invalidate DEBUG c st = Done tt st' /\
    components st' = <[c := x']> (components st) /\
    isDirty x' = true /\
    (forall m, single_bit m -> m <> DIRTY ->
       has_flag (c_flags x') m = has_flag (c_flags x) m) /\
    c_transientSubscriptions x' = SNull /\
    c_subscriptions x' = c_subscriptions x /\
    nextFrameQueue st' = nextFrameQueue st ++ [c] /\
    eachFrameSet st' = eachFrameSet st /\
    subs st' = subs st /\
    trace st' = trace st /\
    (forall t, t ∉ lt -> registered st t -> registered st' t).
Proof.
  intros Hx Hd Hp Hc Hu Hnd Hreg.
  set (xa := comp_with_flags (js_or (c_flags x) DIRTY) x).
  set (sta := set_components <[c := xa]> st).
  assert (components sta !! c = Some xa) as Hxa by apply lookup_insert_eq.
  assert (contents sta (c_transientSubscriptions xa) = Some lt) as Hca
    by exact Hc.
  assert (unshared sta (c_transientSubscriptions xa)) as Hua
    by (apply (unshared_ext st); [reflexivity | exact Hu]).
  assert (forall s, s ∈ lt -> registered sta s) as Hrega.
  { intros s Hs. apply (registered_ext st); try reflexivity.
    apply Hreg, Hs. }
  destruct (cancelTransientSubscriptions_mirrored DEBUG sta c xa lt
              Hxa Hca Hua Hnd Hrega)
    as (stb & Hrun & Hcb & Htb & Hregb & _).
  pose proof Hrun as Hrun'.
  eapply cancelTransientSubscriptions_Done in Hrun'
    as (_ & Hqb & Heb & _ & _ & Hsb); [| exact Hxa].
  exists (set_nextFrameQueue (fun q => q ++ [c]) stb),
    (comp_with_transientSubscriptions SNull xa).
  split.
  { unfold Component_invalidate.
    rewrite (bind_eq_Done _ _ _ _ _ (readComp_eq _ _ _ Hx)).
    rewrite invalidate_guard. unfold isDirty, isDisposed in Hd, Hp.
    rewrite Hd, Hp. cbn [negb andb].
    rewrite (bind_eq_Done _ _ _ _ _ (updComp_eq _ _ _ _ Hx)).
    fold xa. fold sta. rewrite (bind_eq_Done _ _ _ _ _ Hrun).
    reflexivity. }
  split.
  { cbn [components set_nextFrameQueue]. rewrite Hcb. unfold sta.
    cbn [components set_components]. apply insert_insert_eq. }
  split.
  { unfold isDirty, xa. cbn [c_flags comp_with_flags
                               comp_with_transientSubscriptions].
    rewrite has_flag_set by apply DIRTY_bit.
    rewrite bool_decide_eq_true_2 by reflexivity. apply orb_true_r. }
  split.
  { intros m Hm Hne. unfold xa.
    cbn [c_flags comp_with_flags comp_with_transientSubscriptions].
    rewrite has_flag_set by (first [apply DIRTY_bit | exact Hm]).
    rewrite bool_decide_eq_false_2 by congruence. apply orb_false_r. }
  split; [reflexivity |]. split; [reflexivity |].
  split; [cbn [nextFrameQueue set_nextFrameQueue]; rewrite Hqb; reflexivity |].
  split; [cbn [eachFrameSet set_nextFrameQueue]; rewrite Heb; reflexivity |].
  split; [cbn [subs set_nextFrameQueue]; rewrite Hsb; reflexivity |].
  split; [cbn [trace set_nextFrameQueue]; rewrite Htb; reflexivity |].
  intros t Ht Hrt. apply (registered_ext stb); try reflexivity.
  apply (Hregb t Ht). apply (registered_ext st); try reflexivity.
  exact Hrt.
Qed.

(** X22: when the readiness mask includes Attached, [update()] runs no
    hook on a component whose [dispose()] has returned, whatever ran in
    between. *)
Theorem disposed_never_updates st c x st1 ops :
  has_flag SHOULD_UPDATE_FLAGS ATTACHED = true ->
  components st !! c = Some x ->
  Component_dispose DEBUG c st = Done tt st1 ->
  let st2 := run_ops DEBUG ops st1 in
  Component_update c st2 = Done tt st2.
Proof.
  intros Hmask Hx Hrun st2.
  destruct (Component_dispose_Done DEBUG st c x st1 Hx Hrun) as (Hc & _).
  cbv zeta in Hc.
  assert (exists x1, components st1 !! c = Some x1 /\
                     has_flag (c_flags x1) ATTACHED = false)
    as (x1 & Hx1 & Ha1).
  { eexists. split; [rewrite Hc; apply lookup_insert_eq |].
    cbn [c_flags comp_with_flags comp_with_subscriptions
         comp_with_transientSubscriptions].
    rewrite has_flag_clear2
      by (first [apply ATTACHED_bit | apply UPDATE_EACH_FRAME_bit]).
    rewrite (bool_decide_eq_true_2 (ATTACHED = ATTACHED)) by reflexivity.
    rewrite andb_false_r. reflexivity. }
  destruct (kept_run_ops DEBUG comp_sticks ops st1 c x1 Hx1)
    as (x2 & Hx2 & _ & _ & _ & _ & _ & Ha2).
  fold st2 in Hx2. specialize (Ha2 Ha1).
  unfold Component_update.
  rewrite (bind_eq_Done _ _ _ _ _ (readComp_eq _ _ _ Hx2)).
  assert ((js_and (c_flags x2) SHOULD_UPDATE_FLAGS =? SHOULD_UPDATE_FLAGS)
          = false) as ->; [| reflexivity].
  apply Z.eqb_neq. intros E.
  rewrite has_flag_testbit in Hmask, Ha2 by apply ATTACHED_bit.
  pose proof ATTACHED_bit as [Hlog _].
  assert (Z.testbit (js_and (c_flags x2) SHOULD_UPDATE_FLAGS)
            (Z.log2 ATTACHED) = true) as Hbit by (rewrite E; exact Hmask).
  rewrite js_and_testbit in Hbit by lia. rewrite Ha2 in Hbit.
  discriminate.
Qed.
End Marks.

(** ** One wave, one registration for each component *)

Section Batch.
Variable DEBUG : bool.
Context {CF : ComponentFlags} {CFok : ComponentFlagsOk CF}.

Lemma targets_ext st st' l :
  subs st' = subs st -> targets st' l = targets st l.
Proof.
  intros E. unfold targets.
  assert (forall s, target st' s = target st s) as Ht
    by (intros s; unfold target; rewrite E; reflexivity).
  induction l as [| s l IH]; [reflexivity |].
  cbn [omap list_omap]. rewrite IH, Ht. reflexivity.
Qed.

Lemma clean_ext st st' c :
  components st' = components st -> clean st' c = clean st c.
Proof. intros E. unfold clean. rewrite E. reflexivity. Qed.

(** Heaps that agree on the components and on the queues. *)
Lemma batched_none l st st' :
  targets st l = [] ->
  components st' = components st ->
  nextFrameQueue st' = nextFrameQueue st ->
  eachFrameSet st' = eachFrameSet st ->
  batched l st st'.
Proof.
  intros Et Ec Eq Ee. exists []. rewrite app_nil_r.
  split; [exact Eq |]. split; [apply NoDup_nil_2 |]. split.
  { intros c. rewrite Et, elem_of_nil. tauto. }
  split.
  { intros c. rewrite (clean_ext st st' c Ec).
    rewrite bool_decide_eq_false_2 by apply not_elem_of_nil.
    rewrite andb_true_r. reflexivity. }
  split; [intros c x Hx Hd; exists x; rewrite Ec; auto |].
  split; [intros c []%elem_of_nil | exact Ee].
Qed.

Lemma batched_nil st st' :
  components st' = components st ->
  nextFrameQueue st' = nextFrameQueue st ->
  eachFrameSet st' = eachFrameSet st ->
  batched [] st st'.
Proof. apply batched_none. reflexivity. Qed.

Lemma batched_ext_l l st0 st st' :
  subs st0 = subs st -> components st0 = components st ->
  nextFrameQueue st0 = nextFrameQueue st ->
  eachFrameSet st0 = eachFrameSet st ->
  batched l st0 st' -> batched l st st'.
Proof.
  intros Es Ec Eq Ee (news & H1 & H2 & H3 & H4 & H5 & H6 & H7).
  exists news. rewrite <- Eq, <- Ee. split; [exact H1 |].
  split; [exact H2 |]. split.
  { intros c. rewrite (H3 c), (targets_ext st st0 l Es).
    rewrite (clean_ext st st0 c Ec). reflexivity. }
  split.
  { intros c. rewrite (H4 c). rewrite (clean_ext st st0 c Ec).
    reflexivity. }
  split; [| auto].
  intros c x Hx. apply H5. rewrite Ec. exact Hx.
Qed.

Lemma batched_ext_r l st st' st1 :
  components st1 = components st' ->
  nextFrameQueue st1 = nextFrameQueue st' ->
  eachFrameSet st1 = eachFrameSet st' ->
  batched l st st' -> batched l st st1.
Proof.
  intros Ec Eq Ee (news & H1 & H2 & H3 & H4 & H5 & H6 & H7).
  exists news. rewrite Eq, Ee. split; [exact H1 |].
  split; [exact H2 |]. split; [exact H3 |]. split.
  { intros c. rewrite (clean_ext st' st1 c Ec). apply H4. }
  split; [intros c x Hx Hd; rewrite Ec; apply (H5 c x Hx Hd) |].
  split; [intros c Hc; rewrite Ec; apply (H6 c Hc) | exact H7].
Qed.

Lemma batched_app l1 l2 st st1 st2 :
  subs st1 = subs st ->
  batched l1 st st1 -> batched l2 st1 st2 -> batched (l1 ++ l2) st st2.
Proof.
  intros Es (n1 & Q1 & N1 & M1 & C1 & D1 & K1 & E1)
    (n2 & Q2 & N2 & M2 & C2 & D2 & K2 & E2).
  exists (n1 ++ n2). split; [rewrite Q2, Q1, app_assoc; reflexivity |].
  assert (forall c, c ∈ n1 -> c ∈ n2 -> False) as Hdisj.
  { intros c H1 H2. apply M2 in H2 as [_ H2]. rewrite C1 in H2.
    rewrite (bool_decide_eq_true_2 _ H1) in H2.
    rewrite andb_false_r in H2. discriminate. }
  split.
  { apply NoDup_app. split; [exact N1 |]. split; [| exact N2].
    intros c H1 H2. exact (Hdisj c H1 H2). }
  split.
  { intros c. unfold targets. rewrite omap_app, !elem_of_app.
    fold (targets st l1). fold (targets st l2).
    rewrite (M1 c), (M2 c), (targets_ext st st1 l2 Es), (C1 c).
    destruct (decide (c ∈ n1)) as [Hin | Hnin].
    - rewrite (bool_decide_eq_true_2 _ Hin), andb_false_r.
      apply M1 in Hin. intuition discriminate.
    - rewrite (bool_decide_eq_false_2 _ Hnin), andb_true_r. tauto. }
  split.
  { intros c. rewrite (C2 c), (C1 c).
    destruct (decide (c ∈ n1)) as [H1 | H1],
             (decide (c ∈ n2)) as [H2 | H2].
    - exfalso. exact (Hdisj c H1 H2).
    - rewrite (bool_decide_eq_true_2 (c ∈ n1 ++ n2))
        by (apply elem_of_app; auto).
      rewrite (bool_decide_eq_true_2 _ H1). rewrite !andb_false_r.
      reflexivity.
    - rewrite (bool_decide_eq_true_2 (c ∈ n1 ++ n2))
        by (apply elem_of_app; auto).
      rewrite (bool_decide_eq_true_2 _ H2). rewrite !andb_false_r.
      reflexivity.
    - rewrite (bool_decide_eq_false_2 (c ∈ n1 ++ n2))
        by (rewrite elem_of_app; tauto).
      rewrite (bool_decide_eq_false_2 _ H1), (bool_decide_eq_false_2 _ H2).
      cbn [negb]. rewrite !andb_true_r. reflexivity. }
  split.
  { intros c x Hx Hd. destruct (D1 c x Hx Hd) as (x1 & Hx1 & Hd1).
    apply (D2 c x1 Hx1 Hd1). }
  split; [| rewrite E2, E1; reflexivity].
  intros c [H1 | H2]%elem_of_app.
  - destruct (K1 c H1) as (x1 & Hx1 & Hd1). apply (D2 c x1 Hx1 Hd1).
  - apply (K2 c H2).
Qed.

Lemma quiet_notify_batched st s st' :
  quiet st s = true ->
  InvalidatorSubscription_invalidate DEBUG s st = Done tt st' ->
  batched [s] st st'.
Proof.
  unfold quiet. destruct (subs st !! s) as [sub |] eqn:Hs; [| discriminate].
  intros Hq. unfold InvalidatorSubscription_invalidate.
  unfold emit, modify. unfold bind at 1.
  set (st0 := set_trace (fun t => t ++ [EvNotify s]) st).
  rewrite (bind_eq_Done _ _ _ sub st0) by (apply readSub_eq; exact Hs).
  assert (targets st [s] = match target st s with
                           | Some c => [c]
                           | None => []
                           end) as Etg.
  { unfold targets. simpl. destruct (target st s); reflexivity. }
  unfold target in Etg. rewrite Hs in Etg.
  destruct (isComponent sub), (s_subscriber sub) as [c | f body];
    try discriminate.
  - (* a component *)
    destruct (components st !! c) as [x |] eqn:Hx; [| discriminate].
    destruct (isDirty x || isDisposed x) eqn:Hd.
    + rewrite (Component_invalidate_noop DEBUG st0 c x Hx Hd).
      intros [= <-]. exists []. rewrite app_nil_r.
      split; [reflexivity |]. split; [apply NoDup_nil_2 |]. split.
      { intros d. rewrite Etg, elem_of_nil, list_elem_of_singleton.
        split; [tauto |]. intros [-> Hc]. unfold clean in Hc.
        rewrite Hx, Hd in Hc. discriminate. }
      split.
      { intros d. rewrite bool_decide_eq_false_2 by apply not_elem_of_nil.
        rewrite andb_true_r. reflexivity. }
      split; [intros d y Hy Hdy; exists y; auto |].
      split; [intros d []%elem_of_nil | reflexivity].
    + simpl in Hq. destruct (c_transientSubscriptions x) eqn:Htr;
        try discriminate.
      pose proof Hd as Hd'. apply orb_false_elim in Hd' as [Hdi Hdp].
      intros Hrun.
      destruct (Component_invalidate_Done DEBUG st0 c x st' Hx Hdi Hdp Hrun)
        as (Hx' & Hq' & He' & _).
      assert (components st' = <[c := comp_with_transientSubscriptions SNull
                                        (comp_with_flags
                                           (js_or (c_flags x) DIRTY) x)]>
                                 (components st)) as Hcs.
      { revert Hrun. unfold Component_invalidate.
        rewrite (bind_eq_Done _ _ _ x st0) by (apply readComp_eq; exact Hx).
        rewrite invalidate_guard. unfold isDirty, isDisposed in Hdi, Hdp.
        rewrite Hdi, Hdp. cbn [negb andb].
        rewrite (bind_eq_Done _ _ _ _ _ (updComp_eq _ _ st0 x Hx)).
        intros ([] & st2 & H2 & H3)%bind_Done.
        eapply cancelTransientSubscriptions_Done in H2 as (Hc2 & _);
          [| simpl; apply lookup_insert_eq].
        injection H3 as <-. simpl in *. rewrite Hc2.
        apply insert_insert_eq. }
      assert (isDirty (comp_with_transientSubscriptions SNull
                         (comp_with_flags (js_or (c_flags x) DIRTY) x))
              = true) as Hnow.
      { unfold isDirty. cbn [c_flags comp_with_flags
                               comp_with_transientSubscriptions].
        rewrite has_flag_set by apply DIRTY_bit.
        rewrite bool_decide_eq_true_2 by reflexivity. apply orb_true_r. }
      exists [c]. split; [exact Hq' |]. split; [apply NoDup_singleton |].
      split.
      { intros d. rewrite Etg, list_elem_of_singleton.
        split; [| tauto]. intros ->. split; [reflexivity |].
        unfold clean. rewrite Hx, Hd. reflexivity. }
      split.
      { intros d. unfold clean. rewrite Hcs.
        destruct (decide (d = c)) as [-> | Hne].
        - rewrite lookup_insert_eq, Hx, Hnow, Hd.
          rewrite bool_decide_eq_true_2
            by (apply list_elem_of_singleton; reflexivity).
          reflexivity.
        - rewrite lookup_insert_ne by congruence.
          rewrite bool_decide_eq_false_2
            by (rewrite list_elem_of_singleton; exact Hne).
          rewrite andb_true_r. reflexivity. }
      split.
      { intros d y Hy Hdy. rewrite Hcs.
        destruct (decide (d = c)) as [-> | Hne].
        - rewrite lookup_insert_eq. eexists. split; [reflexivity |].
          exact Hnow.
        - rewrite lookup_insert_ne by congruence. exists y. auto. }
      split; [| exact He'].
      intros d ->%list_elem_of_singleton. rewrite Hcs, lookup_insert_eq.
      eexists. split; [reflexivity | exact Hnow].
  - (* a plain function that calls nothing *)
    destruct body as [| ? ?]; [| discriminate].
    intros [= <-]. apply batched_none; [exact Etg | | |]; reflexivity.
Qed.

Lemma quiet_loop_batched a l fuel i st :
  arrays st !! a = Some l ->
  (forall s, s ∈ l -> quiet st s = true) ->
  (length l <= i + fuel)%nat ->
  exists st',
    forEachLive (InvalidatorSubscription_invalidate DEBUG) fuel a i st
      = Done tt st' /\
    calm st st' /\
    batched (drop i l) st st'.
Proof.
  revert i st. induction fuel as [| fuel IH]; intros i st Ha Hq Hlen.
  - exists st. simpl.
    rewrite (bind_eq_Done _ _ _ _ _ (readArr_eq _ _ _ Ha)).
    destruct (Nat.ltb_spec i (length l)); [lia |].
    split; [reflexivity |]. split; [repeat split; auto |].
    rewrite drop_ge by lia. apply batched_nil; reflexivity.
  - simpl. rewrite (bind_eq_Done _ _ _ _ _ (readArr_eq _ _ _ Ha)).
    destruct (Nat.ltb_spec i (length l)) as [Hi | Hi].
    + destruct (lookup_lt_is_Some_2 l i Hi) as [s Hs].
      rewrite Hs. simpl.
      unfold bind at 1. unfold ret at 1.
      assert (quiet st s = true) as Hqs
        by (apply Hq; eapply list_elem_of_lookup_2; exact Hs).
      destruct (quiet_notify DEBUG st s Hqs) as (st1 & H1 & Hcalm & _).
      pose proof (quiet_notify_batched st s st1 Hqs H1) as Hb1.
      rewrite (bind_eq_Done _ _ _ tt st1 H1).
      destruct Hcalm as (Hc & Hsu & Hin & Har & Hqq).
      destruct (IH (S i) st1) as (st2 & H2 & Hcalm2 & Hb2).
      { rewrite Har. exact Ha. }
      { intros t Ht. apply Hqq, Hq, Ht. }
      { lia. }
      exists st2. split; [exact H2 |]. split.
      * destruct Hcalm2 as (Hc2 & Hsu2 & Hin2 & Har2 & Hqq2).
        repeat split; try congruence. auto.
      * rewrite (drop_S l s i Hs).
        apply (batched_app [s] (drop (S i) l) st st1 st2 Hsu Hb1 Hb2).
    + exists st. split; [reflexivity |]. split; [repeat split; auto |].
      rewrite drop_ge by lia. apply batched_nil; reflexivity.
Qed.

Lemma quiet_notifyAll_batched sl l st :
  contents st sl = Some l ->
  (forall s, s ∈ l -> quiet st s = true) ->
  exists st',
    notifyAll DEBUG sl st = Done tt st' /\
    calm st st' /\
    batched l st st'.
Proof.
  intros Hc Hq. destruct sl as [| s | a]; simpl in Hc.
  - injection Hc as <-. exists st.
    split; [reflexivity |]. split; [repeat split; auto |].
    apply batched_nil; reflexivity.
  - injection Hc as <-.
    assert (quiet st s = true) as Hqs by (apply Hq; left).
    destruct (quiet_notify DEBUG st s Hqs) as (st1 & H1 & Hcalm & _).
    exists st1. split; [exact H1 |]. split; [exact Hcalm |].
    apply (quiet_notify_batched st s st1 Hqs H1).
  - simpl. rewrite (bind_eq_Done _ _ _ _ _ (readArr_eq _ _ _ Hc)).
    destruct (quiet_loop_batched a l (length l) 0 st Hc Hq ltac:(lia))
      as (st' & H1 & Hcalm & Hb).
    exists st'. rewrite drop_0 in Hb. auto.
Qed.

(** X16: a wave over quiet subscriptions registers for the next frame
    exactly the components it notifies that were neither Dirty nor
    Disposed, each of them once however many of the subscriptions are
    its own, and leaves them Dirty. *)
Theorem wave_batches_components st i x ld lt :
  invalidators st !! i = Some x ->
  i_mtime x < clock st ->
  contents st (i_subscriptions x) = Some ld ->
  contents st (i_transientSubscriptions x) = Some lt ->
  (forall s, s ∈ ld ++ lt -> quiet st s = true) ->
  exists st' news,
    Invalidator_invalidate DEBUG i st = Done tt st' /\
    nextFrameQueue st' = nextFrameQueue st ++ news /\
    NoDup news /\
    (forall c, c ∈ news <-> c ∈ targets st (ld ++ lt) /\ clean st c = true) /\
    (forall c, c ∈ news ->
       exists x', components st' !! c = Some x' /\ isDirty x' = true) /\
    (forall c, clean st' c = clean st c && negb (bool_decide (c ∈ news))) /\
    eachFrameSet st' = eachFrameSet st.
Proof.
  intros Hx Hlt Hd Ht Hq.
  assert (exists st', Invalidator_invalidate DEBUG i st = Done tt st' /\
                      batched (ld ++ lt) st st') as (st' & Hrun & Hb).
  { unfold Invalidator_invalidate.
    unfold bind at 1. unfold get.
    rewrite (bind_eq_Done _ _ _ _ _ (readInv_eq _ _ _ Hx)).
    apply Z.ltb_lt in Hlt. rewrite Hlt.
    rewrite (bind_eq_Done _ _ _ _ _ (updInv_eq _ _ _ _ Hx)).
    set (x1 := inv_with_mtime (clock st) x).
    set (st1 := set_invalidators <[i := x1]> st).
    destruct (quiet_notifyAll_batched (i_subscriptions x) ld st1)
      as (st2 & H2 & (Hc2 & Hs2 & Hi2 & Ha2 & Hq2) & Hb2).
    { destruct (i_subscriptions x); exact Hd. }
    { intros s Hs. rewrite (quiet_ext st st1) by reflexivity.
      apply Hq. apply elem_of_app. left. exact Hs. }
    rewrite (bind_eq_Done _ _ _ tt st2 H2).
    assert (invalidators st2 !! i = Some x1) as Hx2
      by (rewrite Hi2; apply lookup_insert_eq).
    rewrite (bind_eq_Done _ _ _ _ _ (readInv_eq _ _ _ Hx2)).
    change (i_transientSubscriptions x1) with (i_transientSubscriptions x).
    assert (forall s, s ∈ lt -> quiet st2 s = true) as Hqt.
    { intros s Hs. apply Hq2. rewrite (quiet_ext st st1) by reflexivity.
      apply Hq. apply elem_of_app. right. exact Hs. }
    assert (batched ld st st2) as Hb2'
      by (apply (batched_ext_l ld st1 st st2); try reflexivity; exact Hb2).
    set (x3 := inv_with_transientSubscriptions SNull x1).
    set (st3 := set_invalidators <[i := x3]> st2).
    assert (exists st',
              (updInv i (inv_with_transientSubscriptions SNull);;
               notifyAll DEBUG (i_transientSubscriptions x)) st2
              = Done tt st' /\ batched lt st2 st') as (st4 & H4 & Hb4).
    { rewrite (bind_eq_Done _ _ _ _ _ (updInv_eq _ _ _ _ Hx2)).
      fold x3. fold st3.
      destruct (quiet_notifyAll_batched (i_transientSubscriptions x) lt st3)
        as (st4 & H4 & _ & Hb4).
      { destruct (i_transientSubscriptions x) eqn:E; simpl in *;
          try exact Ht. rewrite Ha2. exact Ht. }
      { intros s Hs. rewrite (quiet_ext st2 st3) by reflexivity.
        apply Hqt, Hs. }
      exists st4. split; [exact H4 |].
      apply (batched_ext_l lt st3 st2 st4); try reflexivity. exact Hb4. }
    assert (subs st2 = subs st) as Hs2' by (rewrite Hs2; reflexivity).
    destruct (i_transientSubscriptions x) eqn:Etr.
    - simpl in Ht. injection Ht as <-. exists st2.
      split; [reflexivity |]. rewrite app_nil_r. exact Hb2'.
    - exists st4. split; [exact H4 |].
      apply (batched_app ld lt st st2 st4 Hs2' Hb2' Hb4).
    - exists st4. split; [exact H4 |].
      apply (batched_app ld lt st st2 st4 Hs2' Hb2' Hb4). }
  destruct Hb as (news & H1 & H2 & H3 & H4 & H5 & H6 & H7).
  exists st', news. auto 10.
Qed.
End Batch.

Section Drop.
Variable DEBUG : bool.
Context {CF : ComponentFlags}.

(** X9: [cancelSubscriptions()] and [cancelTransientSubscriptions()] on a
    component whose set mirrors registrations at the invalidators
    return and empty that set of the component.  They write no
    subscription cell, call nothing outside the kernel, keep every
    registration that is not of the set, and do nothing when called
    again. *)
Theorem Component_cancelSubscriptions_drops (transient : bool) st c x l :
  components st !! c = Some x ->
  contents st (set_by transient x) = Some l ->
  unshared st (set_by transient x) ->
  NoDup l ->
  (forall s, s ∈ l -> registered st s) ->
  exists st',
    cancel_set_by DEBUG transient c st = Done tt st' /\
    components st' = <[c := without_set transient x]> (components st) /\
    set_by transient (without_set transient x) = SNull /\
    c_flags (without_set transient x) = c_flags x /\
    set_by (negb transient) (without_set transient x) =
      set_by (negb transient) x /\
    subs st' = subs st /\
    trace st' = trace st /\
    nextFrameQueue st' = nextFrameQueue st /\
    eachFrameSet st' = eachFrameSet st /\
    (forall t, t ∉ l -> registered st t -> registered st' t) /\
    cancel_set_by DEBUG transient c st' = Done tt st'.
Proof.
  intros Hx Hc Hu Hnd Hreg. destruct transient; simpl in *.
  - destruct (cancelTransientSubscriptions_mirrored DEBUG st c x l
                Hx Hc Hu Hnd Hreg) as (st' & Hrun & Hcs & Htr & Hk & _).
    pose proof Hrun as Hrun'.
    eapply cancelTransientSubscriptions_Done in Hrun'
      as (_ & Hq & He & _ & _ & Hs); [| exact Hx].
    exists st'. split; [exact Hrun |]. split; [exact Hcs |].
    repeat (split; [first [reflexivity | assumption] |]).
    apply (cancelTransientSubscriptions_null DEBUG st' c
             (comp_with_transientSubscriptions SNull x));
      [rewrite Hcs; apply lookup_insert_eq | reflexivity].
  - destruct (cancelSubscriptions_mirrored DEBUG st c x l
                Hx Hc Hu Hnd Hreg) as (st' & Hrun & Hcs & Htr & Hk & _).
    pose proof Hrun as Hrun'.
    eapply cancelSubscriptions_Done in Hrun'
      as (_ & Hq & He & _ & _ & Hs); [| exact Hx].
    exists st'. split; [exact Hrun |]. split; [exact Hcs |].
    repeat (split; [first [reflexivity | assumption] |]).
    apply (cancelSubscriptions_null DEBUG st' c
             (comp_with_subscriptions SNull x));
      [rewrite Hcs; apply lookup_insert_eq | reflexivity].
Qed.
End Drop.

(** ** The sample build and the sample heaps *)

#[local] Existing Instance sampleFlags.

#[local] Instance sampleFlags_ok : ComponentFlagsOk sampleFlags.
Proof.
  split; try (split; [simpl; lia | reflexivity]).
  apply (bool_decide_unpack _). vm_compute. exact I.
Qed.

(** C1, as the spec states it, fails on the code: in [selfCancelScenario]
    the function of the first durable subscription cancels that
    subscription; the removal moves the second one into the position the
    running loop has just left, the loop ends, and the second durable
    subscription is never notified. *)
Lemma self_cancel_skips_subscriber :
  exists x,
    invalidators selfCancelScenario !! 0%nat = Some x /\
    contents selfCancelScenario (i_subscriptions x) = Some [0; 1]%nat /\
    contents selfCancelScenario (i_transientSubscriptions x) = Some [] /\
    ~ wave_contract true selfCancelScenario 0%nat x [0; 1]%nat [].
Proof.
  eexists. split; [reflexivity |]. split; [reflexivity |].
  split; [reflexivity |].
  unfold wave_contract. simpl (_ <? _).
  intros (st' & x' & Hrun & _ & _ & _ & Hn & _).
  vm_compute in Hrun. injection Hrun as <-.
  vm_compute in Hn. discriminate.
Qed.

(** C1 at [mixedScenario], and the second call of the same clock value. *)
Lemma Invalidator_invalidate_once_witness :
  let st := mixedScenario in
  let x := mkInv 0 (SArr 1%nat) (SArr 2%nat) in
  let st2 :=
    default st (notifyKeeping true (iterated (SArr 1%nat)) [0; 4]%nat
                  (stamped 0%nat x st)) in
  let x2 := mkInv 1 (SArr 1%nat) (SArr 2%nat) in
  let st3 :=
    default st (notifyKeeping true (taken 0%nat (SArr 2%nat)) [5; 6]%nat
                  (emptied 0%nat x2 st2)) in
  invalidators st !! 0%nat = Some x /\
  i_mtime x < clock st /\
  contents st (i_subscriptions x) = Some [0; 4]%nat /\
  notifyKeeping true (iterated (i_subscriptions x)) [0; 4]%nat
    (stamped 0%nat x st) = Some st2 /\
  invalidators st2 !! 0%nat = Some x2 /\
  contents st2 (i_transientSubscriptions x2) = Some [5; 6]%nat /\
  notifyKeeping true (taken 0%nat (i_transientSubscriptions x2)) [5; 6]%nat
    (emptied 0%nat x2 st2) = Some st3 /\
  NoDup ([0; 4] ++ [5; 6])%nat /\
  (forall n, times (S n) (Invalidator_invalidate true 0%nat) st =
             Invalidator_invalidate true 0%nat st) /\
  Invalidator_invalidate true 0%nat st = Done tt st3 /\
  notified (trace st3) = [0; 4; 5; 6]%nat /\
  invalidators st3 !! 0%nat = Some (mkInv 1 (SArr 1%nat) SNull) /\
  (forall s, s ∈ [0; 4; 5; 6]%nat ->
     exists pre post,
       notified (trace st3) = pre ++ s :: post /\
       (s ∉ pre) /\ (s ∉ post)) /\
  clock st3 <= 1 /\
  Invalidator_invalidate true 0%nat st3 = Done tt st3.
Proof.
  intros st x st2 x2 st3.
  assert (notifyKeeping true (iterated (i_subscriptions x)) [0; 4]%nat
            (stamped 0%nat x st) = Some st2) as Hk2
    by (vm_compute; reflexivity).
  assert (invalidators st2 !! 0%nat = Some x2) as Hx2
    by (vm_compute; reflexivity).
  assert (contents st2 (i_transientSubscriptions x2) = Some [5; 6]%nat)
    as Ht by (vm_compute; reflexivity).
  assert (notifyKeeping true (taken 0%nat (i_transientSubscriptions x2))
            [5; 6]%nat (emptied 0%nat x2 st2) = Some st3) as Hk3
    by (vm_compute; reflexivity).
  assert (NoDup ([0; 4] ++ [5; 6])%nat) as Hnd
    by (apply (bool_decide_unpack _); vm_compute; exact I).
  assert (invalidators st3 !! 0%nat = Some (mkInv 1 (SArr 1%nat) SNull))
    as Hx3 by (vm_compute; reflexivity).
  destruct (Invalidator_invalidate_once true st 0%nat x eq_refl)
    as (_ & Hn & Hwave).
  destruct (Hwave eq_refl) as [_ Hw].
  destruct (Hw [0; 4]%nat st2 x2 [5; 6]%nat st3 eq_refl Hk2 Hx2 Ht Hk3)
    as (Hrun & Hnot & _ & Honce).
  destruct (Invalidator_invalidate_once true st3 0%nat
              (mkInv 1 (SArr 1%nat) SNull) Hx3) as (Hnoop & _ & _).
  assert (clock st3 <= 1) as Hc by (vm_compute; discriminate).
  split; [reflexivity |]. split; [reflexivity |]. split; [reflexivity |].
  split; [exact Hk2 |]. split; [exact Hx2 |]. split; [exact Ht |].
  split; [exact Hk3 |]. split; [exact Hnd |]. split; [exact Hn |].
  split; [exact Hrun |]. split; [exact Hnot |]. split; [exact Hx3 |].
  split; [exact (Honce Hnd) |]. split; [exact Hc |].
  exact (Hnoop Hc).
Defined.

(** C2: the code throws where the claim promises a completed notification.
    In [transientScenario] component 0 is neither Dirty nor Disposed and is
    transiently subscribed to invalidator 0.  [invalidate()] takes the
    transient set and sets the field to [null] before it notifies; the
    component then cancels its transient subscriptions, and
    [removeSubscription] reads [.constructor] of that [null] field.  The
    TypeError leaves the component Dirty, still holding the subscription,
    and never registered for the next frame. *)
Theorem transient_wave_throws :
  (exists x,
     components transientScenario !! 0%nat = Some x /\
     isDirty x = false /\ isDisposed x = false /\
     c_transientSubscriptions x = SOne 0%nat) /\
  (exists sub,
     subs transientScenario !! 0%nat = Some sub /\
     s_subscriber sub = Comp 0%nat /\ s_invalidator sub = 0%nat /\
     isTransient sub = true) /\
  invalidators transientScenario !! 0%nat = Some (mkInv 0 SNull (SOne 0%nat)) /\
  clock transientScenario = 1 /\
  forall DEBUG, exists st' x',
    Invalidator_invalidate DEBUG 0%nat transientScenario
      = Thrown TypeError st' /\
    nextFrameQueue st' = [] /\
    components st' !! 0%nat = Some x' /\
    isDirty x' = true /\
    c_transientSubscriptions x' = SOne 0%nat.
Proof.
  split; [eexists; repeat split; reflexivity |].
  split; [eexists; repeat split; reflexivity |].
  split; [reflexivity |]. split; [reflexivity |].
  intros [|]; eexists _, _; (split; [vm_compute; reflexivity |]);
    repeat split; reflexivity.
Qed.

(** C3, as the spec states it, fails on the code: in [crossCancelScenario]
    the function of the second durable subscription cancels the first one;
    the removal moves the third subscription into position 0, which the
    loop has passed, and the third subscription, held at the start and
    never canceled, is not notified. *)
Lemma cross_cancel_skips_subscriber :
  ~ wave_delivers true crossCancelScenario 0%nat.
Proof.
  intros H.
  specialize (H (mkInv 0 (SArr 0%nat) SNull) [0; 1; 2]%nat
                (final (Invalidator_invalidate true 0%nat crossCancelScenario))
                2%nat (mkSub 0 0%nat (Fn 3%nat []) false)
                eq_refl eq_refl eq_refl).
  assert (2%nat ∈ [0; 1; 2]%nat) as Hin
    by (rewrite !elem_of_cons; auto).
  specialize (H ltac:(vm_compute; reflexivity) Hin
                ltac:(vm_compute; reflexivity) eq_refl).
  match type of H with
  | _ ∈ ?l =>
      assert (l = [0; 1]%nat) as E by (vm_compute; reflexivity);
      rewrite E in H
  end.
  rewrite !elem_of_cons, elem_of_nil in H.
  destruct H as [H | [H | []]]; discriminate.
Qed.

(** C3 at [transientCancelScenario]. *)
Lemma subscription_set_refines_witness :
  let st := transientCancelScenario in
  let x := mkInv 0 (SArr 0%nat) (SArr 1%nat) in
  let st2 :=
    default st (notifyKeeping true (iterated (SArr 0%nat)) [0; 1]%nat
                  (stamped 0%nat x st)) in
  let ops := [SAdd 4%nat; SAdd 5%nat; SRemove 0%nat; SRemove 1%nat] in
  invalidators st !! 0%nat = Some x /\
  contents st (i_subscriptions x) = Some [0; 1]%nat /\
  i_mtime x < clock st /\
  notifyKeeping true (iterated (i_subscriptions x)) [0; 1]%nat
    (stamped 0%nat x st) = Some st2 /\
  (exists more,
     notified (trace (final (Invalidator_invalidate true 0%nat st)))
     = [0; 1]%nat ++ more) /\
  clean_ops [0; 1]%nat ops = true /\
  exists st' st3,
    run_set_ops true 0%nat ops st = Done tt st' /\
    invalidators st' !! 0%nat = Some x /\
    contents st' (i_subscriptions x) = Some [5; 4]%nat /\
    (forall s, s ∈ [5; 4]%nat <->
               s ∈ ({[0%nat; 1%nat; 4%nat; 5%nat]} ∖ {[0%nat]} ∖ {[1%nat]}
                    : gset sub_id)) /\
    Invalidator_invalidate true 0%nat st' = Done tt st3 /\
    notified (trace st3) = [5; 4; 2; 3]%nat.
Proof.
  intros st x st2 ops.
  assert (notifyKeeping true (iterated (i_subscriptions x)) [0; 1]%nat
            (stamped 0%nat x st) = Some st2) as Hk
    by (vm_compute; reflexivity).
  destruct (subscription_set_refines true st 0%nat x [0; 1]%nat
              eq_refl eq_refl) as [Hwave Hops].
  destruct (Hops ops) as (st' & x' & Hrun & Hx' & Hc & _ & Hset & Hafter).
  { apply (bool_decide_unpack _). vm_compute. exact I. }
  { intros o Ho. subst ops.
    rewrite !elem_of_cons, elem_of_nil in Ho.
    destruct Ho as [-> | [-> | [-> | [-> | []]]]];
      eexists; split; reflexivity. }
  { reflexivity. }
  assert (st' = final (run_set_ops true 0%nat ops st)) as Est
    by (rewrite Hrun; reflexivity).
  assert (x' = x) as Ex.
  { rewrite Est in Hx'. vm_compute in Hx'. injection Hx' as <-.
    reflexivity. }
  subst x'.
  set (st2' := default st (notifyKeeping true (iterated (SArr 0%nat))
                             [5; 4]%nat (stamped 0%nat x st'))).
  set (x2 := mkInv 1 (SArr 0%nat) (SArr 1%nat)).
  set (st3 := default st (notifyKeeping true (taken 0%nat (SArr 1%nat))
                            [2; 3]%nat (emptied 0%nat x2 st2'))).
  destruct (Hafter st2' x2 [2; 3]%nat st3) as [Hrun3 Hn3].
  { rewrite Est. vm_compute. reflexivity. }
  { subst st2'. rewrite Est. vm_compute. reflexivity. }
  { subst st2'. rewrite Est. vm_compute. reflexivity. }
  { subst st2'. rewrite Est. vm_compute. reflexivity. }
  { subst st3 st2'. rewrite Est. vm_compute. reflexivity. }
  split; [reflexivity |]. split; [reflexivity |]. split; [reflexivity |].
  split; [exact Hk |]. split; [exact (Hwave st2 eq_refl Hk) |].
  split; [reflexivity |].
  exists st', st3. split; [exact Hrun |]. split; [exact Hx' |].
  split; [exact Hc |]. split; [| split; [exact Hrun3 |]].
  - intros s.
    assert (s ∈ foldl set_step (list_to_set [0; 1]%nat) ops <->
            s ∈ ({[0%nat; 1%nat; 4%nat; 5%nat]} ∖ {[0%nat]} ∖ {[1%nat]}
                 : gset sub_id)) as Hmodel.
    { subst ops. cbn [foldl set_step]. rewrite list_to_set_cons.
      rewrite list_to_set_cons, list_to_set_nil.
      repeat first [rewrite elem_of_difference | rewrite elem_of_union
                   | rewrite elem_of_singleton | rewrite elem_of_empty].
      intuition congruence. }
    rewrite <- Hmodel. exact (Hset s).
  - rewrite Hn3. rewrite Est. vm_compute. reflexivity.
Defined.

(** C4 on the clean component of [transientScenario]. *)
Lemma Component_invalidate_collapses_witness :
  let x := mkComp 2 0 withUpdate None 0 None SNull (SOne 0%nat) in
  components transientScenario !! 0%nat = Some x /\
  isDirty x = false /\ isDisposed x = false /\
  (Component_invalidate true 0%nat;; Component_invalidate true 0%nat)
    transientScenario = Component_invalidate true 0%nat transientScenario /\
  exists st1,
    Component_invalidate true 0%nat transientScenario = Done tt st1 /\
    nextFrameQueue st1 = [0%nat] /\
    Component_invalidate true 0%nat st1 = Done tt st1.
Proof.
  intros x.
  destruct (Component_invalidate_collapses true transientScenario 0%nat x
              eq_refl) as (_ & Htwice & Hclean).
  split; [reflexivity |]. split; [reflexivity |]. split; [reflexivity |].
  split; [exact Htwice |].
  exists (final (Component_invalidate true 0%nat transientScenario)).
  assert (Component_invalidate true 0%nat transientScenario =
          Done tt (final (Component_invalidate true 0%nat transientScenario)))
    as Hrun by (vm_compute; reflexivity).
  split; [exact Hrun |].
  exact (Hclean _ eq_refl eq_refl Hrun).
Defined.

(** C5, as the spec states it, fails on the code: the component of
    [nullHookScenario] satisfies the readiness mask and its descriptor has
    no [update] hook; [update()] throws at the call of the hook, [mtime] is
    not stamped and Dirty stays set. *)
Lemma update_null_hook_breaks_contract :
  ~ update_contract nullHookScenario 0%nat.
Proof.
  intros H.
  set (x := mkComp 10 0 (CDescriptor_new None) None 0 None SNull SNull).
  specialize (H x eq_refl).
  replace (ready x) with true in H by reflexivity.
  destruct H as (st' & Hrun & _). vm_compute in Hrun. discriminate.
Qed.

(** C5 on the component of [createdScenario]. *)
Lemma Component_update_gated_witness :
  (forall x, components createdScenario !! 0%nat = Some x ->
             d_update (c_descriptor x) <> None) /\
  update_contract createdScenario 0%nat.
Proof.
  assert (forall x, components createdScenario !! 0%nat = Some x ->
                    d_update (c_descriptor x) <> None) as Hhook.
  { intros x Hx. vm_compute in Hx. injection Hx as <-. discriminate. }
  split; [exact Hhook |].
  apply (Component_update_gated createdScenario 0%nat Hhook).
Defined.

Lemma subscribedScenario_mirrored :
  mirrored subscribedScenario
    (mkComp 10 0 withHooks None 0 (Some 5%nat) (SArr 1%nat) (SOne 2%nat)).
Proof.
  exists [0; 1]%nat, [2%nat].
  split; [reflexivity |]. split; [reflexivity |]. split.
  { apply (bool_decide_unpack _). vm_compute. exact I. }
  split.
  { intros s Hs. simpl in Hs. rewrite !elem_of_cons, elem_of_nil in Hs.
    destruct Hs as [-> | [-> | [-> | []]]].
    - exists (mkSub 1 0%nat (Comp 0%nat) false),
        (mkInv 0 (SArr 0%nat) (SOne 2%nat)), [0; 1]%nat.
      repeat split; try reflexivity. rewrite !elem_of_cons. auto.
    - exists (mkSub 1 0%nat (Comp 0%nat) false),
        (mkInv 0 (SArr 0%nat) (SOne 2%nat)), [0; 1]%nat.
      repeat split; try reflexivity. rewrite !elem_of_cons. auto.
    - exists (mkSub 3 0%nat (Comp 0%nat) false),
        (mkInv 0 (SArr 0%nat) (SOne 2%nat)), [2%nat].
      repeat split; try reflexivity. rewrite !elem_of_cons. auto. }
  split; [| exact I].
  change (map_Forall
            (fun _ x => i_subscriptions x <> SArr 1%nat /\
                        i_transientSubscriptions x <> SArr 1%nat)
            (invalidators subscribedScenario)).
  apply (bool_decide_unpack _). vm_compute. exact I.
Qed.

(** The component of [subscribedScenario]. *)
Lemma Component_dispose_mirrored_sample :
  let x := mkComp 10 0 withHooks None 0 (Some 5%nat) (SArr 1%nat)
                  (SOne 2%nat) in
  components subscribedScenario !! 0%nat = Some x /\
  isDisposed x = false /\
  mirrored subscribedScenario x /\
  exists st' x',
    Component_dispose true 0%nat subscribedScenario = Done tt st' /\
    components st' !! 0%nat = Some x' /\
    isDisposed x' = true /\
    c_subscriptions x' = SNull /\
    c_transientSubscriptions x' = SNull /\
    trace st' =
      trace subscribedScenario ++ [EvRootDispose 5%nat; EvHook 2%nat 0%nat] /\
    Component_dispose true 0%nat st' = Thrown (ThrowStr E_DISPOSE_TWICE) st'.
Proof.
  intros x.
  destruct (Component_dispose_mirrored true subscribedScenario 0%nat x eq_refl)
    as [_ Hfirst].
  destruct (Hfirst eq_refl subscribedScenario_mirrored)
    as (st' & x' & Hrun & Hx' & Hd & _ & _ & Hs & Ht & Htr & Htwice).
  split; [reflexivity |]. split; [reflexivity |].
  split; [exact subscribedScenario_mirrored |].
  exists st', x'. repeat split; assumption.
Defined.

(** C6: [dispose()] leaves a subscription of the component behind, and it
    can throw half-way.  In [sharedScenario] components 0 and 1 each hold
    a durable subscription on invalidator 0, whose array holds them in
    that order.  [dispose()] on component 1 returns with Disposed set and
    both fields of the component [null], but the removal at the
    invalidator is of the last element of the array and is undone by
    [subscriptions[i] = subscriptions.pop()]: the invalidator still holds
    subscription 1 and notifies it in its next wave.  [dispose()] on
    component 0, whose subscription is not the last element, does remove
    it from the invalidator.  In [heldScenario]
    component 0 is Dirty and holds a transient subscription on
    invalidator 0.  A wave of the invalidator returns: it takes the
    subscription from the invalidator's set, and the Dirty component
    ignores the notification and keeps the subscription in its own.
    [dispose()] then sets Disposed and throws at the removal of that
    subscription from the invalidator, before the [disposed] hook. *)
Theorem dispose_leaves_subscription :
  (exists x,
     components sharedScenario !! 1%nat = Some x /\
     isDisposed x = false /\
     c_subscriptions x = SOne 1%nat /\
     c_transientSubscriptions x = SNull /\
     d_disposed (c_descriptor x) = Some 2%nat) /\
  invalidators sharedScenario !! 0%nat = Some (mkInv 0 (SArr 0%nat) SNull) /\
  contents sharedScenario (SArr 0%nat) = Some [0; 1]%nat /\
  (forall DEBUG, exists st' x',
     Component_dispose DEBUG 1%nat sharedScenario = Done tt st' /\
     components st' !! 1%nat = Some x' /\
     isDisposed x' = true /\
     c_subscriptions x' = SNull /\
     c_transientSubscriptions x' = SNull /\
     trace st' = trace sharedScenario ++ [EvHook 2%nat 1%nat] /\
     invalidators st' !! 0%nat = Some (mkInv 0 (SArr 0%nat) SNull) /\
     contents st' (SArr 0%nat) = Some [0; 1]%nat /\
     notified
       (trace (final (Invalidator_invalidate DEBUG 0%nat (set_clock 1 st'))))
       = [0; 1]%nat) /\
  (forall DEBUG, exists st',
     Component_dispose DEBUG 0%nat sharedScenario = Done tt st' /\
     invalidators st' !! 0%nat = Some (mkInv 0 (SArr 0%nat) SNull) /\
     contents st' (SArr 0%nat) = Some [1%nat]) /\
  (exists x,
     components heldScenario !! 0%nat = Some x /\
     isDisposed x = false /\ isDirty x = true /\
     c_subscriptions x = SNull /\
     c_transientSubscriptions x = SOne 0%nat /\
     d_disposed (c_descriptor x) = Some 2%nat) /\
  invalidators heldScenario !! 0%nat = Some (mkInv 0 SNull (SOne 0%nat)) /\
  (forall DEBUG, exists st1 st2 x1 x2,
     Invalidator_invalidate DEBUG 0%nat heldScenario = Done tt st1 /\
     invalidators st1 !! 0%nat = Some (mkInv 1 SNull SNull) /\
     components st1 !! 0%nat = Some x1 /\
     isDisposed x1 = false /\
     c_transientSubscriptions x1 = SOne 0%nat /\
     Component_dispose DEBUG 0%nat st1 = Thrown TypeError st2 /\
     components st2 !! 0%nat = Some x2 /\
     isDisposed x2 = true /\
     c_transientSubscriptions x2 = SOne 0%nat /\
     trace st2 = trace st1).
Proof.
  split; [eexists; repeat split; reflexivity |].
  split; [reflexivity |]. split; [reflexivity |]. split.
  { intros [|]; eexists _, _; (split; [vm_compute; reflexivity |]);
      repeat split; reflexivity. }
  split.
  { intros [|]; eexists; (split; [vm_compute; reflexivity |]);
      split; reflexivity. }
  split; [eexists; repeat split; reflexivity |].
  split; [reflexivity |].
  intros [|]; eexists _, _, _, _; (split; [vm_compute; reflexivity |]);
    (split; [reflexivity |]); (split; [reflexivity |]);
    (split; [reflexivity |]); (split; [reflexivity |]);
    (split; [vm_compute; reflexivity |]); repeat split; reflexivity.
Qed.

(** C7 along a run from [transientScenario]. *)
Lemma Invalidator_mtime_monotone_witness :
  let steps := [Tick 5; Call (CInvalidate 0%nat); Tick 2;
                Call (CInvalidate 0%nat); Call (CDispose 0%nat)] in
  invalidators transientScenario !! 0%nat = Some (mkInv 0 SNull (SOne 0%nat)) /\
  exists x',
    invalidators (@run true sampleFlags steps transientScenario) !! 0%nat = Some x' /\
    0 <= i_mtime x'.
Proof.
  intros steps. split; [reflexivity |].
  destruct (Invalidator_mtime_monotone true transientScenario) as [_ Hmono].
  apply (Hmono steps 0%nat (mkInv 0 SNull (SOne 0%nat)) eq_refl).
Defined.

(** C8: the code keeps a subscription that [cancel()] should remove.  In
    [pairScenario] the durable set of invalidator 0 is the array of
    subscriptions 0 and 1.  Cancelling subscription 1 runs
    [subscriptions[i] = subscriptions.pop()] with [i] the last index: the
    pop shortens the array and the store puts the popped subscription back
    at the end.  [cancel()] returns, the set still holds subscription 1,
    and the next wave notifies it. *)
Theorem cancel_last_keeps_subscription :
  invalidators pairScenario !! 0%nat = Some (mkInv 0 (SArr 0%nat) SNull) /\
  contents pairScenario (SArr 0%nat) = Some [0; 1]%nat /\
  forall DEBUG, exists st',
    InvalidatorSubscription_cancel DEBUG 1%nat pairScenario = Done tt st' /\
    invalidators st' !! 0%nat = Some (mkInv 0 (SArr 0%nat) SNull) /\
    contents st' (SArr 0%nat) = Some [0; 1]%nat /\
    notified (trace (final (Invalidator_invalidate DEBUG 0%nat st')))
      = [0; 1]%nat.
Proof.
  split; [reflexivity |]. split; [reflexivity |].
  intros [|]; eexists; (split; [vm_compute; reflexivity |]);
    repeat split; reflexivity.
Qed.

(** C9 on the component of [nullHookScenario]. *)
Lemma Component_update_null_hook_witness :
  let x := mkComp 10 0 (CDescriptor_new None) None 0 None SNull SNull in
  components nullHookScenario !! 0%nat = Some x /\
  ready x = true /\
  d_update (c_descriptor x) = None /\
  Component_update 0%nat nullHookScenario = Thrown TypeError nullHookScenario.
Proof.
  intros x. split; [reflexivity |]. split; [reflexivity |].
  split; [reflexivity |].
  apply (Component_update_null_hook nullHookScenario 0%nat x);
    reflexivity.
Defined.

(** C10 on the component of [eachFrameScenario]. *)
Lemma stopUpdateEachFrame_keeps_queue_flag_witness :
  let x := mkComp 58 0 withUpdate None 0 None SNull SNull in
  components eachFrameScenario !! 0%nat = Some x /\
  has_flag (c_flags x) IN_UPDATE_QUEUE = true /\
  exists st1 st2 x1 x2,
    Component_stopUpdateEachFrame 0%nat eachFrameScenario = Done tt st1 /\
    components st1 !! 0%nat = Some x1 /\
    has_flag (c_flags x1) UPDATE_EACH_FRAME = false /\
    has_flag (c_flags x1) IN_UPDATE_QUEUE = true /\
    Component_startUpdateEachFrame 0%nat st1 = Done tt st2 /\
    components st2 !! 0%nat = Some x2 /\
    has_flag (c_flags x2) UPDATE_EACH_FRAME = true /\
    eachFrameSet st2 = eachFrameSet eachFrameScenario.
Proof.
  intros x.
  destruct (stopUpdateEachFrame_keeps_queue_flag eachFrameScenario 0%nat x
              eq_refl) as (Hstop & Hu & _ & Hq & Hstart).
  destruct (Hstart eq_refl) as (x2 & Hrun & _ & Hu2 & _ & He).
  split; [reflexivity |]. split; [reflexivity |].
  eexists _, _, _, x2. split; [exact Hstop |].
  split; [apply lookup_insert_eq |]. split; [exact Hu |].
  split; [rewrite Hq; reflexivity |]. split; [exact Hrun |].
  split; [apply lookup_insert_eq |]. split; [exact Hu2 | exact He].
Defined.

(** The bound of the loops is never reached, in any call on any heap. *)
Theorem calls_never_out_of_fuel DEBUG `{ComponentFlags} k :
  fuelled (call_body DEBUG k).
Proof.
  assert (forall A (m : M A), fuelled m -> fuelled (void m)) as Hvoid.
  { intros A m Hm. unfold void. fuel. }
  destruct k; cbn [call_body].
  - apply Hvoid, fuelled_Invalidator_new.
  - apply Hvoid, fuelled_hasSubscriptions.
  - apply fuelled_addSubscription.
  - apply fuelled_removeSubscription.
  - apply fuelled_Invalidator_invalidate.
  - apply Hvoid, fuelled_Subscription_new.
  - apply fuelled_cancel.
  - apply fuelled_Subscription_invalidate.
  - apply Hvoid, fuelled_create.
  - apply Hvoid, fuelled_mount.
  - apply fuelled_update.
  - apply fuelled_Component_invalidate.
  - apply fuelled_start.
  - apply fuelled_stop.
  - apply fuelled_dispose.
  - apply fuelled_subscribe.
  - apply fuelled_transientSubscribe.
  - apply fuelled_Component_removeSubscription.
  - apply fuelled_cancelSubscriptions.
  - apply fuelled_cancelTransientSubscriptions.
Qed.

(** ** The further properties on the sample heaps *)

(** X17 on a sample heap. *)
Lemma invalidate_retry_is_noop_witness :
  let ops := [OCall (CComponentInvalidate 0%nat); OSyncVRoot 0%nat 4%nat] in
  let st1 := final (Invalidator_invalidate true 0%nat transientScenario) in
  let st2 := run_ops true ops st1 in
  invalidators transientScenario !! 0%nat = Some (mkInv 0 SNull (SOne 0%nat)) /\
  clock st2 <= clock transientScenario /\
  Invalidator_invalidate true 0%nat st2 = Done tt st2.
Proof.
  intros ops st1 st2.
  assert (clock st2 <= clock transientScenario) as Hc
    by (vm_compute; discriminate).
  split; [reflexivity |]. split; [exact Hc |].
  apply (invalidate_retry_is_noop true transientScenario 0%nat
           (mkInv 0 SNull (SOne 0%nat)) ops eq_refl Hc).
Defined.

(** X18 on a sample heap. *)
Lemma new_invalidator_waits_for_tick_witness :
  let ops := [OCall (CSubscriptionNew 0 0%nat (Fn 1%nat []));
              OCall (CAddSubscription 0%nat 0%nat)] in
  let st1 := set_invalidators <[0%nat := mkInv 7 SNull SNull]> (emptyState 7) in
  let st2 := run_ops true ops st1 in
  Invalidator_new (emptyState 7) = Done 0%nat st1 /\
  clock st2 <= clock (emptyState 7) /\
  contents st2 (SOne 0%nat) = Some [0%nat] /\
  Invalidator_invalidate true 0%nat st2 = Done tt st2.
Proof.
  intros ops st1 st2.
  assert (Invalidator_new (emptyState 7) = Done 0%nat st1) as Hnew
    by (vm_compute; reflexivity).
  assert (clock st2 <= clock (emptyState 7)) as Hc
    by (vm_compute; discriminate).
  split; [exact Hnew |]. split; [exact Hc |]. split; [reflexivity |].
  apply (new_invalidator_waits_for_tick true (emptyState 7) 0%nat st1 ops
           Hnew Hc).
Defined.

Lemma emptyState_no_empty_array now : no_empty_array (emptyState now).
Proof. intros a l H. simpl in H. rewrite lookup_empty in H. discriminate. Qed.

(** X23 on a sample heap. *)
Lemma no_array_is_emptied_witness :
  let ops := [OCall CInvalidatorNew;
              OCall (CSubscriptionNew 0 0%nat (Fn 1%nat []));
              OCall (CSubscriptionNew 0 0%nat (Fn 2%nat []));
              OCall (CAddSubscription 0%nat 0%nat);
              OCall (CAddSubscription 0%nat 1%nat);
              OCall (CRemoveSubscription 0%nat 0%nat)] in
  no_empty_array (emptyState 0) /\
  arrays (run_ops true ops (emptyState 0)) !! 0%nat = Some [1%nat] /\
  no_empty_array (run_ops true ops (emptyState 0)).
Proof.
  intros ops. split; [apply emptyState_no_empty_array |].
  split; [reflexivity |].
  apply (no_array_is_emptied true ops (emptyState 0)
           (emptyState_no_empty_array 0)).
Defined.

(** X8 on a sample heap. *)
Lemma cancel_twice_throws_witness :
  let st1 := final (InvalidatorSubscription_cancel true 0%nat pairScenario) in
  let st2 := run_ops true [OTick 9; OCall (CInvalidate 0%nat)] st1 in
  InvalidatorSubscription_cancel true 0%nat pairScenario = Done tt st1 /\
  InvalidatorSubscription_cancel true 0%nat st2 =
    Thrown (ThrowStr E_CANCEL_TWICE) st2.
Proof.
  intros st1 st2.
  assert (InvalidatorSubscription_cancel true 0%nat pairScenario = Done tt st1)
    as H by (vm_compute; reflexivity).
  split; [exact H |].
  pose proof (cancel_twice_throws pairScenario 0%nat st1
                [OTick 9; OCall (CInvalidate 0%nat)] H) as K.
  cbv zeta in K. fold st2 in K. exact K.
Defined.

(** X21 on a sample heap. *)
Lemma disposed_is_final_witness :
  let st := final (Component_dispose true 0%nat subscribedScenario) in
  let x := mkComp 9 0 withHooks None 0 (Some 5%nat) SNull SNull in
  let ops := [OCall (CUpdate 0%nat); OCall (CSubscribe 0%nat 0%nat);
              OTick 3; OCall (CInvalidate 0%nat)] in
  components st !! 0%nat = Some x /\
  isDisposed x = true /\
  exists x',
    components (run_ops true ops st) !! 0%nat = Some x' /\
    isDisposed x' = true /\
    Component_invalidate true 0%nat (run_ops true ops st) =
      Done tt (run_ops true ops st).
Proof.
  intros st x ops.
  assert (components st !! 0%nat = Some x) as Hx by reflexivity.
  assert (isDisposed x = true) as Hd by reflexivity.
  destruct (disposed_is_final true ops st 0%nat x Hx Hd)
    as (x' & Hx' & Hd' & _ & Hinv & _).
  split; [reflexivity |]. split; [reflexivity |].
  exists x'. auto.
Defined.

Lemma emptyState_each_frame_ok now : each_frame_ok (emptyState now).
Proof.
  split; [apply NoDup_nil_2 |]. intros c Hc. simpl in Hc.
  apply elem_of_nil in Hc. contradiction.
Qed.

(** X14 on a sample heap. *)
Lemma each_frame_set_has_no_duplicates_witness :
  let ops := [OCall (CCreate withUpdate None);
              OCall (CStartUpdateEachFrame 0%nat);
              OCall (CStopUpdateEachFrame 0%nat);
              OCall (CStartUpdateEachFrame 0%nat);
              OCall (CDispose 0%nat);
              OCall (CStartUpdateEachFrame 0%nat)] in
  each_frame_ok (emptyState 0) /\
  eachFrameSet (run_ops true ops (emptyState 0)) = [0%nat] /\
  NoDup (eachFrameSet (run_ops true ops (emptyState 0))).
Proof.
  intros ops. split; [apply emptyState_each_frame_ok |].
  split; [reflexivity |].
  apply (each_frame_set_has_no_duplicates true ops (emptyState 0)
           (emptyState_each_frame_ok 0)).
Defined.

(** X1 on a sample heap. *)
Lemma Invalidator_hasSubscriptions_reads_witness :
  let x := mkInv 0 (SArr 0%nat) (SOne 2%nat) in
  invalidators quietScenario !! 0%nat = Some x /\
  contents quietScenario (i_subscriptions x) = Some [0; 1]%nat /\
  contents quietScenario (i_transientSubscriptions x) = Some [2%nat] /\
  Invalidator_hasSubscriptions 0%nat quietScenario = Done true quietScenario.
Proof.
  intros x. split; [reflexivity |]. split; [reflexivity |].
  split; [reflexivity |].
  destruct (Invalidator_hasSubscriptions_reads quietScenario 0%nat x
              [0; 1]%nat [2%nat] eq_refl eq_refl eq_refl) as [H _].
  exact H.
Defined.

(** X2 on a sample heap. *)
Lemma Invalidator_addSubscription_appends_witness :
  let sub := mkSub 0 0%nat (Fn 1%nat []) false in
  let x := mkInv 0 SNull SNull in
  subs freshSetScenario !! 0%nat = Some sub /\
  invalidators freshSetScenario !! 0%nat = Some x /\
  contents freshSetScenario (slot_of sub x) = Some [] /\
  exists st' x',
    Invalidator_addSubscription 0%nat 0%nat freshSetScenario = Done tt st' /\
    contents st' (slot_of sub x') = Some [0%nat].
Proof.
  intros sub x.
  destruct (Invalidator_addSubscription_appends freshSetScenario 0%nat 0%nat
              sub x [] eq_refl eq_refl eq_refl)
    as (st' & x' & Hrun & _ & Hc & _).
  split; [reflexivity |]. split; [reflexivity |]. split; [reflexivity |].
  exists st', x'. auto.
Defined.

(** X3 on a sample heap. *)
Lemma Invalidator_removeSubscription_absent_witness :
  let st := @run true sampleFlags [Call (CAddSubscription 0%nat 0%nat)]
              freshSetScenario in
  let sub := mkSub 0 0%nat (Fn 2%nat []) false in
  let x := mkInv 0 (SOne 0%nat) SNull in
  subs st !! 1%nat = Some sub /\
  invalidators st !! 0%nat = Some x /\
  contents st (slot_of sub x) = Some [0%nat] /\
  (1%nat ∉ [0%nat]) /\
  slot_of sub x <> SNull /\
  Invalidator_removeSubscription true 0%nat 1%nat st =
    Thrown (ThrowStr E_INVALIDATOR_REMOVE) st /\
  exists st' x',
    Invalidator_removeSubscription false 0%nat 1%nat st = Done tt st' /\
    contents st' (slot_of sub x') = Some [].
Proof.
  intros st sub x.
  assert (1%nat ∉ [0%nat]) as Hnot
    by (rewrite list_elem_of_singleton; discriminate).
  assert (slot_of sub x <> SNull) as Hn by discriminate.
  destruct (Invalidator_removeSubscription_absent st 0%nat 1%nat sub x
              [0%nat] eq_refl eq_refl eq_refl Hnot) as [_ H].
  destruct (H Hn) as (Hd & st' & x' & Hr & _ & Hc & _).
  split; [reflexivity |]. split; [reflexivity |]. split; [reflexivity |].
  split; [exact Hnot |]. split; [exact Hn |]. split; [exact Hd |].
  exists st', x'. auto.
Defined.

(** X4 on a sample heap. *)
Lemma removeSubscription_keeps_last_witness :
  let sub := mkSub 0 0%nat (Fn 2%nat []) false in
  let x := mkInv 0 (SArr 0%nat) SNull in
  subs pairScenario !! 1%nat = Some sub /\
  arrays pairScenario !! 0%nat = Some [0; 1]%nat /\
  indexOf 1%nat [0; 1]%nat = Some 1%nat /\
  invalidators pairScenario !! 0%nat = Some x /\
  slot_of sub x = SArr 0%nat /\
  Invalidator_removeSubscription true 0%nat 1%nat pairScenario =
    Done tt pairScenario.
Proof.
  intros sub x.
  destruct (removeSubscription_keeps_last true pairScenario 1%nat sub 0%nat
              [0; 1]%nat 1%nat eq_refl eq_refl eq_refl eq_refl
              ltac:(simpl; lia)) as [Hi _].
  split; [reflexivity |]. split; [reflexivity |]. split; [reflexivity |].
  split; [reflexivity |]. split; [reflexivity |].
  apply (Hi 0%nat x eq_refl eq_refl).
Defined.

(** X5 on a sample heap. *)
Lemma Component_removeSubscription_absent_witness :
  let st := @run true sampleFlags
              [Call (CSubscriptionNew 1 0%nat (Comp 0%nat))]
              subscribedScenario in
  let sub := mkSub 1 0%nat (Comp 0%nat) false in
  let x := mkComp 10 0 withHooks None 0 (Some 5%nat) (SArr 1%nat)
                  (SOne 2%nat) in
  subs st !! 3%nat = Some sub /\
  components st !! 0%nat = Some x /\
  contents st (cslot_of sub x) = Some [0; 1]%nat /\
  (3%nat ∉ [0; 1]%nat) /\
  cslot_of sub x <> SNull /\
  Component_removeSubscription true 0%nat 3%nat st =
    Thrown (ThrowStr E_COMPONENT_REMOVE) st /\
  exists st' x',
    Component_removeSubscription false 0%nat 3%nat st = Done tt st' /\
    contents st' (cslot_of sub x') = Some [0%nat].
Proof.
  intros st sub x.
  assert (3%nat ∉ [0; 1]%nat) as Hnot.
  { rewrite !elem_of_cons, elem_of_nil. intros [H | [H | []]]; discriminate. }
  assert (cslot_of sub x <> SNull) as Hn by discriminate.
  destruct (Component_removeSubscription_absent st 0%nat 3%nat sub x
              [0; 1]%nat eq_refl eq_refl eq_refl Hnot) as [_ H].
  destruct (H Hn) as (Hd & st' & x' & Hr & _ & Hc & _).
  split; [reflexivity |]. split; [reflexivity |]. split; [reflexivity |].
  split; [exact Hnot |]. split; [exact Hn |]. split; [exact Hd |].
  exists st', x'. auto.
Defined.

(** X6 on a sample heap. *)
Lemma Component_subscribe_registers_witness :
  let st := @run true sampleFlags [Call CInvalidatorNew] createdScenario in
  let xc := mkComp 10 0 withUpdate None 0 None SNull SNull in
  let xi := mkInv 3 SNull SNull in
  let sub := subscription_of true 0%nat 0%nat in
  components st !! 0%nat = Some xc /\
  invalidators st !! 0%nat = Some xi /\
  contents st (slot_of sub xi) = Some [] /\
  contents st (cslot_of sub xc) = Some [] /\
  exists s st' xi' xc',
    subscribe_by true 0%nat 0%nat st = Done tt st' /\
    subs st' !! s = Some sub /\
    contents st' (slot_of sub xi') = Some [s] /\
    contents st' (cslot_of sub xc') = Some [s].
Proof.
  intros st xc xi sub.
  destruct (Component_subscribe_registers true st 0%nat 0%nat xc xi [] []
              eq_refl eq_refl eq_refl eq_refl)
    as (s & st' & xi' & xc' & Hrun & _ & Hs & _ & _ & _ & _ & Hci & Hcc & _).
  { intros a Ha. discriminate Ha. }
  split; [reflexivity |]. split; [reflexivity |]. split; [reflexivity |].
  split; [reflexivity |].
  exists s, st', xi', xc'. split; [exact Hrun |].
  split; [rewrite Hs; apply lookup_insert_eq |]. auto.
Defined.

(** X7 on a sample heap. *)
Lemma cancel_removes_both_ends_witness :
  let sub := mkSub 1 0%nat (Comp 0%nat) false in
  let xi := mkInv 0 (SArr 0%nat) (SOne 2%nat) in
  let xc := mkComp 10 0 withHooks None 0 (Some 5%nat) (SArr 1%nat)
                   (SOne 2%nat) in
  subs subscribedScenario !! 0%nat = Some sub /\
  invalidators subscribedScenario !! 0%nat = Some xi /\
  components subscribedScenario !! 0%nat = Some xc /\
  contents subscribedScenario (slot_of sub xi) = Some [0; 1]%nat /\
  contents subscribedScenario (cslot_of sub xc) = Some [0; 1]%nat /\
  removable 0%nat [0; 1]%nat = true /\
  exists st' xi' xc' li' lc',
    InvalidatorSubscription_cancel true 0%nat subscribedScenario
      = Done tt st' /\
    invalidators st' !! 0%nat = Some xi' /\
    components st' !! 0%nat = Some xc' /\
    contents st' (slot_of sub xi') = Some li' /\
    contents st' (cslot_of sub xc') = Some lc' /\
    (forall t, t ∈ li' <-> t ∈ [0; 1]%nat /\ t <> 0%nat) /\
    (forall t, t ∈ lc' <-> t ∈ [0; 1]%nat /\ t <> 0%nat).
Proof.
  intros sub xi xc.
  assert (NoDup [0; 1]%nat) as Hnd
    by (apply (bool_decide_unpack _); vm_compute; exact I).
  destruct (cancel_removes_both_ends true subscribedScenario 0%nat sub 0%nat
              xi xc [0; 1]%nat [0; 1]%nat eq_refl eq_refl eq_refl eq_refl
              eq_refl eq_refl eq_refl eq_refl Hnd Hnd eq_refl eq_refl)
    as (st' & sub' & xi' & xc' & li' & lc' & Hrun & _ & _ & Hi & Hc & Hli
        & Hlc & _ & _ & Hei & Hec & _).
  { intros a [= <-]. discriminate. }
  repeat (split; [reflexivity |]).
  exists st', xi', xc', li', lc'. auto 10.
Defined.

(** X10 on a sample heap. *)
Lemma Component_make_is_ready_witness :
  (0 : Z) = 0 /\
  - 2 ^ 31 <= @SHOULD_UPDATE_FLAGS sampleFlags < 2 ^ 31 /\
  exists c st',
    Component_make true withHooks None (emptyState 0) = Done c st' /\
    components st' !! c =
      Some (mkComp 14 0 withHooks None 0 None SNull SNull) /\
    trace st' = [EvHook 0%nat c].
Proof.
  assert (- 2 ^ 31 <= @SHOULD_UPDATE_FLAGS sampleFlags < 2 ^ 31) as Hm
    by (simpl; lia).
  destruct (Component_make_is_ready true (emptyState 0) withHooks None 0
              eq_refl Hm)
    as (c & st' & Hrun & _ & Hc & _ & Ht & _).
  split; [reflexivity |]. split; [exact Hm |].
  exists c, st'. split; [exact Hrun |].
  split; [rewrite Hc; apply lookup_insert_eq | exact Ht].
Defined.

(** X11 on a sample heap. *)
Lemma fresh_descriptor_has_no_hooks_witness :
  let st' := final (Component_make false (CDescriptor_new (Some 1)) None
                      (emptyState 0)) in
  - 2 ^ 31 <= @SHOULD_UPDATE_FLAGS sampleFlags < 2 ^ 31 /\
  Component_make false (CDescriptor_new (Some 1)) None (emptyState 0)
    = Done 0%nat st' /\
  trace st' = [] /\
  Component_update 0%nat st' = Thrown TypeError st'.
Proof.
  intros st'.
  assert (- 2 ^ 31 <= @SHOULD_UPDATE_FLAGS sampleFlags < 2 ^ 31) as Hm
    by (simpl; lia).
  assert (Component_make false (CDescriptor_new (Some 1)) None (emptyState 0)
          = Done 0%nat st') as Hrun by (vm_compute; reflexivity).
  destruct (fresh_descriptor_has_no_hooks false (emptyState 0) (Some 1) None
              0%nat st' Hm Hrun) as (_ & Ht & Hu).
  split; [exact Hm |]. split; [exact Hrun |]. split; [exact Ht | exact Hu].
Defined.

(** X12 on a sample heap. *)
Lemma Component_syncVRoot_installs_witness :
  let st := @run true sampleFlags [Call (CMount withUpdate None)]
              (emptyState 0) in
  let x := mkComp 14 0 withUpdate None 0 None SNull SNull in
  components st !! 0%nat = Some x /\
  exists st' x',
    Component_syncVRoot 0%nat 7%nat st =
      Done [VSetCref 7%nat 0%nat; VMount 7%nat 0%nat] st' /\
    components st' !! 0%nat = Some x' /\
    c_root x' = Some 7%nat /\
    has_flag (c_flags x') MOUNTING = false /\
    exists st'',
      Component_syncVRoot 0%nat 8%nat st' =
        Done [VSync 7%nat 8%nat 0%nat] st''.
Proof.
  intros st x.
  destruct (Component_syncVRoot_installs st 0%nat x 7%nat eq_refl)
    as (st' & x' & Hrun & Hst & Hr & Hm & _ & _ & _ & _ & _ & _ & _ & Hnext).
  split; [reflexivity |]. exists st', x'. split; [exact Hrun |].
  split; [rewrite Hst; apply lookup_insert_eq |]. split; [exact Hr |].
  split; [exact Hm |].
  destruct (Hnext 8%nat) as (st'' & H2 & _). exists st''. exact H2.
Defined.

(** X19 on a sample heap. *)
Lemma Component_dispose_frame_witness :
  let x := mkComp 10 0 withHooks None 0 (Some 5%nat) (SArr 1%nat)
                  (SOne 2%nat) in
  let st' := final (Component_dispose true 0%nat subscribedScenario) in
  components subscribedScenario !! 0%nat = Some x /\
  Component_dispose true 0%nat subscribedScenario = Done tt st' /\
  subs st' = subs subscribedScenario /\
  eachFrameSet st' = eachFrameSet subscribedScenario /\
  trace st' =
    trace subscribedScenario ++ [EvRootDispose 5%nat; EvHook 2%nat 0%nat].
Proof.
  intros x st'.
  assert (Component_dispose true 0%nat subscribedScenario = Done tt st')
    as Hrun by (vm_compute; reflexivity).
  destruct (Component_dispose_frame true subscribedScenario 0%nat x st'
              eq_refl Hrun)
    as (x' & _ & _ & _ & _ & _ & _ & _ & Ht & Hs & _ & _ & He).
  split; [reflexivity |]. split; [exact Hrun |]. split; [exact Hs |].
  split; [exact He | exact Ht].
Defined.

(** X20 on a sample heap. *)
Lemma Component_dispose_release_repeats_witness :
  let x := mkComp 10 0 withHooks None 0 (Some 5%nat) (SArr 1%nat)
                  (SOne 2%nat) in
  let st1 := final (Component_dispose false 0%nat subscribedScenario) in
  components subscribedScenario !! 0%nat = Some x /\
  Component_dispose false 0%nat subscribedScenario = Done tt st1 /\
  exists st2,
    Component_dispose false 0%nat st1 = Done tt st2 /\
    trace st2 =
      trace subscribedScenario ++
      [EvRootDispose 5%nat; EvHook 2%nat 0%nat] ++
      [EvRootDispose 5%nat; EvHook 2%nat 0%nat].
Proof.
  intros x st1.
  assert (Component_dispose false 0%nat subscribedScenario = Done tt st1)
    as Hrun by (vm_compute; reflexivity).
  destruct (Component_dispose_release_repeats subscribedScenario 0%nat x st1
              eq_refl Hrun) as (st2 & H2 & Ht).
  split; [reflexivity |]. split; [exact Hrun |].
  exists st2. split; [exact H2 | exact Ht].
Defined.

(** X13 on a sample heap. *)
Lemma startUpdateEachFrame_registers_once_witness :
  let x := mkComp 10 0 withUpdate None 0 None SNull SNull in
  components createdScenario !! 0%nat = Some x /\
  exists st1,
    Component_startUpdateEachFrame 0%nat createdScenario = Done tt st1 /\
    eachFrameSet st1 = [0%nat] /\
    Component_startUpdateEachFrame 0%nat st1 = Done tt st1.
Proof.
  intros x.
  destruct (startUpdateEachFrame_registers_once createdScenario 0%nat x
              eq_refl)
    as (st1 & x1 & Hrun & _ & _ & _ & _ & He & _ & _ & Hagain).
  split; [reflexivity |]. exists st1. split; [exact Hrun |].
  split; [exact He | exact Hagain].
Defined.

Lemma transientScenario_registered :
  forall s, s ∈ [0%nat] -> registered transientScenario s.
Proof.
  intros s ->%list_elem_of_singleton.
  exists (mkSub 3 0%nat (Comp 0%nat) false), (mkInv 0 SNull (SOne 0%nat)),
    [0%nat].
  repeat split; try reflexivity. apply list_elem_of_singleton. reflexivity.
Qed.

(** X15 on a sample heap. *)
Lemma Component_invalidate_marks_witness :
  let x := mkComp 2 0 withUpdate None 0 None SNull (SOne 0%nat) in
  components transientScenario !! 0%nat = Some x /\
  isDirty x = false /\ isDisposed x = false /\
  contents transientScenario (c_transientSubscriptions x) = Some [0%nat] /\
  unshared transientScenario (c_transientSubscriptions x) /\
  NoDup [0%nat] /\
  (forall s, s ∈ [0%nat] -> registered transientScenario s) /\
  exists st' x',
    Component_invalidate true 0%nat transientScenario = Done tt st' /\
    components st' !! 0%nat = Some x' /\
    isDirty x' = true /\
    c_transientSubscriptions x' = SNull /\
    nextFrameQueue st' = [0%nat].
Proof.
  intros x.
  assert (NoDup [0%nat]) as Hnd by apply NoDup_singleton.
  assert (isDirty x = false) as Hd0 by reflexivity.
  assert (isDisposed x = false) as Hp0 by reflexivity.
  destruct (Component_invalidate_marks true transientScenario 0%nat x
              [0%nat] eq_refl Hd0 Hp0 eq_refl I Hnd
              transientScenario_registered)
    as (st' & x' & Hrun & Hc & Hd & _ & Ht & _ & Hq & _).
  repeat (split; [first [reflexivity | exact I | exact Hnd
                        | exact transientScenario_registered] |]).
  exists st', x'. split; [exact Hrun |].
  split; [rewrite Hc; apply lookup_insert_eq |]. auto.
Defined.

(** X22 on a sample heap. *)
Lemma disposed_never_updates_witness :
  let x := mkComp 10 0 withHooks None 0 (Some 5%nat) (SArr 1%nat)
                  (SOne 2%nat) in
  let st1 := final (Component_dispose true 0%nat subscribedScenario) in
  let st2 := run_ops true [OCall (CComponentInvalidate 0%nat); OTick 4] st1 in
  has_flag (@SHOULD_UPDATE_FLAGS sampleFlags) (@ATTACHED sampleFlags) = true /\
  components subscribedScenario !! 0%nat = Some x /\
  Component_dispose true 0%nat subscribedScenario = Done tt st1 /\
  Component_update 0%nat st2 = Done tt st2.
Proof.
  intros x st1 st2.
  assert (Component_dispose true 0%nat subscribedScenario = Done tt st1)
    as Hrun by (vm_compute; reflexivity).
  assert (has_flag (@SHOULD_UPDATE_FLAGS sampleFlags) (@ATTACHED sampleFlags)
          = true) as Hmask by reflexivity.
  split; [exact Hmask |]. split; [reflexivity |]. split; [exact Hrun |].
  apply (disposed_never_updates true subscribedScenario 0%nat x st1
           [OCall (CComponentInvalidate 0%nat); OTick 4] Hmask eq_refl Hrun).
Defined.

Lemma quietScenario_quiet :
  forall s, s ∈ [0; 1]%nat ++ [2%nat] -> quiet quietScenario s = true.
Proof.
  intros s Hs. simpl in Hs. rewrite !elem_of_cons, elem_of_nil in Hs.
  destruct Hs as [-> | [-> | [-> | []]]]; reflexivity.
Qed.

(** X16 on a sample heap. *)
Lemma wave_batches_components_witness :
  let x := mkInv 0 (SArr 0%nat) (SOne 2%nat) in
  invalidators quietScenario !! 0%nat = Some x /\
  i_mtime x < clock quietScenario /\
  contents quietScenario (i_subscriptions x) = Some [0; 1]%nat /\
  contents quietScenario (i_transientSubscriptions x) = Some [2%nat] /\
  (forall s, s ∈ [0; 1]%nat ++ [2%nat] -> quiet quietScenario s = true) /\
  targets quietScenario ([0; 1]%nat ++ [2%nat]) = [0%nat] /\
  clean quietScenario 0%nat = true /\
  exists st' news,
    Invalidator_invalidate true 0%nat quietScenario = Done tt st' /\
    nextFrameQueue st' = nextFrameQueue quietScenario ++ news /\
    NoDup news /\ 0%nat ∈ news.
Proof.
  intros x.
  assert (i_mtime x < clock quietScenario) as Hlt by reflexivity.
  destruct (wave_batches_components true quietScenario 0%nat x [0; 1]%nat
              [2%nat] eq_refl Hlt eq_refl eq_refl quietScenario_quiet)
    as (st' & news & Hrun & Hq & Hnd & Hin & _).
  split; [reflexivity |]. split; [exact Hlt |]. split; [reflexivity |].
  split; [reflexivity |]. split; [exact quietScenario_quiet |].
  split; [reflexivity |]. split; [reflexivity |].
  exists st', news. split; [exact Hrun |]. split; [exact Hq |].
  split; [exact Hnd |]. apply Hin. split; [| reflexivity].
  apply list_elem_of_singleton. reflexivity.
Defined.

(** X9 on a sample heap. *)
Lemma Component_cancelSubscriptions_drops_witness :
  let x := mkComp 10 0 withHooks None 0 (Some 5%nat) (SArr 1%nat)
                  (SOne 2%nat) in
  components subscribedScenario !! 0%nat = Some x /\
  contents subscribedScenario (set_by false x) = Some [0; 1]%nat /\
  exists st',
    cancel_set_by true false 0%nat subscribedScenario = Done tt st' /\
    components st' !! 0%nat =
      Some (mkComp 10 0 withHooks None 0 (Some 5%nat) SNull (SOne 2%nat)) /\
    cancel_set_by true false 0%nat st' = Done tt st'.
Proof.
  intros x.
  destruct subscribedScenario_mirrored
    as (ld & lt & Hld & Hlt & Hnd & Hreg & Hu & _).
  assert (ld = [0; 1]%nat) as ->
    by (vm_compute in Hld; injection Hld as <-; reflexivity).
  destruct (Component_cancelSubscriptions_drops true false subscribedScenario
              0%nat x [0; 1]%nat eq_refl eq_refl Hu)
    as (st' & Hrun & Hc & _ & _ & _ & _ & _ & _ & _ & _ & Hagain).
  { apply NoDup_app in Hnd as [Hnd _]. exact Hnd. }
  { intros s Hs. apply Hreg. apply elem_of_app. left. exact Hs. }
  split; [reflexivity |]. split; [reflexivity |].
  exists st'. split; [exact Hrun |].
  split; [rewrite Hc; apply lookup_insert_eq | exact Hagain].
Defined.
